(** * ReliefWeb / Trello connectors: a shallow embedding of the reconcilers

    The three board managers of the repository (src/disasters.js, the topics
    manager and the countries manager) pull entities from the ReliefWeb API,
    read a Trello board and bring the board's cards in line with the
    entities.  This development embeds the reconciliation code: the entity
    preparation (truncation, sorting), the card parsing, the label and
    checklist diffs, the card update / create / archive steps and the date
    helper they rely on.

    JavaScript data is modelled as the code has it:
    - a string is the list of its UTF-16 code units;
    - a [Map] is an association list in insertion order;
    - a number that the code only ever uses at integral values is a [Z],
      a Trello card position (a float) is a rational;
    - an asynchronous function that talks to Trello is a computation that
      threads the remote board and records every request it sends. *)

From Stdlib Require Import ZArith QArith List Bool String Ascii Lia.
From Stdlib Require Import DecimalZ DecimalPos Sorted.
From Stdlib Require Permutation.
Import ListNotations.

Set Implicit Arguments.
Open Scope Z_scope.

(** ** JavaScript strings and arrays *)

Module Js.

(** A UTF-16 code unit. *)
Definition char := N.

(** A JavaScript string. *)
Definition str := list char.

(** The string written as an ASCII literal. *)
Definition lit (s : string) : str :=
  List.map N_of_ascii (list_ascii_of_string s).

(** The line feed, written [\n] in the source. *)
Definition LF : char := 10%N.

Fixpoint eqb (a b : str) : bool :=
  match a, b with
  | [], [] => true
  | x :: a', y :: b' => N.eqb x y && eqb a' b'
  | _, _ => false
  end.

(** [s] used as a condition: the empty string is falsy. *)
Definition truthy (s : str) : bool :=
  match s with [] => false | _ => true end.

(** [a || b] on strings. *)
Definition or_else (a b : str) : str := if truthy a then a else b.

(** Relative index of [slice]: negative counts from the end, the result is
    clamped to [0, len]. *)
Definition rel_index (len : nat) (k : Z) : nat :=
  if k <? 0 then Z.to_nat (Z.max (Z.of_nat len + k) 0)
  else Nat.min (Z.to_nat k) len.

(** [Array.prototype.slice(a, b)] and [String.prototype.slice(a, b)];
    [b = None] is the one-argument form. *)
Definition slice {A} (l : list A) (a : Z) (b : option Z) : list A :=
  let len := List.length l in
  let from := rel_index len a in
  let to := match b with Some b => rel_index len b | None => len end in
  List.firstn (to - from) (List.skipn from l).

(** [String.prototype.substring(a, b)]: both indices are clamped to
    [0, len] and swapped when [a > b]. *)
Definition substring (s : str) (a : Z) (b : option Z) : str :=
  let len := Z.of_nat (List.length s) in
  let clamp k := Z.min (Z.max k 0) len in
  let a := clamp a in
  let b := match b with Some b => clamp b | None => len end in
  let from := Z.to_nat (Z.min a b) in
  let to := Z.to_nat (Z.max a b) in
  List.firstn (to - from) (List.skipn from s).

(** [needle] is a prefix of [s]. *)
Fixpoint starts_with (needle s : str) : bool :=
  match needle, s with
  | [], _ => true
  | x :: n', y :: s' => N.eqb x y && starts_with n' s'
  | _ :: _, [] => false
  end.

(** Index of the first occurrence of [needle] in [s] at or after offset
    [i] (the offset of [s] itself), [-1] when there is none. *)
Fixpoint indexOf_from (needle s : str) (i : Z) : Z :=
  if starts_with needle s then i
  else match s with
       | [] => -1
       | _ :: s' => indexOf_from needle s' (i + 1)
       end.

(** [String.prototype.indexOf(needle)]. *)
Definition indexOf (s needle : str) : Z := indexOf_from needle s 0.

(** Index of the last occurrence of [needle] in [s], counted from offset
    [i], [-1] when there is none. *)
Fixpoint lastIndexOf_from (needle s : str) (i : Z) : Z :=
  match s with
  | [] => if starts_with needle s then i else -1
  | _ :: s' =>
      let later := lastIndexOf_from needle s' (i + 1) in
      if later =? -1 then (if starts_with needle s then i else -1) else later
  end.

(** [String.prototype.lastIndexOf(needle)]. *)
Definition lastIndexOf (s needle : str) : Z := lastIndexOf_from needle s 0.

(** [Array.prototype.join(sep)] on an array of strings. *)
Fixpoint join (sep : str) (l : list str) : str :=
  match l with
  | [] => []
  | [x] => x
  | x :: rest => x ++ sep ++ join sep rest
  end.

(** The code units [String.prototype.trim] strips: WhiteSpace and
    LineTerminator of ECMA-262. *)
Definition is_space (c : char) : bool :=
  let c := Z.of_N c in
  ((9 <=? c) && (c <=? 13)) || (c =? 32) || (c =? 160) || (c =? 5760)
  || ((8192 <=? c) && (c <=? 8202)) || (c =? 8232) || (c =? 8233)
  || (c =? 8239) || (c =? 8287) || (c =? 12288) || (c =? 65279).

Fixpoint trimStart (s : str) : str :=
  match s with
  | c :: s' => if is_space c then trimStart s' else s
  | [] => []
  end.

Definition trimEnd (s : str) : str := List.rev (trimStart (List.rev s)).

(** [String.prototype.trim]. *)
Definition trim (s : str) : str := trimEnd (trimStart s).

(** [s.split(/\n{2,}/)]: the pieces of [s] between the maximal runs of two
    or more line feeds.  [cur] is the piece being read, in reverse;
    [inRun] says that the previous code unit ended a separator that may
    still grow. *)
Fixpoint split_blank (inRun : bool) (cur : str) (s : str) : list str :=
  match s with
  | [] => [List.rev cur]
  | c :: rest =>
      if N.eqb c LF then
        if inRun then split_blank true cur rest
        else match rest with
             | c' :: rest' =>
                 if N.eqb c' LF
                 then List.rev cur :: split_blank true [] rest'
                 else split_blank false (c :: cur) rest
             | [] => split_blank false (c :: cur) rest
             end
      else split_blank false (c :: cur) rest
  end.

Definition split_paragraphs (s : str) : list str := split_blank false [] s.

(** [s.split(sep)] for a non-empty separator string: the pieces between
    the occurrences of [sep], found left to right without overlap.
    [skip] counts code units of a separator still to be dropped. *)
Fixpoint split_on (sep : str) (skip : nat) (cur : str) (s : str) : list str :=
  match s with
  | [] => [List.rev cur]
  | c :: rest =>
      match skip with
      | S k => split_on sep k cur rest
      | O =>
          if starts_with sep s
          then match List.length sep with
               | S k => List.rev cur :: split_on sep k [] rest
               | O => split_on sep 0 (c :: cur) rest
               end
          else split_on sep 0 (c :: cur) rest
      end
  end.

Definition split (s sep : str) : list str := split_on sep 0 [] s.

(** [s.replace(/^https:/, 'http:')]. *)
Definition https_to_http (s : str) : str :=
  if starts_with (lit "https:") s
  then lit "http:" ++ List.skipn 6 s
  else s.

Definition is_digit (c : char) : bool :=
  let c := Z.of_N c in (48 <=? c) && (c <=? 57).

(** The regular expression [/^https?:\/\/reliefweb\.int<path>\d+$/], where
    [path] is [/taxonomy/term/] or [/node/]. *)
Definition test_reliefweb_url (path : str) (s : str) : bool :=
  let after_scheme :=
    if starts_with (lit "https://") s then Some (List.skipn 8 s)
    else if starts_with (lit "http://") s then Some (List.skipn 7 s)
    else None in
  match after_scheme with
  | None => false
  | Some r =>
      let prefix := lit "reliefweb.int" ++ path in
      starts_with prefix r &&
      (let digits := List.skipn (List.length prefix) r in
       truthy digits && List.forallb is_digit digits)
  end.

(** A JavaScript value, for the places where the code stores either a
    number or a string (or leaves a property undefined). *)
Inductive value :=
| VUndefined
| VNum (z : Z)
| VStr (s : str).

End Js.

(** ** JavaScript Map *)

Module JsMap.
Import Js.

(** A [Map] with string keys: its entries in insertion order, no key
    twice. *)
Definition t (V : Type) := list (str * V).

Definition empty {V} : t V := [].

Fixpoint get {V} (m : t V) (k : str) : option V :=
  match m with
  | [] => None
  | (k', v) :: m' => if eqb k' k then Some v else get m' k
  end.

Definition has {V} (m : t V) (k : str) : bool :=
  match get m k with Some _ => true | None => false end.

(** [m.set(k, v)]: an existing key keeps its place, a new one goes last. *)
Fixpoint set {V} (m : t V) (k : str) (v : V) : t V :=
  match m with
  | [] => [(k, v)]
  | (k', v') :: m' =>
      if eqb k' k then (k', v) :: m' else (k', v') :: set m' k v
  end.

Fixpoint delete {V} (m : t V) (k : str) : t V :=
  match m with
  | [] => []
  | (k', v') :: m' => if eqb k' k then m' else (k', v') :: delete m' k
  end.

Definition size {V} (m : t V) : nat := List.length m.

Definition keys {V} (m : t V) : list str := List.map fst m.

Definition values {V} (m : t V) : list V := List.map snd m.

(** [new Map(entries)]. *)
Definition of_list {V} (entries : list (str * V)) : t V :=
  List.fold_left (fun m e => set m (fst e) (snd e)) entries empty.

End JsMap.

(** ** Numbers *)

Module JsNumber.
Import Js.

(** The numbers the date helper computes: an integer or [NaN]. *)
Inductive num :=
| NaN
| Int (z : Z).

Fixpoint digits (u : Decimal.uint) : str :=
  match u with
  | Decimal.Nil => []
  | Decimal.D0 u => 48%N :: digits u
  | Decimal.D1 u => 49%N :: digits u
  | Decimal.D2 u => 50%N :: digits u
  | Decimal.D3 u => 51%N :: digits u
  | Decimal.D4 u => 52%N :: digits u
  | Decimal.D5 u => 53%N :: digits u
  | Decimal.D6 u => 54%N :: digits u
  | Decimal.D7 u => 55%N :: digits u
  | Decimal.D8 u => 56%N :: digits u
  | Decimal.D9 u => 57%N :: digits u
  end.

(** The decimal numeral of an integer, as [String(z)] and [z.toFixed()]
    print it (below 10^21 in absolute value, where no exponent is used). *)
Definition numeral (z : Z) : str :=
  match Z.to_int z with
  | Decimal.Pos u => digits u
  | Decimal.Neg u => 45%N :: digits u
  end.

(** [Number.prototype.toFixed()] with no argument. *)
Definition toFixed (n : num) : str :=
  match n with
  | NaN => lit "NaN"
  | Int z => numeral z
  end.

Fixpoint read_digits (s : str) : option Decimal.uint :=
  match s with
  | [] => Some Decimal.Nil
  | c :: s' =>
      match read_digits s' with
      | None => None
      | Some u =>
          match c with
          | 48%N => Some (Decimal.D0 u)
          | 49%N => Some (Decimal.D1 u)
          | 50%N => Some (Decimal.D2 u)
          | 51%N => Some (Decimal.D3 u)
          | 52%N => Some (Decimal.D4 u)
          | 53%N => Some (Decimal.D5 u)
          | 54%N => Some (Decimal.D6 u)
          | 55%N => Some (Decimal.D7 u)
          | 56%N => Some (Decimal.D8 u)
          | 57%N => Some (Decimal.D9 u)
          | _ => None
          end
      end
  end.

(** The number a string converts to when it is compared with a number
    (StringToNumber of ECMA-262), on the strings this embedding needs: the
    empty string, a signed decimal integer, and [NaN].  [None] stands for
    the other literal forms (fractions, exponents, hexadecimal, Infinity)
    and for every other text; none of them is ever compared in the code
    embedded here, see [toNumber_toFixed]. *)
Definition toNumber (s : str) : option num :=
  match trim s with
  | [] => Some (Int 0)
  | c :: r =>
      if eqb (c :: r) (lit "NaN") then Some NaN
      else if N.eqb c 45 then
        match r, read_digits r with
        | _ :: _, Some u => Some (Int (- Z.of_uint u))
        | _, _ => None
        end
      else if N.eqb c 43 then
        match r, read_digits r with
        | _ :: _, Some u => Some (Int (Z.of_uint u))
        | _, _ => None
        end
      else
        match read_digits (c :: r) with
        | Some u => Some (Int (Z.of_uint u))
        | None => None
        end
  end.

(** [s > k] for a string [s] and a number [k]: the string is converted to
    a number; a comparison with [NaN] is false. *)
Definition str_gt (s : str) (k : Z) : bool :=
  match toNumber s with
  | Some (Int z) => k <? z
  | _ => false
  end.

(** [v > k] for a property that holds a number, a string or nothing. *)
Definition value_gt (v : value) (k : Z) : bool :=
  match v with
  | VUndefined => false
  | VNum z => k <? z
  | VStr s => str_gt s k
  end.

(** [Number(parseFloat(x).toFixed())] for a finite number [x]: [x]
    rounded to the nearest integer, a tie going away from zero. *)
Definition round_toFixed (x : Q) : Z :=
  let n := Qnum x in
  let d := Z.pos (Qden x) in
  if 0 <=? n then (2 * n + d) / (2 * d)
  else - ((2 * (- n) + d) / (2 * d)).

End JsNumber.

(** ** The date wrapper (libs/date.js) *)

Module DateWrapper.
Import Js JsNumber.

Section Wrapper.

(** [this.dateObject.valueOf()]: the time value of the wrapped date, in
    milliseconds.  The managers wrap the time of the run. *)
Variable now : Z.

(** [new Date(s).valueOf()] for a string [s]; [None] is [NaN], the time
    value of an invalid date. *)
Variable Date_parse : str -> option Z.

(** [Math.round(ms / 1000)]: [Math.round] rounds a tie upwards. *)
Definition unix_of (ms : option Z) : num :=
  match ms with
  | Some m => Int ((m + 500) / 1000)
  | None => NaN
  end.

Definition unix : num := unix_of (Some now).

(** The time value of [this.clone(date)]: [date || this.dateObject] is
    handed to [new Date]. *)
Definition clone (date : option str) : option Z :=
  match date with
  | Some s => if truthy s then Date_parse s else Some now
  | None => Some now
  end.

(** [Math.round((a - b) / 86400)]. *)
Definition round_days (a b : num) : num :=
  match a, b with
  | Int a, Int b => Int ((a - b + 43200) / 86400)
  | _, _ => NaN
  end.

Definition diffDays (date : option str) : str :=
  toFixed (round_days unix (unix_of (clone date))).

End Wrapper.

End DateWrapper.

(** ** Trello data and requests *)

Module Trello.
Import Js.

Module Label.
Record t := { id : str; name : str }.
End Label.

Module BoardList.
Record t := { id : str; name : str }.
End BoardList.

Module CheckItem.
Record t := { id : str; name : str; pos : Q }.
End CheckItem.

Module Checklist.
Record t := { id : str; name : str; checkItems : list CheckItem.t }.
End Checklist.

(** A card as the board request returns it.  [attachments] holds the
    attachment URLs and [checklists] the checklists, when the request asked
    for them. *)
Module Card.
Record t := {
  id : str;
  name : str;
  labels : list Label.t;
  idList : str;
  desc : str;
  closed : bool;
  pos : Q;
  attachments : option (list str);
  checklists : option (list Checklist.t)
}.
End Card.

(** The body of [POST /cards]. *)
Module NewCard.
Record t := {
  idList : str;
  urlSource : str;
  name : str;
  desc : str;
  pos : Z;
  idLabels : str
}.
End NewCard.

(** The requests the managers send while they update a board.  Each
    constructor is one endpoint; its arguments are the path parameters and
    the body. *)
Inductive request :=
| PUT_card (card : str) (data : JsMap.t value)
| DELETE_card_idLabel (card label : str)
| POST_card_idLabels (card value : str)
| POST_cards (data : NewCard.t)
| POST_card_attachments (card url : str)
| POST_card_checklists (card name : str)
| POST_checklist_checkItems (checklist name : str) (pos : Z)
| PUT_card_checkItem (card checklist item name : str) (pos : Z)
| DELETE_checklist_checkItem (checklist item : str).

(** The body of the request that archives a card. *)
Definition archive_data : JsMap.t value :=
  [(lit "closed", VStr (lit "true"))].

Definition is_archive (q : request) : bool :=
  match q with
  | PUT_card _ [(k, VStr v)] => eqb k (lit "closed") && eqb v (lit "true")
  | _ => false
  end.

Definition is_PUT_card (q : request) : bool :=
  match q with PUT_card _ _ => true | _ => false end.

Definition is_POST_cards (q : request) : bool :=
  match q with POST_cards _ => true | _ => false end.

Definition is_POST_card_attachments (q : request) : bool :=
  match q with POST_card_attachments _ _ => true | _ => false end.

End Trello.

(** ** Asynchronous code that talks to Trello

    [TrelloClient.fetch] either returns the JSON of the response or throws.
    The managers read one thing from a response: the [id] of the object
    that was created.  An [async] function is a computation over the
    remote side ([World]); running it yields its result ([None] when an
    exception was not caught and unwinds to [process]), the requests it
    sent, in order, and the remote side afterwards. *)

Module Async.
Import Js Trello.

Section Client.

Variable World : Type.

(** One request against the remote side: the [id] in the response, or
    [None] when the client throws. *)
Variable send : request -> World -> option str * World.

Record outcome (A : Type) := Outcome {
  result : option A;
  sent : list request;
  after : World
}.

Definition M (A : Type) := World -> outcome A.

Definition ret {A} (x : A) : M A := fun w => Outcome (Some x) [] w.

Definition bind {A B} (m : M A) (f : A -> M B) : M B :=
  fun w =>
    let r := m w in
    match result r with
    | None => Outcome None (sent r) (after r)
    | Some x =>
        let r' := f x (after r) in
        Outcome (result r') (sent r ++ sent r') (after r')
    end.

(** An exception that no [try] of the manager catches. *)
Definition throw {A} : M A := fun w => Outcome None [] w.

(** [await this.trelloClient.<method>(...)] inside a [try]: the value says
    whether the [catch] branch is taken ([None]). *)
Definition await (q : request) : M (option str) :=
  fun w => let (r, w') := send q w in Outcome (Some r) [q] w'.

(** A [for ... of] loop that carries the variables [s]. *)
Fixpoint for_of {A S} (l : list A) (s : S) (body : S -> A -> M S) : M S :=
  match l with
  | [] => ret s
  | x :: l' => bind (body s x) (fun s' => for_of l' s' body)
  end.

End Client.

Arguments ret {World A} x.
Arguments throw {World A}.
Arguments result {World A} o.
Arguments sent {World A} o.
Arguments after {World A} o.

Declare Scope async_scope.
Delimit Scope async_scope with async.

Notation "x <- m ;; k" := (bind m (fun x => k))
  (at level 61, m at next level, right associativity) : async_scope.
Notation "' p <- m ;; k" := (bind m (fun x => let p := x in k))
  (at level 61, p pattern, m at next level, right associativity) : async_scope.

End Async.

(** ** Array.prototype.sort *)

Module JsArray.

(** [Array.prototype.sort(compare)].  The sort is stable (ECMAScript 2019);
    for a comparator that orders the elements consistently the result is
    the one stable arrangement, computed here by insertion from the right. *)
Fixpoint insert {A} (compare : A -> A -> Z) (x : A) (l : list A) : list A :=
  match l with
  | [] => [x]
  | y :: l' => if compare x y <=? 0 then x :: l else y :: insert compare x l'
  end.

Definition sort {A} (compare : A -> A -> Z) (l : list A) : list A :=
  List.fold_right (insert compare) [] l.

End JsArray.

(** ** The disaster board manager (src/disasters.js) *)

Module Disasters.
Import Js JsNumber Trello Async.
Local Open Scope async_scope.

(** A disaster as the ReliefWeb API returns it ([item.fields]).  [type]
    and [country] hold the [name] of each term; [overview] is
    [profile.overview], absent when the disaster has no profile or the
    profile no overview. *)
Module Fields.
Record t := {
  id : Z;
  url : str;
  name : str;
  glide : option str;
  status : str;
  overview : option str;
  type : list str;
  country : list str
}.
End Fields.

(** A disaster after [prepareDisaster].  [pos] is the property that
    [sortDisasters] reads: the API is not asked for it and nothing sets it,
    so it is undefined ([None]) on every prepared disaster. *)
Module Disaster.
Record t := {
  id : Z;
  url : str;
  name : str;
  glide : str;
  status : str;
  overview : str;
  type : list str;
  country : list str;
  statusPosition : Z;
  pos : option Z;
  lastReport : value
}.
End Disaster.

(** A card after [prepareCard]: the sections read from its description. *)
Module PCard.
Record t := {
  card : Card.t;
  profileUpdate : option str;
  profile : option str;
  glide : option str
}.
End PCard.

Definition maxIndex : Z := 10000000.
Definition urlPattern (s : str) : bool :=
  test_reliefweb_url (lit "/taxonomy/term/") s.
Definition profileUpdateHeader : str := lit "# Last Profile Update" ++ [LF; LF].
Definition profileHeader : str := [LF; LF] ++ lit "# Profile" ++ [LF; LF].
Definition glideHeader : str := [LF; LF] ++ lit "# Glide Number" ++ [LF; LF].

Definition profileUpdateOlderThan3Weeks : str := lit "Profile Update > 3 Weeks".
Definition profileUpdateOlderThan2Weeks : str := lit "Profile Update > 2 Weeks".
Definition profileUpdateOlderThan1Week : str := lit "Profile Update > 1 Weeks".

Definition lastReportOlderThan2Months : str := lit "Last Report > 2 Months".
Definition lastReportOlderThan1Month : str := lit "Last Report > 1 Month".
Definition lastReportOlderThan1Week : str := lit "Last Report > 1 Week".

(** The overview of [prepareDisaster]: cut when it has more than three
    paragraphs. *)
Definition prepareOverview (overview : option str) (url : str) : str :=
  match overview with
  | Some overview =>
      if truthy overview then
        let paragraphs := split_paragraphs overview in
        if (3 <? List.length paragraphs)%nat then
          let paragraphs :=
            paragraphs ++ [lit "[Read full description](" ++ url ++ lit ")"] in
          lit "..." ++ [LF; LF] ++ trim (join [LF; LF] (slice paragraphs (-4) None))
        else overview
      else []
  | None => []
  end.

Section Manager.

(** [this.statusPositions]: the position of each configured status list. *)
Variable statusPositions : JsMap.t Z.

Definition prepareDisaster (disaster : Fields.t) : Disaster.t :=
  {| Disaster.id := Fields.id disaster;
     Disaster.url := https_to_http (Fields.url disaster);
     Disaster.name := Fields.name disaster;
     Disaster.glide :=
       match Fields.glide disaster with Some g => g | None => [] end;
     Disaster.status := Fields.status disaster;
     Disaster.overview :=
       prepareOverview (Fields.overview disaster) (Fields.url disaster);
     Disaster.type := Fields.type disaster;
     Disaster.country := Fields.country disaster;
     Disaster.statusPosition :=
       match JsMap.get statusPositions (Fields.status disaster) with
       | Some p => p
       | None => 0
       end;
     Disaster.pos := None;
     Disaster.lastReport := VUndefined |}.

(** [a.pos === b.pos] and [a.pos < b.pos] on a property that may be
    undefined: undefined equals undefined and is below nothing. *)
Definition pos_eq (a b : option Z) : bool :=
  match a, b with
  | None, None => true
  | Some x, Some y => x =? y
  | _, _ => false
  end.

Definition pos_lt (a b : option Z) : bool :=
  match a, b with
  | Some x, Some y => x <? y
  | _, _ => false
  end.

(** The comparator of [sortDisasters]. *)
Definition compare (a b : Disaster.t) : Z :=
  if pos_eq (Disaster.pos a) (Disaster.pos b) then
    if Disaster.id a <? Disaster.id b then 1
    else if Disaster.id a >? Disaster.id b then -1
    else 0
  else if pos_lt (Disaster.pos a) (Disaster.pos b) then -1
  else 1.

Definition sortDisasters (disasters : list Disaster.t) : list Disaster.t :=
  JsArray.sort compare disasters.

(** [this.date]: the time of the run and the date parser. *)
Variable now : Z.
Variable Date_parse : str -> option Z.

(** [this.currentDate]: the time of the run printed as [D MMM YYYY]. *)
Variable currentDate : str.

Definition diffDays := DateWrapper.diffDays now Date_parse.

(** The value [getExtraDisasterData] gives to [lastReport] when the day
    facet of the disaster has data; [value] is [facetDay.data[0].value]. *)
Definition lastReportOfDay (value : str) : Js.value :=
  let days := diffDays (Some value) in
  if str_gt days 60 then VNum 61
  else if str_gt days 30 then VNum 31
  else if str_gt days 7 then VNum 8
  else VStr days.

(** The update of one disaster in the loop of [getExtraDisasterData];
    [facetDay] and [facetYear] are the [data] of the two facets, each
    bucket given by its [value]. *)
Definition withLastReport (disaster : Disaster.t)
    (facetDay : list str) (facetYear : option (list str)) : Disaster.t :=
  let set v :=
    {| Disaster.id := Disaster.id disaster;
       Disaster.url := Disaster.url disaster;
       Disaster.name := Disaster.name disaster;
       Disaster.glide := Disaster.glide disaster;
       Disaster.status := Disaster.status disaster;
       Disaster.overview := Disaster.overview disaster;
       Disaster.type := Disaster.type disaster;
       Disaster.country := Disaster.country disaster;
       Disaster.statusPosition := Disaster.statusPosition disaster;
       Disaster.pos := Disaster.pos disaster;
       Disaster.lastReport := v |} in
  match facetDay with
  | value :: _ => set (lastReportOfDay value)
  | [] =>
      match facetYear with
      | Some (_ :: _) => set (VNum 61)
      | _ => disaster
      end
  end.

(** [disasterMap.get(id)] followed by an update of that disaster: the map
    holds, for a key, the last disaster that was set under it. *)
Fixpoint update_last (disasters : list Disaster.t) (key : str)
    (f : Disaster.t -> Disaster.t) : list Disaster.t :=
  match disasters with
  | [] => []
  | d :: rest =>
      if List.existsb (fun d' => eqb (numeral (Disaster.id d')) key) rest
      then d :: update_last rest key f
      else if eqb (numeral (Disaster.id d)) key then f d :: rest
      else d :: rest
  end.

(** The loop of [getExtraDisasterData] over the facets of the response
    ([data.embedded.facets], its properties in order). *)
Definition getExtraDisasterData (disasters : list Disaster.t)
    (results : JsMap.t (list str)) : list Disaster.t :=
  List.fold_left
    (fun disasters key =>
       if negb (indexOf key (lit "-day") =? -1) then
         let id := slice key 0 (Some (-4)) in
         match JsMap.get results key with
         | Some facetDay =>
             update_last disasters id
               (fun disaster =>
                  withLastReport disaster facetDay
                    (JsMap.get results (id ++ lit "-year")))
         | None => disasters
         end
       else disasters)
    (JsMap.keys results) disasters.

(** [this.lists] and [this.labels], as [prepareLists] and [prepareLabels]
    leave them: the list of each status and the label of each managed
    name. *)
Variable lists : JsMap.t BoardList.t.
Variable labels : JsMap.t Label.t.

Definition prepareCard (card : Card.t) : PCard.t :=
  let unread := PCard.Build_t card None None None in
  if negb (eqb (Card.desc card) []) then
    let i1 := lastIndexOf (Card.desc card) profileUpdateHeader in
    let i2 := lastIndexOf (Card.desc card) profileHeader in
    let i3 := lastIndexOf (Card.desc card) glideHeader in
    let l1 := Z.of_nat (List.length profileUpdateHeader) in
    let l2 := Z.of_nat (List.length profileHeader) in
    let l3 := Z.of_nat (List.length glideHeader) in
    if negb (i1 =? -1) && negb (i2 =? -1) && negb (i3 =? -1) then
      {| PCard.card := card;
         PCard.profileUpdate := Some (substring (Card.desc card) (i1 + l1) (Some i2));
         PCard.profile := Some (substring (Card.desc card) (i2 + l2) (Some i3));
         PCard.glide := Some (substring (Card.desc card) (i3 + l3) None) |}
    else unread
  else unread.

(** [labels.set(label.name, label.id)] for the label stored under [key],
    when there is one. *)
Definition set_label (m : JsMap.t str) (key : str) : JsMap.t str :=
  match JsMap.get labels key with
  | Some label => JsMap.set m (Label.name label) (Label.id label)
  | None => m
  end.

(** [labels.set(item.name, label.id)] for a term of the entity. *)
Definition set_term (m : JsMap.t str) (item : str) : JsMap.t str :=
  match JsMap.get labels item with
  | Some label => JsMap.set m item (Label.id label)
  | None => m
  end.

Definition getDisasterLabels (disaster : Disaster.t) : JsMap.t str :=
  let m := JsMap.empty in
  let m := List.fold_left set_term (Disaster.type disaster) m in
  let m := List.fold_left set_term (Disaster.country disaster) m in
  if value_gt (Disaster.lastReport disaster) 60 then
    set_label m lastReportOlderThan2Months
  else if value_gt (Disaster.lastReport disaster) 30 then
    set_label m lastReportOlderThan1Month
  else if value_gt (Disaster.lastReport disaster) 7 then
    set_label m lastReportOlderThan1Week
  else m.

Definition getProfileUpdateLabel (lastUpdate : option str) : JsMap.t str :=
  let m := JsMap.empty in
  let days := diffDays lastUpdate in
  if str_gt days 21 then set_label m profileUpdateOlderThan3Weeks
  else if str_gt days 14 then set_label m profileUpdateOlderThan2Weeks
  else if str_gt days 7 then set_label m profileUpdateOlderThan1Week
  else m.

Definition generateCardDescription (disaster : Disaster.t)
    (updateDate : option str) : str :=
  profileUpdateHeader
  ++ or_else (match updateDate with Some d => d | None => [] end) currentDate
  ++ profileHeader
  ++ Disaster.overview disaster
  ++ glideHeader
  ++ Disaster.glide disaster.

(** [a !== b] where [b] may be undefined. *)
Definition differs (a : str) (b : option str) : bool :=
  match b with
  | Some b => negb (eqb a b)
  | None => true
  end.

(** The effectful part, over any remote side. *)
Variable World : Type.
Variable send : request -> World -> option str * World.

Local Abbreviation M := (Async.M World).
Local Abbreviation await := (Async.await send).

(** [changed = true] at the end of a [try] block whose request is [r]. *)
Definition succeeded (r : option str) (changed : bool) : bool :=
  match r with Some _ => true | None => changed end.

Definition updateCardLabels (card : PCard.t) (disaster : Disaster.t) : M bool :=
  let changed := false in
  let id := Card.id (PCard.card card) in
  let labels :=
    JsMap.of_list (getDisasterLabels disaster
                   ++ getProfileUpdateLabel (PCard.profileUpdate card)) in
  (* Remove old labels. *)
  st <- for_of (Card.labels (PCard.card card)) (labels, changed)
          (fun st label =>
             let labels := fst st in
             let changed := snd st in
             if negb (JsMap.has labels (Label.name label)) then
               r <- await (DELETE_card_idLabel id (Label.id label)) ;;
               ret (labels, succeeded r changed)
             else ret (JsMap.delete labels (Label.name label), changed)) ;;
  (* Add new labels. *)
  for_of (fst st) (snd st)
    (fun changed entry =>
       r <- await (POST_card_idLabels id (snd entry)) ;;
       ret (succeeded r changed)).

(** [card] after the assignment to [card.profileUpdate] in [updateCard]:
    if the disaster profile changed, set the new update date. *)
Definition touched (card : PCard.t) (disaster : Disaster.t) : PCard.t :=
  if differs (Disaster.overview disaster) (PCard.profile card)
  then {| PCard.card := PCard.card card;
          PCard.profileUpdate := Some currentDate;
          PCard.profile := PCard.profile card;
          PCard.glide := PCard.glide card |}
  else card.

(** The Map [data] that [updateCard] fills; [list] is
    [this.lists.get(disaster.status)]. *)
Definition cardData (position : Z) (card : PCard.t) (disaster : Disaster.t)
    (list : BoardList.t) : JsMap.t value :=
  let data := JsMap.empty in
  let c := PCard.card card in
  (* Update list in which the card should be if the status changed. *)
  let data :=
    if negb (eqb (Card.idList c) (BoardList.id list))
    then JsMap.set data (lit "idList") (VStr (BoardList.id list))
    else data in
  (* Update the card position if necessary. *)
  let data :=
    if negb (round_toFixed (Card.pos c) =? position)
    then JsMap.set data (lit "pos") (VNum position)
    else data in
  (* Unarchive if necessary. *)
  let data :=
    if Card.closed c
    then JsMap.set data (lit "closed") (VStr (lit "false"))
    else data in
  (* Update the card name if necessary. *)
  let data :=
    if negb (eqb (Card.name c) (Disaster.name disaster))
    then JsMap.set data (lit "name") (VStr (lit "disaster.name"))
    else data in
  (* Check the description. *)
  if differs (Disaster.overview disaster) (PCard.profile card)
     || differs (Disaster.glide disaster) (PCard.glide card)
  then JsMap.set data (lit "desc")
         (VStr (generateCardDescription disaster
                  (PCard.profileUpdate (touched card disaster))))
  else data.

Definition updateCard (position : Z) (card : PCard.t) (disaster : Disaster.t)
    : M bool :=
  match JsMap.get lists (Disaster.status disaster) with
  | None => throw
  | Some list =>
      let data := cardData position card disaster list in
      (* Update the card labels. *)
      changed <- updateCardLabels (touched card disaster) disaster ;;
      (* Update the card if necessary. *)
      if (0 <? JsMap.size data)%nat then
        r <- await (PUT_card (Card.id (PCard.card card)) data) ;;
        ret (succeeded r changed)
      else ret changed
  end.

Definition createCard (position : Z) (disaster : Disaster.t) : M unit :=
  match JsMap.get lists (Disaster.status disaster) with
  | None => throw
  | Some list =>
      let data :=
        {| NewCard.idList := BoardList.id list;
           NewCard.urlSource := [];
           NewCard.name := Disaster.name disaster;
           NewCard.desc := generateCardDescription disaster None;
           NewCard.pos := position;
           NewCard.idLabels :=
             join (lit ",") (JsMap.values (getDisasterLabels disaster)) |} in
      (* Create the card. *)
      card <- await (POST_cards data) ;;
      match card with
      | None => ret tt
      | Some card_id =>
          (* Add the disaster URL as attachment. *)
          _ <- await (POST_card_attachments card_id (Disaster.url disaster)) ;;
          ret tt
      end
  end.

Definition archiveCard (card : PCard.t) : M unit :=
  if negb (Card.closed (PCard.card card)) then
    _ <- await (PUT_card (Card.id (PCard.card card)) archive_data) ;;
    ret tt
  else ret tt.

(** The first loop of [updateBoard]: the card of each disaster URL. *)
Definition existingCards (boardCards : list Card.t) : JsMap.t PCard.t :=
  List.fold_left
    (fun cards card =>
       match Card.attachments card with
       | Some attachments =>
           match List.find urlPattern attachments with
           | Some url => JsMap.set cards url (prepareCard card)
           | None => cards
           end
       | None => cards
       end)
    boardCards JsMap.empty.

(** The second loop of [updateBoard]: update or create the card of each
    disaster.  It carries the map of the cards and the counter. *)
Definition updateOrCreateOne (st : JsMap.t PCard.t * nat)
    (disaster : Disaster.t) : M (JsMap.t PCard.t * nat) :=
  let cards := fst st in
  let updated := snd st in
  let position := maxIndex - Disaster.id disaster in
  match JsMap.get cards (Disaster.url disaster) with
  | Some card =>
      changed <- updateCard position card disaster ;;
      ret (JsMap.delete cards (Disaster.url disaster),
           if changed then S updated else updated)
  | None =>
      _ <- createCard position disaster ;;
      ret (cards, S updated)
  end.

Definition updateOrCreate (disasters : list Disaster.t)
    (cards : JsMap.t PCard.t) : M (JsMap.t PCard.t * nat) :=
  for_of disasters (cards, O) updateOrCreateOne.

(** The last part of [updateBoard]: archive the remaining cards that are
    in the status lists. *)
Definition archiveRemaining (cards : JsMap.t PCard.t) : M nat :=
  if (0 <? JsMap.size cards)%nat then
    let listIds :=
      List.fold_left
        (fun m list => JsMap.set m (BoardList.id list) (BoardList.name list))
        (JsMap.values lists) JsMap.empty in
    for_of (JsMap.values cards) O
      (fun archived card =>
         if JsMap.has listIds (Card.idList (PCard.card card)) then
           _ <- archiveCard card ;;
           ret (S archived)
         else ret archived)
  else ret O.

(** [updateBoard]; the result is the two counters it logs. *)
Definition updateBoard (boardCards : list Card.t)
    (disasters : list Disaster.t) : M (nat * nat) :=
  let cards := existingCards boardCards in
  st <- updateOrCreate disasters cards ;;
  archived <- archiveRemaining (fst st) ;;
  ret (snd st, archived).

End Manager.

End Disasters.

(** ** The topic board manager *)

Module Topics.
Import Js JsNumber Trello Async.
Local Open Scope async_scope.

(** A river of a topic in the API response. *)
Module River.
Record t := { id : str; url : str; title : str }.
End River.

(** A topic as the ReliefWeb API returns it.  [resources] holds the
    matches of [resourcePattern] in the [resources-html] field, each given
    by its two groups (the [href] and the text of the link). *)
Module Fields.
Record t := {
  id : Z;
  url : str;
  title : str;
  date_changed : str;
  status : str;
  featured : bool;
  introduction : option str;
  rivers : option (list River.t);
  resources : option (list (str * str));
  disaster_type : option (list str);
  theme : option (list str)
}.
End Fields.

(** A wanted checklist item. *)
Module Item.
Record t := { url : str; title : str; name : str; position : Z }.
End Item.

(** A topic after [prepareTopic]; [pos] is as for the disasters. *)
Module Topic.
Record t := {
  id : Z;
  url : str;
  title : str;
  date_changed : str;
  status : str;
  featured : bool;
  introduction : str;
  disaster_type : option (list str);
  theme : option (list str);
  statusPosition : Z;
  pos : option Z;
  lastUpdate : str;
  checklists : JsMap.t (JsMap.t Item.t)
}.
End Topic.

(** A card after [prepareCard]; the [desc] of [card] then holds what
    precedes the managed sections. *)
Module PCard.
Record t := {
  card : Card.t;
  lastUpdate : option str;
  introduction : option str
}.
End PCard.

Definition maxIndex : Z := 10000000.
Definition urlPattern (s : str) : bool := test_reliefweb_url (lit "/node/") s.
Definition lastUpdateHeader : str := lit "# Last Update" ++ [LF; LF].
Definition introductionHeader : str := [LF; LF] ++ lit "# Introduction" ++ [LF; LF].

Definition lastUpdateOlderThan2Months : str := lit "Last Update > 2 Months".
Definition lastUpdateOlderThan1Month : str := lit "Last Update > 1 Month".
Definition lastUpdateOlderThan1Week : str := lit "Last Update > 1 Week".

Definition generateMarkdownLink (url title : str) : str :=
  lit "[" ++ title ++ lit "](" ++ url ++ lit ")".

(** The introduction of [prepareTopic]: cut when it has more than three
    paragraphs. *)
Definition prepareIntroduction (introduction : option str) (url : str) : str :=
  match introduction with
  | Some introduction =>
      if truthy introduction then
        let paragraphs := split_paragraphs introduction in
        if (3 <? List.length paragraphs)%nat then
          let paragraphs :=
            paragraphs ++ [lit "[Read full introduction](" ++ url ++ lit ")"] in
          lit "..." ++ [LF; LF] ++ trim (join [LF; LF] (slice paragraphs (-4) None))
        else introduction
      else []
  | None => []
  end.

(** The rivers and the sections of [prepareTopic]. *)
Definition addRiver (st : JsMap.t Item.t * JsMap.t Item.t) (river : River.t)
    : JsMap.t Item.t * JsMap.t Item.t :=
  let rivers := fst st in
  let sections := snd st in
  let item list :=
    {| Item.url := River.url river;
       Item.title := River.title river;
       Item.name := generateMarkdownLink (River.url river) (River.title river);
       Item.position := Z.of_nat (JsMap.size list) + 1 |} in
  if indexOf (River.id river) (lit "section-") =? 0
  then (rivers, JsMap.set sections (River.url river) (item sections))
  else (JsMap.set rivers (River.url river) (item rivers), sections).

(** The resource links of [prepareTopic]. *)
Definition addResource (resources : JsMap.t Item.t) (m : str * str)
    : JsMap.t Item.t :=
  let url := trim (fst m) in
  let title := trim (snd m) in
  JsMap.set resources url
    {| Item.url := url;
       Item.title := or_else title url;
       Item.name := generateMarkdownLink url title;
       Item.position := Z.of_nat (JsMap.size resources) + 1 |}.

Section Manager.

Variable statusPositions : JsMap.t Z.

(** [this.date]: the time of the run, the date parser, and the printer of
    the format [D MMM YYYY hh:mm:ss UTC]. *)
Variable now : Z.
Variable Date_parse : str -> option Z.
Variable Date_format : option Z -> str.

Definition diffDays := DateWrapper.diffDays now Date_parse.

Definition prepareTopic (topic : Fields.t) : Topic.t :=
  let rs :=
    match Fields.rivers topic with
    | Some rivers => List.fold_left addRiver rivers (JsMap.empty, JsMap.empty)
    | None => (JsMap.empty, JsMap.empty)
    end in
  let resources :=
    match Fields.resources topic with
    | Some matches => List.fold_left addResource matches JsMap.empty
    | None => JsMap.empty
    end in
  {| Topic.id := Fields.id topic;
     Topic.url := Fields.url topic;
     Topic.title := Fields.title topic;
     Topic.date_changed := Fields.date_changed topic;
     Topic.status := Fields.status topic;
     Topic.featured := Fields.featured topic;
     Topic.introduction :=
       prepareIntroduction (Fields.introduction topic) (Fields.url topic);
     Topic.disaster_type := Fields.disaster_type topic;
     Topic.theme := Fields.theme topic;
     Topic.statusPosition :=
       match JsMap.get statusPositions (Fields.status topic) with
       | Some p => p
       | None => 0
       end;
     Topic.pos := None;
     Topic.lastUpdate :=
       Date_format (DateWrapper.clone now Date_parse
                      (Some (Fields.date_changed topic)));
     Topic.checklists :=
       JsMap.of_list [(lit "Rivers", fst rs);
                      (lit "Sections", snd rs);
                      (lit "Resources", resources)] |}.

(** The comparator of [sortTopics]. *)
Definition compare (a b : Topic.t) : Z :=
  if Disasters.pos_eq (Topic.pos a) (Topic.pos b) then
    if Topic.id a <? Topic.id b then 1
    else if Topic.id a >? Topic.id b then -1
    else 0
  else if Disasters.pos_lt (Topic.pos a) (Topic.pos b) then -1
  else 1.

Definition sortTopics (topics : list Topic.t) : list Topic.t :=
  JsArray.sort compare topics.

Variable lists : JsMap.t BoardList.t.
Variable labels : JsMap.t Label.t.

Definition prepareCard (card : Card.t) : PCard.t :=
  let unread := PCard.Build_t card None None in
  if negb (eqb (Card.desc card) []) then
    let i1 := lastIndexOf (Card.desc card) lastUpdateHeader in
    let i2 := lastIndexOf (Card.desc card) introductionHeader in
    let l1 := Z.of_nat (List.length lastUpdateHeader) in
    let l2 := Z.of_nat (List.length introductionHeader) in
    if negb (i1 =? -1) && negb (i2 =? -1) then
      {| PCard.card :=
           {| Card.id := Card.id card;
              Card.name := Card.name card;
              Card.labels := Card.labels card;
              Card.idList := Card.idList card;
              Card.desc := substring (Card.desc card) 0 (Some i1);
              Card.closed := Card.closed card;
              Card.pos := Card.pos card;
              Card.attachments := Card.attachments card;
              Card.checklists := Card.checklists card |};
         PCard.lastUpdate := Some (substring (Card.desc card) (i1 + l1) (Some i2));
         PCard.introduction := Some (substring (Card.desc card) (i2 + l2) None) |}
    else unread
  else unread.

Definition set_label (m : JsMap.t str) (key : str) : JsMap.t str :=
  match JsMap.get labels key with
  | Some label => JsMap.set m (Label.name label) (Label.id label)
  | None => m
  end.

Definition set_term (m : JsMap.t str) (item : str) : JsMap.t str :=
  match JsMap.get labels item with
  | Some label => JsMap.set m item (Label.id label)
  | None => m
  end.

(** [getTopicLabels]; [None] is the TypeError raised when the status of
    the topic has no list. *)
Definition getTopicLabels (topic : Topic.t) : option (JsMap.t str) :=
  let m := JsMap.empty in
  (* Disaster types and themes. *)
  let m :=
    match Topic.disaster_type topic with
    | Some items => List.fold_left set_term items m
    | None => m
    end in
  let m :=
    match Topic.theme topic with
    | Some items => List.fold_left set_term items m
    | None => m
    end in
  (* Featured label. *)
  let m := if Topic.featured topic then set_label m (lit "Featured") else m in
  (* Status label. *)
  match JsMap.get lists (Topic.status topic) with
  | None => None
  | Some list =>
      let m := set_label m (BoardList.name list) in
      (* Last update. *)
      let days := diffDays (Some (Topic.date_changed topic)) in
      Some (if str_gt days 60 then set_label m lastUpdateOlderThan2Months
            else if str_gt days 30 then set_label m lastUpdateOlderThan1Month
            else if str_gt days 7 then set_label m lastUpdateOlderThan1Week
            else m)
  end.

Definition generateCardDescription (description updateDate introduction : str)
    : str :=
  description ++ lastUpdateHeader ++ updateDate ++ introductionHeader
  ++ introduction.

Variable World : Type.
Variable send : request -> World -> option str * World.

Local Abbreviation M := (Async.M World).
Local Abbreviation await := (Async.await send).

Definition succeeded := Disasters.succeeded.

Definition updateCardLabels (card : PCard.t) (topic : Topic.t) : M bool :=
  let changed := false in
  let id := Card.id (PCard.card card) in
  match getTopicLabels topic with
  | None => throw
  | Some wanted =>
      (* Remove old labels but only topic and config ones so that editors
         can add custom labels. *)
      st <- for_of (Card.labels (PCard.card card)) (wanted, changed)
              (fun st label =>
                 let wanted := fst st in
                 let changed := snd st in
                 if negb (JsMap.has wanted (Label.name label)) then
                   if JsMap.has labels (Label.name label) then
                     r <- await (DELETE_card_idLabel id (Label.id label)) ;;
                     ret (wanted, succeeded r changed)
                   else ret (wanted, changed)
                 else ret (JsMap.delete wanted (Label.name label), changed)) ;;
      (* Add new labels. *)
      for_of (fst st) (snd st)
        (fun changed entry =>
           r <- await (POST_card_idLabels id (snd entry)) ;;
           ret (succeeded r changed))
  end.

Definition addCheckItem (checklistId : str) (item : Item.t) : M unit :=
  _ <- await (POST_checklist_checkItems checklistId (Item.name item)
                (Item.position item)) ;;
  ret tt.

Definition updateCheckItem (cardId checklistId id : str) (item : Item.t)
    : M unit :=
  _ <- await (PUT_card_checkItem cardId checklistId id (Item.name item)
                (Item.position item)) ;;
  ret tt.

Definition deleteCheckItem (checklistId id : str) : M unit :=
  _ <- await (DELETE_checklist_checkItem checklistId id) ;;
  ret tt.

Definition addChecklist (cardId name : str) (items : JsMap.t Item.t) : M unit :=
  checklist <- await (POST_card_checklists cardId name) ;;
  match checklist with
  | Some checklist_id =>
      for_of (JsMap.values items) tt
        (fun _ item => addCheckItem checklist_id item)
  | None => ret tt
  end.

(** The title and the URL that [updateChecklist] reads from the name of a
    check item. *)
Definition linkParts (name : str) : str * str :=
  let parts := split name (lit "](") in
  let title := slice (List.nth 0 parts []) 1 None in
  let url := slice (List.nth 1 parts []) 0 (Some (-1)) in
  (title, url).

Definition updateChecklist (cardId : str) (checklist : Checklist.t)
    (items : JsMap.t Item.t) : M bool :=
  let changed := false in
  (* Update or delete existing items. *)
  st <- for_of (Checklist.checkItems checklist) (items, changed)
          (fun st checkitem =>
             let items := fst st in
             let changed := snd st in
             if 0 <? indexOf (CheckItem.name checkitem) (lit "](") then
               let title := fst (linkParts (CheckItem.name checkitem)) in
               let url := snd (linkParts (CheckItem.name checkitem)) in
               match JsMap.get items url with
               | Some item =>
                   (* Update if title changed. *)
                   if negb (eqb (Item.title item) title)
                      || negb (Qeq_bool (inject_Z (Item.position item))
                                 (CheckItem.pos checkitem))
                   then
                     _ <- updateCheckItem cardId (Checklist.id checklist)
                            (CheckItem.id checkitem) item ;;
                     ret (JsMap.delete (JsMap.delete items url) url, true)
                   else ret (JsMap.delete items url, changed)
               | None =>
                   (* Otherwise, if there is no corresponding item, remove it. *)
                   _ <- deleteCheckItem (Checklist.id checklist)
                          (CheckItem.id checkitem) ;;
                   ret (items, changed)
               end
             else ret (items, changed)) ;;
  (* Add new items. *)
  for_of (JsMap.values (fst st)) (snd st)
    (fun _ action =>
       _ <- addCheckItem (Checklist.id checklist) action ;;
       ret true).

(** [updateCardChecklists(card, topic)], given the [id] and the
    [checklists] of the card. *)
Definition updateCardChecklists (cardId : str)
    (cardChecklists : option (list Checklist.t)) (topic : Topic.t) : M bool :=
  let changed := false in
  let checklists :=
    match cardChecklists with
    | Some l =>
        List.fold_left (fun m checklist =>
                          JsMap.set m (Checklist.name checklist) checklist)
          l JsMap.empty
    | None => JsMap.empty
    end in
  for_of (Topic.checklists topic) changed
    (fun changed entry =>
       let name := fst entry in
       let items := snd entry in
       match JsMap.get checklists name with
       | None =>
           _ <- addChecklist cardId name items ;;
           ret true
       | Some checklist =>
           c <- updateChecklist cardId checklist items ;;
           ret (if c then true else changed)
       end).

(** Whether the card is in one of the status lists. *)
Definition managedList (card : Card.t) : bool :=
  List.existsb (fun list => eqb (Card.idList card) (BoardList.id list))
    (JsMap.values lists).

(** The Map [data] that [updateCard] fills.  [list] is
    [this.lists.get(topic.status)], which the code reads only when the
    card is in a managed list. *)
Definition cardData (position : Z) (card : PCard.t) (topic : Topic.t)
    (list : option BoardList.t) : JsMap.t value :=
  let c := PCard.card card in
  (* Store the card data to update. *)
  let data := JsMap.empty in
  (* Check if the card is in a automatically managed list (status list). *)
  let managedList := managedList c in
  (* Update list in which the card should be if the status changed. *)
  let data :=
    match list with
    | Some list =>
        if managedList && negb (eqb (Card.idList c) (BoardList.id list))
        then JsMap.set data (lit "idList") (VStr (BoardList.id list))
        else data
    | None => data
    end in
  (* Update the card position if necessary. *)
  let data :=
    if managedList && negb (round_toFixed (Card.pos c) =? position)
    then JsMap.set data (lit "pos") (VNum position)
    else data in
  (* Unarchive if necessary. *)
  let data :=
    if Card.closed c
    then JsMap.set data (lit "closed") (VStr (lit "false"))
    else data in
  (* Update the card name if necessary. *)
  let data :=
    if negb (eqb (Card.name c) (Topic.title topic))
    then JsMap.set data (lit "name") (VStr (Topic.title topic))
    else data in
  (* Update the card description if the introduction or update date
     changed. *)
  if Disasters.differs (Topic.introduction topic) (PCard.introduction card)
     || Disasters.differs (Topic.lastUpdate topic) (PCard.lastUpdate card)
  then JsMap.set data (lit "desc")
         (VStr (generateCardDescription (Card.desc c)
                  (Topic.lastUpdate topic) (Topic.introduction topic)))
  else data.

(** The read of [this.lists.get(topic.status).id] in the first condition
    of [updateCard]: it happens only for a card in a managed list, and
    raises a TypeError ([None]) when the status has no list. *)
Definition statusList (card : PCard.t) (topic : Topic.t)
    : option (option BoardList.t) :=
  if managedList (PCard.card card)
  then option_map Some (JsMap.get lists (Topic.status topic))
  else Some None.

Definition updateCard (position : Z) (card : PCard.t) (topic : Topic.t)
    : M bool :=
  let changed := false in
  let c := PCard.card card in
  match statusList card topic with
  | None => throw
  | Some list =>
      let data := cardData position card topic list in
      (* Update the card labels. *)
      l <- updateCardLabels card topic ;;
      let changed := if l then true else changed in
      (* Update the card checklists. *)
      k <- updateCardChecklists (Card.id c) (Card.checklists c) topic ;;
      let changed := if k then true else changed in
      (* Update the card if necessary. *)
      if (0 <? JsMap.size data)%nat then
        r <- await (PUT_card (Card.id c) data) ;;
        ret (succeeded r changed)
      else ret changed
  end.

Definition createCard (position : Z) (topic : Topic.t) : M unit :=
  match JsMap.get lists (Topic.status topic), getTopicLabels topic with
  | Some list, Some wanted =>
      let data :=
        {| NewCard.idList := BoardList.id list;
           NewCard.urlSource := [];
           NewCard.name := Topic.title topic;
           NewCard.desc :=
             generateCardDescription [] (Topic.lastUpdate topic)
               (Topic.introduction topic);
           NewCard.pos := position;
           NewCard.idLabels := join (lit ",") (JsMap.values wanted) |} in
      (* Create the card. *)
      card <- await (POST_cards data) ;;
      match card with
      | None => ret tt
      | Some card_id =>
          (* Add the topic URL as attachment. *)
          _ <- await (POST_card_attachments card_id (Topic.url topic)) ;;
          (* Update the card checklists. *)
          _ <- updateCardChecklists card_id None topic ;;
          ret tt
      end
  | _, _ => throw
  end.

(** The first loop of [updateBoard]: the card of each topic URL. *)
Definition existingCards (boardCards : list Card.t) : JsMap.t PCard.t :=
  List.fold_left
    (fun cards card =>
       match Card.attachments card with
       | Some attachments =>
           match List.find urlPattern attachments with
           | Some url => JsMap.set cards url (prepareCard card)
           | None => cards
           end
       | None => cards
       end)
    boardCards JsMap.empty.

(** [updateBoard]; the result is the counter it logs. *)
Definition updateOrCreateOne (cards : JsMap.t PCard.t) (updated : nat)
    (topic : Topic.t) : M nat :=
  let position := maxIndex - Topic.id topic in
  match JsMap.get cards (Topic.url topic) with
  | Some card =>
      changed <- updateCard position card topic ;;
      ret (if changed then S updated else updated)
  | None =>
      _ <- createCard position topic ;;
      ret (S updated)
  end.

Definition updateBoard (boardCards : list Card.t) (topics : list Topic.t)
    : M nat :=
  let cards := existingCards boardCards in
  for_of topics O (updateOrCreateOne cards).

End Manager.

End Topics.

(** ** The country board manager *)

Module Countries.
Import Js JsNumber Trello Async.
Local Open Scope async_scope.

(** A country as the ReliefWeb API returns it. *)
Module Fields.
Record t := {
  id : Z;
  url : str;
  name : str;
  shortname : option str;
  iso3 : option str;
  status : str;
  description : option str
}.
End Fields.

(** A country after [prepareCountry]. *)
Module Country.
Record t := {
  id : Z;
  url : str;
  name : str;
  shortname : option str;
  iso3 : option str;
  status : str;
  description : str
}.
End Country.

(** A card after [prepareCard]. *)
Module PCard.
Record t := {
  card : Card.t;
  profileUpdate : option str;
  description : option str
}.
End PCard.

Definition urlPattern (s : str) : bool :=
  test_reliefweb_url (lit "/taxonomy/term/") s.
Definition profileUpdateHeader : str := lit "# Last Profile Update" ++ [LF; LF].
Definition profileHeader : str := [LF; LF] ++ lit "# Profile" ++ [LF; LF].

Definition ongoingSituation : str := lit "Ongoing Situation".
Definition profileChecked : str := lit "Profile Checked".
Definition profileUpdateOlderThan3Weeks : str := lit "Profile Update > 3 Weeks".
Definition profileUpdateOlderThan2Weeks : str := lit "Profile Update > 2 Weeks".
Definition profileUpdateOlderThan1Week : str := lit "Profile Update > 1 Weeks".

Definition prepareCountry (country : Fields.t) : Country.t :=
  {| Country.id := Fields.id country;
     Country.url := https_to_http (Fields.url country);
     Country.name := Fields.name country;
     Country.shortname := Fields.shortname country;
     Country.iso3 := Fields.iso3 country;
     Country.status := Fields.status country;
     Country.description :=
       match Fields.description country with
       | Some d => d
       | None => []
       end |}.

Definition prepareCard (card : Card.t) : PCard.t :=
  let unread := PCard.Build_t card None None in
  if negb (eqb (Card.desc card) []) then
    let i1 := lastIndexOf (Card.desc card) profileUpdateHeader in
    let i2 := lastIndexOf (Card.desc card) profileHeader in
    let l1 := Z.of_nat (List.length profileUpdateHeader) in
    let l2 := Z.of_nat (List.length profileHeader) in
    if negb (i1 =? -1) then
      if negb (i2 =? -1) then
        {| PCard.card := card;
           PCard.profileUpdate :=
             Some (trim (substring (Card.desc card) (i1 + l1) (Some i2)));
           PCard.description := Some (substring (Card.desc card) (i2 + l2) None) |}
      else
        {| PCard.card := card;
           PCard.profileUpdate :=
             Some (trim (substring (Card.desc card) (i1 + l1) None));
           PCard.description := Some [] |}
    else unread
  else unread.

Section Manager.

(** [this.config.statuses]. *)
Variable statuses : JsMap.t str.

Variable now : Z.
Variable Date_parse : str -> option Z.
Variable currentDate : str.

Definition diffDays := DateWrapper.diffDays now Date_parse.

Variable labels : JsMap.t Label.t.

(** [labels.set(key, this.labels.get(key).id)] when [this.labels] has
    [key] and [cond] holds. *)
Definition set_if (cond : bool) (m : JsMap.t str) (key : str) : JsMap.t str :=
  match JsMap.get labels key with
  | Some label => if cond then JsMap.set m key (Label.id label) else m
  | None => m
  end.

(** A property used as a condition: undefined and the empty string are
    falsy. *)
Definition present (s : option str) : bool :=
  match s with Some s => truthy s | None => false end.

Definition getCountryLabels (country : Country.t) : JsMap.t str :=
  let m := JsMap.empty in
  (* Ongoing situation. *)
  let m :=
    set_if (match JsMap.get statuses (Country.status country) with
            | Some s => eqb s (lit "ongoing")
            | None => false
            end) m ongoingSituation in
  (* Profile checked. *)
  let m := set_if (truthy (Country.description country)) m profileChecked in
  (* ISO3. *)
  let m :=
    match Country.iso3 country with
    | Some iso3 => set_if (truthy iso3) m iso3
    | None => m
    end in
  (* Shortname. *)
  match Country.shortname country with
  | Some shortname => set_if (truthy shortname) m shortname
  | None => m
  end.

Definition set_label (m : JsMap.t str) (key : str) : JsMap.t str :=
  match JsMap.get labels key with
  | Some label => JsMap.set m (Label.name label) (Label.id label)
  | None => m
  end.

Definition getProfileUpdateLabel (lastUpdate : option str) : JsMap.t str :=
  let m := JsMap.empty in
  let days := diffDays lastUpdate in
  if str_gt days 21 then set_label m profileUpdateOlderThan3Weeks
  else if str_gt days 14 then set_label m profileUpdateOlderThan2Weeks
  else if str_gt days 7 then set_label m profileUpdateOlderThan1Week
  else m.

Definition generateCardDescription (country : Country.t) : str :=
  profileUpdateHeader ++ currentDate ++ profileHeader
  ++ Country.description country.

Variable World : Type.
Variable send : request -> World -> option str * World.

Local Abbreviation M := (Async.M World).
Local Abbreviation await := (Async.await send).

Definition succeeded := Disasters.succeeded.

Definition updateCardLabels (card : PCard.t) (country : Country.t) : M bool :=
  let changed := false in
  let id := Card.id (PCard.card card) in
  let wanted :=
    JsMap.of_list (getCountryLabels country
                   ++ getProfileUpdateLabel (PCard.profileUpdate card)) in
  (* Remove old labels but only country and config ones so that editors
     can add custom labels. *)
  st <- for_of (Card.labels (PCard.card card)) (wanted, changed)
          (fun st label =>
             let wanted := fst st in
             let changed := snd st in
             if negb (JsMap.has wanted (Label.name label)) then
               if JsMap.has labels (Label.name label) then
                 r <- await (DELETE_card_idLabel id (Label.id label)) ;;
                 ret (wanted, succeeded r changed)
               else ret (wanted, changed)
             else ret (JsMap.delete wanted (Label.name label), changed)) ;;
  (* Add new labels. *)
  for_of (fst st) (snd st)
    (fun changed entry =>
       r <- await (POST_card_idLabels id (snd entry)) ;;
       ret (succeeded r changed)).

(** The Map [data] that [updateCard] fills. *)
Definition cardData (card : PCard.t) (country : Country.t) : JsMap.t value :=
  let data := JsMap.empty in
  (* Update the description. *)
  if negb (eqb (Country.description country) []) then
    if Disasters.differs (Country.description country) (PCard.description card)
    then JsMap.set data (lit "desc") (VStr (generateCardDescription country))
    else data
  else
    match PCard.description card with
    | Some [] => JsMap.set data (lit "desc") (VStr [])
    | _ => data
    end.

Definition updateCard (card : PCard.t) (country : Country.t) : M bool :=
  let data := cardData card country in
  (* Update the card labels. *)
  changed <- updateCardLabels card country ;;
  (* Update the card if necessary. *)
  if (0 <? JsMap.size data)%nat then
    r <- await (PUT_card (Card.id (PCard.card card)) data) ;;
    ret (succeeded r changed)
  else ret changed.

(** The first loop of [updateBoard]: the card of each country URL. *)
Definition existingCards (boardCards : list Card.t) : JsMap.t PCard.t :=
  List.fold_left
    (fun cards card =>
       match Card.attachments card with
       | Some attachments =>
           match List.find urlPattern attachments with
           | Some url => JsMap.set cards url (prepareCard card)
           | None => cards
           end
       | None => cards
       end)
    boardCards JsMap.empty.

(** [updateBoard]; the result is the counter it logs. *)
Definition updateOne (cards : JsMap.t PCard.t) (updated : nat)
    (country : Country.t) : M nat :=
  match JsMap.get cards (Country.url country) with
  | Some card =>
      changed <- updateCard card country ;;
      ret (if changed then S updated else updated)
  | None => ret updated
  end.

Definition updateBoard (boardCards : list Card.t)
    (countries : list Country.t) : M nat :=
  let cards := existingCards boardCards in
  for_of countries O (updateOne cards).

End Manager.

End Countries.

(** * Properties *)

(** ** Strings, arrays and maps *)

Module JsFacts.
Import Js.

Lemma eqb_eq (a b : str) : eqb a b = true <-> a = b.
Proof.
  revert b; induction a as [|x a IH]; intros [|y b]; simpl; split;
    try congruence; try reflexivity.
  - intros H. apply andb_prop in H as [Hx Hab].
    apply N.eqb_eq in Hx. apply IH in Hab. congruence.
  - intros H. injection H as -> ->.
    rewrite N.eqb_refl. simpl. now apply IH.
Qed.

Lemma eqb_refl (a : str) : eqb a a = true.
Proof. now apply eqb_eq. Qed.

Lemma eqb_neq (a b : str) : eqb a b = false <-> a <> b.
Proof.
  split.
  - intros H E. apply eqb_eq in E. congruence.
  - intros H. destruct (eqb a b) eqn:E; [apply eqb_eq in E; contradiction | reflexivity].
Qed.

Lemma eqb_sym (a b : str) : eqb a b = eqb b a.
Proof.
  destruct (eqb a b) eqn:E.
  - apply eqb_eq in E. subst. symmetry. apply eqb_refl.
  - apply eqb_neq in E. symmetry. apply eqb_neq. congruence.
Qed.

(** [slice(-k)] of an array that has at least [k] elements keeps the last
    [k]. *)
Lemma slice_last {A} (front back : list A) :
  slice (front ++ back) (- Z.of_nat (List.length back)) None = 
  match back with [] => front | _ => back end.
Proof.
  unfold slice, rel_index. rewrite List.length_app.
  destruct back as [|b back].
  - cbn. rewrite List.app_nil_r, Nat.add_0_r, Nat.sub_0_r.
    apply List.firstn_all.
  - set (k := List.length (b :: back)).
    assert (Hk : (0 < k)%nat) by (subst k; simpl; lia).
    replace (- Z.of_nat k <? 0) with true by (symmetry; apply Z.ltb_lt; lia).
    replace (Z.to_nat (Z.max (Z.of_nat (List.length front + k) + - Z.of_nat k) 0))
      with (List.length front) by lia.
    rewrite List.skipn_app, List.skipn_all, Nat.sub_diag. simpl.
    replace (List.length front + k - List.length front)%nat with k by lia.
    f_equal. apply List.firstn_all.
Qed.

End JsFacts.

(** ** Truncation of the body text (C2) *)

Module Truncation.
Import Js JsFacts.

Definition blank : str := [LF; LF].

Definition readFullDescription (url : str) : str :=
  lit "[Read full description](" ++ url ++ lit ")".

Definition readFullIntroduction (url : str) : str :=
  lit "[Read full introduction](" ++ url ++ lit ")".

(** What the cut keeps of the paragraphs [front ++ [a; b; c]]: the last
    three and the link, joined by blank lines and trimmed, after the
    ellipsis. *)
Definition kept (a b c link : str) : str :=
  lit "..." ++ blank ++ trim (a ++ blank ++ b ++ blank ++ c ++ blank ++ link).

Lemma body_of_paragraphs (body : str) :
  (1 < List.length (split_paragraphs body))%nat -> truthy body = true.
Proof. destruct body; simpl; [lia | reflexivity]. Qed.

Lemma slice_pushed (front : list str) (a b c link : str) :
  slice ((front ++ [a; b; c]) ++ [link]) (-4) None = [a; b; c; link].
Proof.
  rewrite <- List.app_assoc. simpl.
  exact (slice_last front [a; b; c; link]).
Qed.

Lemma overview_cut (body url : str) (front : list str) (a b c : str) :
  split_paragraphs body = front ++ [a; b; c] -> front <> [] ->
  Disasters.prepareOverview (Some body) url = kept a b c (readFullDescription url).
Proof.
  intros Hs Hf. unfold Disasters.prepareOverview.
  assert (Hlen : (3 < List.length (split_paragraphs body))%nat).
  { rewrite Hs, List.length_app. destruct front; [congruence | simpl; lia]. }
  rewrite body_of_paragraphs by lia.
  apply Nat.ltb_lt in Hlen. rewrite Hlen, Hs.
  fold (readFullDescription url). rewrite slice_pushed. reflexivity.
Qed.

Lemma introduction_cut (body url : str) (front : list str) (a b c : str) :
  split_paragraphs body = front ++ [a; b; c] -> front <> [] ->
  Topics.prepareIntroduction (Some body) url
  = kept a b c (readFullIntroduction url).
Proof.
  intros Hs Hf. unfold Topics.prepareIntroduction.
  assert (Hlen : (3 < List.length (split_paragraphs body))%nat).
  { rewrite Hs, List.length_app. destruct front; [congruence | simpl; lia]. }
  rewrite body_of_paragraphs by lia.
  apply Nat.ltb_lt in Hlen. rewrite Hlen, Hs.
  fold (readFullIntroduction url). rewrite slice_pushed. reflexivity.
Qed.

Lemma overview_short (body url : str) :
  (List.length (split_paragraphs body) <= 3)%nat ->
  Disasters.prepareOverview (Some body) url = body.
Proof.
  intros H. unfold Disasters.prepareOverview.
  destruct body as [|x body]; [reflexivity|]. simpl truthy. cbv iota.
  apply Nat.ltb_ge in H. now rewrite H.
Qed.

Lemma introduction_short (body url : str) :
  (List.length (split_paragraphs body) <= 3)%nat ->
  Topics.prepareIntroduction (Some body) url = body.
Proof.
  intros H. unfold Topics.prepareIntroduction.
  destruct body as [|x body]; [reflexivity|]. simpl truthy. cbv iota.
  apply Nat.ltb_ge in H. now rewrite H.
Qed.

(** C2, as amended.  A body whose paragraphs are [front ++ [a; b; c]] with
    [front] not empty (more than three paragraphs) is cut to the ellipsis
    followed by the trimmed text of the last three paragraphs and the
    read-more link, joined by blank lines; a body of at most three
    paragraphs is returned unchanged.  Both hold for the disasters
    overview and the topics introduction. *)
Theorem truncation_keeps_last_three (body url : str) :
  (forall front a b c,
      split_paragraphs body = front ++ [a; b; c] -> front <> [] ->
      Disasters.prepareOverview (Some body) url
      = kept a b c (readFullDescription url)
      /\ Topics.prepareIntroduction (Some body) url
         = kept a b c (readFullIntroduction url))
  /\ ((List.length (split_paragraphs body) <= 3)%nat ->
      Disasters.prepareOverview (Some body) url = body
      /\ Topics.prepareIntroduction (Some body) url = body).
Proof.
  split.
  - intros front a b c Hs Hf. split.
    + now apply overview_cut with front.
    + now apply introduction_cut with front.
  - intros H. split.
    + now apply overview_short.
    + now apply introduction_short.
Qed.

(** Five paragraphs [p1 .. p5] and a URL. *)
Definition p (n : Z) : str := lit "p" ++ JsNumber.numeral n.
Definition five : str :=
  p 1 ++ blank ++ p 2 ++ blank ++ p 3 ++ blank ++ p 4 ++ blank ++ p 5.
Definition three : str := p 1 ++ blank ++ p 2 ++ blank ++ p 3.
Definition someUrl : str := lit "https://reliefweb.int/taxonomy/term/100".

Lemma truncation_keeps_last_three_witness :
  Disasters.prepareOverview (Some five) someUrl
  = kept (p 3) (p 4) (p 5) (readFullDescription someUrl)
  /\ Disasters.prepareOverview (Some three) someUrl = three.
Proof.
  destruct (truncation_keeps_last_three five someUrl) as [Hcut _].
  destruct (truncation_keeps_last_three three someUrl) as [_ Hshort].
  split.
  - apply (Hcut [p 1; p 2] (p 3) (p 4) (p 5)); [reflexivity | discriminate].
  - apply Hshort. vm_compute. lia.
Defined.

(** C2 as the specification states it fails: of five paragraphs the
    second is not kept. *)
Lemma truncation_drops_second_paragraph :
  split_paragraphs five = [p 1; p 2; p 3; p 4; p 5]
  /\ Disasters.prepareOverview (Some five) someUrl
     <> lit "..." ++ blank
        ++ join blank [p 2; p 3; p 4; p 5] ++ blank ++ readFullDescription someUrl
  /\ Disasters.prepareOverview (Some five) someUrl
     = lit "..." ++ blank
        ++ join blank [p 3; p 4; p 5] ++ blank ++ readFullDescription someUrl.
Proof.
  split; [reflexivity|]. split; [|reflexivity].
  vm_compute. discriminate.
Qed.

End Truncation.

(** ** Running asynchronous code *)

Module AsyncFacts.
Import Js Trello Async.

Section Facts.

Variable World : Type.
Variable send : request -> World -> option str * World.

Lemma sent_bind {A B} (m : M World A) (f : A -> M World B) (w : World) :
  sent (bind m f w)
  = sent (m w)
    ++ match result (m w) with
       | Some x => sent (f x (after (m w)))
       | None => []
       end.
Proof.
  unfold bind. destruct (result (m w)); simpl; [reflexivity|].
  now rewrite List.app_nil_r.
Qed.

Lemma result_bind {A B} (m : M World A) (f : A -> M World B) (w : World) :
  result (bind m f w)
  = match result (m w) with
    | Some x => result (f x (after (m w)))
    | None => None
    end.
Proof. unfold bind. now destruct (result (m w)). Qed.

Lemma after_bind {A B} (m : M World A) (f : A -> M World B) (w : World) :
  after (bind m f w)
  = match result (m w) with
    | Some x => after (f x (after (m w)))
    | None => after (m w)
    end.
Proof. unfold bind. now destruct (result (m w)). Qed.

Lemma sent_ret {A} (x : A) (w : World) : sent (ret x w) = [].
Proof. reflexivity. Qed.

Lemma result_ret {A} (x : A) (w : World) : result (ret x w) = Some x.
Proof. reflexivity. Qed.

Lemma after_ret {A} (x : A) (w : World) : after (ret x w) = w.
Proof. reflexivity. Qed.

Lemma sent_await (q : request) (w : World) : sent (await send q w) = [q].
Proof. unfold await. now destruct (send q w). Qed.

Lemma result_await (q : request) (w : World) :
  result (await send q w) = Some (fst (send q w)).
Proof. unfold await. now destruct (send q w). Qed.

Lemma after_await (q : request) (w : World) :
  after (await send q w) = snd (send q w).
Proof. unfold await. now destruct (send q w). Qed.

(** A property of every request that the body of a loop sends holds of
    every request that the loop sends. *)
Lemma for_of_forall {A S} (ok : request -> bool) (body : S -> A -> M World S) :
  (forall s x w, List.forallb ok (sent (body s x w)) = true) ->
  forall l s w, List.forallb ok (sent (for_of l s body w)) = true.
Proof.
  intros Hbody. induction l as [|x l IH]; intros s w; [reflexivity|].
  cbn [for_of]. rewrite sent_bind, List.forallb_app, Hbody.
  destruct (result (body s x w)); [apply IH | reflexivity].
Qed.

(** A part of the loop variables that each turn of the loop updates by
    [f] is, when the loop completes, the fold of [f]. *)
Lemma for_of_fold {A S T} (proj : S -> T) (f : T -> A -> T)
    (body : S -> A -> M World S) :
  (forall s x w s', result (body s x w) = Some s' -> proj s' = f (proj s) x) ->
  forall l s w s',
    result (for_of l s body w) = Some s' ->
    proj s' = List.fold_left f l (proj s).
Proof.
  intros Hbody. induction l as [|x l IH]; intros s w s'.
  - cbn [for_of]. rewrite result_ret. intros H. now injection H as <-.
  - cbn [for_of List.fold_left]. rewrite result_bind.
    destruct (result (body s x w)) as [s1|] eqn:E; [|discriminate].
    intros H. rewrite (IH _ _ _ H). f_equal. now apply Hbody with w.
Qed.

End Facts.

(** Unfold one layer of a computation that is applied to a remote side. *)
Ltac run :=
  repeat (progress (rewrite ?sent_bind, ?result_bind, ?after_bind,
                      ?sent_ret, ?result_ret, ?after_ret,
                      ?sent_await, ?result_await, ?after_await;
                    cbn [result sent after fst snd])).

End AsyncFacts.

(** ** Facts about Map *)

Module JsMapFacts.
Import Js JsFacts.

Lemma get_delete_other {V} (m : JsMap.t V) (k k' : str) :
  k <> k' -> JsMap.get (JsMap.delete m k) k' = JsMap.get m k'.
Proof.
  intros Hk. induction m as [|[k0 v0] m IH]; simpl; [reflexivity|].
  destruct (eqb k0 k) eqn:E0.
  - apply eqb_eq in E0. subst k0.
    apply eqb_neq in Hk. now rewrite Hk.
  - simpl. now rewrite IH.
Qed.

Lemma has_delete_other {V} (m : JsMap.t V) (k k' : str) :
  k <> k' -> JsMap.has (JsMap.delete m k) k' = JsMap.has m k'.
Proof. intros Hk. unfold JsMap.has. now rewrite get_delete_other. Qed.

Lemma In_delete {V} (m : JsMap.t V) (k : str) (e : str * V) :
  In e (JsMap.delete m k) -> In e m.
Proof.
  induction m as [|[k0 v0] m IH]; simpl; [tauto|].
  destruct (eqb k0 k); simpl; tauto.
Qed.

Lemma get_In {V} (m : JsMap.t V) (k : str) (v : V) :
  JsMap.get m k = Some v -> In (k, v) m.
Proof.
  induction m as [|[k0 v0] m IH]; simpl; [discriminate|].
  destruct (eqb k0 k) eqn:E.
  - apply eqb_eq in E. intros H. injection H as ->. subst. now left.
  - intros H. right. now apply IH.
Qed.

Lemma has_keys {V} (m : JsMap.t V) (k : str) :
  JsMap.has m k = true <-> In k (JsMap.keys m).
Proof.
  unfold JsMap.has, JsMap.keys.
  induction m as [|[k0 v0] m IH]; simpl; [split; [discriminate | tauto]|].
  destruct (eqb k0 k) eqn:E.
  - apply eqb_eq in E. split; auto.
  - apply eqb_neq in E. rewrite IH. split; [auto | intros [H|H]; [contradiction | exact H]].
Qed.

Lemma has_delete_true {V} (m : JsMap.t V) (k k' : str) :
  JsMap.has (JsMap.delete m k) k' = true -> JsMap.has m k' = true.
Proof.
  rewrite !has_keys. unfold JsMap.keys. rewrite !List.in_map_iff.
  intros [e [He Hin]]. exists e. split; [exact He|]. now apply In_delete with k.
Qed.

Lemma delete_absent {V} (m : JsMap.t V) (k : str) :
  JsMap.get m k = None -> JsMap.delete m k = m.
Proof.
  induction m as [|[k0 v0] m IH]; simpl; [reflexivity|].
  destruct (eqb k0 k); [discriminate|]. intros H. now rewrite IH.
Qed.

Lemma get_set_same {V} (m : JsMap.t V) (k : str) (v : V) :
  JsMap.get (JsMap.set m k v) k = Some v.
Proof.
  induction m as [|[k0 v0] m IH]; simpl.
  - now rewrite eqb_refl.
  - destruct (eqb k0 k) eqn:E; simpl; rewrite E; [reflexivity | exact IH].
Qed.

Lemma get_set_other {V} (m : JsMap.t V) (k k' : str) (v : V) :
  k <> k' -> JsMap.get (JsMap.set m k v) k' = JsMap.get m k'.
Proof.
  intros Hk. induction m as [|[k0 v0] m IH]; simpl.
  - apply eqb_neq in Hk. now rewrite Hk.
  - destruct (eqb k0 k) eqn:E; simpl.
    + apply eqb_eq in E. subst k0. apply eqb_neq in Hk. now rewrite Hk.
    + now rewrite IH.
Qed.

(** Every entry of [m.set(k, v)] is an entry of [m] or the new one. *)
Lemma In_set {V} (m : JsMap.t V) (k : str) (v : V) (e : str * V) :
  In e (JsMap.set m k v) -> In e m \/ (snd e = v /\ fst e = k).
Proof.
  induction m as [|[k0 v0] m IH]; simpl.
  - intros [<-|[]]. now right.
  - destruct (eqb k0 k) eqn:E; simpl.
    + apply eqb_eq in E. subst k0. intros [<-|H]; [now right | left; now right].
    + intros [<-|H]; [left; now left|].
      destruct (IH H) as [H'|H']; [left; now right | now right].
Qed.

Lemma size_set {V} (m : JsMap.t V) (k : str) (v : V) :
  (0 < JsMap.size (JsMap.set m k v))%nat.
Proof.
  unfold JsMap.size. destruct m as [|[k0 v0] m]; simpl; [lia|].
  destruct (eqb k0 k); simpl; lia.
Qed.

End JsMapFacts.

(** ** The label diff (C3) *)

Module LabelDiff.
Import Js JsFacts JsMapFacts Trello Async AsyncFacts.

(** The labels of the card that the first loop of [updateCardLabels]
    removes, and the wanted labels left for its second loop.  [managed]
    tells whether a name may be removed. *)
Fixpoint removed (managed : str -> bool) (wanted : JsMap.t str)
    (cardLabels : list Label.t) : list Label.t :=
  match cardLabels with
  | [] => []
  | label :: rest =>
      if negb (JsMap.has wanted (Label.name label)) then
        if managed (Label.name label)
        then label :: removed managed wanted rest
        else removed managed wanted rest
      else removed managed (JsMap.delete wanted (Label.name label)) rest
  end.

Fixpoint missing (wanted : JsMap.t str) (cardLabels : list Label.t)
    : JsMap.t str :=
  match cardLabels with
  | [] => wanted
  | label :: rest =>
      if negb (JsMap.has wanted (Label.name label)) then missing wanted rest
      else missing (JsMap.delete wanted (Label.name label)) rest
  end.

(** The requests of [updateCardLabels] for a given diff. *)
Definition requests (cardId : str) (managed : str -> bool)
    (wanted : JsMap.t str) (cardLabels : list Label.t) : list request :=
  List.map (fun label => DELETE_card_idLabel cardId (Label.id label))
    (removed managed wanted cardLabels)
  ++ List.map (fun entry => POST_card_idLabels cardId (snd entry))
       (missing wanted cardLabels).

Lemma removed_managed managed (wanted : JsMap.t str) cardLabels label :
  In label (removed managed wanted cardLabels) ->
  In label cardLabels /\ managed (Label.name label) = true.
Proof.
  revert wanted. induction cardLabels as [|l rest IH]; intros wanted; simpl; [tauto|].
  destruct (JsMap.has wanted (Label.name l)); simpl.
  - intros H. destruct (IH _ H). auto.
  - destruct (managed (Label.name l)) eqn:E.
    + intros [<-|H]; [auto|]. destruct (IH _ H). auto.
    + intros H. destruct (IH _ H). auto.
Qed.

(** A label that the first loop removes was not wanted, when the names of
    the labels of the card are distinct. *)
Lemma removed_unwanted managed (wanted0 wanted : JsMap.t str) cardLabels label :
  NoDup (List.map Label.name cardLabels) ->
  (forall k, In k (List.map Label.name cardLabels) ->
             JsMap.has wanted k = JsMap.has wanted0 k) ->
  In label (removed managed wanted cardLabels) ->
  JsMap.has wanted0 (Label.name label) = false.
Proof.
  revert wanted. induction cardLabels as [|l rest IH]; intros wanted Hnd Hw; simpl; [tauto|].
  inversion Hnd as [|? ? Hnotin Hnd']; subst.
  destruct (JsMap.has wanted (Label.name l)) eqn:E; simpl.
  - apply IH; [exact Hnd'|].
    intros k Hk. rewrite has_delete_other.
    + apply Hw. now right.
    + intros Heq. subst k. contradiction.
  - assert (Hrest : In label (removed managed wanted rest) ->
                    JsMap.has wanted0 (Label.name label) = false).
    { apply IH; [exact Hnd'|]. intros k Hk. apply Hw. now right. }
    destruct (managed (Label.name l)); [|exact Hrest].
    intros [<-|H]; [|now apply Hrest].
    rewrite <- Hw; [exact E | now left].
Qed.

(** A label whose name is not wanted is removed when its name is
    managed. *)
Lemma unwanted_removed managed (wanted : JsMap.t str) cardLabels label :
  In label cardLabels ->
  JsMap.has wanted (Label.name label) = false ->
  managed (Label.name label) = true ->
  In label (removed managed wanted cardLabels).
Proof.
  revert wanted. induction cardLabels as [|l rest IH]; intros wanted; simpl; [tauto|].
  intros [->|Hin] Hw Hm.
  - rewrite Hw, Hm. simpl. now left.
  - destruct (JsMap.has wanted (Label.name l)) eqn:E; simpl.
    + apply IH; [exact Hin | | exact Hm].
      destruct (JsMap.has (JsMap.delete wanted (Label.name l)) (Label.name label)) eqn:E'; [|reflexivity].
      apply has_delete_true in E'. congruence.
    + destruct (managed (Label.name l)); [right|]; now apply IH.
Qed.

Section Remote.

Variable World : Type.
Variable send : request -> World -> option str * World.

(** The three first loops, run on any remote side. *)
Lemma first_loop (managed : str -> bool) (cardId : str)
    (body : JsMap.t str * bool -> Label.t -> M World (JsMap.t str * bool)) :
  (forall wanted changed label,
      body (wanted, changed) label
      = if negb (JsMap.has wanted (Label.name label)) then
          if managed (Label.name label) then
            bind (await send (DELETE_card_idLabel cardId (Label.id label)))
              (fun r => ret (wanted, Disasters.succeeded r changed))
          else ret (wanted, changed)
        else ret (JsMap.delete wanted (Label.name label), changed)) ->
  forall cardLabels wanted changed w,
    sent (for_of cardLabels (wanted, changed) body w)
    = List.map (fun label => DELETE_card_idLabel cardId (Label.id label))
        (removed managed wanted cardLabels)
    /\ exists changed',
        result (for_of cardLabels (wanted, changed) body w)
        = Some (missing wanted cardLabels, changed').
Proof.
  intros Hbody. induction cardLabels as [|l rest IH]; intros wanted changed w.
  - simpl. split; [reflexivity | now exists changed].
  - simpl for_of. rewrite sent_bind, result_bind, Hbody.
    simpl removed. simpl missing.
    destruct (JsMap.has wanted (Label.name l)); cbn [negb].
    + simpl. apply IH.
    + destruct (managed (Label.name l)).
      * rewrite sent_bind, result_bind, result_await, sent_await. simpl.
        match goal with
        | |- context [for_of rest (wanted, ?c) body ?w'] =>
            destruct (IH wanted c w') as [Hs Hr]
        end.
        rewrite Hs. split; [reflexivity | exact Hr].
      * simpl. apply IH.
Qed.

(** The three second loops. *)
Lemma second_loop (cardId : str)
    (body : bool -> str * str -> M World bool) :
  (forall changed entry,
      body changed entry
      = bind (await send (POST_card_idLabels cardId (snd entry)))
          (fun r => ret (Disasters.succeeded r changed))) ->
  forall (wanted : JsMap.t str) changed w,
    sent (for_of wanted changed body w)
    = List.map (fun entry => POST_card_idLabels cardId (snd entry)) wanted
    /\ exists changed', result (for_of wanted changed body w) = Some changed'.
Proof.
  intros Hbody. induction wanted as [|e rest IH]; intros changed w.
  - simpl. split; [reflexivity | now exists changed].
  - simpl for_of. rewrite sent_bind, result_bind, Hbody.
    rewrite sent_bind, result_bind, result_await, sent_await. simpl.
    match goal with
    | |- context [for_of rest ?c body ?w'] => destruct (IH c w') as [Hs Hr]
    end.
    rewrite Hs. split; [reflexivity | exact Hr].
Qed.

End Remote.

End LabelDiff.

(** ** A small run-time environment for the examples *)

Module Example.
Import Js JsNumber Trello.

(** Dates are written as their time value in milliseconds. *)
Definition Date_parse (s : str) : option Z :=
  match s with
  | [] => None
  | _ => option_map Z.of_uint (read_digits s)
  end.

Definition day : Z := 86400000.

(** The run takes place on day 100. *)
Definition now : Z := 100 * day.
Definition currentDate : str := lit "10 Apr 1970".

(** A remote side that accepts every request and remembers nothing. *)
Definition accept (q : request) (w : unit) : option str * unit :=
  (Some (lit "new"), w).

(** A remote side that rejects every request. *)
Definition reject (q : request) (w : unit) : option str * unit := (None, w).

Definition lists : JsMap.t BoardList.t :=
  [(lit "alert", BoardList.Build_t (lit "L1") (lit "Alert"));
   (lit "ongoing", BoardList.Build_t (lit "L2") (lit "Ongoing"))].

Definition statusPositions : JsMap.t Z :=
  [(lit "alert", 1); (lit "ongoing", 2)].

Definition labels : JsMap.t Label.t :=
  [(lit "Flood", Label.Build_t (lit "B1") (lit "Flood"));
   (lit "Chad", Label.Build_t (lit "B2") (lit "Chad"));
   (lit "Ongoing", Label.Build_t (lit "B3") (lit "Ongoing"))].

(** A label that an editor added by hand: its name is not in
    [this.labels]. *)
Definition custom : Label.t := Label.Build_t (lit "B9") (lit "Custom").

(** A managed label that no entity of the examples wants. *)
Definition chad : Label.t := Label.Build_t (lit "B2") (lit "Chad").

Definition card : Card.t :=
  {| Card.id := lit "C1";
     Card.name := lit "Old name";
     Card.labels := [custom; chad];
     Card.idList := lit "L7";
     Card.desc := [];
     Card.closed := false;
     Card.pos := 5 # 1;
     Card.attachments := Some [lit "http://reliefweb.int/taxonomy/term/100"];
     Card.checklists := None |}.

(** The label of the disaster type of the examples. *)
Definition flood : Label.t := Label.Build_t (lit "B1") (lit "Flood").

(** The description of a disaster card with the given update date and
    glide number. *)
Definition described (profileUpdate glide : str) : str :=
  Disasters.profileUpdateHeader ++ profileUpdate ++ Disasters.profileHeader
  ++ lit "Heavy rain." ++ Disasters.glideHeader ++ glide.

(** A card of the disaster of the examples, at the position the manager
    wants, with the labels it wants. *)
Definition tracked (name idList profileUpdate glide : str) : Card.t :=
  {| Card.id := lit "C1";
     Card.name := name;
     Card.labels := [flood];
     Card.idList := idList;
     Card.desc := described profileUpdate glide;
     Card.closed := false;
     Card.pos := 9999900 # 1;
     Card.attachments := Some [lit "http://reliefweb.int/taxonomy/term/100"];
     Card.checklists := None |}.

Definition disaster : Disasters.Disaster.t :=
  {| Disasters.Disaster.id := 100;
     Disasters.Disaster.url := lit "http://reliefweb.int/taxonomy/term/100";
     Disasters.Disaster.name := lit "Flood in Chad";
     Disasters.Disaster.glide := lit "FL-2020-000001-TCD";
     Disasters.Disaster.status := lit "ongoing";
     Disasters.Disaster.overview := lit "Heavy rain.";
     Disasters.Disaster.type := [lit "Flood"];
     Disasters.Disaster.country := [];
     Disasters.Disaster.statusPosition := 2;
     Disasters.Disaster.pos := None;
     Disasters.Disaster.lastReport := VUndefined |}.

Definition topic : Topics.Topic.t :=
  {| Topics.Topic.id := 100;
     Topics.Topic.url := lit "https://reliefweb.int/node/100";
     Topics.Topic.title := lit "Floods";
     Topics.Topic.date_changed := numeral now;
     Topics.Topic.status := lit "ongoing";
     Topics.Topic.featured := false;
     Topics.Topic.introduction := lit "About floods.";
     Topics.Topic.disaster_type := Some [lit "Flood"];
     Topics.Topic.theme := None;
     Topics.Topic.statusPosition := 2;
     Topics.Topic.pos := None;
     Topics.Topic.lastUpdate := lit "10 Apr 1970 00:00:00 UTC";
     Topics.Topic.checklists :=
       [(lit "Rivers", []); (lit "Sections", []); (lit "Resources", [])] |}.

Definition country : Countries.Country.t :=
  {| Countries.Country.id := 100;
     Countries.Country.url := lit "http://reliefweb.int/taxonomy/term/100";
     Countries.Country.name := lit "Chad";
     Countries.Country.shortname := None;
     Countries.Country.iso3 := None;
     Countries.Country.status := lit "current";
     Countries.Country.description := lit "A country." |}.

End Example.

(** ** Which labels are removed (C3) *)

Module ManagedLabels.
Import Js JsFacts JsMapFacts Trello Async AsyncFacts LabelDiff.

Section Claim.

Variable now : Z.
Variable Date_parse : str -> option Z.
Variable lists : JsMap.t BoardList.t.
Variable labels : JsMap.t Label.t.
Variable statuses : JsMap.t str.
Variable World : Type.
Variable send : request -> World -> option str * World.

(** The labels that [updateCardLabels] wants on a card, per manager. *)
Definition wantedOfDisaster (card : Disasters.PCard.t)
    (disaster : Disasters.Disaster.t) : JsMap.t str :=
  JsMap.of_list
    (Disasters.getDisasterLabels labels disaster
     ++ Disasters.getProfileUpdateLabel now Date_parse labels
          (Disasters.PCard.profileUpdate card)).

Definition wantedOfCountry (card : Countries.PCard.t)
    (country : Countries.Country.t) : JsMap.t str :=
  JsMap.of_list
    (Countries.getCountryLabels statuses labels country
     ++ Countries.getProfileUpdateLabel now Date_parse labels
          (Countries.PCard.profileUpdate card)).

Lemma topics_requests (card : Topics.PCard.t) (topic : Topics.Topic.t)
    (wanted : JsMap.t str) (w : World) :
  Topics.getTopicLabels now Date_parse lists labels topic = Some wanted ->
  sent (Topics.updateCardLabels now Date_parse lists labels send card topic w)
  = requests (Card.id (Topics.PCard.card card)) (JsMap.has labels) wanted
      (Card.labels (Topics.PCard.card card))
  /\ exists changed,
      result (Topics.updateCardLabels now Date_parse lists labels send card topic w)
      = Some changed.
Proof.
  intros Hw. unfold Topics.updateCardLabels. rewrite Hw.
  rewrite sent_bind, result_bind. unfold requests.
  match goal with
  | |- context [for_of ?l (wanted, false) ?body w] =>
      destruct (@first_loop World send (JsMap.has labels)
                  (Card.id (Topics.PCard.card card)) body
                  ltac:(intros; reflexivity) l wanted false w) as [Hs [c Hr]]
  end.
  rewrite Hs, Hr. simpl fst. simpl snd.
  match goal with
  | |- context [for_of ?m c ?body ?w'] =>
      destruct (@second_loop World send (Card.id (Topics.PCard.card card)) body
                  ltac:(intros; reflexivity) m c w') as [Hs2 Hr2]
  end.
  rewrite Hs2. split; [reflexivity | exact Hr2].
Qed.

Lemma countries_requests (card : Countries.PCard.t)
    (country : Countries.Country.t) (w : World) :
  sent (Countries.updateCardLabels statuses now Date_parse labels send card country w)
  = requests (Card.id (Countries.PCard.card card)) (JsMap.has labels)
      (wantedOfCountry card country) (Card.labels (Countries.PCard.card card))
  /\ exists changed,
      result (Countries.updateCardLabels statuses now Date_parse labels send card country w)
      = Some changed.
Proof.
  unfold Countries.updateCardLabels.
  rewrite sent_bind, result_bind. unfold requests.
  fold (wantedOfCountry card country).
  match goal with
  | |- context [for_of ?l (?wanted, false) ?body w] =>
      destruct (@first_loop World send (JsMap.has labels)
                  (Card.id (Countries.PCard.card card)) body
                  ltac:(intros; reflexivity) l wanted false w) as [Hs [c Hr]]
  end.
  rewrite Hs, Hr. simpl fst. simpl snd.
  match goal with
  | |- context [for_of ?m c ?body ?w'] =>
      destruct (@second_loop World send (Card.id (Countries.PCard.card card)) body
                  ltac:(intros; reflexivity) m c w') as [Hs2 Hr2]
  end.
  rewrite Hs2. split; [reflexivity | exact Hr2].
Qed.

Lemma disasters_requests (card : Disasters.PCard.t)
    (disaster : Disasters.Disaster.t) (w : World) :
  sent (Disasters.updateCardLabels now Date_parse labels send card disaster w)
  = requests (Card.id (Disasters.PCard.card card)) (fun _ => true)
      (wantedOfDisaster card disaster) (Card.labels (Disasters.PCard.card card))
  /\ exists changed,
      result (Disasters.updateCardLabels now Date_parse labels send card disaster w)
      = Some changed.
Proof.
  unfold Disasters.updateCardLabels.
  rewrite sent_bind, result_bind. unfold requests.
  fold (wantedOfDisaster card disaster).
  match goal with
  | |- context [for_of ?l (?wanted, false) ?body w] =>
      destruct (@first_loop World send (fun _ => true)
                  (Card.id (Disasters.PCard.card card)) body
                  ltac:(intros; reflexivity) l wanted false w) as [Hs [c Hr]]
  end.
  rewrite Hs, Hr. simpl fst. simpl snd.
  match goal with
  | |- context [for_of ?m c ?body ?w'] =>
      destruct (@second_loop World send (Card.id (Disasters.PCard.card card)) body
                  ltac:(intros; reflexivity) m c w') as [Hs2 Hr2]
  end.
  rewrite Hs2. split; [reflexivity | exact Hr2].
Qed.

(** A removal among the requests of a diff comes from a removed label. *)
Lemma removal_in_requests cardId managed (wanted : JsMap.t str) cardLabels
    cardId' labelId :
  In (DELETE_card_idLabel cardId' labelId)
     (requests cardId managed wanted cardLabels) ->
  exists label, In label (removed managed wanted cardLabels)
                /\ Label.id label = labelId.
Proof.
  unfold requests. rewrite List.in_app_iff, !List.in_map_iff.
  intros [[label [Heq Hin]]|[e [Heq _]]]; [|discriminate].
  exists label. split; [exact Hin | congruence].
Qed.

(** The guard on the removal of labels.  In the topics and the countries
    managers a request to remove a label from a card is sent only for a
    label of the card whose name is in [this.labels] (the managed labels)
    and, when the card's label names are distinct, is not among the
    wanted labels; so a label whose name is not managed is never removed.
    The disasters manager has no such guard and asks for the removal of
    every label of the card whose name is not wanted. *)
Theorem only_managed_labels_removed :
  (forall card topic wanted w cardId labelId,
      Topics.getTopicLabels now Date_parse lists labels topic = Some wanted ->
      In (DELETE_card_idLabel cardId labelId)
         (sent (Topics.updateCardLabels now Date_parse lists labels send
                  card topic w)) ->
      exists label,
        In label (Card.labels (Topics.PCard.card card))
        /\ Label.id label = labelId
        /\ JsMap.has labels (Label.name label) = true
        /\ (NoDup (List.map Label.name (Card.labels (Topics.PCard.card card))) ->
            JsMap.has wanted (Label.name label) = false))
  /\ (forall card country w cardId labelId,
      In (DELETE_card_idLabel cardId labelId)
         (sent (Countries.updateCardLabels statuses now Date_parse labels send
                  card country w)) ->
      exists label,
        In label (Card.labels (Countries.PCard.card card))
        /\ Label.id label = labelId
        /\ JsMap.has labels (Label.name label) = true
        /\ (NoDup (List.map Label.name (Card.labels (Countries.PCard.card card))) ->
            JsMap.has (wantedOfCountry card country) (Label.name label) = false))
  /\ (forall card disaster w label,
      In label (Card.labels (Disasters.PCard.card card)) ->
      JsMap.has (wantedOfDisaster card disaster) (Label.name label) = false ->
      In (DELETE_card_idLabel (Card.id (Disasters.PCard.card card)) (Label.id label))
         (sent (Disasters.updateCardLabels now Date_parse labels send
                  card disaster w))).
Proof.
  split; [|split].
  - intros card topic wanted w cardId labelId Hw Hin.
    destruct (@topics_requests card topic wanted w Hw) as [Hs _]. rewrite Hs in Hin.
    apply removal_in_requests in Hin as [label [Hr Hid]].
    exists label. destruct (removed_managed _ _ _ _ Hr) as [Hc Hm].
    repeat split; try assumption.
    intros Hnd. now apply (removed_unwanted (JsMap.has labels) wanted wanted
                             (Card.labels (Topics.PCard.card card))).
  - intros card country w cardId labelId Hin.
    destruct (countries_requests card country w) as [Hs _]. rewrite Hs in Hin.
    apply removal_in_requests in Hin as [label [Hr Hid]].
    exists label. destruct (removed_managed _ _ _ _ Hr) as [Hc Hm].
    repeat split; try assumption.
    intros Hnd. now apply (removed_unwanted (JsMap.has labels)
                             (wantedOfCountry card country)
                             (wantedOfCountry card country)
                             (Card.labels (Countries.PCard.card card))).
  - intros card disaster w label Hin Hw.
    destruct (disasters_requests card disaster w) as [Hs _]. rewrite Hs.
    unfold requests. apply List.in_or_app. left.
    apply List.in_map_iff. exists label. split; [reflexivity|].
    now apply unwanted_removed.
Qed.

End Claim.

(** The topics manager on a card that carries a hand-made label and a
    managed label that the topic does not want: the managed one is the
    one removed. *)
Lemma only_managed_labels_removed_witness :
  exists label,
    In label (Card.labels Example.card)
    /\ Label.id label = lit "B2"
    /\ JsMap.has Example.labels (Label.name label) = true
    /\ Label.name label <> Label.name Example.custom.
Proof.
  destruct (only_managed_labels_removed Example.now Example.Date_parse
              Example.lists Example.labels [] Example.accept)
    as [Htopics _].
  destruct (Htopics (Topics.PCard.Build_t Example.card None None) Example.topic
              [(lit "Flood", lit "B1"); (lit "Ongoing", lit "B3")] tt
              (lit "C1") (lit "B2"))
    as [label [Hin [Hid [Hm Hw]]]].
  - vm_compute. reflexivity.
  - vm_compute. left. reflexivity.
  - exists label. repeat split; try assumption.
    intros Hname. rewrite Hname in Hm. vm_compute in Hm. discriminate.
Defined.

(** C3.  The disasters manager removes a label that it does not manage.
    On the card of the examples, which bears the label [Custom] that an
    editor added and whose name is not in [this.labels],
    [updateCardLabels] asks for the removal of that label: the test
    [this.labels.has(label.name)] that guards the removal in the topics
    and the countries managers, so that editors can add labels of their
    own, is missing from the disasters manager. *)
Lemma disasters_remove_unmanaged_label :
  JsMap.has Example.labels (Label.name Example.custom) = false
  /\ In (DELETE_card_idLabel (lit "C1") (Label.id Example.custom))
        (sent (Disasters.updateCardLabels Example.now Example.Date_parse
                 Example.labels Example.accept
                 (Disasters.prepareCard Example.card) Example.disaster tt)).
Proof. split; [reflexivity|]. vm_compute. left. reflexivity. Qed.

End ManagedLabels.

(** ** The requests of [updateCard] *)

Module CardUpdate.
Import Js JsFacts JsMapFacts JsNumber Trello Async AsyncFacts LabelDiff.

(** The request that ends [updateCard]: sent when [data] is not empty. *)
Definition put (cardId : str) (data : JsMap.t value) : list request :=
  if (0 <? JsMap.size data)%nat then [PUT_card cardId data] else [].

Section Requests.

Variable now : Z.
Variable Date_parse : str -> option Z.
Variable currentDate : str.
Variable lists : JsMap.t BoardList.t.
Variable labels : JsMap.t Label.t.
Variable statuses : JsMap.t str.
Variable World : Type.
Variable send : request -> World -> option str * World.

Lemma disasters_sent position card disaster list (w : World) :
  JsMap.get lists (Disasters.Disaster.status disaster) = Some list ->
  sent (Disasters.updateCard now Date_parse currentDate lists labels send
          position card disaster w)
  = sent (Disasters.updateCardLabels now Date_parse labels send
            (Disasters.touched currentDate card disaster) disaster w)
    ++ put (Card.id (Disasters.PCard.card card))
         (Disasters.cardData currentDate position card disaster list).
Proof.
  intros Hl. unfold Disasters.updateCard. rewrite Hl, sent_bind.
  destruct (ManagedLabels.disasters_requests now Date_parse labels send
              (Disasters.touched currentDate card disaster) disaster w)
    as [_ [changed Hr]].
  rewrite Hr. unfold put.
  destruct (0 <? JsMap.size _)%nat; [|reflexivity].
  now rewrite sent_bind, sent_await, result_await.
Qed.

Lemma countries_sent card country (w : World) :
  sent (Countries.updateCard statuses now Date_parse currentDate labels send
          card country w)
  = sent (Countries.updateCardLabels statuses now Date_parse labels send
            card country w)
    ++ put (Card.id (Countries.PCard.card card))
         (Countries.cardData currentDate card country).
Proof.
  unfold Countries.updateCard. rewrite sent_bind.
  destruct (ManagedLabels.countries_requests now Date_parse labels statuses send
              card country w)
    as [_ [changed Hr]].
  rewrite Hr. unfold put.
  destruct (0 <? JsMap.size _)%nat; [|reflexivity].
  now rewrite sent_bind, sent_await, result_await.
Qed.

(** The requests of the checklist functions: none of them touches the
    card itself. *)
Definition on_checklists (q : request) : bool :=
  match q with
  | POST_card_checklists _ _ | POST_checklist_checkItems _ _ _
  | PUT_card_checkItem _ _ _ _ _ | DELETE_checklist_checkItem _ _ => true
  | _ => false
  end.

Lemma await_then {A} (q : request) (x : A) (w : World) :
  bind (await send q) (fun _ => ret x) w
  = Outcome (Some x) [q] (snd (send q w)).
Proof. unfold bind, await. now destruct (send q w). Qed.

Lemma addCheckItem_run checklistId item (w : World) :
  Topics.addCheckItem send checklistId item w
  = Outcome (Some tt)
      [POST_checklist_checkItems checklistId (Topics.Item.name item)
         (Topics.Item.position item)]
      (snd (send (POST_checklist_checkItems checklistId (Topics.Item.name item)
                    (Topics.Item.position item)) w)).
Proof. apply await_then. Qed.

Lemma updateCheckItem_run cardId checklistId id item (w : World) :
  Topics.updateCheckItem send cardId checklistId id item w
  = Outcome (Some tt)
      [PUT_card_checkItem cardId checklistId id (Topics.Item.name item)
         (Topics.Item.position item)]
      (snd (send (PUT_card_checkItem cardId checklistId id
                    (Topics.Item.name item) (Topics.Item.position item)) w)).
Proof. apply await_then. Qed.

Lemma deleteCheckItem_run checklistId id (w : World) :
  Topics.deleteCheckItem send checklistId id w
  = Outcome (Some tt) [DELETE_checklist_checkItem checklistId id]
      (snd (send (DELETE_checklist_checkItem checklistId id) w)).
Proof. apply await_then. Qed.

Lemma addItems_sent checklistId (items : list Topics.Item.t) (w : World) :
  List.forallb on_checklists
    (sent (for_of items tt
             (fun _ item => Topics.addCheckItem send checklistId item) w)) = true
  /\ result (for_of items tt
               (fun _ item => Topics.addCheckItem send checklistId item) w)
     = Some tt.
Proof.
  revert w. induction items as [|item items IH]; intros w; [now split|].
  cbn [for_of]. rewrite sent_bind, result_bind, addCheckItem_run.
  cbn [result sent after].
  match goal with
  | |- context [for_of items tt ?body ?w'] => destruct (IH w') as [Hs Hr]
  end.
  cbn [List.app List.forallb on_checklists]. now rewrite Hs, Hr.
Qed.

Lemma addChecklist_sent cardId name items (w : World) :
  List.forallb on_checklists
    (sent (Topics.addChecklist send cardId name items w)) = true
  /\ result (Topics.addChecklist send cardId name items w) = Some tt.
Proof.
  unfold Topics.addChecklist. run.
  destruct (fst (send (POST_card_checklists cardId name) w)) as [checklist_id|].
  - match goal with
    | |- context [for_of ?l tt ?body ?w'] =>
        destruct (addItems_sent checklist_id l w') as [Hs Hr]
    end.
    cbn [List.app List.forallb on_checklists]. now rewrite Hs, Hr.
  - now split.
Qed.

Lemma addNew_sent checklistId (items : list Topics.Item.t) changed (w : World) :
  List.forallb on_checklists
    (sent (for_of items changed
             (fun _ action =>
                bind (Topics.addCheckItem send checklistId action)
                  (fun _ => ret true)) w)) = true
  /\ exists changed',
      result (for_of items changed
                (fun _ action =>
                   bind (Topics.addCheckItem send checklistId action)
                     (fun _ => ret true)) w)
      = Some changed'.
Proof.
  revert changed w. induction items as [|item items IH]; intros changed w.
  - split; [reflexivity | now exists changed].
  - cbn [for_of]. run. rewrite addCheckItem_run. run.
    match goal with
    | |- context [for_of items true ?body ?w'] => destruct (IH true w') as [Hs Hr]
    end.
    rewrite List.app_nil_r.
    cbn [List.app List.forallb on_checklists]. now rewrite Hs.
Qed.

Lemma updateChecklist_sent cardId checklist items (w : World) :
  List.forallb on_checklists
    (sent (Topics.updateChecklist send cardId checklist items w)) = true
  /\ exists changed,
      result (Topics.updateChecklist send cardId checklist items w) = Some changed.
Proof.
  unfold Topics.updateChecklist. rewrite sent_bind, result_bind.
  match goal with
  | |- context [for_of ?L (items, false) ?body w] =>
      assert (Hloop : forall l st w',
                 List.forallb on_checklists (sent (for_of l st body w')) = true
                 /\ exists st', result (for_of l st body w') = Some st');
        [|destruct (Hloop L (items, false) w) as [Hs [st' Hr]]]
  end.
  - induction l as [|checkitem rest IH]; intros st w'.
    + split; [reflexivity | now exists st].
    + cbn [for_of]. run.
      destruct (0 <? indexOf (CheckItem.name checkitem) (lit "](")).
      * destruct (JsMap.get (fst st) _) as [item|].
        -- destruct (_ || _).
           ++ run. rewrite updateCheckItem_run. run.
              match goal with
              | |- context [for_of rest ?s ?body ?w2] =>
                  destruct (IH s w2) as [Hs Hr]
              end.
              rewrite List.app_nil_r.
              cbn [List.app List.forallb on_checklists]. split; [exact Hs | exact Hr].
           ++ run. apply IH.
        -- run. rewrite deleteCheckItem_run. run.
           match goal with
           | |- context [for_of rest ?s ?body ?w2] =>
               destruct (IH s w2) as [Hs Hr]
           end.
           rewrite List.app_nil_r.
           cbn [List.app List.forallb on_checklists]. split; [exact Hs | exact Hr].
      * run. apply IH.
  - rewrite Hr.
    match goal with
    | |- context [for_of ?l ?c ?body ?w'] =>
        destruct (addNew_sent (Checklist.id checklist) l c w') as [Hs' Hr']
    end.
    rewrite List.forallb_app, Hs, Hs'. split; [reflexivity | exact Hr'].
Qed.

Lemma updateCardChecklists_sent cardId cardChecklists topic (w : World) :
  List.forallb on_checklists
    (sent (Topics.updateCardChecklists send cardId cardChecklists topic w)) = true
  /\ exists changed,
      result (Topics.updateCardChecklists send cardId cardChecklists topic w)
      = Some changed.
Proof.
  unfold Topics.updateCardChecklists.
  match goal with
  | |- context [for_of ?L false ?body w] =>
      assert (Hloop : forall l c w',
                 List.forallb on_checklists (sent (for_of l c body w')) = true
                 /\ exists c', result (for_of l c body w') = Some c');
        [|exact (Hloop L false w)]
  end.
  induction l as [|[name items] rest IH]; intros changed w'.
  - split; [reflexivity | now exists changed].
  - cbn [for_of]. run.
    destruct (JsMap.get _ name) as [checklist|].
    + destruct (updateChecklist_sent cardId checklist items w') as [Hs [c Hr]].
      run. rewrite Hr. run.
      match goal with
      | |- context [for_of rest ?c' ?body ?w2] => destruct (IH c' w2) as [Hs' Hr']
      end.
      rewrite List.app_nil_r, !List.forallb_app, Hs, Hs'.
      split; [reflexivity | exact Hr'].
    + destruct (addChecklist_sent cardId name items w') as [Hs Hr].
      run. rewrite Hr. run.
      match goal with
      | |- context [for_of rest ?c' ?body ?w2] => destruct (IH c' w2) as [Hs' Hr']
      end.
      rewrite List.app_nil_r, !List.forallb_app, Hs, Hs'.
      split; [reflexivity | exact Hr'].
Qed.

(** The requests of the topics [updateCard]: the label diff, requests on
    the checklists, and the card update. *)
Lemma topics_sent position card topic list wanted (w : World) :
  Topics.statusList lists card topic = Some list ->
  Topics.getTopicLabels now Date_parse lists labels topic = Some wanted ->
  exists onChecklists,
    sent (Topics.updateCard now Date_parse lists labels send
            position card topic w)
    = sent (Topics.updateCardLabels now Date_parse lists labels send card topic w)
      ++ onChecklists
      ++ put (Card.id (Topics.PCard.card card))
           (Topics.cardData lists position card topic list)
    /\ List.forallb on_checklists onChecklists = true.
Proof.
  intros Hl Hw. unfold Topics.updateCard. rewrite Hl, sent_bind.
  destruct (@ManagedLabels.topics_requests now Date_parse lists labels World send
              card topic wanted w Hw) as [_ [l Hr]].
  rewrite Hr, sent_bind.
  match goal with
  | |- context [Topics.updateCardChecklists send ?i ?c topic ?w'] =>
      destruct (updateCardChecklists_sent i c topic w') as [Hs [k Hk]];
      exists (sent (Topics.updateCardChecklists send i c topic w'))
  end.
  rewrite Hk. split; [|exact Hs]. do 2 f_equal. unfold put.
  destruct (0 <? JsMap.size _)%nat; [|reflexivity].
  now rewrite sent_bind, sent_await, result_await.
Qed.

End Requests.

End CardUpdate.

(** ** The fields that [updateCard] writes (C4, C5, C9) *)

Module CardFields.
Import Js JsFacts JsMapFacts JsNumber Trello Async AsyncFacts CardUpdate.

(** Case analysis on the conditions of a [data] map, then evaluation of
    the map operations on its literal keys. *)
Ltac data_cases :=
  repeat match goal with
         | |- context [if ?c then _ else _] => destruct c
         end;
  reflexivity.

Section Fields.

Variable now : Z.
Variable Date_parse : str -> option Z.
Variable currentDate : str.
Variable lists : JsMap.t BoardList.t.
Variable labels : JsMap.t Label.t.
Variable World : Type.
Variable send : request -> World -> option str * World.

(** *** The name *)

Lemma topics_name position card topic list :
  JsMap.get (Topics.cardData lists position card topic list) (lit "name")
  = if negb (eqb (Card.name (Topics.PCard.card card)) (Topics.Topic.title topic))
    then Some (VStr (Topics.Topic.title topic))
    else None.
Proof. unfold Topics.cardData. destruct list; data_cases. Qed.

Lemma disasters_name position card disaster list :
  JsMap.get (Disasters.cardData currentDate position card disaster list)
    (lit "name")
  = if negb (eqb (Card.name (Disasters.PCard.card card))
               (Disasters.Disaster.name disaster))
    then Some (VStr (lit "disaster.name"))
    else None.
Proof. unfold Disasters.cardData. data_cases. Qed.

(** *** The list and the position *)

Lemma topics_idList position card topic list :
  JsMap.get (Topics.cardData lists position card topic list) (lit "idList")
  = match list with
    | Some list =>
        if Topics.managedList lists (Topics.PCard.card card)
           && negb (eqb (Card.idList (Topics.PCard.card card)) (BoardList.id list))
        then Some (VStr (BoardList.id list))
        else None
    | None => None
    end.
Proof. unfold Topics.cardData. destruct list; data_cases. Qed.

Lemma topics_pos position card topic list :
  JsMap.get (Topics.cardData lists position card topic list) (lit "pos")
  = if Topics.managedList lists (Topics.PCard.card card)
       && negb (round_toFixed (Card.pos (Topics.PCard.card card)) =? position)
    then Some (VNum position)
    else None.
Proof. unfold Topics.cardData. destruct list; data_cases. Qed.

Lemma topics_desc position card topic list :
  JsMap.get (Topics.cardData lists position card topic list) (lit "desc")
  = if Disasters.differs (Topics.Topic.introduction topic)
         (Topics.PCard.introduction card)
       || Disasters.differs (Topics.Topic.lastUpdate topic)
            (Topics.PCard.lastUpdate card)
    then Some (VStr (Topics.generateCardDescription
                       (Card.desc (Topics.PCard.card card))
                       (Topics.Topic.lastUpdate topic)
                       (Topics.Topic.introduction topic)))
    else None.
Proof. unfold Topics.cardData. destruct list; data_cases. Qed.

Lemma topics_closed position card topic list :
  JsMap.get (Topics.cardData lists position card topic list) (lit "closed")
  = if Card.closed (Topics.PCard.card card)
    then Some (VStr (lit "false"))
    else None.
Proof. unfold Topics.cardData. destruct list; data_cases. Qed.

Lemma disasters_idList position card disaster list :
  JsMap.get (Disasters.cardData currentDate position card disaster list)
    (lit "idList")
  = if negb (eqb (Card.idList (Disasters.PCard.card card)) (BoardList.id list))
    then Some (VStr (BoardList.id list))
    else None.
Proof. unfold Disasters.cardData. data_cases. Qed.

Lemma disasters_pos position card disaster list :
  JsMap.get (Disasters.cardData currentDate position card disaster list)
    (lit "pos")
  = if negb (round_toFixed (Card.pos (Disasters.PCard.card card)) =? position)
    then Some (VNum position)
    else None.
Proof. unfold Disasters.cardData. data_cases. Qed.

Lemma disasters_closed position card disaster list :
  JsMap.get (Disasters.cardData currentDate position card disaster list)
    (lit "closed")
  = if Card.closed (Disasters.PCard.card card)
    then Some (VStr (lit "false"))
    else None.
Proof. unfold Disasters.cardData. data_cases. Qed.

Lemma disasters_desc position card disaster list :
  JsMap.get (Disasters.cardData currentDate position card disaster list)
    (lit "desc")
  = if Disasters.differs (Disasters.Disaster.overview disaster)
         (Disasters.PCard.profile card)
       || Disasters.differs (Disasters.Disaster.glide disaster)
            (Disasters.PCard.glide card)
    then Some (VStr (Disasters.generateCardDescription currentDate disaster
                       (Disasters.PCard.profileUpdate
                          (Disasters.touched currentDate card disaster))))
    else None.
Proof. unfold Disasters.cardData. data_cases. Qed.

End Fields.

End CardFields.

(** ** The card name (C4) *)

Module CardName.
Import Js Trello Async.

(** A disaster card that differs from its disaster by the name only. *)
Definition renamed : Card.t :=
  Example.tracked (lit "Flood") (lit "L2") Example.currentDate
    (Disasters.Disaster.glide Example.disaster).

(** C4 in the disasters manager: when the names differ, the card update
    carries the text [disaster.name] itself, not the name of the
    disaster. *)
Theorem disasters_write_a_literal_name :
  sent (Disasters.updateCard Example.now Example.Date_parse Example.currentDate
          Example.lists Example.labels Example.accept
          (Disasters.maxIndex - 100) (Disasters.prepareCard renamed)
          Example.disaster tt)
  = [PUT_card (lit "C1") [(lit "name", VStr (lit "disaster.name"))]]
  /\ Card.name renamed = lit "Flood"
  /\ Disasters.Disaster.name Example.disaster = lit "Flood in Chad".
Proof. repeat split; vm_compute; reflexivity. Qed.

(** The same card in the topics manager would get the title of the
    topic. *)
Lemma topics_write_the_title lists position card topic list :
  Card.name (Topics.PCard.card card) <> Topics.Topic.title topic ->
  JsMap.get (Topics.cardData lists position card topic list) (lit "name")
  = Some (VStr (Topics.Topic.title topic)).
Proof.
  intros H. rewrite CardFields.topics_name.
  apply JsFacts.eqb_neq in H. now rewrite H.
Qed.

Lemma topics_keep_an_equal_name lists position card topic list :
  Card.name (Topics.PCard.card card) = Topics.Topic.title topic ->
  JsMap.get (Topics.cardData lists position card topic list) (lit "name") = None.
Proof.
  intros H. rewrite CardFields.topics_name.
  apply JsFacts.eqb_eq in H. now rewrite H.
Qed.

End CardName.

(** ** The list and the position (C5) *)

Module ListMembership.
Import Js JsNumber Trello Async CardUpdate.

Section Claim.

Variable now : Z.
Variable Date_parse : str -> option Z.
Variable currentDate : str.
Variable lists : JsMap.t BoardList.t.
Variable labels : JsMap.t Label.t.
Variable World : Type.
Variable send : request -> World -> option str * World.

(** The guard on the list and the position of a card.  In the topics
    manager a card that is in none of the status lists gets its labels
    and checklists updated and, when a card update is sent, its data
    holds neither [idList] nor [pos], while the description is still
    written when the introduction or the update date changed.  The
    disasters manager has no such guard: it writes [idList] whenever the
    card is not in the list of the disaster's status and [pos] whenever
    the rounded position differs, whatever list the card is in. *)
Theorem unmanaged_list_left_alone :
  (forall position card topic wanted (w : World),
      Topics.managedList lists (Topics.PCard.card card) = false ->
      Topics.getTopicLabels now Date_parse lists labels topic = Some wanted ->
      exists onChecklists data,
        sent (Topics.updateCard now Date_parse lists labels send
                position card topic w)
        = sent (Topics.updateCardLabels now Date_parse lists labels send
                  card topic w)
          ++ onChecklists ++ put (Card.id (Topics.PCard.card card)) data
        /\ List.forallb on_checklists onChecklists = true
        /\ JsMap.get data (lit "idList") = None
        /\ JsMap.get data (lit "pos") = None
        /\ JsMap.get data (lit "desc")
           = if Disasters.differs (Topics.Topic.introduction topic)
                  (Topics.PCard.introduction card)
                || Disasters.differs (Topics.Topic.lastUpdate topic)
                     (Topics.PCard.lastUpdate card)
             then Some (VStr (Topics.generateCardDescription
                                (Card.desc (Topics.PCard.card card))
                                (Topics.Topic.lastUpdate topic)
                                (Topics.Topic.introduction topic)))
             else None)
  /\ (forall position card disaster list,
      JsMap.get (Disasters.cardData currentDate position card disaster list)
        (lit "idList")
      = (if negb (eqb (Card.idList (Disasters.PCard.card card)) (BoardList.id list))
         then Some (VStr (BoardList.id list))
         else None)
      /\ JsMap.get (Disasters.cardData currentDate position card disaster list)
           (lit "pos")
         = (if negb (round_toFixed (Card.pos (Disasters.PCard.card card)) =? position)
            then Some (VNum position)
            else None)).
Proof.
  split.
  - intros position card topic wanted w Hm Hw.
    assert (Hl : Topics.statusList lists card topic = Some None).
    { unfold Topics.statusList. now rewrite Hm. }
    destruct (@topics_sent now Date_parse lists labels World send position card
                topic None wanted w Hl Hw) as [onChecklists [Hs Hc]].
    exists onChecklists, (Topics.cardData lists position card topic None).
    split; [exact Hs|]. split; [exact Hc|].
    rewrite CardFields.topics_idList, CardFields.topics_pos,
      CardFields.topics_desc, Hm.
    repeat split.
  - intros position card disaster list. split.
    + apply CardFields.disasters_idList.
    + apply CardFields.disasters_pos.
Qed.

End Claim.

(** The card of the examples is in list [L7], which is not a status list;
    its topic differs from it in every field. *)
Lemma unmanaged_list_left_alone_witness :
  exists onChecklists data,
    sent (Topics.updateCard Example.now Example.Date_parse Example.lists
            Example.labels Example.accept (Topics.maxIndex - 100)
            (Topics.prepareCard Example.card) Example.topic tt)
    = sent (Topics.updateCardLabels Example.now Example.Date_parse
              Example.lists Example.labels Example.accept
              (Topics.prepareCard Example.card) Example.topic tt)
      ++ onChecklists ++ put (lit "C1") data
    /\ JsMap.get data (lit "idList") = None
    /\ JsMap.get data (lit "pos") = None
    /\ JsMap.get data (lit "desc") <> None.
Proof.
  destruct (unmanaged_list_left_alone Example.now Example.Date_parse
              Example.currentDate Example.lists Example.labels Example.accept)
    as [Htopics _].
  destruct (Htopics (Topics.maxIndex - 100) (Topics.prepareCard Example.card)
              Example.topic
              [(lit "Flood", lit "B1"); (lit "Ongoing", lit "B3")] tt)
    as [onChecklists [data [Hs [_ [Hi [Hp Hd]]]]]].
  - vm_compute. reflexivity.
  - vm_compute. reflexivity.
  - exists onChecklists, data. split; [exact Hs|]. split; [exact Hi|].
    split; [exact Hp|]. rewrite Hd. vm_compute. discriminate.
Defined.

(** C5.  The disasters manager moves a card that an editor took out of
    the status lists.  The card of the examples is in list [L7], which is
    not a status list; [updateCard] sends a card update that moves it to
    the list of the status of the disaster and sets its position: the
    test [managedList] that guards both writes in the topics manager is
    missing from the disasters manager. *)
Lemma disasters_move_card_of_unmanaged_list :
  List.existsb (fun list => eqb (Card.idList Example.card) (BoardList.id list))
    (JsMap.values Example.lists) = false
  /\ exists data,
      In (PUT_card (lit "C1") data)
         (sent (Disasters.updateCard Example.now Example.Date_parse
                  Example.currentDate Example.lists Example.labels Example.accept
                  (Disasters.maxIndex - 100) (Disasters.prepareCard Example.card)
                  Example.disaster tt))
      /\ JsMap.get data (lit "idList") = Some (VStr (lit "L2"))
      /\ JsMap.get data (lit "pos") = Some (VNum 9999900).
Proof.
  split; [reflexivity|].
  eexists. split; [vm_compute; do 3 right; left; reflexivity|].
  split; reflexivity.
Qed.

End ListMembership.

(** ** The update date in the description (C9) *)

Module Timestamp.
Import Js JsFacts Trello.

(** The description of a disaster card that carries [timestamp]. *)
Definition written (disaster : Disasters.Disaster.t) (timestamp : str)
    : option value :=
  Some (VStr (Disasters.profileUpdateHeader ++ timestamp
              ++ Disasters.profileHeader
              ++ Disasters.Disaster.overview disaster
              ++ Disasters.glideHeader
              ++ Disasters.Disaster.glide disaster)).

(** The update date read from the card, or the date of the run when the
    card holds none or an empty one ([updateDate || this.currentDate]). *)
Definition stored_or_now (currentDate : str) (stored : option str) : str :=
  match stored with
  | Some stored => if truthy stored then stored else currentDate
  | None => currentDate
  end.

Lemma differs_same (a : str) : Disasters.differs a (Some a) = false.
Proof. simpl. now rewrite eqb_refl. Qed.

Lemma differs_other (a : str) (b : option str) :
  b <> Some a -> Disasters.differs a b = true.
Proof.
  destruct b as [b|]; simpl; [|reflexivity].
  intros H. destruct (eqb a b) eqn:E; [|reflexivity].
  apply eqb_eq in E. subst. contradiction.
Qed.

Lemma or_else_self (a : str) : or_else a a = a.
Proof. unfold or_else. now destruct (truthy a). Qed.

(** C9, as amended, for the disasters manager.  The description is
    written with the date of the run when the overview differs from the
    profile read from the card.  When the overview is unchanged and only
    the glide number differs, it is written with the update date read
    from the card, except that an empty date is replaced by the date of
    the run.  When neither differs no description is written. *)
Theorem timestamp_follows_the_profile
    (currentDate : str) (position : Z) (card : Disasters.PCard.t)
    (disaster : Disasters.Disaster.t) (list : BoardList.t) :
  let desc :=
    JsMap.get (Disasters.cardData currentDate position card disaster list)
      (lit "desc") in
  let overview := Disasters.Disaster.overview disaster in
  let glide := Disasters.Disaster.glide disaster in
  (Disasters.PCard.profile card <> Some overview ->
   desc = written disaster currentDate)
  /\ (Disasters.PCard.profile card = Some overview ->
      Disasters.PCard.glide card <> Some glide ->
      desc = written disaster
               (stored_or_now currentDate (Disasters.PCard.profileUpdate card)))
  /\ (Disasters.PCard.profile card = Some overview ->
      Disasters.PCard.glide card = Some glide ->
      desc = None).
Proof.
  cbv zeta. rewrite CardFields.disasters_desc. unfold Disasters.touched.
  split; [|split].
  - intros Hp. rewrite (differs_other Hp). simpl.
    unfold written, Disasters.generateCardDescription.
    now rewrite or_else_self.
  - intros Hp Hg. rewrite Hp, differs_same, (differs_other Hg). simpl.
    unfold written, Disasters.generateCardDescription, stored_or_now, or_else.
    destruct (Disasters.PCard.profileUpdate card) as [stored|]; reflexivity.
  - intros Hp Hg. now rewrite Hp, Hg, !differs_same.
Qed.

(** A card whose profile is that of the disaster, with the update date
    [1 Apr 1970] and another glide number. *)
Definition reglided : Disasters.PCard.t :=
  Disasters.prepareCard
    (Example.tracked (lit "Flood in Chad") (lit "L2") (lit "1 Apr 1970")
       (lit "FL-1999")).

Lemma timestamp_follows_the_profile_witness :
  JsMap.get (Disasters.cardData Example.currentDate (Disasters.maxIndex - 100)
               reglided Example.disaster
               (BoardList.Build_t (lit "L2") (lit "Ongoing")))
    (lit "desc")
  = written Example.disaster (lit "1 Apr 1970").
Proof.
  destruct (timestamp_follows_the_profile Example.currentDate
              (Disasters.maxIndex - 100) reglided Example.disaster
              (BoardList.Build_t (lit "L2") (lit "Ongoing")))
    as [_ [Hglide _]].
  apply Hglide; [reflexivity | vm_compute; discriminate].
Defined.

(** The same card with an empty update date. *)
Definition undated : Disasters.PCard.t :=
  Disasters.prepareCard
    (Example.tracked (lit "Flood in Chad") (lit "L2") [] (lit "FL-1999")).

(** C9 as the specification states it fails: the overview is the profile
    of the card, the date stored in the card is the empty text, and the
    description is written with the date of the run. *)
Lemma empty_timestamp_is_renewed :
  Disasters.PCard.profile undated
  = Some (Disasters.Disaster.overview Example.disaster)
  /\ Disasters.PCard.profileUpdate undated = Some []
  /\ JsMap.get (Disasters.cardData Example.currentDate (Disasters.maxIndex - 100)
                  undated Example.disaster
                  (BoardList.Build_t (lit "L2") (lit "Ongoing")))
       (lit "desc")
     = written Example.disaster Example.currentDate
  /\ written Example.disaster Example.currentDate <> written Example.disaster [].
Proof. repeat split; try reflexivity. vm_compute. discriminate. Qed.

End Timestamp.

(** ** The order of the entities (C7) *)

Module Sorting.
Import Js Trello.

(** Two disasters of the API response, the newer one in the later status
    list. *)
Definition newer : Disasters.Fields.t :=
  {| Disasters.Fields.id := 10;
     Disasters.Fields.url := lit "https://reliefweb.int/taxonomy/term/10";
     Disasters.Fields.name := lit "Newer";
     Disasters.Fields.glide := None;
     Disasters.Fields.status := lit "ongoing";
     Disasters.Fields.overview := None;
     Disasters.Fields.type := [];
     Disasters.Fields.country := [] |}.

Definition older : Disasters.Fields.t :=
  {| Disasters.Fields.id := 5;
     Disasters.Fields.url := lit "https://reliefweb.int/taxonomy/term/5";
     Disasters.Fields.name := lit "Older";
     Disasters.Fields.glide := None;
     Disasters.Fields.status := lit "alert";
     Disasters.Fields.overview := None;
     Disasters.Fields.type := [];
     Disasters.Fields.country := [] |}.

Definition prepared : list Disasters.Disaster.t :=
  List.map (Disasters.prepareDisaster Example.statusPositions) [newer; older].

(** C7 in the code: the disaster of status position 2 is sorted before
    the one of status position 1, because the comparator reads [pos], which
    no disaster has, and so only compares the ids. *)
Theorem sortDisasters_ignores_the_status_position :
  List.map Disasters.Disaster.statusPosition (Disasters.sortDisasters prepared)
  = [2; 1]
  /\ List.map Disasters.Disaster.id (Disasters.sortDisasters prepared) = [10; 5]
  /\ List.map Disasters.Disaster.pos prepared = [None; None].
Proof. repeat split. Qed.

(** On prepared disasters the comparator is the descending order of the
    ids. *)
Lemma compare_prepared statusPositions (a b : Disasters.Fields.t) :
  Disasters.compare (Disasters.prepareDisaster statusPositions a)
    (Disasters.prepareDisaster statusPositions b)
  = if Disasters.Fields.id a <? Disasters.Fields.id b then 1
    else if Disasters.Fields.id a >? Disasters.Fields.id b then -1
    else 0.
Proof. reflexivity. Qed.

Lemma insert_sorted (l : list Disasters.Disaster.t) (x : Disasters.Disaster.t) :
  (forall d, In d (x :: l) -> Disasters.Disaster.pos d = None) ->
  Sorted.StronglySorted
    (fun a b => Disasters.Disaster.id b <= Disasters.Disaster.id a) l ->
  Sorted.StronglySorted
    (fun a b => Disasters.Disaster.id b <= Disasters.Disaster.id a)
    (JsArray.insert Disasters.compare x l)
  /\ forall d, In d (JsArray.insert Disasters.compare x l) <-> In d (x :: l).
Proof.
  intros Hpos Hs. induction Hs as [|y l Hs IH Hy].
  - simpl. split; [repeat constructor | tauto].
  - simpl JsArray.insert.
    assert (Hc : Disasters.compare x y
                 = if Disasters.Disaster.id x <? Disasters.Disaster.id y then 1
                   else if Disasters.Disaster.id x >? Disasters.Disaster.id y
                        then -1 else 0).
    { unfold Disasters.compare.
      now rewrite (Hpos x), (Hpos y) by (simpl; auto). }
    rewrite Hc. clear Hc.
    destruct (Disasters.Disaster.id x <? Disasters.Disaster.id y) eqn:E1.
    + change (1 <=? 0) with false. cbv iota. apply Z.ltb_lt in E1.
      destruct IH as [IHs IHin]; [intros d Hd; apply Hpos; simpl in *; tauto|].
      split.
      * constructor; [exact IHs|].
        apply List.Forall_forall. intros d Hd. apply IHin in Hd.
        destruct Hd as [<-|Hd]; [lia|].
        rewrite List.Forall_forall in Hy. now apply Hy.
      * intros d. cbn [In]. rewrite IHin. cbn [In]. tauto.
    + apply Z.ltb_ge in E1.
      assert (Hle : ((if Disasters.Disaster.id x >? Disasters.Disaster.id y
                      then -1 else 0) <=? 0) = true)
        by (destruct (_ >? _); reflexivity).
      rewrite Hle. split; [|tauto].
      constructor; [now constructor|].
      constructor; [exact E1|].
      rewrite List.Forall_forall in *. intros d Hd. specialize (Hy d Hd). lia.
Qed.

(** What [sortDisasters] does on disasters without [pos]: it orders them
    by descending id, whatever their status positions. *)
Lemma sortDisasters_by_id (l : list Disasters.Disaster.t) :
  (forall d, In d l -> Disasters.Disaster.pos d = None) ->
  Sorted.StronglySorted
    (fun a b => Disasters.Disaster.id b <= Disasters.Disaster.id a)
    (Disasters.sortDisasters l)
  /\ forall d, In d (Disasters.sortDisasters l) <-> In d l.
Proof.
  unfold Disasters.sortDisasters, JsArray.sort.
  induction l as [|x l IH]; intros Hpos.
  - simpl. split; [constructor | tauto].
  - simpl. destruct IH as [IHs IHin]; [intros d Hd; apply Hpos; now right|].
    destruct (@insert_sorted (List.fold_right (JsArray.insert Disasters.compare) [] l) x)
      as [Hs Hin]; [|exact IHs|].
    + intros d [<-|Hd]; [apply Hpos; now left|].
      apply Hpos. right. now apply IHin.
    + split; [exact Hs|]. intros d. rewrite Hin. simpl. now rewrite IHin.
Qed.

End Sorting.

(** ** The day difference is a string (C10) *)

Module DiffDays.
Import Js JsFacts JsNumber.

Lemma trimStart_id (s : str) :
  List.forallb (fun c => negb (is_space c)) s = true -> trimStart s = s.
Proof.
  destruct s as [|c s]; [reflexivity|]. simpl.
  intros H. apply andb_prop in H as [Hc _].
  now destruct (is_space c).
Qed.

Lemma trim_id (s : str) :
  List.forallb (fun c => negb (is_space c)) s = true -> trim s = s.
Proof.
  intros H. unfold trim, trimEnd. rewrite (trimStart_id _ H).
  rewrite trimStart_id; [apply List.rev_involutive|].
  rewrite List.forallb_forall in *. intros c Hc. apply H.
  now apply List.in_rev.
Qed.

Lemma digits_no_space (u : Decimal.uint) :
  List.forallb (fun c => negb (is_space c)) (digits u) = true.
Proof. induction u; simpl; auto. Qed.

Lemma read_digits_digits (u : Decimal.uint) : read_digits (digits u) = Some u.
Proof. induction u; simpl; try rewrite IHu; reflexivity. Qed.

Lemma digits_head (u : Decimal.uint) (c : char) (r : str) :
  digits u = c :: r ->
  eqb (c :: r) (lit "NaN") = false /\ N.eqb c 45 = false /\ N.eqb c 43 = false.
Proof. destruct u; simpl; intros H; inversion H; subst; repeat split. Qed.

(** The string that [toFixed] prints converts back to the number it was
    printed from. *)
Lemma toNumber_toFixed (n : num) : toNumber (toFixed n) = Some n.
Proof.
  destruct n as [|z]; [reflexivity|].
  unfold toFixed, numeral, toNumber.
  pose proof (DecimalZ.of_to z) as Hz.
  destruct (Z.to_int z) as [u|u] eqn:E.
  - rewrite trim_id by apply digits_no_space.
    destruct (digits u) as [|c r] eqn:Ed.
    + destruct u; try discriminate. simpl in Hz. now subst.
    + destruct (digits_head u Ed) as [H1 [H2 H3]].
      rewrite H1, H2, H3, <- Ed, read_digits_digits. simpl in Hz. now subst.
  - assert (Hu : u <> Decimal.Nil).
    { destruct z; simpl in E; try discriminate.
      injection E as <-. apply DecimalPos.Unsigned.to_uint_nonnil. }
    rewrite trim_id by (simpl; apply digits_no_space).
    change (eqb (45%N :: digits u) (lit "NaN")) with false. cbv iota.
    change (N.eqb 45 45) with true. cbv iota.
    destruct (digits u) eqn:Ed; [destruct u; try discriminate; contradiction|].
    rewrite <- Ed, read_digits_digits. simpl in Hz. now subst.
Qed.



Section Claim.

Variable now : Z.
Variable Date_parse : str -> option Z.

(** The number of days that [diffDays] prints. *)
Definition days (date : option str) : num :=
  DateWrapper.round_days (DateWrapper.unix now)
    (DateWrapper.unix_of (DateWrapper.clone now Date_parse date)).

(** A comparison of the printed difference with a threshold is the
    comparison of the number, after conversion. *)
Lemma threshold (date : option str) (k : Z) :
  str_gt (DateWrapper.diffDays now Date_parse date) k
  = match days date with
    | Int z => k <? z
    | NaN => false
    end.
Proof.
  unfold str_gt, DateWrapper.diffDays. fold (days date).
  rewrite toNumber_toFixed. now destruct (days date).
Qed.

Variable lists : JsMap.t Trello.BoardList.t.
Variable labels : JsMap.t Trello.Label.t.





End Claim.


End DiffDays.

(** ** Archiving the cards whose entity is gone (C6) *)

Module Archival.
Import Js JsFacts JsMapFacts JsNumber Trello Async AsyncFacts LabelDiff CardUpdate.

(** A request that does not archive a card. *)
Definition keeps (q : request) : bool := negb (is_archive q).

Lemma requests_keep cardId managed (wanted : JsMap.t str) cardLabels :
  List.forallb keeps (requests cardId managed wanted cardLabels) = true.
Proof.
  unfold requests. rewrite List.forallb_app. apply andb_true_intro.
  split; apply List.forallb_forall; intros q Hq;
    apply List.in_map_iff in Hq as [x [<- _]]; reflexivity.
Qed.

Lemma on_checklists_keep (l : list request) :
  List.forallb on_checklists l = true -> List.forallb keeps l = true.
Proof.
  rewrite !List.forallb_forall. intros H q Hq. specialize (H q Hq).
  now destruct q.
Qed.

Lemma filter_keeps (l : list request) :
  List.forallb keeps l = true -> List.filter is_archive l = [].
Proof.
  induction l as [|q l IH]; [reflexivity|]. simpl.
  intros H. apply andb_prop in H as [Hq Hl].
  unfold keeps in Hq. destruct (is_archive q); [discriminate | now apply IH].
Qed.

Lemma filter_archive (l : list Disasters.PCard.t) :
  List.filter is_archive
    (List.map (fun card =>
                 PUT_card (Card.id (Disasters.PCard.card card)) archive_data) l)
  = List.map (fun card =>
                PUT_card (Card.id (Disasters.PCard.card card)) archive_data) l.
Proof. induction l as [|c l IH]; [reflexivity|]. simpl. now rewrite IH. Qed.

(** The cards left in the map after the loop over the entities. *)
Definition remaining (disasters : list Disasters.Disaster.t)
    (cards : JsMap.t Disasters.PCard.t) : JsMap.t Disasters.PCard.t :=
  List.fold_left
    (fun cards disaster => JsMap.delete cards (Disasters.Disaster.url disaster))
    disasters cards.

(** The card is in one of the status lists. *)
Definition inStatusList (lists : JsMap.t BoardList.t) (card : Card.t) : bool :=
  List.existsb (fun list => eqb (BoardList.id list) (Card.idList card))
    (JsMap.values lists).

(** The request that archives a card. *)
Definition archive (card : Disasters.PCard.t) : request :=
  PUT_card (Card.id (Disasters.PCard.card card)) archive_data.

(** The cards that the last part of [updateBoard] archives. *)
Definition archived (lists : JsMap.t BoardList.t)
    (cards : JsMap.t Disasters.PCard.t) : list Disasters.PCard.t :=
  List.filter
    (fun card =>
       inStatusList lists (Disasters.PCard.card card)
       && negb (Card.closed (Disasters.PCard.card card)))
    (JsMap.values cards).

Lemma has_set {V} (m : JsMap.t V) (k k' : str) (v : V) :
  JsMap.has (JsMap.set m k v) k' = eqb k k' || JsMap.has m k'.
Proof.
  unfold JsMap.has. destruct (eqb k k') eqn:E.
  - apply eqb_eq in E. subst. now rewrite get_set_same.
  - apply eqb_neq in E. now rewrite get_set_other.
Qed.

Lemma has_listIds (ls : list BoardList.t) (acc : JsMap.t str) (k : str) :
  JsMap.has
    (List.fold_left
       (fun m list => JsMap.set m (BoardList.id list) (BoardList.name list))
       ls acc) k
  = JsMap.has acc k || List.existsb (fun list => eqb (BoardList.id list) k) ls.
Proof.
  revert acc. induction ls as [|l ls IH]; intros acc; simpl.
  - now rewrite orb_false_r.
  - rewrite IH, has_set. now destruct (eqb (BoardList.id l) k), (JsMap.has acc k).
Qed.

Lemma has_statusLists (lists : JsMap.t BoardList.t) (card : Card.t) :
  JsMap.has
    (List.fold_left
       (fun m list => JsMap.set m (BoardList.id list) (BoardList.name list))
       (JsMap.values lists) JsMap.empty) (Card.idList card)
  = inStatusList lists card.
Proof. now rewrite has_listIds. Qed.

Section Claim.

Variable now : Z.
Variable Date_parse : str -> option Z.
Variable currentDate : str.
Variable lists : JsMap.t BoardList.t.
Variable labels : JsMap.t Label.t.
Variable statuses : JsMap.t str.
Variable World : Type.
Variable send : request -> World -> option str * World.

Lemma archiveRemaining_sent (cards : JsMap.t Disasters.PCard.t) (w : World) :
  sent (Disasters.archiveRemaining lists send cards w)
  = List.map archive (archived lists cards).
Proof.
  unfold Disasters.archiveRemaining, archived.
  destruct cards as [|e cards]; [reflexivity|].
  change (0 <? JsMap.size (e :: cards))%nat with true. cbv iota.
  generalize (JsMap.values (e :: cards)) as l. generalize O as n. revert w.
  intros w n l. revert w n.
  induction l as [|card l IH]; intros w n; [reflexivity|].
  cbn [for_of List.filter]. rewrite has_statusLists.
  destruct (inStatusList lists (Disasters.PCard.card card)); run.
  - unfold Disasters.archiveCard.
    destruct (Card.closed (Disasters.PCard.card card)); cbn [negb andb]; run.
    + apply IH.
    + rewrite List.app_nil_r. cbn [List.map List.app]. f_equal. apply IH.
  - simpl. apply IH.
Qed.

Lemma disasters_data_keep cardId position card disaster list :
  List.forallb keeps
    (put cardId (Disasters.cardData currentDate position card disaster list))
  = true.
Proof.
  unfold put, Disasters.cardData.
  repeat match goal with
         | |- context [if ?c then _ else _] => destruct c
         end; reflexivity.
Qed.

Lemma topics_data_keep cardId position card topic list :
  List.forallb keeps
    (put cardId (Topics.cardData lists position card topic list)) = true.
Proof.
  unfold put, Topics.cardData. destruct list;
  repeat match goal with
         | |- context [if ?c then _ else _] => destruct c
         end; reflexivity.
Qed.

Lemma countries_data_keep cardId card country :
  List.forallb keeps (put cardId (Countries.cardData currentDate card country))
  = true.
Proof.
  unfold put, Countries.cardData.
  destruct (Countries.PCard.description card) as [[|]|];
  repeat match goal with
         | |- context [if ?c then _ else _] => destruct c
         end; reflexivity.
Qed.

Lemma disasters_updateCard_keeps position card disaster (w : World) :
  List.forallb keeps
    (sent (Disasters.updateCard now Date_parse currentDate lists labels send
             position card disaster w)) = true.
Proof.
  destruct (JsMap.get lists (Disasters.Disaster.status disaster)) as [list|] eqn:E.
  - rewrite (@disasters_sent now Date_parse currentDate lists labels World send
               position card disaster list w E).
    destruct (ManagedLabels.disasters_requests now Date_parse labels send
                (Disasters.touched currentDate card disaster) disaster w)
      as [Hs _].
    now rewrite Hs, List.forallb_app, requests_keep, disasters_data_keep.
  - unfold Disasters.updateCard. now rewrite E.
Qed.

Lemma disasters_createCard_keeps position disaster (w : World) :
  List.forallb keeps
    (sent (Disasters.createCard currentDate lists labels send position disaster w))
  = true.
Proof.
  unfold Disasters.createCard.
  destruct (JsMap.get lists (Disasters.Disaster.status disaster)); [|reflexivity].
  run. destruct (fst (send _ w)); run; reflexivity.
Qed.

Lemma disasters_one_keeps st disaster (w : World) :
  List.forallb keeps
    (sent (Disasters.updateOrCreateOne now Date_parse currentDate lists labels
             send st disaster w)) = true.
Proof.
  unfold Disasters.updateOrCreateOne.
  destruct (JsMap.get (fst st) (Disasters.Disaster.url disaster)) as [card|].
  - rewrite sent_bind, List.forallb_app, disasters_updateCard_keeps.
    now destruct (result _).
  - rewrite sent_bind, List.forallb_app, disasters_createCard_keeps.
    now destruct (result _).
Qed.

Lemma disasters_one_remaining st disaster (w : World) st' :
  result (Disasters.updateOrCreateOne now Date_parse currentDate lists labels
            send st disaster w) = Some st' ->
  fst st' = JsMap.delete (fst st) (Disasters.Disaster.url disaster).
Proof.
  unfold Disasters.updateOrCreateOne.
  destruct (JsMap.get (fst st) (Disasters.Disaster.url disaster)) as [card|] eqn:E;
    rewrite result_bind; destruct (result _); try discriminate;
    rewrite result_ret; intros H; injection H as <-; cbn [fst].
  - reflexivity.
  - symmetry. now apply delete_absent.
Qed.

Lemma topics_updateCard_keeps position card topic (w : World) :
  List.forallb keeps
    (sent (Topics.updateCard now Date_parse lists labels send
             position card topic w)) = true.
Proof.
  destruct (Topics.statusList lists card topic) as [list|] eqn:El.
  - destruct (Topics.getTopicLabels now Date_parse lists labels topic)
      as [wanted|] eqn:Ew.
    + destruct (@topics_sent now Date_parse lists labels World send position
                  card topic list wanted w El Ew) as [onChecklists [Hs Hc]].
      destruct (@ManagedLabels.topics_requests now Date_parse lists labels World
                  send card topic wanted w Ew) as [Hl _].
      rewrite Hs, Hl, !List.forallb_app, requests_keep, topics_data_keep.
      now rewrite (on_checklists_keep _ Hc).
    + unfold Topics.updateCard, Topics.updateCardLabels.
      rewrite El, Ew. reflexivity.
  - unfold Topics.updateCard. now rewrite El.
Qed.

Lemma topics_createCard_keeps position topic (w : World) :
  List.forallb keeps
    (sent (Topics.createCard now Date_parse lists labels send position topic w))
  = true.
Proof.
  unfold Topics.createCard.
  destruct (JsMap.get lists (Topics.Topic.status topic)); [|reflexivity].
  destruct (Topics.getTopicLabels _ _ _ _ _); [|reflexivity].
  run. destruct (fst (send _ w)) as [card_id|]; run; [|reflexivity].
  match goal with
  | |- context [Topics.updateCardChecklists send ?i ?c topic ?w'] =>
      destruct (updateCardChecklists_sent send i c topic w') as [Hs [k Hk]]
  end.
  rewrite Hk. run. rewrite List.app_nil_r.
  cbn [List.app List.forallb keeps is_archive negb andb].
  now apply on_checklists_keep.
Qed.

Lemma topics_updateBoard_keeps boardCards topics (w : World) :
  List.forallb keeps
    (sent (Topics.updateBoard now Date_parse lists labels send
             boardCards topics w)) = true.
Proof.
  unfold Topics.updateBoard. apply for_of_forall. clear w.
  intros n topic w. unfold Topics.updateOrCreateOne.
  destruct (JsMap.get _ (Topics.Topic.url topic)) as [card|].
  - rewrite sent_bind, List.forallb_app, topics_updateCard_keeps.
    now destruct (result _).
  - rewrite sent_bind, List.forallb_app, topics_createCard_keeps.
    now destruct (result _).
Qed.

Lemma countries_updateBoard_keeps boardCards countries (w : World) :
  List.forallb keeps
    (sent (Countries.updateBoard statuses now Date_parse currentDate labels send
             boardCards countries w)) = true.
Proof.
  unfold Countries.updateBoard. apply for_of_forall. clear w.
  intros n country w. unfold Countries.updateOne.
  destruct (JsMap.get _ (Countries.Country.url country)) as [card|];
    [|reflexivity].
  rewrite sent_bind, List.forallb_app.
  rewrite (countries_sent now Date_parse currentDate labels statuses send).
  destruct (ManagedLabels.countries_requests now Date_parse labels statuses send
              card country w) as [Hs _].
  rewrite Hs, !List.forallb_app, requests_keep, countries_data_keep.
  now destruct (result _).
Qed.

(** The requests that archive a card.  In the disasters manager, once
    the loop over the disasters has completed, they are exactly
    those for the cards left in the map of matched cards that are in one
    of the status lists and not archived already; nothing is archived
    when the loop throws.  The topics and the countries managers have no
    archival step: their [updateBoard] never archives a card. *)
Theorem archival_only_in_disasters boardCards :
  (forall disasters (w : World),
      List.filter is_archive
        (sent (Disasters.updateBoard now Date_parse currentDate lists labels
                 send boardCards disasters w))
      = match result (Disasters.updateOrCreate now Date_parse currentDate lists
                        labels send disasters
                        (Disasters.existingCards boardCards) w) with
        | Some _ =>
            List.map archive
              (archived lists
                 (remaining disasters (Disasters.existingCards boardCards)))
        | None => []
        end)
  /\ (forall topics (w : World),
      List.filter is_archive
        (sent (Topics.updateBoard now Date_parse lists labels send
                 boardCards topics w)) = [])
  /\ (forall countries (w : World),
      List.filter is_archive
        (sent (Countries.updateBoard statuses now Date_parse currentDate labels
                 send boardCards countries w)) = []).
Proof.
  split; [|split].
  - intros disasters w. unfold Disasters.updateBoard, Disasters.updateOrCreate.
    rewrite sent_bind, List.filter_app.
    rewrite (filter_keeps _ (@for_of_forall World _ _ keeps _ disasters_one_keeps
                               disasters _ w)).
    destruct (result (for_of disasters _ _ w)) as [st|] eqn:E; [|reflexivity].
    rewrite (@for_of_fold World _ _ _ fst
               (fun cards disaster =>
                  JsMap.delete cards (Disasters.Disaster.url disaster))
               _ disasters_one_remaining _ _ _ _ E).
    fold (remaining disasters (Disasters.existingCards boardCards)).
    rewrite sent_bind, archiveRemaining_sent. cbn [List.app fst].
    destruct (result (Disasters.archiveRemaining _ _ _ _));
      rewrite ?sent_ret, List.app_nil_r; apply filter_archive.
  - intros topics w. apply filter_keeps, topics_updateBoard_keeps.
  - intros countries w. apply filter_keeps, countries_updateBoard_keeps.
Qed.

End Claim.

(** A topic card in the status list [L2] whose topic is gone. *)
Definition orphan : Card.t :=
  {| Card.id := lit "C1";
     Card.name := lit "Floods";
     Card.labels := [];
     Card.idList := lit "L2";
     Card.desc := [];
     Card.closed := false;
     Card.pos := 5 # 1;
     Card.attachments := Some [lit "https://reliefweb.int/node/100"];
     Card.checklists := None |}.

(** C6 as the specification states it fails in the topics manager: the
    card is in the map of matched cards and in a status list, no topic
    consumes it, and nothing is sent. *)
Lemma topics_never_archive :
  JsMap.has (Topics.existingCards [orphan]) (lit "https://reliefweb.int/node/100")
  = true
  /\ Topics.managedList Example.lists orphan = true
  /\ sent (Topics.updateBoard Example.now Example.Date_parse Example.lists
             Example.labels Example.accept [orphan] [] tt) = [].
Proof. repeat split. Qed.

End Archival.

(** ** Creating the card of a new entity (C8) *)

Module Creation.
Import Js JsFacts JsMapFacts JsNumber Trello Async AsyncFacts CardUpdate.

Section Claim.

Variable now : Z.
Variable Date_parse : str -> option Z.
Variable currentDate : str.
Variable lists : JsMap.t BoardList.t.
Variable labels : JsMap.t Label.t.
Variable statuses : JsMap.t str.
Variable World : Type.
Variable send : request -> World -> option str * World.

(** The body of the request that creates the card of a disaster. *)
Definition disasterCard (disaster : Disasters.Disaster.t) (list : BoardList.t)
    : NewCard.t :=
  {| NewCard.idList := BoardList.id list;
     NewCard.urlSource := [];
     NewCard.name := Disasters.Disaster.name disaster;
     NewCard.desc := Disasters.generateCardDescription currentDate disaster None;
     NewCard.pos := Disasters.maxIndex - Disasters.Disaster.id disaster;
     NewCard.idLabels :=
       join (lit ",") (JsMap.values (Disasters.getDisasterLabels labels disaster)) |}.

(** The body of the request that creates the card of a topic. *)
Definition topicCard (topic : Topics.Topic.t) (list : BoardList.t)
    (wanted : JsMap.t str) : NewCard.t :=
  {| NewCard.idList := BoardList.id list;
     NewCard.urlSource := [];
     NewCard.name := Topics.Topic.title topic;
     NewCard.desc :=
       Topics.generateCardDescription [] (Topics.Topic.lastUpdate topic)
         (Topics.Topic.introduction topic);
     NewCard.pos := Topics.maxIndex - Topics.Topic.id topic;
     NewCard.idLabels := join (lit ",") (JsMap.values wanted) |}.

(** C8, as amended.  For an entity that has no card in the map of matched
    cards and whose status has a list, the disasters and the topics
    managers send one request that creates the card with its name,
    description, list, position and labels, and, when that request
    succeeds, one request that attaches the URL of the entity to the new
    card (the topics manager then fills the checklists); they send no card
    update.  When the creation fails nothing else is sent.  The countries
    manager never creates a card: it sends nothing for such a country. *)
Theorem one_card_created_per_new_entity :
  (forall cards updated disaster list (w : World),
      JsMap.get cards (Disasters.Disaster.url disaster) = None ->
      JsMap.get lists (Disasters.Disaster.status disaster) = Some list ->
      sent (Disasters.updateOrCreateOne now Date_parse currentDate lists labels
              send (cards, updated) disaster w)
      = POST_cards (disasterCard disaster list)
        :: match fst (send (POST_cards (disasterCard disaster list)) w) with
           | Some card =>
               [POST_card_attachments card (Disasters.Disaster.url disaster)]
           | None => []
           end)
  /\ (forall cards updated topic list wanted (w : World),
      JsMap.get cards (Topics.Topic.url topic) = None ->
      JsMap.get lists (Topics.Topic.status topic) = Some list ->
      Topics.getTopicLabels now Date_parse lists labels topic = Some wanted ->
      exists onChecklists,
        sent (Topics.updateOrCreateOne now Date_parse lists labels send
                cards updated topic w)
        = POST_cards (topicCard topic list wanted)
          :: match fst (send (POST_cards (topicCard topic list wanted)) w) with
             | Some card =>
                 POST_card_attachments card (Topics.Topic.url topic)
                 :: onChecklists
             | None => []
             end
        /\ List.forallb on_checklists onChecklists = true)
  /\ (forall cards updated country (w : World),
      JsMap.get cards (Countries.Country.url country) = None ->
      sent (Countries.updateOne statuses now Date_parse currentDate labels send
              cards updated country w) = []).
Proof.
  split; [|split].
  - intros cards updated disaster list w Hc Hl.
    unfold Disasters.updateOrCreateOne, Disasters.createCard. cbn [fst snd].
    rewrite Hc, Hl. fold (disasterCard disaster list). run.
    destruct (fst (send (POST_cards (disasterCard disaster list)) w));
      run; reflexivity.
  - intros cards updated topic list wanted w Hc Hl Hw.
    unfold Topics.updateOrCreateOne, Topics.createCard.
    rewrite Hc, Hl, Hw. fold (topicCard topic list wanted). run.
    destruct (fst (send (POST_cards (topicCard topic list wanted)) w))
      as [card|]; run.
    + match goal with
      | |- context [Topics.updateCardChecklists send ?i ?c topic ?w'] =>
          destruct (updateCardChecklists_sent send i c topic w') as [Hs [k Hk]];
          exists (sent (Topics.updateCardChecklists send i c topic w'))
      end.
      rewrite Hk. run. rewrite !List.app_nil_r. split; [reflexivity | exact Hs].
    + exists []. split; reflexivity.
  - intros cards updated country w Hc.
    unfold Countries.updateOne. now rewrite Hc.
Qed.

End Claim.

(** The disaster of the examples on an empty board. *)
Lemma one_card_created_per_new_entity_witness :
  List.map is_POST_cards
    (sent (Disasters.updateOrCreateOne Example.now Example.Date_parse
             Example.currentDate Example.lists Example.labels Example.accept
             (JsMap.empty, O) Example.disaster tt))
  = [true; false]
  /\ List.map is_POST_card_attachments
       (sent (Disasters.updateOrCreateOne Example.now Example.Date_parse
                Example.currentDate Example.lists Example.labels Example.accept
                (JsMap.empty, O) Example.disaster tt))
     = [false; true].
Proof.
  destruct (one_card_created_per_new_entity Example.now Example.Date_parse
              Example.currentDate Example.lists Example.labels [] Example.accept)
    as [Hdisasters _].
  rewrite (Hdisasters JsMap.empty O Example.disaster
             (BoardList.Build_t (lit "L2") (lit "Ongoing")) tt);
    repeat split.
Defined.

(** C8 as the specification states it fails in the countries manager: a
    country without a card on the board gets none. *)
Lemma countries_never_create :
  JsMap.get (Countries.existingCards []) (Countries.Country.url Example.country)
  = None
  /\ sent (Countries.updateBoard [] Example.now Example.Date_parse
             Example.currentDate Example.labels Example.accept []
             [Example.country] tt) = [].
Proof. split; reflexivity. Qed.

End Creation.

(** ** The board service

    What the Trello API does with the requests of the managers, in so far
    as a later read of the board shows it: each request changes the card
    (or the checklist) that its path names and answers with the [id] of
    the object it touched or created; a request on something that does not
    exist fails and changes nothing.  New objects get ids [new-0],
    [new-1], ... *)

Module Service.
Import Js JsNumber Trello.

Record board := {
  cards : list Card.t;
  labels : list Label.t;
  next : Z
}.

Definition fresh (n : Z) : str := lit "new-" ++ numeral n.

Definition with_cards (b : board) (cards : list Card.t) (next : Z) : board :=
  {| cards := cards; labels := labels b; next := next |}.

Definition set_labels (c : Card.t) (labels : list Label.t) : Card.t :=
  {| Card.id := Card.id c; Card.name := Card.name c; Card.labels := labels;
     Card.idList := Card.idList c; Card.desc := Card.desc c;
     Card.closed := Card.closed c; Card.pos := Card.pos c;
     Card.attachments := Card.attachments c;
     Card.checklists := Card.checklists c |}.

Definition set_idList (c : Card.t) (idList : str) : Card.t :=
  {| Card.id := Card.id c; Card.name := Card.name c;
     Card.labels := Card.labels c;
     Card.idList := idList; Card.desc := Card.desc c;
     Card.closed := Card.closed c; Card.pos := Card.pos c;
     Card.attachments := Card.attachments c;
     Card.checklists := Card.checklists c |}.

Definition set_pos (c : Card.t) (pos : Q) : Card.t :=
  {| Card.id := Card.id c; Card.name := Card.name c;
     Card.labels := Card.labels c;
     Card.idList := Card.idList c; Card.desc := Card.desc c;
     Card.closed := Card.closed c; Card.pos := pos;
     Card.attachments := Card.attachments c;
     Card.checklists := Card.checklists c |}.

Definition set_closed (c : Card.t) (closed : bool) : Card.t :=
  {| Card.id := Card.id c; Card.name := Card.name c;
     Card.labels := Card.labels c;
     Card.idList := Card.idList c; Card.desc := Card.desc c;
     Card.closed := closed; Card.pos := Card.pos c;
     Card.attachments := Card.attachments c;
     Card.checklists := Card.checklists c |}.

Definition set_name (c : Card.t) (name : str) : Card.t :=
  {| Card.id := Card.id c; Card.name := name;
     Card.labels := Card.labels c;
     Card.idList := Card.idList c; Card.desc := Card.desc c;
     Card.closed := Card.closed c; Card.pos := Card.pos c;
     Card.attachments := Card.attachments c;
     Card.checklists := Card.checklists c |}.

Definition set_desc (c : Card.t) (desc : str) : Card.t :=
  {| Card.id := Card.id c; Card.name := Card.name c;
     Card.labels := Card.labels c;
     Card.idList := Card.idList c; Card.desc := desc;
     Card.closed := Card.closed c; Card.pos := Card.pos c;
     Card.attachments := Card.attachments c;
     Card.checklists := Card.checklists c |}.

Definition set_attachments (c : Card.t) (attachments : list str) : Card.t :=
  {| Card.id := Card.id c; Card.name := Card.name c;
     Card.labels := Card.labels c;
     Card.idList := Card.idList c; Card.desc := Card.desc c;
     Card.closed := Card.closed c; Card.pos := Card.pos c;
     Card.attachments := Some attachments;
     Card.checklists := Card.checklists c |}.

Definition set_checklists (c : Card.t) (checklists : list Checklist.t) : Card.t :=
  {| Card.id := Card.id c; Card.name := Card.name c;
     Card.labels := Card.labels c;
     Card.idList := Card.idList c; Card.desc := Card.desc c;
     Card.closed := Card.closed c; Card.pos := Card.pos c;
     Card.attachments := Card.attachments c;
     Card.checklists := Some checklists |}.

(** One field of the body of [PUT /cards/:id]. *)
Definition write_field (c : Card.t) (entry : str * value) : Card.t :=
  let key := fst entry in
  match snd entry with
  | VStr s =>
      if eqb key (lit "idList") then set_idList c s
      else if eqb key (lit "closed") then set_closed c (eqb s (lit "true"))
      else if eqb key (lit "name") then set_name c s
      else if eqb key (lit "desc") then set_desc c s
      else c
  | VNum z => if eqb key (lit "pos") then set_pos c (inject_Z z) else c
  | VUndefined => c
  end.

Definition write (data : JsMap.t value) (c : Card.t) : Card.t :=
  List.fold_left write_field data c.

Definition unlabel (label : str) (c : Card.t) : Card.t :=
  set_labels c
    (List.filter (fun l => negb (eqb (Label.id l) label)) (Card.labels c)).

Definition add_label (label : Label.t) (c : Card.t) : Card.t :=
  set_labels c (Card.labels c ++ [label]).

Definition attach (url : str) (c : Card.t) : Card.t :=
  set_attachments c
    (match Card.attachments c with Some l => l | None => [] end ++ [url]).

Definition find_label (b : board) (id : str) : option Label.t :=
  List.find (fun l => eqb (Label.id l) id) (labels b).

(** The card that [POST /cards] creates; [idLabels] is the list of label
    ids, separated by commas. *)
Definition created (b : board) (id : str) (data : NewCard.t) : Card.t :=
  {| Card.id := id;
     Card.name := NewCard.name data;
     Card.labels :=
       List.flat_map
         (fun label =>
            match find_label b label with Some l => [l] | None => [] end)
         (split (NewCard.idLabels data) (lit ","));
     Card.idList := NewCard.idList data;
     Card.desc := NewCard.desc data;
     Card.closed := false;
     Card.pos := inject_Z (NewCard.pos data);
     Card.attachments := Some [];
     Card.checklists := Some [] |}.

Definition has_card (b : board) (id : str) : bool :=
  List.existsb (fun c => eqb (Card.id c) id) (cards b).

(** Apply [f] to the card [id]. *)
Definition on_card (id : str) (f : Card.t -> Card.t) (cards : list Card.t)
    : list Card.t :=
  List.map (fun c => if eqb (Card.id c) id then f c else c) cards.

(** Apply [f] to the checklist [id], on whichever card it is. *)
Definition on_checklist (id : str) (f : Checklist.t -> Checklist.t)
    (cards : list Card.t) : list Card.t :=
  List.map
    (fun c =>
       match Card.checklists c with
       | Some l =>
           set_checklists c
             (List.map (fun k => if eqb (Checklist.id k) id then f k else k) l)
       | None => c
       end)
    cards.

Definition has_checklist (b : board) (id : str) : bool :=
  List.existsb
    (fun c =>
       match Card.checklists c with
       | Some l => List.existsb (fun k => eqb (Checklist.id k) id) l
       | None => false
       end)
    (cards b).

Definition add_checklist (id name : str) (c : Card.t) : Card.t :=
  set_checklists c
    (match Card.checklists c with Some l => l | None => [] end
     ++ [Checklist.Build_t id name []]).

Definition add_item (id name : str) (pos : Z) (k : Checklist.t) : Checklist.t :=
  Checklist.Build_t (Checklist.id k) (Checklist.name k)
    (Checklist.checkItems k ++ [CheckItem.Build_t id name (inject_Z pos)]).

Definition put_item (id name : str) (pos : Z) (k : Checklist.t) : Checklist.t :=
  Checklist.Build_t (Checklist.id k) (Checklist.name k)
    (List.map
       (fun i =>
          if eqb (CheckItem.id i) id
          then CheckItem.Build_t id name (inject_Z pos)
          else i)
       (Checklist.checkItems k)).

Definition delete_item (id : str) (k : Checklist.t) : Checklist.t :=
  Checklist.Build_t (Checklist.id k) (Checklist.name k)
    (List.filter (fun i => negb (eqb (CheckItem.id i) id))
       (Checklist.checkItems k)).

Definition send (q : request) (b : board) : option str * board :=
  match q with
  | PUT_card id data =>
      if has_card b id
      then (Some id, with_cards b (on_card id (write data) (cards b)) (next b))
      else (None, b)
  | DELETE_card_idLabel id label =>
      if has_card b id
      then (Some id, with_cards b (on_card id (unlabel label) (cards b)) (next b))
      else (None, b)
  | POST_card_idLabels id value =>
      match find_label b value with
      | Some label =>
          if has_card b id
          then (Some value,
                with_cards b (on_card id (add_label label) (cards b)) (next b))
          else (None, b)
      | None => (None, b)
      end
  | POST_cards data =>
      (Some (fresh (next b)),
       with_cards b (cards b ++ [created b (fresh (next b)) data]) (next b + 1))
  | POST_card_attachments id url =>
      if has_card b id
      then (Some (fresh (next b)),
            with_cards b (on_card id (attach url) (cards b)) (next b + 1))
      else (None, b)
  | POST_card_checklists id name =>
      if has_card b id
      then (Some (fresh (next b)),
            with_cards b
              (on_card id (add_checklist (fresh (next b)) name) (cards b))
              (next b + 1))
      else (None, b)
  | POST_checklist_checkItems checklist name pos =>
      if has_checklist b checklist
      then (Some (fresh (next b)),
            with_cards b
              (on_checklist checklist (add_item (fresh (next b)) name pos)
                 (cards b))
              (next b + 1))
      else (None, b)
  | PUT_card_checkItem id checklist item name pos =>
      if has_card b id
      then (Some item,
            with_cards b
              (on_card id
                 (fun c =>
                    match Card.checklists c with
                    | Some l =>
                        set_checklists c
                          (List.map
                             (fun k =>
                                if eqb (Checklist.id k) checklist
                                then put_item item name pos k
                                else k)
                             l)
                    | None => c
                    end)
                 (cards b))
              (next b))
      else (None, b)
  | DELETE_checklist_checkItem checklist item =>
      if has_checklist b checklist
      then (Some item,
            with_cards b (on_checklist checklist (delete_item item) (cards b))
              (next b))
      else (None, b)
  end.

End Service.

(** ** The remote side after a run *)

Module Replay.
Import Js Trello Async AsyncFacts.

Section Replay.

Variable World : Type.
Variable send : request -> World -> option str * World.

(** The remote side after it has served the requests [qs]. *)
Definition replay (qs : list request) (w : World) : World :=
  List.fold_left (fun w q => snd (send q w)) qs w.

Lemma replay_app (qs qs' : list request) (w : World) :
  replay (qs ++ qs') w = replay qs' (replay qs w).
Proof. apply List.fold_left_app. Qed.

(** A computation changes the remote side through its requests only. *)
Definition faithful {A} (m : M World A) : Prop :=
  forall w, after (m w) = replay (sent (m w)) w.

Lemma faithful_ret {A} (x : A) : faithful (ret x).
Proof. intros w. reflexivity. Qed.

Lemma faithful_throw {A} : faithful (@throw World A).
Proof. intros w. reflexivity. Qed.

Lemma faithful_await (q : request) : faithful (await send q).
Proof. intros w. now rewrite after_await, sent_await. Qed.

Lemma faithful_bind {A B} (m : M World A) (f : A -> M World B) :
  faithful m -> (forall x, faithful (f x)) -> faithful (bind m f).
Proof.
  intros Hm Hf w. rewrite after_bind, sent_bind, replay_app, <- Hm.
  destruct (result (m w)) as [x|]; [apply Hf | reflexivity].
Qed.

Lemma faithful_for_of {A S} (body : S -> A -> M World S) :
  (forall s x, faithful (body s x)) ->
  forall l s, faithful (for_of l s body).
Proof.
  intros Hbody. induction l as [|x l IH]; intros s.
  - apply faithful_ret.
  - cbn [for_of]. apply faithful_bind; [apply Hbody | intros s'; apply IH].
Qed.

End Replay.

(** Every function of a manager is built from [ret], [throw], [await],
    sequencing and loops. *)
Ltac faithful :=
  repeat first
    [ apply faithful_ret | apply faithful_throw | apply faithful_await
    | apply faithful_bind | apply faithful_for_of
    | match goal with
      | |- forall _, _ => intro
      | |- faithful _ (match ?x with _ => _ end) => destruct x
      | |- faithful _ (if ?x then _ else _) => destruct x
      end ].

Section Managers.

Variable now : Z.
Variable Date_parse : str -> option Z.
Variable currentDate : str.
Variable lists : JsMap.t BoardList.t.
Variable labels : JsMap.t Label.t.
Variable World : Type.
Variable send : request -> World -> option str * World.

Lemma disasters_updateCardLabels card disaster :
  faithful send
    (Disasters.updateCardLabels now Date_parse labels send card disaster).
Proof. unfold Disasters.updateCardLabels. faithful. Qed.

Lemma disasters_updateCard position card disaster :
  faithful send
    (Disasters.updateCard now Date_parse currentDate lists labels send
       position card disaster).
Proof.
  unfold Disasters.updateCard.
  destruct (JsMap.get lists _); [|apply faithful_throw].
  apply faithful_bind; [apply disasters_updateCardLabels|]. faithful.
Qed.

Lemma disasters_createCard position disaster :
  faithful send
    (Disasters.createCard currentDate lists labels send position disaster).
Proof. unfold Disasters.createCard. faithful. Qed.

Lemma disasters_updateOrCreate disasters cards :
  faithful send
    (Disasters.updateOrCreate now Date_parse currentDate lists labels send
       disasters cards).
Proof.
  unfold Disasters.updateOrCreate. apply faithful_for_of. intros st d.
  unfold Disasters.updateOrCreateOne.
  destruct (JsMap.get _ _).
  - apply faithful_bind; [apply disasters_updateCard | faithful].
  - apply faithful_bind; [apply disasters_createCard | faithful].
Qed.

Lemma disasters_archiveRemaining cards :
  faithful send (Disasters.archiveRemaining lists send cards).
Proof. unfold Disasters.archiveRemaining, Disasters.archiveCard. faithful. Qed.

Lemma disasters_updateBoard boardCards disasters :
  faithful send
    (Disasters.updateBoard now Date_parse currentDate lists labels send
       boardCards disasters).
Proof.
  unfold Disasters.updateBoard.
  apply faithful_bind; [apply disasters_updateOrCreate|]. intros st.
  apply faithful_bind; [apply disasters_archiveRemaining | faithful].
Qed.

End Managers.

End Replay.

(** ** A card after its labels were updated *)

Module Relabel.
Import Js JsFacts JsMapFacts Trello LabelDiff.

(** The labels of the card that the first loop of the disasters
    [updateCardLabels] leaves in place. *)
Fixpoint kept (wanted : JsMap.t str) (cardLabels : list Label.t)
    : list Label.t :=
  match cardLabels with
  | [] => []
  | label :: rest =>
      if negb (JsMap.has wanted (Label.name label)) then kept wanted rest
      else label :: kept (JsMap.delete wanted (Label.name label)) rest
  end.

(** The label that an entry of the wanted labels stands for. *)
Definition label_of (entry : str * str) : Label.t :=
  Label.Build_t (snd entry) (fst entry).

Definition all (name : str) : bool := true.

Lemma removed_app managed (wanted : JsMap.t str) (a b : list Label.t) :
  removed managed wanted (a ++ b)
  = removed managed wanted a ++ removed managed (missing wanted a) b.
Proof.
  revert wanted. induction a as [|l a IH]; intros wanted; [reflexivity|].
  simpl. destruct (JsMap.has wanted (Label.name l)); simpl.
  - apply IH.
  - destruct (managed (Label.name l)); simpl; now rewrite IH.
Qed.

Lemma missing_app (wanted : JsMap.t str) (a b : list Label.t) :
  missing wanted (a ++ b) = missing (missing wanted a) b.
Proof.
  revert wanted. induction a as [|l a IH]; intros wanted; [reflexivity|].
  simpl. destruct (JsMap.has wanted (Label.name l)); simpl; apply IH.
Qed.

(** Reading the kept labels again removes nothing and misses the same
    entries. *)
Lemma removed_kept (wanted : JsMap.t str) (cardLabels : list Label.t) :
  removed all wanted (kept wanted cardLabels) = []
  /\ missing wanted (kept wanted cardLabels) = missing wanted cardLabels.
Proof.
  revert wanted. induction cardLabels as [|l rest IH]; intros wanted; [now split|].
  simpl. destruct (JsMap.has wanted (Label.name l)) eqn:E; simpl.
  - rewrite E. simpl. apply IH.
  - apply IH.
Qed.

(** Reading the labels of the entries of a map, in order, finds them
    all. *)
Lemma removed_own (m : JsMap.t str) :
  removed all m (List.map label_of m) = []
  /\ missing m (List.map label_of m) = [].
Proof.
  induction m as [|[k v] m IH]; [now split|].
  simpl. unfold JsMap.has. simpl. rewrite eqb_refl. simpl. exact IH.
Qed.

(** The labels of a card after the requests of the label diff. *)
Definition relabelled (wanted : JsMap.t str) (cardLabels : list Label.t)
    : list Label.t :=
  kept wanted cardLabels ++ List.map label_of (missing wanted cardLabels).

Lemma relabelled_settled cardId (wanted : JsMap.t str) cardLabels :
  requests cardId all wanted (relabelled wanted cardLabels) = [].
Proof.
  unfold requests, relabelled. rewrite removed_app, missing_app.
  destruct (removed_kept wanted cardLabels) as [Hr Hm].
  rewrite Hr, Hm.
  destruct (removed_own (missing wanted cardLabels)) as [Hr' Hm'].
  now rewrite Hr', Hm'.
Qed.

(** With distinct label ids, removing the removed labels by id leaves the
    kept ones. *)
Lemma filter_removed (wanted : JsMap.t str) (cardLabels : list Label.t) :
  NoDup (List.map Label.id cardLabels) ->
  List.filter
    (fun l =>
       negb (List.existsb (fun r => eqb (Label.id l) (Label.id r))
               (removed all wanted cardLabels)))
    cardLabels
  = kept wanted cardLabels.
Proof.
  revert wanted. induction cardLabels as [|l rest IH]; intros wanted Hnd;
    [reflexivity|].
  inversion Hnd as [|? ? Hnotin Hnd']; subst.
  assert (Hrest : forall wanted',
             List.existsb (fun r => eqb (Label.id l) (Label.id r))
               (removed all wanted' rest) = false).
  { intros wanted'. apply not_true_is_false. intros H.
    apply List.existsb_exists in H as [r [Hr He]].
    apply eqb_eq in He. apply removed_managed in Hr as [Hr _].
    apply Hnotin. rewrite He. now apply List.in_map. }
  simpl. destruct (JsMap.has wanted (Label.name l)) eqn:E; simpl.
  - rewrite Hrest. simpl. f_equal. now apply IH.
  - rewrite eqb_refl. simpl. rewrite <- (IH wanted Hnd').
    apply List.filter_ext_in. intros x Hx.
    destruct (eqb (Label.id x) (Label.id l)) eqn:Ex; [|reflexivity].
    apply eqb_eq in Ex. exfalso. apply Hnotin. rewrite <- Ex.
    now apply List.in_map.
Qed.

End Relabel.

(** ** The board after the requests on one card *)

Module OnCard.
Import Js JsFacts JsMapFacts JsNumber Trello Async Replay.

(** What a request does to the card it names. *)
Definition effect (boardLabels : list Label.t) (q : request) (c : Card.t)
    : Card.t :=
  match q with
  | PUT_card _ data => Service.write data c
  | DELETE_card_idLabel _ label => Service.unlabel label c
  | POST_card_idLabels _ value =>
      match List.find (fun l => eqb (Label.id l) value) boardLabels with
      | Some label => Service.add_label label c
      | None => c
      end
  | _ => c
  end.

(** The request changes the fields or the labels of card [id]. *)
Definition targets (id : str) (q : request) : bool :=
  match q with
  | PUT_card id' _ | DELETE_card_idLabel id' _ | POST_card_idLabels id' _ =>
      eqb id' id
  | _ => false
  end.

Definition effects (boardLabels : list Label.t) (qs : list request)
    (c : Card.t) : Card.t :=
  List.fold_left (fun c q => effect boardLabels q c) qs c.

Lemma write_field_id c e : Card.id (Service.write_field c e) = Card.id c.
Proof.
  unfold Service.write_field. destruct (snd e); try reflexivity;
    repeat match goal with |- context [if ?x then _ else _] => destruct x end;
    reflexivity.
Qed.

Lemma write_field_labels c e :
  Card.labels (Service.write_field c e) = Card.labels c.
Proof.
  unfold Service.write_field. destruct (snd e); try reflexivity;
    repeat match goal with |- context [if ?x then _ else _] => destruct x end;
    reflexivity.
Qed.

Lemma write_field_attachments c e :
  Card.attachments (Service.write_field c e) = Card.attachments c.
Proof.
  unfold Service.write_field. destruct (snd e); try reflexivity;
    repeat match goal with |- context [if ?x then _ else _] => destruct x end;
    reflexivity.
Qed.

Lemma write_id data c : Card.id (Service.write data c) = Card.id c.
Proof.
  unfold Service.write. revert c. induction data as [|e data IH]; intros c;
    [reflexivity|]. simpl. now rewrite IH, write_field_id.
Qed.

Lemma write_labels data c : Card.labels (Service.write data c) = Card.labels c.
Proof.
  unfold Service.write. revert c. induction data as [|e data IH]; intros c;
    [reflexivity|]. simpl. now rewrite IH, write_field_labels.
Qed.

Lemma write_attachments data c :
  Card.attachments (Service.write data c) = Card.attachments c.
Proof.
  unfold Service.write. revert c. induction data as [|e data IH]; intros c;
    [reflexivity|]. simpl. now rewrite IH, write_field_attachments.
Qed.

Lemma effect_id boardLabels q c : Card.id (effect boardLabels q c) = Card.id c.
Proof.
  destruct q; simpl; try reflexivity.
  - apply write_id.
  - now destruct (List.find _ _).
Qed.

Lemma effect_attachments boardLabels q c :
  Card.attachments (effect boardLabels q c) = Card.attachments c.
Proof.
  destruct q; simpl; try reflexivity.
  - apply write_attachments.
  - now destruct (List.find _ _).
Qed.

Lemma effects_id boardLabels qs c :
  Card.id (effects boardLabels qs c) = Card.id c.
Proof.
  unfold effects. revert c. induction qs as [|q qs IH]; intros c; [reflexivity|].
  simpl. now rewrite IH, effect_id.
Qed.

Lemma effects_attachments boardLabels qs c :
  Card.attachments (effects boardLabels qs c) = Card.attachments c.
Proof.
  unfold effects. revert c. induction qs as [|q qs IH]; intros c; [reflexivity|].
  simpl. now rewrite IH, effect_attachments.
Qed.

Lemma on_card_same id (cards : list Card.t) :
  Service.on_card id (fun c => c) cards = cards.
Proof.
  unfold Service.on_card. induction cards as [|c cards IH]; [reflexivity|].
  simpl. rewrite IH. now destruct (eqb (Card.id c) id).
Qed.

Lemma on_card_ext id (f g : Card.t -> Card.t) (cards : list Card.t) :
  (forall c, f c = g c) -> Service.on_card id f cards = Service.on_card id g cards.
Proof.
  intros H. unfold Service.on_card. apply List.map_ext. intros c.
  now rewrite H.
Qed.

Lemma on_card_twice id (f g : Card.t -> Card.t) (cards : list Card.t) :
  (forall c, Card.id (f c) = Card.id c) ->
  Service.on_card id g (Service.on_card id f cards)
  = Service.on_card id (fun c => g (f c)) cards.
Proof.
  intros Hf. unfold Service.on_card. rewrite List.map_map.
  apply List.map_ext. intros c.
  destruct (eqb (Card.id c) id) eqn:E; [|now rewrite E].
  now rewrite Hf, E.
Qed.

Lemma has_card_on_card b id id' f next :
  (forall c, Card.id (f c) = Card.id c) ->
  Service.has_card
    (Service.with_cards b (Service.on_card id f (Service.cards b)) next) id'
  = Service.has_card b id'.
Proof.
  intros Hf. unfold Service.has_card, Service.with_cards, Service.on_card. simpl.
  induction (Service.cards b) as [|c cards IH]; [reflexivity|].
  simpl. rewrite IH. f_equal.
  destruct (eqb (Card.id c) id); [now rewrite Hf | reflexivity].
Qed.

Lemma with_cards_same b :
  Service.with_cards b (Service.cards b) (Service.next b) = b.
Proof. now destruct b. Qed.

(** One request on a card that exists. *)
Lemma send_on_card b id q :
  targets id q = true ->
  Service.has_card b id = true ->
  snd (Service.send q b)
  = Service.with_cards b
      (Service.on_card id (effect (Service.labels b) q) (Service.cards b))
      (Service.next b).
Proof.
  intros Ht Hc.
  destruct q; simpl in Ht; try discriminate; apply eqb_eq in Ht; subst;
    simpl; unfold Service.find_label.
  - now rewrite Hc.
  - now rewrite Hc.
  - destruct (List.find _ _) as [label|] eqn:E.
    + rewrite Hc. simpl. f_equal. apply on_card_ext. intros c. simpl.
      now rewrite E.
    + simpl. rewrite <- (with_cards_same b) at 1. f_equal.
      rewrite <- (on_card_same id (Service.cards b)) at 1.
      apply on_card_ext. intros c. simpl. now rewrite E.
Qed.

(** Several requests on a card that exists. *)
Lemma replay_on_card qs : forall b id,
  List.forallb (targets id) qs = true ->
  Service.has_card b id = true ->
  replay Service.send qs b
  = Service.with_cards b
      (Service.on_card id (effects (Service.labels b) qs) (Service.cards b))
      (Service.next b).
Proof.
  induction qs as [|q qs IH]; intros b id Ht Hc.
  - simpl. unfold effects. simpl. now rewrite on_card_same, with_cards_same.
  - simpl in Ht. apply andb_prop in Ht as [Hq Hqs].
    cbn [replay List.fold_left]. rewrite (send_on_card b id q Hq Hc).
    fold (replay Service.send qs
            (Service.with_cards b
               (Service.on_card id (effect (Service.labels b) q) (Service.cards b))
               (Service.next b))).
    rewrite (IH _ id Hqs)
      by (rewrite has_card_on_card; [exact Hc | intros; apply effect_id]).
    unfold Service.with_cards. simpl. f_equal.
    rewrite on_card_twice by (intros; apply effect_id). reflexivity.
Qed.

End OnCard.

(** ** A disaster card after [updateCard] *)

Module Settle.
Import Js JsFacts JsMapFacts JsNumber Trello Async AsyncFacts LabelDiff
  CardUpdate Replay Relabel OnCard.

Lemma round_inject (z : Z) : round_toFixed (inject_Z z) = z.
Proof.
  unfold round_toFixed, inject_Z. cbn [Qnum Qden].
  change (2 * Z.pos 1) with 2. change (Z.pos 1) with 1.
  destruct (0 <=? z).
  - symmetry. apply Z.div_unique with 1; lia.
  - assert (H : (2 * - z + 1) / 2 = - z)
      by (symmetry; apply Z.div_unique with 1; lia).
    rewrite H. lia.
Qed.

Lemma prepareCard_card (c : Card.t) :
  Disasters.PCard.card (Disasters.prepareCard c) = c.
Proof.
  unfold Disasters.prepareCard.
  repeat match goal with |- context [if ?x then _ else _] => destruct x end;
    reflexivity.
Qed.

(** The sections read from a card depend on its description only. *)
Lemma prepareCard_desc (c c' : Card.t) :
  Card.desc c = Card.desc c' ->
  Disasters.PCard.profileUpdate (Disasters.prepareCard c)
  = Disasters.PCard.profileUpdate (Disasters.prepareCard c')
  /\ Disasters.PCard.profile (Disasters.prepareCard c)
     = Disasters.PCard.profile (Disasters.prepareCard c')
  /\ Disasters.PCard.glide (Disasters.prepareCard c)
     = Disasters.PCard.glide (Disasters.prepareCard c').
Proof.
  intros H. unfold Disasters.prepareCard. rewrite H.
  repeat match goal with |- context [if ?x then _ else _] => destruct x end;
    repeat split.
Qed.

Section Card.

Variable now : Z.
Variable Date_parse : str -> option Z.
Variable currentDate : str.
Variable lists : JsMap.t BoardList.t.
Variable labels : JsMap.t Label.t.

(** The description built from the sections of [disaster] and the update
    date [timestamp] reads back as these sections. *)
Definition Readable (disaster : Disasters.Disaster.t) (timestamp : str) : Prop :=
  forall c,
    Card.desc c
    = Disasters.profileUpdateHeader ++ timestamp ++ Disasters.profileHeader
      ++ Disasters.Disaster.overview disaster ++ Disasters.glideHeader
      ++ Disasters.Disaster.glide disaster ->
    Disasters.PCard.profileUpdate (Disasters.prepareCard c) = Some timestamp
    /\ Disasters.PCard.profile (Disasters.prepareCard c)
       = Some (Disasters.Disaster.overview disaster)
    /\ Disasters.PCard.glide (Disasters.prepareCard c)
       = Some (Disasters.Disaster.glide disaster).

(** The labels wanted for a card, given its update date. *)
Definition wanted (profileUpdate : option str)
    (disaster : Disasters.Disaster.t) : JsMap.t str :=
  JsMap.of_list
    (Disasters.getDisasterLabels labels disaster
     ++ Disasters.getProfileUpdateLabel now Date_parse labels profileUpdate).

(** The position wanted for the card of a disaster. *)
Definition position (disaster : Disasters.Disaster.t) : Z :=
  Disasters.maxIndex - Disasters.Disaster.id disaster.

(** The card [c] after [updateCard] for [disaster] has served it: its
    labels after the label diff, its fields after the card update. *)
Definition settle (disaster : Disasters.Disaster.t) (list : BoardList.t)
    (c : Card.t) : Card.t :=
  let card := Disasters.prepareCard c in
  Service.write
    (Disasters.cardData currentDate (position disaster) card disaster list)
    (Service.set_labels c
       (relabelled
          (wanted (Disasters.PCard.profileUpdate
                     (Disasters.touched currentDate card disaster)) disaster)
          (Card.labels c))).

(** The card needs no request: [updateCard] finds nothing to change. *)
Definition settled (disaster : Disasters.Disaster.t) (c : Card.t) : Prop :=
  exists list,
    JsMap.get lists (Disasters.Disaster.status disaster) = Some list
    /\ Disasters.cardData currentDate (position disaster)
         (Disasters.prepareCard c) disaster list = []
    /\ requests (Card.id c) all
         (wanted (Disasters.PCard.profileUpdate
                    (Disasters.touched currentDate (Disasters.prepareCard c)
                       disaster)) disaster)
         (Card.labels c) = [].

Lemma touched_card card disaster :
  Disasters.PCard.card (Disasters.touched currentDate card disaster)
  = Disasters.PCard.card card.
Proof. unfold Disasters.touched. now destruct (Disasters.differs _ _). Qed.

(** The requests of [updateCard] on a prepared card. *)
Lemma updateCard_sent World (send : request -> World -> option str * World)
    (c : Card.t) disaster list (w : World) :
  JsMap.get lists (Disasters.Disaster.status disaster) = Some list ->
  sent (Disasters.updateCard now Date_parse currentDate lists labels send
          (position disaster) (Disasters.prepareCard c) disaster w)
  = requests (Card.id c) all
      (wanted (Disasters.PCard.profileUpdate
                 (Disasters.touched currentDate (Disasters.prepareCard c)
                    disaster)) disaster)
      (Card.labels c)
    ++ put (Card.id c)
         (Disasters.cardData currentDate (position disaster)
            (Disasters.prepareCard c) disaster list).
Proof.
  intros Hl.
  rewrite (@disasters_sent now Date_parse currentDate lists labels World send
             (position disaster) (Disasters.prepareCard c) disaster list w Hl).
  destruct (ManagedLabels.disasters_requests now Date_parse labels send
              (Disasters.touched currentDate (Disasters.prepareCard c) disaster)
              disaster w) as [Hs _].
  rewrite Hs, touched_card, prepareCard_card. reflexivity.
Qed.

Lemma settled_silent World (send : request -> World -> option str * World)
    (c : Card.t) disaster (w : World) :
  settled disaster c ->
  sent (Disasters.updateCard now Date_parse currentDate lists labels send
          (position disaster) (Disasters.prepareCard c) disaster w) = [].
Proof.
  intros [list [Hl [Hd Hr]]].
  now rewrite (updateCard_sent send c disaster w Hl), Hd, Hr.
Qed.

(** *** The fields after the card update *)

Lemma write_cardData position card disaster list (x : Card.t) :
  let x' :=
    Service.write
      (Disasters.cardData currentDate position card disaster list) x in
  let c := Disasters.PCard.card card in
  Card.idList x'
  = (if negb (eqb (Card.idList c) (BoardList.id list))
     then BoardList.id list else Card.idList x)
  /\ Card.pos x'
     = (if negb (round_toFixed (Card.pos c) =? position)
        then inject_Z position else Card.pos x)
  /\ Card.closed x' = (if Card.closed c then false else Card.closed x)
  /\ Card.name x'
     = (if negb (eqb (Card.name c) (Disasters.Disaster.name disaster))
        then lit "disaster.name" else Card.name x)
  /\ Card.desc x'
     = (if Disasters.differs (Disasters.Disaster.overview disaster)
             (Disasters.PCard.profile card)
           || Disasters.differs (Disasters.Disaster.glide disaster)
                (Disasters.PCard.glide card)
        then Disasters.generateCardDescription currentDate disaster
               (Disasters.PCard.profileUpdate
                  (Disasters.touched currentDate card disaster))
        else Card.desc x).
Proof.
  cbv zeta. unfold Disasters.cardData.
  repeat match goal with |- context [if ?c then _ else _] => destruct c end;
    repeat split.
Qed.

(** The update date that [updateCard] writes. *)
Definition stamp (card : Disasters.PCard.t) (disaster : Disasters.Disaster.t)
    : str :=
  or_else
    (match Disasters.PCard.profileUpdate
             (Disasters.touched currentDate card disaster) with
     | Some d => d
     | None => []
     end)
    currentDate.

(** Today is zero days old, so it calls for no warning label. *)
Lemma no_label_for_now (date : option str) :
  DateWrapper.clone now Date_parse date = Some now ->
  Disasters.getProfileUpdateLabel now Date_parse labels date = [].
Proof.
  intros H. unfold Disasters.getProfileUpdateLabel, Disasters.diffDays.
  rewrite !DiffDays.threshold. unfold DiffDays.days. rewrite H.
  unfold DateWrapper.unix, DateWrapper.unix_of, DateWrapper.round_days.
  rewrite Z.sub_diag. reflexivity.
Qed.

Lemma settle_settled disaster list (c : Card.t) :
  JsMap.get lists (Disasters.Disaster.status disaster) = Some list ->
  Card.name c = Disasters.Disaster.name disaster ->
  Readable disaster currentDate ->
  (forall timestamp,
      Disasters.PCard.profileUpdate (Disasters.prepareCard c) = Some timestamp ->
      timestamp <> [] -> Readable disaster timestamp) ->
  Disasters.getProfileUpdateLabel now Date_parse labels (Some currentDate) = [] ->
  settled disaster (settle disaster list c).
Proof.
  intros Hl Hn Hnow Hstored Htoday.
  set (card := Disasters.prepareCard c).
  set (c' := settle disaster list c).
  destruct (write_cardData (position disaster) card disaster list
              (Service.set_labels c
                 (relabelled
                    (wanted (Disasters.PCard.profileUpdate
                               (Disasters.touched currentDate card disaster))
                       disaster)
                    (Card.labels c))))
    as [HidList [Hpos [Hclosed [Hname Hdesc]]]].
  change (Service.write _ _) with c' in HidList, Hpos, Hclosed, Hname, Hdesc.
  unfold card in HidList, Hpos, Hclosed, Hname.
  rewrite prepareCard_card in HidList, Hpos, Hclosed, Hname.
  cbn [Service.set_labels Card.idList Card.pos Card.closed Card.name Card.desc]
    in HidList, Hpos, Hclosed, Hname, Hdesc.
  (* The sections that the second run reads from the card. *)
  assert (Hsections :
            Disasters.differs (Disasters.Disaster.overview disaster)
              (Disasters.PCard.profile (Disasters.prepareCard c')) = false
            /\ Disasters.differs (Disasters.Disaster.glide disaster)
                 (Disasters.PCard.glide (Disasters.prepareCard c')) = false
            /\ Disasters.getProfileUpdateLabel now Date_parse labels
                 (Disasters.PCard.profileUpdate (Disasters.prepareCard c'))
               = Disasters.getProfileUpdateLabel now Date_parse labels
                   (Disasters.PCard.profileUpdate
                      (Disasters.touched currentDate card disaster))).
  { destruct (Disasters.differs (Disasters.Disaster.overview disaster)
                (Disasters.PCard.profile card)
              || Disasters.differs (Disasters.Disaster.glide disaster)
                   (Disasters.PCard.glide card)) eqn:Ed.
    - (* The description was written. *)
      assert (Hread : Readable disaster (stamp card disaster)).
      { unfold stamp, Disasters.touched, or_else.
        destruct (Disasters.differs (Disasters.Disaster.overview disaster)
                    (Disasters.PCard.profile card)).
        - cbn [Disasters.PCard.profileUpdate].
          now destruct (truthy currentDate).
        - destruct (Disasters.PCard.profileUpdate card) as [stored|] eqn:Es;
            [|exact Hnow].
          destruct stored as [|x stored]; [exact Hnow|].
          apply Hstored; [exact Es | discriminate]. }
      destruct (Hread c') as [Hu [Hp Hg]].
      { rewrite Hdesc. reflexivity. }
      rewrite Hp, Hg, Hu, !Timestamp.differs_same.
      split; [reflexivity|]. split; [reflexivity|].
      unfold stamp, or_else.
      destruct (Disasters.PCard.profileUpdate
                  (Disasters.touched currentDate card disaster))
        as [[|x stored]|]; cbn [truthy].
      + rewrite Htoday. symmetry. now apply no_label_for_now.
      + reflexivity.
      + rewrite Htoday. symmetry. now apply no_label_for_now.
    - (* The description was left as it was. *)
      apply orb_false_elim in Ed as [Eo Eg].
      destruct (prepareCard_desc c' c Hdesc) as [Hu [Hp Hg]].
      fold card in Hu, Hp, Hg. rewrite Hu, Hp, Hg.
      split; [exact Eo|]. split; [exact Eg|].
      unfold Disasters.touched. now rewrite Eo. }
  destruct Hsections as [Ho [Hg Hlabel]].
  exists list. split; [exact Hl|]. split.
  - (* No field differs. *)
    assert (H1 : negb (eqb (Card.idList c') (BoardList.id list)) = false).
    { rewrite HidList.
      destruct (eqb (Card.idList c) (BoardList.id list)) eqn:E; simpl;
        [now rewrite E | now rewrite eqb_refl]. }
    assert (H2 : negb (round_toFixed (Card.pos c') =? position disaster) = false).
    { rewrite Hpos.
      destruct (round_toFixed (Card.pos c) =? position disaster) eqn:E; simpl;
        [now rewrite E | now rewrite round_inject, Z.eqb_refl]. }
    assert (H3 : Card.closed c' = false)
      by (rewrite Hclosed; now destruct (Card.closed c)).
    assert (H4 : negb (eqb (Card.name c') (Disasters.Disaster.name disaster))
                 = false).
    { rewrite Hname, Hn, eqb_refl. simpl. now rewrite eqb_refl. }
    unfold Disasters.cardData.
    rewrite prepareCard_card, Ho, Hg, H1, H2, H3, H4. reflexivity.
  - (* No label differs. *)
    unfold Disasters.touched at 1. rewrite Ho.
    unfold wanted at 1. rewrite Hlabel. fold (wanted
      (Disasters.PCard.profileUpdate (Disasters.touched currentDate card disaster))
      disaster).
    unfold c', settle. fold card. rewrite write_labels, write_id.
    cbn [Service.set_labels Card.labels Card.id].
    apply relabelled_settled.
Qed.

(** *** The requests of [updateCard], served *)

Lemma set_labels_same (x : Card.t) : Service.set_labels x (Card.labels x) = x.
Proof. now destruct x. Qed.

Lemma filter_twice {A} (f g : A -> bool) (l : list A) :
  List.filter f (List.filter g l) = List.filter (fun x => g x && f x) l.
Proof.
  induction l as [|x l IH]; [reflexivity|]. simpl.
  destruct (g x); simpl; [destruct (f x)|]; now rewrite IH.
Qed.

Lemma effects_app boardLabels (qs qs' : list request) (x : Card.t) :
  effects boardLabels (qs ++ qs') x
  = effects boardLabels qs' (effects boardLabels qs x).
Proof. apply List.fold_left_app. Qed.

Lemma effects_removed boardLabels cardId (rs : list Label.t) (x : Card.t) :
  effects boardLabels
    (List.map (fun l => DELETE_card_idLabel cardId (Label.id l)) rs) x
  = Service.set_labels x
      (List.filter
         (fun l => negb (List.existsb (fun r => eqb (Label.id l) (Label.id r)) rs))
         (Card.labels x)).
Proof.
  revert x. induction rs as [|r rs IH]; intros x.
  - simpl. unfold effects. simpl.
    assert (H : forall l : list Label.t, List.filter (fun _ => true) l = l)
      by (induction l as [|y l IHl]; [reflexivity | simpl; now rewrite IHl]).
    now rewrite H, set_labels_same.
  - unfold effects in *. cbn [List.map List.fold_left effect].
    rewrite IH. unfold Service.unlabel. destruct x as [i n d il p cl ls at_ ch].
    cbn [Service.set_labels Card.labels]. rewrite filter_twice.
    unfold Service.set_labels. simpl.
    f_equal. apply List.filter_ext. intros l. simpl.
    now rewrite negb_orb.
Qed.

Lemma effects_added boardLabels cardId (ms : JsMap.t str) (x : Card.t) :
  (forall e, In e ms ->
             List.find (fun l => eqb (Label.id l) (snd e)) boardLabels
             = Some (label_of e)) ->
  effects boardLabels
    (List.map (fun e => POST_card_idLabels cardId (snd e)) ms) x
  = Service.set_labels x (Card.labels x ++ List.map label_of ms).
Proof.
  revert x. induction ms as [|e ms IH]; intros x Hfind.
  - simpl. unfold effects. simpl. now rewrite List.app_nil_r, set_labels_same.
  - unfold effects in *. cbn [List.map List.fold_left effect].
    rewrite (Hfind e) by now left.
    rewrite IH by (intros e' He'; apply Hfind; now right).
    unfold Service.add_label. cbn [Service.set_labels Card.labels].
    now rewrite <- List.app_assoc.
Qed.

Lemma effects_put boardLabels cardId (data : JsMap.t value) (x : Card.t) :
  effects boardLabels (put cardId data) x = Service.write data x.
Proof. unfold put. now destruct data. Qed.

Lemma In_missing (wanted0 : JsMap.t str) cardLabels e :
  In e (missing wanted0 cardLabels) -> In e wanted0.
Proof.
  revert wanted0. induction cardLabels as [|l rest IH]; intros wanted0;
    [trivial|]. simpl.
  destruct (JsMap.has wanted0 (Label.name l)); simpl; [|apply IH].
  intros H. apply In_delete with (Label.name l). now apply IH.
Qed.

(** The card after the requests of [updateCard] is the settled card. *)
Lemma effects_settle boardLabels disaster list (c : Card.t) :
  NoDup (List.map Label.id (Card.labels c)) ->
  (forall e,
      In e (wanted (Disasters.PCard.profileUpdate
                      (Disasters.touched currentDate (Disasters.prepareCard c)
                         disaster)) disaster) ->
      List.find (fun l => eqb (Label.id l) (snd e)) boardLabels
      = Some (label_of e)) ->
  effects boardLabels
    (requests (Card.id c) all
       (wanted (Disasters.PCard.profileUpdate
                  (Disasters.touched currentDate (Disasters.prepareCard c)
                     disaster)) disaster)
       (Card.labels c)
     ++ put (Card.id c)
          (Disasters.cardData currentDate (position disaster)
             (Disasters.prepareCard c) disaster list)) c
  = settle disaster list c.
Proof.
  intros Hnd Hfind. unfold requests, settle.
  rewrite !effects_app, effects_removed, effects_put.
  rewrite effects_added
    by (intros e He; apply Hfind; now apply In_missing in He).
  cbn [Service.set_labels Card.labels].
  rewrite (filter_removed _ _ Hnd). reflexivity.
Qed.

End Card.

End Settle.

(** ** The cards of a board by disaster URL *)

Module ByUrl.
Import Js JsFacts JsMapFacts Trello.

(** The disaster URL among the attachments of a card. *)
Definition url_of (c : Card.t) : option str :=
  match Card.attachments c with
  | Some attachments => List.find Disasters.urlPattern attachments
  | None => None
  end.

Definition is_card_of (u : str) (c : Card.t) : bool :=
  match url_of c with Some u' => eqb u' u | None => false end.

(** The card that the first loop of [updateBoard] keeps for a URL: the
    last card of the board that has it. *)
Fixpoint card_of (cs : list Card.t) (u : str) : option Card.t :=
  match cs with
  | [] => None
  | c :: rest =>
      match card_of rest u with
      | Some c' => Some c'
      | None => if is_card_of u c then Some c else None
      end
  end.

Lemma card_of_In cs u c :
  card_of cs u = Some c -> In c cs /\ is_card_of u c = true.
Proof.
  induction cs as [|c0 cs IH]; simpl; [discriminate|].
  destruct (card_of cs u) as [c'|].
  - intros H. injection H as <-. destruct IH as [Hin Hu]; auto.
  - destruct (is_card_of u c0) eqn:E; [|discriminate].
    intros H. injection H as <-. auto.
Qed.

Lemma card_of_snoc cs c u :
  card_of (cs ++ [c]) u = if is_card_of u c then Some c else card_of cs u.
Proof.
  induction cs as [|c0 cs IH]; simpl.
  - now destruct (is_card_of u c).
  - rewrite IH. now destruct (is_card_of u c).
Qed.

Lemma card_of_map (g : Card.t -> Card.t) cs u :
  (forall c, Card.attachments (g c) = Card.attachments c) ->
  card_of (List.map g cs) u = option_map g (card_of cs u).
Proof.
  intros Hg.
  assert (Hu : forall c, is_card_of u (g c) = is_card_of u c)
    by (intros c; unfold is_card_of, url_of; now rewrite Hg).
  induction cs as [|c cs IH]; simpl; [reflexivity|].
  rewrite IH, Hu. destruct (card_of cs u); simpl; [reflexivity|].
  now destruct (is_card_of u c).
Qed.

(** One URL per card. *)
Lemma is_card_of_inj u u' c :
  is_card_of u c = true -> is_card_of u' c = true -> u = u'.
Proof.
  unfold is_card_of. destruct (url_of c) as [x|]; [|discriminate].
  intros H H'. apply eqb_eq in H, H'. congruence.
Qed.

(** One card per id. *)
Lemma id_inj (cs : list Card.t) c c' :
  NoDup (List.map Card.id cs) -> In c cs -> In c' cs ->
  Card.id c = Card.id c' -> c = c'.
Proof.
  induction cs as [|c0 cs IH]; simpl; [tauto|].
  intros Hnd. inversion Hnd as [|? ? Hnotin Hnd']; subst.
  intros [<-|Hc] [<-|Hc'] Hid; auto.
  - exfalso. apply Hnotin. rewrite Hid. now apply List.in_map.
  - exfalso. apply Hnotin. rewrite <- Hid. now apply List.in_map.
Qed.

Lemma ids_on_card id f cs :
  (forall c, Card.id (f c) = Card.id c) ->
  List.map Card.id (Service.on_card id f cs) = List.map Card.id cs.
Proof.
  intros Hf. unfold Service.on_card. rewrite List.map_map.
  apply List.map_ext. intros c. destruct (eqb (Card.id c) id); auto.
Qed.

(** A change of the card of [u], by its id, shows under [u] only. *)
Lemma card_of_on_card cs u c0 f u' :
  NoDup (List.map Card.id cs) ->
  card_of cs u = Some c0 ->
  (forall c, Card.attachments (f c) = Card.attachments c) ->
  card_of (Service.on_card (Card.id c0) f cs) u'
  = if eqb u u' then Some (f c0) else card_of cs u'.
Proof.
  intros Hnd H0 Hf. unfold Service.on_card. rewrite card_of_map
    by (intros c; destruct (eqb (Card.id c) (Card.id c0)); auto).
  destruct (card_of_In _ _ H0) as [Hin0 Hu0].
  destruct (eqb u u') eqn:E.
  - apply eqb_eq in E. subst u'. rewrite H0. simpl. now rewrite eqb_refl.
  - apply eqb_neq in E.
    destruct (card_of cs u') as [c1|] eqn:H1; [|reflexivity]. simpl.
    destruct (card_of_In _ _ H1) as [Hin1 Hu1].
    destruct (eqb (Card.id c1) (Card.id c0)) eqn:Eid; [|reflexivity].
    apply eqb_eq in Eid. exfalso. apply E.
    assert (c1 = c0) by now apply (id_inj cs).
    subst c1. now apply is_card_of_inj with c0.
Qed.

(** *** The map of the existing cards *)

Lemma get_absent {V} (m : JsMap.t V) (k : str) :
  ~ In k (JsMap.keys m) -> JsMap.get m k = None.
Proof.
  intros H. destruct (JsMap.get m k) eqn:E; [|reflexivity].
  exfalso. apply H. apply has_keys. unfold JsMap.has. now rewrite E.
Qed.

Lemma keys_set {V} (m : JsMap.t V) (k : str) (v : V) x :
  In x (JsMap.keys (JsMap.set m k v)) -> In x (JsMap.keys m) \/ x = k.
Proof.
  unfold JsMap.keys. rewrite List.in_map_iff. intros [e [He Hin]].
  apply In_set in Hin as [Hin|[_ Hk]].
  - left. rewrite <- He. now apply List.in_map.
  - right. congruence.
Qed.

Lemma NoDup_set {V} (m : JsMap.t V) (k : str) (v : V) :
  NoDup (JsMap.keys m) -> NoDup (JsMap.keys (JsMap.set m k v)).
Proof.
  induction m as [|[k0 v0] m IH]; simpl.
  - intros _. constructor; [tauto | constructor].
  - intros Hnd. inversion Hnd as [|? ? Hnotin Hnd']; subst.
    destruct (eqb k0 k) eqn:E; simpl; [now constructor|].
    constructor; [|now apply IH].
    intros Hin. apply keys_set in Hin as [Hin|Hin]; [contradiction|].
    apply eqb_neq in E. congruence.
Qed.

Lemma NoDup_get {V} (m : JsMap.t V) (k : str) (v : V) :
  NoDup (JsMap.keys m) -> In (k, v) m -> JsMap.get m k = Some v.
Proof.
  induction m as [|[k0 v0] m IH]; simpl; [tauto|].
  intros Hnd. inversion Hnd as [|? ? Hnotin Hnd']; subst.
  intros [H|H].
  - injection H as -> ->. now rewrite eqb_refl.
  - destruct (eqb k0 k) eqn:E; [|now apply IH].
    apply eqb_eq in E. subst k0. exfalso. apply Hnotin.
    change k with (fst (k, v)). now apply List.in_map.
Qed.

Lemma keys_delete {V} (m : JsMap.t V) (k : str) x :
  In x (JsMap.keys (JsMap.delete m k)) -> In x (JsMap.keys m).
Proof.
  unfold JsMap.keys. rewrite !List.in_map_iff. intros [e [He Hin]].
  exists e. split; [exact He | now apply In_delete with k].
Qed.

Lemma NoDup_delete {V} (m : JsMap.t V) (k : str) :
  NoDup (JsMap.keys m) -> NoDup (JsMap.keys (JsMap.delete m k)).
Proof.
  induction m as [|[k0 v0] m IH]; simpl; [trivial|].
  intros Hnd. inversion Hnd as [|? ? Hnotin Hnd']; subst.
  destruct (eqb k0 k); simpl; [exact Hnd'|].
  constructor; [|now apply IH].
  intros Hin. apply Hnotin. now apply keys_delete with k.
Qed.

Lemma get_delete_same {V} (m : JsMap.t V) (k : str) :
  NoDup (JsMap.keys m) -> JsMap.get (JsMap.delete m k) k = None.
Proof.
  induction m as [|[k0 v0] m IH]; simpl; [trivial|].
  intros Hnd. inversion Hnd as [|? ? Hnotin Hnd']; subst.
  destruct (eqb k0 k) eqn:E; simpl.
  - apply eqb_eq in E. subst k0. now apply get_absent.
  - rewrite E. now apply IH.
Qed.

Lemma get_existing (cs : list Card.t) (acc : JsMap.t Disasters.PCard.t) u :
  JsMap.get
    (List.fold_left
       (fun cards card =>
          match Card.attachments card with
          | Some attachments =>
              match List.find Disasters.urlPattern attachments with
              | Some url => JsMap.set cards url (Disasters.prepareCard card)
              | None => cards
              end
          | None => cards
          end) cs acc) u
  = match card_of cs u with
    | Some c => Some (Disasters.prepareCard c)
    | None => JsMap.get acc u
    end.
Proof.
  revert acc. induction cs as [|c cs IH]; intros acc; [reflexivity|].
  cbn [List.fold_left card_of]. rewrite IH.
  destruct (card_of cs u); [reflexivity|].
  unfold is_card_of, url_of. destruct (Card.attachments c) as [l|]; [|reflexivity].
  destruct (List.find Disasters.urlPattern l) as [u'|]; [|reflexivity].
  destruct (eqb u' u) eqn:E.
  - apply eqb_eq in E. subst. apply get_set_same.
  - apply eqb_neq in E. now apply get_set_other.
Qed.

Lemma get_existingCards (cs : list Card.t) u :
  JsMap.get (Disasters.existingCards cs) u
  = option_map Disasters.prepareCard (card_of cs u).
Proof.
  unfold Disasters.existingCards. rewrite get_existing.
  now destruct (card_of cs u).
Qed.

Lemma NoDup_existingCards (cs : list Card.t) :
  NoDup (JsMap.keys (Disasters.existingCards cs)).
Proof.
  unfold Disasters.existingCards.
  assert (H : NoDup (JsMap.keys (@JsMap.empty Disasters.PCard.t)))
    by constructor.
  revert H. generalize (@JsMap.empty Disasters.PCard.t) as acc.
  induction cs as [|c cs IH]; intros acc Hacc; [exact Hacc|].
  cbn [List.fold_left]. apply IH.
  destruct (Card.attachments c) as [l|]; [|exact Hacc].
  destruct (List.find Disasters.urlPattern l); [|exact Hacc].
  now apply NoDup_set.
Qed.

(** *** The map after the loop over the disasters *)

Definition urls (disasters : list Disasters.Disaster.t) : list str :=
  List.map Disasters.Disaster.url disasters.

Lemma NoDup_remaining disasters (m : JsMap.t Disasters.PCard.t) :
  NoDup (JsMap.keys m) -> NoDup (JsMap.keys (Archival.remaining disasters m)).
Proof.
  unfold Archival.remaining. revert m.
  induction disasters as [|d ds IH]; intros m Hm; [exact Hm|].
  simpl. apply IH. now apply NoDup_delete.
Qed.

Lemma get_remaining disasters (m : JsMap.t Disasters.PCard.t) u :
  NoDup (JsMap.keys m) ->
  JsMap.get (Archival.remaining disasters m) u
  = if List.existsb (eqb u) (urls disasters) then None else JsMap.get m u.
Proof.
  unfold Archival.remaining, urls. revert m.
  induction disasters as [|d ds IH]; intros m Hm; [reflexivity|].
  simpl. rewrite IH by now apply NoDup_delete.
  destruct (eqb u (Disasters.Disaster.url d)) eqn:E; simpl.
  - apply eqb_eq in E. subst u. rewrite get_delete_same by exact Hm.
    now destruct (List.existsb _ _).
  - apply eqb_neq in E. rewrite get_delete_other by congruence. reflexivity.
Qed.

Lemma existsb_urls u disasters :
  List.existsb (eqb u) (urls disasters) = true <-> In u (urls disasters).
Proof.
  rewrite List.existsb_exists. split.
  - intros [x [Hx He]]. apply eqb_eq in He. now subst.
  - intros H. exists u. split; [exact H | apply eqb_refl].
Qed.

End ByUrl.

(** ** A run that finds the board in order *)

Module Quiet.
Import Js JsFacts JsMapFacts JsNumber Trello Async AsyncFacts LabelDiff
  CardUpdate Settle ByUrl.

Section Run.

Variable now : Z.
Variable Date_parse : str -> option Z.
Variable currentDate : str.
Variable lists : JsMap.t BoardList.t.
Variable labels : JsMap.t Label.t.
Variable World : Type.
Variable send : request -> World -> option str * World.

Local Abbreviation settled := (Settle.settled now Date_parse currentDate lists labels).
Local Abbreviation updateOrCreateOne :=
  (Disasters.updateOrCreateOne now Date_parse currentDate lists labels send).

(** [updateCard] completes when the status of the disaster has a list. *)
Lemma updateCard_total position card disaster list (w : World) :
  JsMap.get lists (Disasters.Disaster.status disaster) = Some list ->
  exists changed,
    result (Disasters.updateCard now Date_parse currentDate lists labels send
              position card disaster w) = Some changed.
Proof.
  intros Hl. unfold Disasters.updateCard. rewrite Hl, result_bind.
  destruct (ManagedLabels.disasters_requests now Date_parse labels send
              (Disasters.touched currentDate card disaster) disaster w)
    as [_ [changed Hr]].
  rewrite Hr. destruct (0 <? JsMap.size _)%nat; run; eauto.
Qed.

(** The turn of the loop for a disaster whose card is settled. *)
Lemma quiet_one cards updated disaster c (w : World) :
  JsMap.get cards (Disasters.Disaster.url disaster)
  = Some (Disasters.prepareCard c) ->
  settled disaster c ->
  sent (updateOrCreateOne (cards, updated) disaster w) = []
  /\ exists updated',
      result (updateOrCreateOne (cards, updated) disaster w)
      = Some (JsMap.delete cards (Disasters.Disaster.url disaster), updated').
Proof.
  intros Hget Hs. unfold Disasters.updateOrCreateOne. cbn [fst snd].
  rewrite Hget, sent_bind, result_bind.
  fold (position disaster).
  rewrite (@settled_silent now Date_parse currentDate lists labels World send
             c disaster w Hs).
  destruct Hs as [list [Hl _]].
  destruct (@updateCard_total (position disaster) (Disasters.prepareCard c)
              disaster list w Hl) as [changed Hr].
  rewrite Hr. run. split; [reflexivity | eauto].
Qed.

Lemma quiet_loop disasters : forall cards updated (w : World),
  NoDup (urls disasters) ->
  (forall d, In d disasters ->
             exists c,
               JsMap.get cards (Disasters.Disaster.url d)
               = Some (Disasters.prepareCard c)
               /\ settled d c) ->
  sent (for_of disasters (cards, updated) updateOrCreateOne w) = [].
Proof.
  induction disasters as [|d ds IH]; intros cards updated w Hnd Hall;
    [reflexivity|].
  cbn [for_of]. rewrite sent_bind.
  destruct (Hall d (or_introl eq_refl)) as [c [Hget Hs]].
  destruct (@quiet_one cards updated d c w Hget Hs) as [Hsent [updated' Hr]].
  rewrite Hsent, Hr. cbn [List.app].
  inversion Hnd as [|? ? Hnotin Hnd']; subst.
  apply IH; [exact Hnd'|].
  intros d' Hd'. destruct (Hall d' (or_intror Hd')) as [c' [Hget' Hs']].
  exists c'. split; [|exact Hs'].
  rewrite get_delete_other; [exact Hget'|].
  intros Heq. apply Hnotin. rewrite Heq. unfold urls. now apply List.in_map.
Qed.

Lemma filter_none {A} (f : A -> bool) (l : list A) :
  (forall x, In x l -> f x = false) -> List.filter f l = [].
Proof.
  induction l as [|x l IH]; intros H; [reflexivity|]. simpl.
  rewrite (H x) by now left. apply IH. intros y Hy. apply H. now right.
Qed.

(** The whole run sends nothing when the card of every disaster is
    settled and every other card with a disaster URL is closed or outside
    the status lists. *)
Lemma quiet_run (boardCards : list Card.t) disasters (w : World) :
  NoDup (urls disasters) ->
  (forall d, In d disasters ->
             exists c,
               card_of boardCards (Disasters.Disaster.url d) = Some c
               /\ settled d c) ->
  (forall u c, card_of boardCards u = Some c -> ~ In u (urls disasters) ->
               Card.closed c = true
               \/ Archival.inStatusList lists c = false) ->
  sent (Disasters.updateBoard now Date_parse currentDate lists labels send
          boardCards disasters w) = [].
Proof.
  intros Hnd Hall Hrest. unfold Disasters.updateBoard, Disasters.updateOrCreate.
  rewrite sent_bind, quiet_loop; [|exact Hnd|].
  2:{ intros d Hd. destruct (Hall d Hd) as [c [Hc Hs]]. exists c.
      split; [|exact Hs]. now rewrite get_existingCards, Hc. }
  cbn [List.app].
  destruct (result (for_of disasters _ _ w)) as [st|] eqn:E; [|reflexivity].
  rewrite sent_bind.
  assert (Hst : fst st
                = Archival.remaining disasters (Disasters.existingCards boardCards)).
  { apply (@for_of_fold World _ _ _ fst
             (fun cards d => JsMap.delete cards (Disasters.Disaster.url d))
             (Disasters.updateOrCreateOne now Date_parse currentDate lists labels
                send)) with (w := w) (s := (Disasters.existingCards boardCards, O));
      [|exact E].
    intros s x w' s' H.
    now apply (@Archival.disasters_one_remaining now Date_parse currentDate
                 lists labels World send s x w' s'). }
  rewrite Archival.archiveRemaining_sent, Hst.
  assert (Hnone : Archival.archived lists
                    (Archival.remaining disasters
                       (Disasters.existingCards boardCards)) = []).
  { unfold Archival.archived. apply filter_none. intros pc Hpc.
    unfold JsMap.values in Hpc. apply List.in_map_iff in Hpc as [[u pc'] [Hu Hin]].
    simpl in Hu. subst pc'.
    apply NoDup_get in Hin;
      [|apply NoDup_remaining, NoDup_existingCards].
    rewrite get_remaining in Hin by apply NoDup_existingCards.
    destruct (List.existsb (eqb u) (urls disasters)) eqn:Ex; [discriminate|].
    rewrite get_existingCards in Hin.
    destruct (card_of boardCards u) as [c|] eqn:Ec; [|discriminate].
    simpl in Hin. injection Hin as <-. rewrite prepareCard_card.
    destruct (Hrest u c Ec) as [H|H].
    - intros Hu. apply existsb_urls in Hu. congruence.
    - rewrite H. simpl. apply andb_false_r.
    - now rewrite H. }
  rewrite Hnone. cbn [List.map List.app].
  now destruct (result (Disasters.archiveRemaining _ _ _ _)).
Qed.

End Run.

End Quiet.

(** ** The labels of a new card *)

Module NewLabels.
Import Js JsFacts JsMapFacts JsNumber Trello LabelDiff Relabel ByUrl.

Definition comma : char := 44%N.

Lemma split_piece (x : str) : forall cur rest,
  ~ In comma x ->
  split_on [comma] 0 cur (x ++ rest) = split_on [comma] 0 (List.rev x ++ cur) rest.
Proof.
  induction x as [|c x IH]; intros cur rest Hx; [reflexivity|].
  assert (Hc : N.eqb comma c = false)
    by (apply N.eqb_neq; intros H; apply Hx; now left).
  cbn [List.app split_on starts_with]. rewrite Hc. cbn [andb].
  rewrite IH by (intros H; apply Hx; now right).
  cbn [List.rev]. now rewrite <- List.app_assoc.
Qed.

Lemma split_comma (cur rest : str) :
  split_on [comma] 0 cur (comma :: rest)
  = List.rev cur :: split_on [comma] 0 [] rest.
Proof. reflexivity. Qed.

(** Splitting the joined ids gives the ids back. *)
Lemma split_join (l : list str) :
  l <> [] -> (forall x, In x l -> ~ In comma x) ->
  split (join (lit ",") l) (lit ",") = l.
Proof.
  change (lit ",") with [comma]. unfold split.
  induction l as [|x l IH]; intros Hne Hl; [contradiction|].
  destruct l as [|y l].
  - cbn [join]. rewrite <- (List.app_nil_r x) at 1.
    rewrite split_piece by (apply Hl; now left).
    cbn [split_on]. now rewrite List.app_nil_r, List.rev_involutive.
  - change (join [comma] (x :: y :: l))
      with (x ++ comma :: join [comma] (y :: l)).
    rewrite split_piece, split_comma by (apply Hl; now left).
    rewrite List.app_nil_r, List.rev_involutive. f_equal.
    apply IH; [discriminate | intros z Hz; apply Hl; now right].
Qed.

Lemma numeral_inj (a b : Z) : numeral a = numeral b -> a = b.
Proof.
  intros H.
  pose proof (DiffDays.toNumber_toFixed (Int a)) as Ha.
  pose proof (DiffDays.toNumber_toFixed (Int b)) as Hb.
  cbn [toFixed] in Ha, Hb. rewrite H in Ha. congruence.
Qed.

Lemma fresh_inj (a b : Z) : Service.fresh a = Service.fresh b -> a = b.
Proof.
  unfold Service.fresh. intros H. apply List.app_inv_head in H.
  now apply numeral_inj.
Qed.

(** *** Maps built in order *)

Lemma set_new {V} (m : JsMap.t V) (k : str) (v : V) :
  ~ In k (JsMap.keys m) -> JsMap.set m k v = m ++ [(k, v)].
Proof.
  induction m as [|[k0 v0] m IH]; simpl; [reflexivity|].
  intros H. destruct (eqb k0 k) eqn:E.
  - apply eqb_eq in E. exfalso. apply H. now left.
  - rewrite IH; [reflexivity|]. intros Hin. apply H. now right.
Qed.

Lemma of_list_acc {V} (l : list (str * V)) : forall acc,
  NoDup (JsMap.keys (acc ++ l)) ->
  List.fold_left (fun m e => JsMap.set m (fst e) (snd e)) l acc = acc ++ l.
Proof.
  induction l as [|[k v] l IH]; intros acc Hnd; simpl.
  - now rewrite List.app_nil_r.
  - assert (Hk : ~ In k (JsMap.keys acc)).
    { unfold JsMap.keys in *. rewrite List.map_app in Hnd.
      apply List.NoDup_remove_2 in Hnd. intros H. apply Hnd.
      apply List.in_or_app. now left. }
    rewrite (@set_new V acc k v Hk), IH; rewrite <- List.app_assoc;
      [reflexivity | exact Hnd].
Qed.

(** [new Map(m)] of the entries of a map is the map. *)
Lemma of_list_same {V} (m : JsMap.t V) :
  NoDup (JsMap.keys m) -> JsMap.of_list m = m.
Proof. intros H. unfold JsMap.of_list. now rewrite of_list_acc. Qed.

Lemma In_of_list_acc {V} (l : list (str * V)) : forall acc e,
  In e (List.fold_left (fun m e => JsMap.set m (fst e) (snd e)) l acc) ->
  In e acc \/ In e l.
Proof.
  induction l as [|[k v] l IH]; intros acc e; simpl; [auto|].
  intros H. apply IH in H as [H|H]; [|auto].
  apply In_set in H as [H|[Hv Hk]]; [auto|].
  right. left. destruct e. simpl in *. congruence.
Qed.

Lemma In_of_list {V} (l : list (str * V)) e :
  In e (JsMap.of_list l) -> In e l.
Proof.
  intros H. apply In_of_list_acc in H as [[]|H]. exact H.
Qed.

Section Labels.

Variable now : Z.
Variable Date_parse : str -> option Z.
Variable labels : JsMap.t Label.t.
Variable boardLabels : list Label.t.

(** The entry of a wanted label names a label of the board. *)
Definition known (e : str * str) : Prop :=
  List.find (fun l => eqb (Label.id l) (snd e)) boardLabels = Some (label_of e).

(** The labels of the manager are the labels of the board, by name. *)
Definition Consistent : Prop :=
  forall key label,
    JsMap.get labels key = Some label ->
    Label.name label = key
    /\ List.find (fun l => eqb (Label.id l) (Label.id label)) boardLabels
       = Some label.

Hypothesis consistent : Consistent.

Lemma set_term_known (m : JsMap.t str) item :
  (forall e, In e m -> known e) ->
  forall e, In e (Disasters.set_term labels m item) -> known e.
Proof.
  intros Hm e. unfold Disasters.set_term.
  destruct (JsMap.get labels item) as [label|] eqn:E; [|apply Hm].
  intros H. apply In_set in H as [H|[Hv Hk]]; [now apply Hm|].
  destruct (consistent _ E) as [Hname Hfind].
  unfold known, label_of. rewrite Hv, Hk, Hfind. f_equal.
  destruct label. simpl in *. now subst.
Qed.

Lemma set_label_known (m : JsMap.t str) key :
  (forall e, In e m -> known e) ->
  forall e, In e (Disasters.set_label labels m key) -> known e.
Proof.
  intros Hm e. unfold Disasters.set_label.
  destruct (JsMap.get labels key) as [label|] eqn:E; [|apply Hm].
  intros H. apply In_set in H as [H|[Hv Hk]]; [now apply Hm|].
  destruct (consistent _ E) as [Hname Hfind].
  unfold known, label_of. rewrite Hv, Hk, Hfind. f_equal.
  now destruct label.
Qed.

Lemma terms_known (terms : list str) : forall m : JsMap.t str,
  (forall e, In e m -> known e) ->
  forall e, In e (List.fold_left (Disasters.set_term labels) terms m) -> known e.
Proof.
  induction terms as [|t terms IH]; intros m Hm; [exact Hm|].
  simpl. apply IH. now apply set_term_known.
Qed.

Lemma getDisasterLabels_known disaster e :
  In e (Disasters.getDisasterLabels labels disaster) -> known e.
Proof.
  unfold Disasters.getDisasterLabels.
  assert (H : forall e,
             In e (List.fold_left (Disasters.set_term labels)
                     (Disasters.Disaster.country disaster)
                     (List.fold_left (Disasters.set_term labels)
                        (Disasters.Disaster.type disaster) JsMap.empty)) ->
             known e).
  { apply terms_known. apply terms_known. intros e' []. }
  repeat match goal with
         | |- context [if ?c then _ else _] => destruct c
         end; try apply set_label_known; auto.
Qed.

Lemma getProfileUpdateLabel_known lastUpdate e :
  In e (Disasters.getProfileUpdateLabel now Date_parse labels lastUpdate) ->
  known e.
Proof.
  unfold Disasters.getProfileUpdateLabel.
  repeat match goal with
         | |- context [if ?c then _ else _] => destruct c
         end; first [apply set_label_known; intros e' [] | intros []].
Qed.

Lemma wanted_known profileUpdate disaster e :
  In e (Settle.wanted now Date_parse labels profileUpdate disaster) -> known e.
Proof.
  unfold Settle.wanted. intros H. apply In_of_list in H.
  apply List.in_app_or in H as [H|H].
  - now apply getDisasterLabels_known with disaster.
  - now apply getProfileUpdateLabel_known with profileUpdate.
Qed.

Lemma set_term_NoDup (m : JsMap.t str) item :
  NoDup (JsMap.keys m) -> NoDup (JsMap.keys (Disasters.set_term labels m item)).
Proof.
  intros H. unfold Disasters.set_term.
  destruct (JsMap.get labels item); [now apply NoDup_set | exact H].
Qed.

Lemma set_label_NoDup (m : JsMap.t str) key :
  NoDup (JsMap.keys m) -> NoDup (JsMap.keys (Disasters.set_label labels m key)).
Proof.
  intros H. unfold Disasters.set_label.
  destruct (JsMap.get labels key); [now apply NoDup_set | exact H].
Qed.

Lemma terms_NoDup (terms : list str) : forall m : JsMap.t str,
  NoDup (JsMap.keys m) ->
  NoDup (JsMap.keys (List.fold_left (Disasters.set_term labels) terms m)).
Proof.
  induction terms as [|t terms IH]; intros m Hm; [exact Hm|].
  simpl. apply IH. now apply set_term_NoDup.
Qed.

Lemma getDisasterLabels_NoDup disaster :
  NoDup (JsMap.keys (Disasters.getDisasterLabels labels disaster)).
Proof.
  unfold Disasters.getDisasterLabels.
  assert (H : NoDup (JsMap.keys
                       (List.fold_left (Disasters.set_term labels)
                          (Disasters.Disaster.country disaster)
                          (List.fold_left (Disasters.set_term labels)
                             (Disasters.Disaster.type disaster) JsMap.empty)))).
  { apply terms_NoDup. apply terms_NoDup. constructor. }
  repeat match goal with
         | |- context [if ?c then _ else _] => destruct c
         end; try apply set_label_NoDup; exact H.
Qed.

(** The ids of the labels of the board can be joined by commas. *)
Definition Joinable : Prop :=
  forall l, In l boardLabels -> Label.id l <> [] /\ ~ In comma (Label.id l).

Hypothesis joinable : Joinable.

Lemma known_In e : known e -> In (label_of e) boardLabels /\ snd e <> []
                              /\ ~ In comma (snd e).
Proof.
  unfold known. intros H. apply List.find_some in H as [Hin _].
  split; [exact Hin|]. exact (joinable _ Hin).
Qed.

(** The labels that the board gives to a card created with the ids of
    the entries of [m]. *)
Lemma created_labels (m : JsMap.t str) :
  (forall e, In e m -> known e) ->
  List.flat_map
    (fun label =>
       match List.find (fun l => eqb (Label.id l) label) boardLabels with
       | Some l => [l]
       | None => []
       end)
    (split (join (lit ",") (JsMap.values m)) (lit ","))
  = List.map label_of m.
Proof.
  intros Hm. destruct m as [|e m].
  - simpl. destruct (List.find _ boardLabels) as [l|] eqn:E; [|reflexivity].
    apply List.find_some in E as [Hin He]. apply eqb_eq in He.
    now destruct (joinable _ Hin).
  - rewrite split_join.
    + unfold JsMap.values. rewrite List.flat_map_concat_map, List.map_map.
      generalize dependent (e :: m). intros l Hl.
      induction l as [|x l IH]; [reflexivity|]. simpl.
      rewrite (Hl x) by now left. simpl. f_equal. apply IH.
      intros y Hy. apply Hl. now right.
    + discriminate.
    + intros x Hx. unfold JsMap.values in Hx.
      apply List.in_map_iff in Hx as [e' [<- He']].
      now apply known_In, Hm.
Qed.

End Labels.

End NewLabels.

(** ** A run of the disasters manager against the board service *)

Module OnBoard.
Import Js JsFacts JsMapFacts JsNumber Trello Async AsyncFacts LabelDiff
  CardUpdate Replay Relabel OnCard Settle ByUrl NewLabels.

Section Run.

Variable now : Z.
Variable Date_parse : str -> option Z.
Variable currentDate : str.
Variable lists : JsMap.t BoardList.t.
Variable labels : JsMap.t Label.t.

Local Abbreviation settled :=
  (Settle.settled now Date_parse currentDate lists labels).
Local Abbreviation settle := (Settle.settle now Date_parse currentDate labels).
Local Abbreviation wanted := (Settle.wanted now Date_parse labels).
Local Abbreviation updateCard :=
  (Disasters.updateCard now Date_parse currentDate lists labels Service.send).
Local Abbreviation createCard :=
  (Disasters.createCard currentDate lists labels Service.send).
Local Abbreviation updateOrCreateOne :=
  (Disasters.updateOrCreateOne now Date_parse currentDate lists labels
     Service.send).

(** The board at the start of the run. *)
Variable board : Service.board.

(** What the run needs of a disaster: a URL that the manager recognises,
    a list for its status, sections that read back from the description
    they are written into, and a card, if it has one, that bears its
    name already. *)
Definition Ready (d : Disasters.Disaster.t) : Prop :=
  Disasters.urlPattern (Disasters.Disaster.url d) = true
  /\ (exists list, JsMap.get lists (Disasters.Disaster.status d) = Some list)
  /\ Readable d currentDate
  /\ forall c,
      card_of (Service.cards board) (Disasters.Disaster.url d) = Some c ->
      Card.name c = Disasters.Disaster.name d
      /\ forall timestamp,
          Disasters.PCard.profileUpdate (Disasters.prepareCard c)
          = Some timestamp ->
          timestamp <> [] -> Readable d timestamp.

(** No card bears an id that the service has yet to give out. *)
Definition Fresh (b : Service.board) : Prop :=
  forall id n, In id (List.map Card.id (Service.cards b)) ->
               Service.next b <= n -> id <> Service.fresh n.

(** What the run needs of the board. *)
Definition WellFormed : Prop :=
  NoDup (List.map Card.id (Service.cards board))
  /\ Fresh board
  /\ (forall c, In c (Service.cards board) ->
                NoDup (List.map Label.id (Card.labels c)))
  /\ Consistent labels (Service.labels board)
  /\ Joinable (Service.labels board).

Hypothesis wellFormed : WellFormed.

(** Today's date calls for no label on the age of the profile. *)
Hypothesis today :
  Disasters.getProfileUpdateLabel now Date_parse labels (Some currentDate) = [].

(** The board [b] after the disasters [done]: their cards are settled,
    the cards of the other URLs are as they were. *)
Definition Inv (done : list Disasters.Disaster.t) (b : Service.board) : Prop :=
  Service.labels b = Service.labels board
  /\ NoDup (List.map Card.id (Service.cards b))
  /\ Fresh b
  /\ (forall d, In d done ->
                exists c,
                  card_of (Service.cards b) (Disasters.Disaster.url d) = Some c
                  /\ settled d c)
  /\ (forall u, ~ In u (urls done) ->
                card_of (Service.cards b) u = card_of (Service.cards board) u).

Lemma Inv_start : Inv [] board.
Proof.
  destruct wellFormed as [Hnd [Hfresh _]].
  repeat split; auto. intros d [].
Qed.

Lemma has_card_In (b : Service.board) c :
  In c (Service.cards b) -> Service.has_card b (Card.id c) = true.
Proof.
  intros H. unfold Service.has_card. apply List.existsb_exists.
  exists c. split; [exact H | apply eqb_refl].
Qed.

Lemma requests_target cardId managed (wanted0 : JsMap.t str) cardLabels :
  List.forallb (targets cardId) (requests cardId managed wanted0 cardLabels)
  = true.
Proof.
  unfold requests. rewrite List.forallb_app. apply andb_true_intro.
  split; apply List.forallb_forall; intros q Hq;
    apply List.in_map_iff in Hq as [x [<- _]]; apply eqb_refl.
Qed.

Lemma put_targets cardId data :
  List.forallb (targets cardId) (put cardId data) = true.
Proof.
  unfold put. destruct (0 <? JsMap.size data)%nat; [|reflexivity].
  simpl. now rewrite eqb_refl.
Qed.

(** The requests of [updateCard] for the card [c] of disaster [d]. *)
Definition updates (d : Disasters.Disaster.t) (boardList : BoardList.t)
    (c : Card.t) : list request :=
  requests (Card.id c) all
    (wanted (Disasters.PCard.profileUpdate
               (Disasters.touched currentDate (Disasters.prepareCard c) d)) d)
    (Card.labels c)
  ++ put (Card.id c)
       (Disasters.cardData currentDate (position d) (Disasters.prepareCard c)
          d boardList).

(** The board after [updateCard] on a card of the board. *)
Lemma updateCard_after (b : Service.board) c d list :
  JsMap.get lists (Disasters.Disaster.status d) = Some list ->
  In c (Service.cards b) ->
  after (updateCard (position d) (Disasters.prepareCard c) d b)
  = Service.with_cards b
      (Service.on_card (Card.id c)
         (effects (Service.labels b) (updates d list c)) (Service.cards b))
      (Service.next b).
Proof.
  intros Hl Hin.
  rewrite (@disasters_updateCard now Date_parse currentDate lists labels
             Service.board Service.send (position d) (Disasters.prepareCard c) d b).
  rewrite (@updateCard_sent now Date_parse currentDate lists labels
             Service.board Service.send c d list b Hl).
  apply replay_on_card; [|now apply has_card_In].
  unfold updates.
  rewrite List.forallb_app, requests_target, put_targets. reflexivity.
Qed.

Lemma Fresh_on_card (b : Service.board) id f :
  (forall c, Card.id (f c) = Card.id c) ->
  Fresh b ->
  Fresh (Service.with_cards b (Service.on_card id f (Service.cards b))
           (Service.next b)).
Proof.
  intros Hf H. unfold Fresh, Service.with_cards. cbn [Service.cards Service.next].
  now rewrite ids_on_card.
Qed.

(** A change that keeps the ids and the attachments of the card of [u]
    keeps the invariant for the other URLs. *)
Lemma Inv_on_card done (b : Service.board) u c0 f :
  Inv done b ->
  card_of (Service.cards b) u = Some c0 ->
  (forall c, Card.id (f c) = Card.id c) ->
  (forall c, Card.attachments (f c) = Card.attachments c) ->
  ~ In u (urls done) ->
  let b' := Service.with_cards b
              (Service.on_card (Card.id c0) f (Service.cards b))
              (Service.next b) in
  Service.labels b' = Service.labels board
  /\ NoDup (List.map Card.id (Service.cards b'))
  /\ Fresh b'
  /\ (forall d, In d done ->
                exists c,
                  card_of (Service.cards b') (Disasters.Disaster.url d) = Some c
                  /\ settled d c)
  /\ (forall u', u' <> u ->
                 card_of (Service.cards b') u' = card_of (Service.cards b) u')
  /\ card_of (Service.cards b') u = Some (f c0).
Proof.
  intros [Hlab [Hnd [Hfresh [Hdone Hrest]]]] H0 Hid Hatt Hu b'.
  assert (Hother : forall u', u' <> u ->
             card_of (Service.cards b') u' = card_of (Service.cards b) u').
  { intros u' Hu'. unfold b', Service.with_cards. cbn [Service.cards].
    rewrite (@card_of_on_card (Service.cards b) u c0 f u' Hnd H0 Hatt).
    destruct (eqb u u') eqn:E; [|reflexivity].
    apply eqb_eq in E. congruence. }
  split; [exact Hlab|]. split.
  { unfold b', Service.with_cards. cbn [Service.cards].
    now rewrite ids_on_card. }
  split; [now apply Fresh_on_card|]. split; [|split; [exact Hother|]].
  - intros d Hd. destruct (Hdone d Hd) as [c [Hc Hs]]. exists c.
    split; [|exact Hs]. rewrite Hother; [exact Hc|].
    intros Heq. apply Hu. rewrite <- Heq. unfold urls. now apply List.in_map.
  - unfold b', Service.with_cards. cbn [Service.cards].
    rewrite (@card_of_on_card (Service.cards b) u c0 f u Hnd H0 Hatt).
    now rewrite eqb_refl.
Qed.

Lemma In_urls_app done d u :
  In u (urls (done ++ [d])) <-> In u (urls done) \/ u = Disasters.Disaster.url d.
Proof.
  unfold urls. rewrite List.map_app, List.in_app_iff. simpl.
  intuition auto.
Qed.

(** The turn of the loop for a disaster that has a card. *)
Lemma update_step done (b : Service.board) d c cards updated :
  Inv done b ->
  Ready d ->
  ~ In (Disasters.Disaster.url d) (urls done) ->
  card_of (Service.cards board) (Disasters.Disaster.url d) = Some c ->
  JsMap.get cards (Disasters.Disaster.url d) = Some (Disasters.prepareCard c) ->
  let r := updateOrCreateOne (cards, updated) d b in
  (exists st, result r = Some st) /\ Inv (done ++ [d]) (after r).
Proof.
  intros HInv [Hurl [[list Hl] [Hnow Hcard]]] Hu Hc Hget r.
  destruct (Hcard c Hc) as [Hname Hstored].
  destruct wellFormed as [_ [_ [Hlabels [Hcons Hjoin]]]].
  pose proof HInv as [Hlab [Hnd [Hfresh [Hdone Hrest]]]].
  assert (Hb : card_of (Service.cards b) (Disasters.Disaster.url d) = Some c)
    by now rewrite Hrest.
  destruct (card_of_In _ _ Hb) as [Hin _].
  destruct (card_of_In _ _ Hc) as [Hin0 _].
  destruct (@Quiet.updateCard_total now Date_parse currentDate lists labels
              Service.board Service.send (position d) (Disasters.prepareCard c)
              d list b Hl) as [changed Hr].
  assert (Hafter : after r
                   = Service.with_cards b
                       (Service.on_card (Card.id c)
                          (effects (Service.labels b) (updates d list c))
                          (Service.cards b))
                       (Service.next b)).
  { unfold r, Disasters.updateOrCreateOne. cbn [fst snd]. rewrite Hget.
    fold (position d). rewrite after_bind, Hr. run.
    now apply updateCard_after. }
  split.
  { unfold r, Disasters.updateOrCreateOne. cbn [fst snd]. rewrite Hget.
    fold (position d). rewrite result_bind, Hr. run. eauto. }
  rewrite Hafter.
  destruct (@Inv_on_card done b (Disasters.Disaster.url d) c
              (effects (Service.labels b) (updates d list c)) HInv Hb
              (fun x => effects_id _ _ x) (fun x => effects_attachments _ _ x) Hu)
    as [Hlab' [Hnd' [Hfresh' [Hdone' [Hother Hthis]]]]].
  split; [exact Hlab'|]. split; [exact Hnd'|]. split; [exact Hfresh'|]. split.
  - intros d' Hd'. apply List.in_app_or in Hd' as [Hd'|[<-|[]]];
      [now apply Hdone'|].
    exists (settle d list c). split.
    + rewrite Hthis. f_equal. unfold updates. rewrite Hlab.
      apply effects_settle; [now apply Hlabels|].
      intros e He. eapply wanted_known; [exact Hcons | exact He].
    + now apply settle_settled.
  - intros u' Hu'. rewrite In_urls_app in Hu'.
    rewrite Hother by tauto. apply Hrest. tauto.
Qed.

(** The body of [POST /cards] for a disaster. *)
Definition newData (d : Disasters.Disaster.t) (boardList : BoardList.t)
    : NewCard.t :=
  {| NewCard.idList := BoardList.id boardList;
     NewCard.urlSource := [];
     NewCard.name := Disasters.Disaster.name d;
     NewCard.desc := Disasters.generateCardDescription currentDate d None;
     NewCard.pos := position d;
     NewCard.idLabels :=
       join (lit ",") (JsMap.values (Disasters.getDisasterLabels labels d)) |}.

(** The card of a new disaster once its URL is attached. *)
Definition newCard (b : Service.board) (d : Disasters.Disaster.t)
    (boardList : BoardList.t) : Card.t :=
  Service.attach (Disasters.Disaster.url d)
    (Service.created b (Service.fresh (Service.next b)) (newData d boardList)).

Lemma on_card_absent id f (cs : list Card.t) :
  ~ In id (List.map Card.id cs) -> Service.on_card id f cs = cs.
Proof.
  intros H. unfold Service.on_card. rewrite <- (List.map_id cs) at 2.
  apply List.map_ext_in. intros c Hc.
  destruct (eqb (Card.id c) id) eqn:E; [|reflexivity].
  apply eqb_eq in E. exfalso. apply H. rewrite <- E. now apply List.in_map.
Qed.

Lemma Fresh_absent (b : Service.board) :
  Fresh b -> ~ In (Service.fresh (Service.next b)) (List.map Card.id (Service.cards b)).
Proof. intros H Hin. apply (H _ (Service.next b) Hin); [lia | reflexivity]. Qed.

(** The board after [createCard]. *)
Lemma createCard_after (b : Service.board) d list :
  JsMap.get lists (Disasters.Disaster.status d) = Some list ->
  Fresh b ->
  let r := createCard (position d) d b in
  result r = Some tt
  /\ after r
     = Service.with_cards b (Service.cards b ++ [newCard b d list])
         (Service.next b + 1 + 1).
Proof.
  intros Hl Hfresh r. unfold r, Disasters.createCard. rewrite Hl.
  fold (newData d list).
  rewrite result_bind, after_bind, result_await, after_await.
  cbn [Service.send fst snd].
  set (id := Service.fresh (Service.next b)).
  set (b1 := Service.with_cards b
               (Service.cards b ++ [Service.created b id (newData d list)])
               (Service.next b + 1)).
  assert (Hhas : Service.has_card b1 id = true).
  { unfold Service.has_card, b1, Service.with_cards. cbn [Service.cards].
    rewrite List.existsb_app. cbn [List.existsb Service.created Card.id].
    rewrite eqb_refl. now rewrite orb_true_r. }
  rewrite result_bind, after_bind, result_await, after_await.
  cbn [Service.send]. rewrite Hhas. cbn [fst snd]. run.
  split; [reflexivity|].
  unfold b1, Service.with_cards. cbn [Service.cards Service.labels Service.next].
  f_equal. unfold Service.on_card. rewrite List.map_app.
  fold (Service.on_card id (Service.attach (Disasters.Disaster.url d))
          (Service.cards b)).
  rewrite on_card_absent by now apply Fresh_absent.
  cbn [List.map Service.created Card.id]. now rewrite eqb_refl.
Qed.

(** The new card needs no request. *)
Lemma newCard_settled (b : Service.board) d list :
  JsMap.get lists (Disasters.Disaster.status d) = Some list ->
  Readable d currentDate ->
  Service.labels b = Service.labels board ->
  settled d (newCard b d list).
Proof.
  intros Hl Hnow Hlab.
  destruct wellFormed as [_ [_ [_ [Hcons Hjoin]]]].
  set (c := newCard b d list).
  destruct (Hnow c) as [Hu [Hp Hg]]; [reflexivity|].
  exists list. split; [exact Hl|]. split.
  - unfold Disasters.cardData.
    rewrite prepareCard_card, Hp, Hg, !Timestamp.differs_same.
    unfold c, newCard, Service.attach, Service.set_attachments, Service.created,
      newData.
    cbn [Card.idList Card.pos Card.closed Card.name NewCard.idList NewCard.pos
           NewCard.name orb].
    now rewrite !eqb_refl, round_inject, Z.eqb_refl.
  - unfold Disasters.touched. rewrite Hp, Timestamp.differs_same, Hu.
    unfold Settle.wanted. rewrite today, List.app_nil_r.
    rewrite of_list_same by apply getDisasterLabels_NoDup.
    assert (Hlabels : Card.labels c
                      = List.map label_of
                          (Disasters.getDisasterLabels labels d)).
    { unfold c, newCard, Service.attach, Service.set_attachments,
        Service.created, newData, Service.find_label.
      cbn [Card.labels NewCard.idLabels]. rewrite Hlab.
      apply (created_labels Hjoin). intros e He.
      now apply (@getDisasterLabels_known labels (Service.labels board) Hcons d). }
    rewrite Hlabels. unfold requests.
    destruct (removed_own (Disasters.getDisasterLabels labels d)) as [Hr Hm].
    now rewrite Hr, Hm.
Qed.

Lemma newCard_url (b : Service.board) d list u :
  Disasters.urlPattern (Disasters.Disaster.url d) = true ->
  is_card_of u (newCard b d list) = eqb (Disasters.Disaster.url d) u.
Proof.
  intros H. unfold is_card_of, url_of, newCard, Service.attach,
    Service.set_attachments, Service.created.
  cbn [Card.attachments List.app List.find]. now rewrite H.
Qed.

(** The turn of the loop for a disaster that has no card. *)
Lemma create_step done (b : Service.board) d cards updated :
  Inv done b ->
  Ready d ->
  ~ In (Disasters.Disaster.url d) (urls done) ->
  card_of (Service.cards board) (Disasters.Disaster.url d) = None ->
  JsMap.get cards (Disasters.Disaster.url d) = None ->
  let r := updateOrCreateOne (cards, updated) d b in
  (exists st, result r = Some st) /\ Inv (done ++ [d]) (after r).
Proof.
  intros HInv [Hurl [[list Hl] [Hnow Hcard]]] Hu Hc Hget r.
  pose proof HInv as [Hlab [Hnd [Hfresh [Hdone Hrest]]]].
  destruct (@createCard_after b d list Hl Hfresh) as [Hr Hafter].
  assert (Hb : after r
               = Service.with_cards b (Service.cards b ++ [newCard b d list])
                   (Service.next b + 1 + 1)).
  { unfold r, Disasters.updateOrCreateOne. cbn [fst snd]. rewrite Hget.
    fold (position d). rewrite after_bind, Hr. run. exact Hafter. }
  split.
  { unfold r, Disasters.updateOrCreateOne. cbn [fst snd]. rewrite Hget.
    fold (position d). rewrite result_bind, Hr. run. eauto. }
  rewrite Hb. unfold Inv, Service.with_cards.
  cbn [Service.cards Service.labels Service.next].
  assert (Hid : Card.id (newCard b d list) = Service.fresh (Service.next b))
    by reflexivity.
  split; [exact Hlab|]. split; [|split; [|split]].
  - rewrite List.map_app. cbn [List.map]. rewrite Hid.
    apply List.NoDup_app; [exact Hnd | constructor; [tauto | constructor] |].
    intros x Hx [<-|[]]. now apply (Fresh_absent Hfresh).
  - unfold Fresh. cbn [Service.cards Service.next].
    intros id n Hin Hn. rewrite List.map_app in Hin.
    apply List.in_app_or in Hin as [Hin|[<-|[]]].
    + apply (Hfresh id n Hin). lia.
    + rewrite Hid. intros Heq. apply fresh_inj in Heq. lia.
  - intros d' Hd'. rewrite card_of_snoc, newCard_url by exact Hurl.
    apply List.in_app_or in Hd' as [Hd'|[<-|[]]].
    + destruct (eqb (Disasters.Disaster.url d) (Disasters.Disaster.url d'))
        eqn:E; [|now apply Hdone].
      apply eqb_eq in E. exfalso. apply Hu. rewrite E. unfold urls.
      now apply List.in_map.
    + rewrite eqb_refl. exists (newCard b d list). split; [reflexivity|].
      now apply newCard_settled.
  - intros u' Hu'. rewrite In_urls_app in Hu'.
    rewrite card_of_snoc, newCard_url by exact Hurl.
    destruct (eqb (Disasters.Disaster.url d) u') eqn:E.
    + apply eqb_eq in E. exfalso. apply Hu'. now right.
    + apply Hrest. tauto.
Qed.

(** The loop over the disasters. *)
Lemma loop_inv todo : forall done (b : Service.board) cards updated,
  Inv done b ->
  NoDup (urls todo) ->
  (forall u, In u (urls todo) -> ~ In u (urls done)) ->
  (forall d, In d todo -> Ready d) ->
  (forall u, ~ In u (urls done) ->
             JsMap.get cards u
             = option_map Disasters.prepareCard (card_of (Service.cards board) u)) ->
  let r := for_of todo (cards, updated) updateOrCreateOne b in
  (exists st, result r = Some st) /\ Inv (done ++ todo) (after r).
Proof.
  induction todo as [|d todo IH]; intros done b cards updated HInv Hnd Hnew
    Hready Hcards r.
  - unfold r. cbn [for_of]. run. rewrite List.app_nil_r. eauto.
  - assert (Hu : ~ In (Disasters.Disaster.url d) (urls done))
      by (apply Hnew; now left).
    assert (Hstep : (exists st,
                        result (updateOrCreateOne (cards, updated) d b) = Some st)
                    /\ Inv (done ++ [d])
                         (after (updateOrCreateOne (cards, updated) d b))).
    { pose proof (Hcards _ Hu) as Hget.
      destruct (card_of (Service.cards board) (Disasters.Disaster.url d))
        as [c|] eqn:Ec.
      - apply update_step with c; auto. apply Hready. now left.
      - apply create_step; auto. apply Hready. now left. }
    destruct Hstep as [[[cards' updated'] Hr] HInv'].
    pose proof (@Archival.disasters_one_remaining now Date_parse currentDate
                  lists labels Service.board Service.send (cards, updated) d b
                  (cards', updated') Hr) as Hcards'.
    cbn [fst] in Hcards'.
    inversion Hnd as [|? ? Hnotin Hnd']; subst.
    destruct (IH (done ++ [d])
                (after (updateOrCreateOne (cards, updated) d b))
                (JsMap.delete cards (Disasters.Disaster.url d)) updated'
                HInv' Hnd') as [Hres HInv''].
    + intros u Hu'. rewrite In_urls_app. intros [H|H].
      * apply (Hnew u); [now right | exact H].
      * apply Hnotin. now rewrite <- H.
    + intros d' Hd'. apply Hready. now right.
    + intros u Hu'. rewrite In_urls_app in Hu'.
      rewrite get_delete_other by (intros H; apply Hu'; now right).
      apply Hcards. tauto.
    + unfold r. cbn [for_of]. rewrite result_bind, after_bind, Hr.
      rewrite <- List.app_assoc in HInv''. now split.
Qed.

(** *** The cards left over *)

Lemma write_archive (c : Card.t) :
  Service.write archive_data c = Service.set_closed c true.
Proof. reflexivity. Qed.

(** The board at the end of the run: the card of every disaster is
    settled, every other card with a disaster URL is closed or outside
    the status lists. *)
Definition Final (disasters : list Disasters.Disaster.t) (b : Service.board)
    : Prop :=
  (forall d, In d disasters ->
             exists c,
               card_of (Service.cards b) (Disasters.Disaster.url d) = Some c
               /\ settled d c)
  /\ (forall u c, card_of (Service.cards b) u = Some c ->
                  ~ In u (urls disasters) ->
                  Card.closed c = true
                  \/ Archival.inStatusList lists c = false).

(** The board [b] when the cards [todo] are yet to be archived. *)
Definition Archiving (disasters : list Disasters.Disaster.t)
    (todo : JsMap.t Disasters.PCard.t) (b : Service.board) : Prop :=
  NoDup (List.map Card.id (Service.cards b))
  /\ (forall d, In d disasters ->
                exists c,
                  card_of (Service.cards b) (Disasters.Disaster.url d) = Some c
                  /\ settled d c)
  /\ (forall u c, card_of (Service.cards b) u = Some c ->
                  ~ In u (urls disasters) ->
                  In u (JsMap.keys todo)
                  \/ Card.closed c = true
                  \/ Archival.inStatusList lists c = false)
  /\ (forall u pc, In (u, pc) todo ->
                   ~ In u (urls disasters)
                   /\ exists c, pc = Disasters.prepareCard c
                                /\ card_of (Service.cards b) u = Some c).

Lemma archive_loop disasters (todo : JsMap.t Disasters.PCard.t) :
  forall archived (b : Service.board),
  NoDup (JsMap.keys todo) ->
  Archiving disasters todo b ->
  Final disasters
    (after
       (for_of (JsMap.values todo) archived
          (fun archived card =>
             if JsMap.has
                  (List.fold_left
                     (fun m list =>
                        JsMap.set m (BoardList.id list) (BoardList.name list))
                     (JsMap.values lists) JsMap.empty)
                  (Card.idList (Disasters.PCard.card card))
             then bind (Disasters.archiveCard Service.send card)
                    (fun _ => ret (S archived))
             else ret archived) b)).
Proof.
  induction todo as [|[u pc] todo IH]; intros archived b Hnd HA.
  - destruct HA as [_ [Hdone [Hrest _]]]. cbn [JsMap.values List.map for_of]. run.
    split; [exact Hdone|]. intros u c Hc Hu.
    destruct (Hrest u c Hc Hu) as [[]|H]; exact H.
  - cbn [JsMap.values List.map for_of snd]. rewrite after_bind.
    fold (JsMap.values todo).
    pose proof HA as [Hids [Hdone [Hrest Htodo]]].
    destruct (Htodo u pc (or_introl eq_refl)) as [Hu [c [-> Hc]]].
    cbn [JsMap.keys List.map fst] in Hnd.
    inversion Hnd as [|? ? Hnotin Hnd']; subst.
    rewrite Archival.has_statusLists, prepareCard_card.
    assert (Hsame : Card.closed c = true
                    \/ Archival.inStatusList lists c = false ->
                    Archiving disasters todo b).
    { intros Hok. split; [exact Hids|]. split; [exact Hdone|]. split.
      - intros u' c' Hc' Hu'. destruct (Hrest u' c' Hc' Hu') as [[Heq|H]|H].
        + right. cbn [fst] in Heq. rewrite <- Heq, Hc in Hc'.
          injection Hc' as <-. exact Hok.
        + now left.
        + now right.
      - intros u' pc' Hin. apply Htodo. now right. }
    destruct (Archival.inStatusList lists c) eqn:Ein.
    + unfold Disasters.archiveCard. rewrite prepareCard_card.
      destruct (Card.closed c) eqn:Ecl; cbn [negb]; run.
      * apply IH; [exact Hnd' | apply Hsame; now left].
      * cbn [Service.send]. rewrite (has_card_In b c)
          by (now apply card_of_In with u).
        cbn [snd fst]. run. apply IH; [exact Hnd'|].
        assert (Hother : forall u',
                   card_of
                     (Service.on_card (Card.id c) (Service.write archive_data)
                        (Service.cards b)) u'
                   = if eqb u u' then Some (Service.set_closed c true)
                     else card_of (Service.cards b) u').
        { intros u'. now apply card_of_on_card. }
        unfold Archiving, Service.with_cards. cbn [Service.cards].
        split; [|split; [|split]].
        -- rewrite ids_on_card; [exact Hids | intros; apply write_id].
        -- intros d Hd. destruct (Hdone d Hd) as [c' [Hc' Hs']].
           exists c'. split; [|exact Hs']. rewrite Hother.
           destruct (eqb u (Disasters.Disaster.url d)) eqn:E; [|exact Hc'].
           apply eqb_eq in E. exfalso. apply Hu. rewrite E. unfold urls.
           now apply List.in_map.
        -- intros u' c' Hc' Hu'. rewrite Hother in Hc'.
           destruct (eqb u u') eqn:E.
           ++ injection Hc' as <-. right. now left.
           ++ destruct (Hrest u' c' Hc' Hu') as [[Heq|H]|H].
              ** cbn [fst] in Heq. rewrite Heq, eqb_refl in E. discriminate.
              ** now left.
              ** now right.
        -- intros u' pc' Hin. destruct (Htodo u' pc' (or_intror Hin))
             as [Hu' [c' [-> Hc']]].
           split; [exact Hu'|]. exists c'. split; [reflexivity|].
           rewrite Hother. destruct (eqb u u') eqn:E; [|exact Hc'].
           apply eqb_eq in E. subst u'. exfalso. apply Hnotin.
           change u with (fst (u, Disasters.prepareCard c')).
           now apply List.in_map.
    + run. apply IH; [exact Hnd' | apply Hsame; now right].
Qed.

(** The board after a whole run. *)
Lemma first_run_final disasters :
  NoDup (urls disasters) ->
  (forall d, In d disasters -> Ready d) ->
  Final disasters
    (after
       (Disasters.updateBoard now Date_parse currentDate lists labels
          Service.send (Service.cards board) disasters board)).
Proof.
  intros Hnd Hready.
  set (existing := Disasters.existingCards (Service.cards board)).
  destruct (@loop_inv disasters [] board existing O Inv_start Hnd)
    as [[st Hr] HInv]; [tauto | exact Hready | |].
  { intros u _. apply get_existingCards. }
  cbn [List.app] in HInv.
  assert (Hst : fst st = Archival.remaining disasters existing).
  { apply (@for_of_fold Service.board _ _ _ fst
             (fun cards d => JsMap.delete cards (Disasters.Disaster.url d))
             (Disasters.updateOrCreateOne now Date_parse currentDate lists labels
                Service.send)) with (w := board) (s := (existing, O));
      [|exact Hr].
    intros s x w' s' H.
    now apply (@Archival.disasters_one_remaining now Date_parse currentDate
                 lists labels Service.board Service.send s x w' s'). }
  unfold Disasters.updateBoard, Disasters.updateOrCreate. fold existing.
  rewrite after_bind, Hr, after_bind.
  set (b := after (for_of disasters (existing, O) updateOrCreateOne board)) in *.
  cut (Final disasters
         (after (Disasters.archiveRemaining lists Service.send (fst st) b))).
  { intros H. now destruct (result (Disasters.archiveRemaining _ _ _ _)). }
  rewrite Hst.
  assert (Hkeys : NoDup (JsMap.keys (Archival.remaining disasters existing)))
    by apply NoDup_remaining, NoDup_existingCards.
  destruct HInv as [Hlab [Hids [Hfresh [Hdone Hrest]]]].
  assert (HA : Archiving disasters (Archival.remaining disasters existing) b).
  { split; [exact Hids|]. split; [exact Hdone|]. split.
    - intros u c Hc Hu. left. apply has_keys. unfold JsMap.has.
      rewrite get_remaining by apply NoDup_existingCards.
      destruct (List.existsb (eqb u) (urls disasters)) eqn:Ex.
      + apply existsb_urls in Ex. contradiction.
      + unfold existing. rewrite get_existingCards, <- Hrest, Hc by exact Hu.
        reflexivity.
    - intros u pc Hin. apply NoDup_get in Hin; [|exact Hkeys].
      rewrite get_remaining in Hin by apply NoDup_existingCards.
      destruct (List.existsb (eqb u) (urls disasters)) eqn:Ex; [discriminate|].
      assert (Hu : ~ In u (urls disasters))
        by (intros H; apply existsb_urls in H; congruence).
      split; [exact Hu|].
      unfold existing in Hin. rewrite get_existingCards in Hin.
      destruct (card_of (Service.cards board) u) as [c|] eqn:Ec; [|discriminate].
      injection Hin as <-. exists c. split; [reflexivity|].
      now rewrite Hrest. }
  unfold Disasters.archiveRemaining.
  destruct (0 <? JsMap.size (Archival.remaining disasters existing))%nat eqn:Es.
  - now apply archive_loop.
  - destruct (Archival.remaining disasters existing) as [|e m];
      [|discriminate].
    exact (@archive_loop disasters [] O b Hkeys HA).
Qed.

End Run.




End OnBoard.

(** ** Running the disasters manager twice (C1) *)

Module Idempotence.
Import Js JsFacts JsMapFacts JsNumber Trello Async AsyncFacts Settle ByUrl
  NewLabels.

(** The disasters manager, against a board service that serves each
    request on the card it names, with both runs at the same instant:
    when the board is well formed, today's date calls for no label on
    the age of the profile, the disasters have distinct URLs and each of
    them is ready, the second run, on the cards that the first run
    leaves, sends no request, whatever the remote side of the second run
    answers. *)
Lemma disasters_second_run now Date_parse currentDate lists labels
    (board : Service.board) disasters World
    (send : request -> World -> option str * World) (w : World) :
  OnBoard.WellFormed labels board ->
  Disasters.getProfileUpdateLabel now Date_parse labels (Some currentDate) = [] ->
  NoDup (urls disasters) ->
  (forall d, In d disasters -> OnBoard.Ready currentDate lists board d) ->
  let first :=
    Disasters.updateBoard now Date_parse currentDate lists labels Service.send
      (Service.cards board) disasters board in
  sent (Disasters.updateBoard now Date_parse currentDate lists labels
          send (Service.cards (after first)) disasters w)
  = [].
Proof.
  intros Hwf Htoday Hnd Hready first.
  destruct (@OnBoard.first_run_final now Date_parse currentDate lists labels
              board Hwf Htoday disasters Hnd Hready) as [Hdone Hrest].
  now apply Quiet.quiet_run.
Qed.

(** *** An example *)

(** The sections of a card are those of [d], with the date [timestamp]. *)
Definition shows (card : Disasters.PCard.t) (d : Disasters.Disaster.t)
    (timestamp : str) : bool :=
  match Disasters.PCard.profileUpdate card, Disasters.PCard.profile card,
        Disasters.PCard.glide card with
  | Some u, Some p, Some g =>
      eqb u timestamp && eqb p (Disasters.Disaster.overview d)
      && eqb g (Disasters.Disaster.glide d)
  | _, _, _ => false
  end.

Lemma shows_sections card d timestamp :
  shows card d timestamp = true ->
  Disasters.PCard.profileUpdate card = Some timestamp
  /\ Disasters.PCard.profile card = Some (Disasters.Disaster.overview d)
  /\ Disasters.PCard.glide card = Some (Disasters.Disaster.glide d).
Proof.
  unfold shows.
  destruct (Disasters.PCard.profileUpdate card) as [u|]; [|discriminate].
  destruct (Disasters.PCard.profile card) as [p|]; [|discriminate].
  destruct (Disasters.PCard.glide card) as [g|]; [|discriminate].
  intros H. apply andb_prop in H as [H Hg]. apply andb_prop in H as [Hu Hp].
  apply eqb_eq in Hu. apply eqb_eq in Hp. apply eqb_eq in Hg.
  subst u p g. repeat split.
Qed.

(** A card with the description that the manager writes for [d]. *)
Definition written (d : Disasters.Disaster.t) (timestamp : str) : Card.t :=
  {| Card.id := [];
     Card.name := [];
     Card.labels := [];
     Card.idList := [];
     Card.desc :=
       Disasters.profileUpdateHeader ++ timestamp ++ Disasters.profileHeader
       ++ Disasters.Disaster.overview d ++ Disasters.glideHeader
       ++ Disasters.Disaster.glide d;
     Card.closed := false;
     Card.pos := 0;
     Card.attachments := None;
     Card.checklists := None |}.

(** When a card with the description that the manager writes for [d]
    shows the sections of [d], these sections read back from every card
    that has this description. *)
Lemma shows_Readable (c0 : Card.t) d timestamp :
  Card.desc c0
  = Disasters.profileUpdateHeader ++ timestamp ++ Disasters.profileHeader
    ++ Disasters.Disaster.overview d ++ Disasters.glideHeader
    ++ Disasters.Disaster.glide d ->
  shows (Disasters.prepareCard c0) d timestamp = true ->
  Readable d timestamp.
Proof.
  intros H0 H c Hc.
  destruct (shows_sections _ _ _ H) as [Hu [Hp Hg]].
  rewrite <- H0 in Hc.
  destruct (prepareCard_desc c c0 Hc) as [Hu' [Hp' Hg']].
  rewrite Hu', Hp', Hg'. exact (conj Hu (conj Hp Hg)).
Qed.

(** The labels of the example board. *)
Definition ongoing : Label.t := Label.Build_t (lit "B3") (lit "Ongoing").

(** The card of a disaster that is no longer followed. *)
Definition orphan : Card.t :=
  {| Card.id := lit "C2";
     Card.name := lit "Drought in Mali";
     Card.labels := [];
     Card.idList := lit "L2";
     Card.desc := [];
     Card.closed := false;
     Card.pos := 7 # 1;
     Card.attachments := Some [lit "http://reliefweb.int/taxonomy/term/200"];
     Card.checklists := None |}.

(** A board with the card of the disaster of the examples, in the wrong
    list and with an old glide number, and with the orphan card. *)
Definition board : Service.board :=
  {| Service.cards :=
       [Example.tracked (lit "Flood in Chad") (lit "L1") (lit "0") (lit "old");
        orphan];
     Service.labels := [Example.flood; Example.chad; ongoing];
     Service.next := 0 |}.

(** A disaster that has no card yet. *)
Definition storm : Disasters.Disaster.t :=
  {| Disasters.Disaster.id := 300;
     Disasters.Disaster.url := lit "http://reliefweb.int/taxonomy/term/300";
     Disasters.Disaster.name := lit "Storm in Chad";
     Disasters.Disaster.glide := lit "ST-2020-000003-TCD";
     Disasters.Disaster.status := lit "alert";
     Disasters.Disaster.overview := lit "Strong winds.";
     Disasters.Disaster.type := [];
     Disasters.Disaster.country := [lit "Chad"];
     Disasters.Disaster.statusPosition := 1;
     Disasters.Disaster.pos := None;
     Disasters.Disaster.lastReport := VUndefined |}.

Definition first_run : outcome Service.board (nat * nat) :=
  Disasters.updateBoard Example.now Example.Date_parse Example.currentDate
    Example.lists Example.labels Service.send (Service.cards board)
    [Example.disaster; storm] board.

Lemma board_WellFormed : OnBoard.WellFormed Example.labels board.
Proof.
  assert (Hneq : forall a b : str, eqb a b = false -> a <> b)
    by (intros a b; apply eqb_neq).
  split; [|split; [|split; [|split]]].
  - repeat constructor; simpl; intuition (try discriminate).
  - intros id n [<-|[<-|[]]] _; discriminate.
  - intros c [<-|[<-|[]]]; repeat constructor; simpl; tauto.
  - intros key label H. apply get_In in H.
    destruct H as [H|[H|[H|[]]]]; injection H as <- <-; now split.
  - intros l [<-|[<-|[<-|[]]]]; split; try discriminate;
      simpl; unfold comma; intuition discriminate.
Qed.

Lemma board_Ready d :
  In d [Example.disaster; storm] ->
  OnBoard.Ready Example.currentDate Example.lists board d.
Proof.
  assert (readable : forall d timestamp,
             shows (Disasters.prepareCard (written d timestamp)) d timestamp
             = true ->
             Readable d timestamp)
    by (intros d' timestamp; apply shows_Readable; reflexivity).
  intros [<-|[<-|[]]].
  - split; [vm_compute; reflexivity|].
    split; [eexists; vm_compute; reflexivity|].
    split; [apply readable; vm_compute; reflexivity|].
    intros c Hc. vm_compute in Hc. injection Hc as <-.
    split; [reflexivity|].
    intros timestamp H _. vm_compute in H. injection H as <-.
    apply readable. vm_compute. reflexivity.
  - split; [vm_compute; reflexivity|].
    split; [eexists; vm_compute; reflexivity|].
    split; [apply readable; vm_compute; reflexivity|].
    intros c Hc. vm_compute in Hc. discriminate.
Qed.

Lemma board_urls : NoDup (urls [Example.disaster; storm]).
Proof. repeat constructor; simpl; intuition discriminate. Qed.

(** *** A description that does not read back *)

(** A disaster whose overview has a heading [# Profile] of its own. *)
Definition headed : Disasters.Disaster.t :=
  {| Disasters.Disaster.id := 100;
     Disasters.Disaster.url := lit "http://reliefweb.int/taxonomy/term/100";
     Disasters.Disaster.name := lit "Flood in Chad";
     Disasters.Disaster.glide := lit "FL-2020-000001-TCD";
     Disasters.Disaster.status := lit "ongoing";
     Disasters.Disaster.overview :=
       lit "Heavy rain." ++ Disasters.profileHeader ++ lit "Roads are cut.";
     Disasters.Disaster.type := [lit "Flood"];
     Disasters.Disaster.country := [];
     Disasters.Disaster.statusPosition := 2;
     Disasters.Disaster.pos := None;
     Disasters.Disaster.lastReport := VUndefined |}.

(** A board with no card. *)
Definition empty : Service.board :=
  {| Service.cards := [];
     Service.labels := [Example.flood; Example.chad; ongoing];
     Service.next := 0 |}.

(** A run for [headed] on the board [b]. *)
Definition run (b : Service.board) : outcome Service.board (nat * nat) :=
  Disasters.updateBoard Example.now Example.Date_parse Example.currentDate
    Example.lists Example.labels Service.send (Service.cards b) [headed] b.

(** C1 as the specification states it fails: on a board with no card,
    the first run creates the card of the disaster, under its name; the
    second run finds the heading of the overview where it looks for the
    header of the profile, reads a profile that is not the overview and
    writes the description again. *)
Lemma second_run_writes_the_description_again :
  List.map Card.name (Service.cards (after (run empty)))
  = [Disasters.Disaster.name headed]
  /\ sent (run (after (run empty)))
     = [PUT_card (lit "new-0")
          [(lit "desc",
            VStr (Disasters.generateCardDescription Example.currentDate headed
                    (Some Example.currentDate)))]].
Proof. split; vm_compute; reflexivity. Qed.

End Idempotence.

(** ** Running the checklist diff of the topics manager twice *)

Module ChecklistDiff.
Import Js JsFacts JsMapFacts JsNumber Trello Async AsyncFacts CardUpdate ByUrl.

(** The name of the check item is a link. *)
Definition linked (checkitem : CheckItem.t) : bool :=
  0 <? indexOf (CheckItem.name checkitem) (lit "](").

Definition title_of (checkitem : CheckItem.t) : str :=
  fst (Topics.linkParts (CheckItem.name checkitem)).

Definition url_of (checkitem : CheckItem.t) : str :=
  snd (Topics.linkParts (CheckItem.name checkitem)).

(** The check item does not show the title or the position of [item]. *)
Definition stale (item : Topics.Item.t) (checkitem : CheckItem.t) : bool :=
  negb (eqb (Topics.Item.title item) (title_of checkitem))
  || negb (Qeq_bool (inject_Z (Topics.Item.position item))
             (CheckItem.pos checkitem)).

Section Diff.

Variable cardId : str.
Variable checklistId : str.

(** The requests of the first loop of [updateChecklist]. *)
Fixpoint changes (items : JsMap.t Topics.Item.t) (checkItems : list CheckItem.t)
    : list request :=
  match checkItems with
  | [] => []
  | checkitem :: rest =>
      if linked checkitem then
        match JsMap.get items (url_of checkitem) with
        | Some item =>
            if stale item checkitem then
              PUT_card_checkItem cardId checklistId (CheckItem.id checkitem)
                (Topics.Item.name item) (Topics.Item.position item)
              :: changes
                   (JsMap.delete (JsMap.delete items (url_of checkitem))
                      (url_of checkitem)) rest
            else changes (JsMap.delete items (url_of checkitem)) rest
        | None =>
            DELETE_checklist_checkItem checklistId (CheckItem.id checkitem)
            :: changes items rest
        end
      else changes items rest
  end.

(** The wanted items that the first loop leaves for the second. *)
Fixpoint missing (items : JsMap.t Topics.Item.t) (checkItems : list CheckItem.t)
    : JsMap.t Topics.Item.t :=
  match checkItems with
  | [] => items
  | checkitem :: rest =>
      if linked checkitem then
        match JsMap.get items (url_of checkitem) with
        | Some item =>
            if stale item checkitem then
              missing
                (JsMap.delete (JsMap.delete items (url_of checkitem))
                   (url_of checkitem)) rest
            else missing (JsMap.delete items (url_of checkitem)) rest
        | None => missing items rest
        end
      else missing items rest
  end.

(** The requests of the second loop. *)
Definition additions (items : JsMap.t Topics.Item.t) : list request :=
  List.map
    (fun item =>
       POST_checklist_checkItems checklistId (Topics.Item.name item)
         (Topics.Item.position item))
    (JsMap.values items).

End Diff.

Section Requests.

Variable World : Type.
Variable send : request -> World -> option str * World.

(** The requests of [updateChecklist]. *)
Lemma updateChecklist_requests cardId checklist items (w : World) :
  sent (Topics.updateChecklist send cardId checklist items w)
  = changes cardId (Checklist.id checklist) items (Checklist.checkItems checklist)
    ++ additions (Checklist.id checklist)
         (missing items (Checklist.checkItems checklist)).
Proof.
  unfold Topics.updateChecklist. rewrite sent_bind.
  match goal with
  | |- context [for_of ?L (items, false) ?body w] =>
      assert (Hloop : forall l items0 changed w',
                 sent (for_of l (items0, changed) body w')
                 = changes cardId (Checklist.id checklist) items0 l
                 /\ exists changed',
                     result (for_of l (items0, changed) body w')
                     = Some (missing items0 l, changed'));
        [|destruct (Hloop L items false w) as [Hs [changed' Hr]]]
  end.
  - induction l as [|checkitem rest IH]; intros items0 changed w'.
    + split; [reflexivity | now exists changed].
    + cbn [for_of changes missing fst snd]. run.
      fold (linked checkitem). fold (url_of checkitem). fold (title_of checkitem).
      destruct (linked checkitem).
      * destruct (JsMap.get items0 (url_of checkitem)) as [item|].
        -- fold (stale item checkitem). destruct (stale item checkitem).
           ++ run. rewrite updateCheckItem_run. run.
              match goal with
              | |- context [for_of rest ?s ?body ?w2] =>
                  destruct (IH (fst s) (snd s) w2) as [Hs Hr]
              end.
              cbn [fst snd] in Hs, Hr. rewrite Hs. split; [reflexivity | exact Hr].
           ++ run. apply IH.
        -- run. rewrite deleteCheckItem_run. run.
           match goal with
           | |- context [for_of rest ?s ?body ?w2] =>
               destruct (IH (fst s) (snd s) w2) as [Hs Hr]
           end.
           cbn [fst snd] in Hs, Hr. rewrite Hs. split; [reflexivity | exact Hr].
      * run. apply IH.
  - rewrite Hs, Hr. f_equal. cbn [fst snd]. unfold additions.
    generalize (JsMap.values (missing items (Checklist.checkItems checklist))).
    intros l.
    match goal with
    | |- sent (for_of l ?c _ ?w') = _ => generalize c; generalize w'
    end.
    induction l as [|item l IH]; intros w' changed; [reflexivity|].
    cbn [for_of List.map]. run. rewrite addCheckItem_run. run.
    rewrite List.app_nil_r. cbn [List.app]. f_equal. apply IH.
Qed.

End Requests.

(** *** The checklist after the requests *)

(** The check item that the board shows for a wanted item. *)
Definition shown (id : str) (item : Topics.Item.t) : CheckItem.t :=
  CheckItem.Build_t id (Topics.Item.name item)
    (inject_Z (Topics.Item.position item)).

(** The check items of the checklist after the requests of the first
    loop. *)
Fixpoint kept (items : JsMap.t Topics.Item.t) (checkItems : list CheckItem.t)
    : list CheckItem.t :=
  match checkItems with
  | [] => []
  | checkitem :: rest =>
      if linked checkitem then
        match JsMap.get items (url_of checkitem) with
        | Some item =>
            if stale item checkitem then
              shown (CheckItem.id checkitem) item
              :: kept
                   (JsMap.delete (JsMap.delete items (url_of checkitem))
                      (url_of checkitem)) rest
            else checkitem :: kept (JsMap.delete items (url_of checkitem)) rest
        | None => kept items rest
        end
      else checkitem :: kept items rest
  end.

(** The check items that the requests of the second loop create. *)
Fixpoint added (next : Z) (items : list Topics.Item.t) : list CheckItem.t :=
  match items with
  | [] => []
  | item :: rest => shown (Service.fresh next) item :: added (next + 1) rest
  end.

Definition served (next : Z) (checklist : Checklist.t)
    (items : JsMap.t Topics.Item.t) : Checklist.t :=
  Checklist.Build_t (Checklist.id checklist) (Checklist.name checklist)
    (kept items (Checklist.checkItems checklist)
     ++ added next (JsMap.values (missing items (Checklist.checkItems checklist)))).

(** What the board service does to a checklist, and to the number of the
    next new id, on a request. *)
Definition serve (st : Checklist.t * Z) (q : request) : Checklist.t * Z :=
  match q with
  | PUT_card_checkItem _ checklist item name pos =>
      if eqb checklist (Checklist.id (fst st))
      then (Service.put_item item name pos (fst st), snd st)
      else st
  | DELETE_checklist_checkItem checklist item =>
      if eqb checklist (Checklist.id (fst st))
      then (Service.delete_item item (fst st), snd st)
      else st
  | POST_checklist_checkItems checklist name pos =>
      if eqb checklist (Checklist.id (fst st))
      then (Service.add_item (Service.fresh (snd st)) name pos (fst st),
            snd st + 1)
      else st
  | _ => st
  end.

Lemma replace_one (front rest : list CheckItem.t) checkitem x :
  NoDup (List.map CheckItem.id (front ++ checkitem :: rest)) ->
  List.map
    (fun i => if eqb (CheckItem.id i) (CheckItem.id checkitem) then x else i)
    (front ++ checkitem :: rest)
  = front ++ x :: rest.
Proof.
  intros Hnd. rewrite List.map_app in Hnd.
  assert (Hother : forall l : list CheckItem.t,
             ~ In (CheckItem.id checkitem) (List.map CheckItem.id l) ->
             List.map
               (fun i =>
                  if eqb (CheckItem.id i) (CheckItem.id checkitem) then x else i) l
             = l).
  { induction l as [|y l IH]; intros Hy; [reflexivity|]. simpl.
    destruct (eqb (CheckItem.id y) (CheckItem.id checkitem)) eqn:E.
    - apply eqb_eq in E. exfalso. apply Hy. now left.
    - rewrite IH; [reflexivity|]. intros H. apply Hy. now right. }
  rewrite List.map_app. cbn [List.map]. rewrite eqb_refl.
  cbn [List.map] in Hnd.
  rewrite !Hother; [reflexivity | |].
  - apply List.NoDup_remove_2 in Hnd. intros H. apply Hnd.
    apply List.in_or_app. now right.
  - apply List.NoDup_remove_2 in Hnd. intros H. apply Hnd.
    apply List.in_or_app. now left.
Qed.

Lemma remove_one (front rest : list CheckItem.t) checkitem :
  NoDup (List.map CheckItem.id (front ++ checkitem :: rest)) ->
  List.filter
    (fun i => negb (eqb (CheckItem.id i) (CheckItem.id checkitem)))
    (front ++ checkitem :: rest)
  = front ++ rest.
Proof.
  intros Hnd. rewrite List.map_app in Hnd.
  assert (Hother : forall l : list CheckItem.t,
             ~ In (CheckItem.id checkitem) (List.map CheckItem.id l) ->
             List.filter
               (fun i => negb (eqb (CheckItem.id i) (CheckItem.id checkitem))) l
             = l).
  { induction l as [|y l IH]; intros Hy; [reflexivity|]. simpl.
    destruct (eqb (CheckItem.id y) (CheckItem.id checkitem)) eqn:E.
    - apply eqb_eq in E. exfalso. apply Hy. now left.
    - simpl. rewrite IH; [reflexivity|]. intros H. apply Hy. now right. }
  rewrite List.filter_app. cbn [List.filter]. rewrite eqb_refl.
  cbn [List.map negb] in *.
  rewrite !Hother; [reflexivity | |].
  - apply List.NoDup_remove_2 in Hnd. intros H. apply Hnd.
    apply List.in_or_app. now right.
  - apply List.NoDup_remove_2 in Hnd. intros H. apply Hnd.
    apply List.in_or_app. now left.
Qed.

Section Served.

Variable cardId : str.
Variable id name : str.

(** The requests of the first loop, served. *)
Lemma changes_served (checkItems : list CheckItem.t) :
  forall (items : JsMap.t Topics.Item.t) (front : list CheckItem.t) next,
  NoDup (List.map CheckItem.id (front ++ checkItems)) ->
  List.fold_left serve (changes cardId id items checkItems)
    (Checklist.Build_t id name (front ++ checkItems), next)
  = (Checklist.Build_t id name (front ++ kept items checkItems), next).
Proof.
  induction checkItems as [|checkitem rest IH]; intros items front next Hnd;
    [reflexivity|].
  assert (Hskip : forall items',
             List.fold_left serve (changes cardId id items' rest)
               (Checklist.Build_t id name (front ++ checkitem :: rest), next)
             = (Checklist.Build_t id name
                  (front ++ checkitem :: kept items' rest), next)).
  { intros items'.
    change (front ++ checkitem :: rest) with (front ++ [checkitem] ++ rest).
    change (front ++ checkitem :: kept items' rest)
      with (front ++ [checkitem] ++ kept items' rest).
    rewrite !List.app_assoc. apply IH. now rewrite <- List.app_assoc. }
  cbn [changes kept]. destruct (linked checkitem); [|apply Hskip].
  destruct (JsMap.get items (url_of checkitem)) as [item|].
  - destruct (stale item checkitem); [|apply Hskip].
    cbn [List.fold_left serve fst snd Checklist.id]. rewrite eqb_refl.
    unfold Service.put_item. cbn [Checklist.id Checklist.name Checklist.checkItems].
    rewrite (replace_one front rest checkitem _ Hnd).
    change (front ++ CheckItem.Build_t (CheckItem.id checkitem)
                       (Topics.Item.name item)
                       (inject_Z (Topics.Item.position item)) :: rest)
      with (front ++ [shown (CheckItem.id checkitem) item] ++ rest).
    change (front ++ shown (CheckItem.id checkitem) item :: ?k)
      with (front ++ [shown (CheckItem.id checkitem) item] ++ k).
    rewrite !List.app_assoc. apply IH.
    rewrite <- List.app_assoc. cbn [List.app].
    rewrite List.map_app in *. exact Hnd.
  - cbn [List.fold_left serve fst snd Checklist.id]. rewrite eqb_refl.
    unfold Service.delete_item.
    cbn [Checklist.id Checklist.name Checklist.checkItems].
    rewrite (remove_one front rest checkitem Hnd). apply IH.
    rewrite List.map_app in *. cbn [List.map] in Hnd.
    now apply List.NoDup_remove_1 in Hnd.
Qed.

(** The requests of the second loop, served. *)
Lemma additions_served (items : list Topics.Item.t) :
  forall (checkItems : list CheckItem.t) next,
  List.fold_left serve
    (List.map
       (fun item =>
          POST_checklist_checkItems id (Topics.Item.name item)
            (Topics.Item.position item)) items)
    (Checklist.Build_t id name checkItems, next)
  = (Checklist.Build_t id name (checkItems ++ added next items),
     next + Z.of_nat (List.length items)).
Proof.
  induction items as [|item rest IH]; intros checkItems next.
  - cbn. now rewrite List.app_nil_r, Z.add_0_r.
  - cbn [List.map List.fold_left serve fst snd Checklist.id added List.length].
    rewrite eqb_refl. unfold Service.add_item.
    cbn [Checklist.id Checklist.name Checklist.checkItems].
    rewrite IH, <- List.app_assoc. cbn [List.app]. f_equal. lia.
Qed.

End Served.

(** *** The second run *)

(** The name of every wanted item reads back as its title and its URL,
    the key of the item. *)
Definition Linked (items : JsMap.t Topics.Item.t) : Prop :=
  forall url item,
    In (url, item) items ->
    (0 <? indexOf (Topics.Item.name item) (lit "](")) = true
    /\ Topics.linkParts (Topics.Item.name item) = (Topics.Item.title item, url).

Lemma Linked_delete (items : JsMap.t Topics.Item.t) url :
  Linked items -> Linked (JsMap.delete items url).
Proof. intros H u item Hin. apply H. now apply In_delete with url. Qed.

Lemma delete_twice {V} (m : JsMap.t V) (k : str) :
  NoDup (JsMap.keys m) -> JsMap.delete (JsMap.delete m k) k = JsMap.delete m k.
Proof. intros H. apply delete_absent. now apply get_delete_same. Qed.

(** The check item shown for a wanted item is up to date. *)
Lemma shown_fresh (items : JsMap.t Topics.Item.t) url item id :
  Linked items -> In (url, item) items ->
  linked (shown id item) = true
  /\ url_of (shown id item) = url
  /\ stale item (shown id item) = false.
Proof.
  intros HL Hin. destruct (HL url item Hin) as [Hl Hp].
  unfold linked, url_of, stale, title_of, shown. cbn [CheckItem.name CheckItem.pos].
  rewrite Hl, Hp. cbn [fst snd]. rewrite eqb_refl.
  assert (Hq : Qeq_bool (inject_Z (Topics.Item.position item))
                 (inject_Z (Topics.Item.position item)) = true)
    by (apply Qeq_bool_iff; reflexivity).
  now rewrite Hq.
Qed.

Section Second.

Variable cardId : str.
Variable checklistId : str.

Local Abbreviation changes := (changes cardId checklistId).

(** Reading the check items that the first loop left, the second run
    sends nothing and is left with the same wanted items. *)
Lemma changes_kept (checkItems : list CheckItem.t) :
  forall (items : JsMap.t Topics.Item.t) (tail : list CheckItem.t),
  NoDup (JsMap.keys items) -> Linked items ->
  changes items (kept items checkItems ++ tail)
  = changes (missing items checkItems) tail
  /\ missing items (kept items checkItems ++ tail)
     = missing (missing items checkItems) tail.
Proof.
  induction checkItems as [|checkitem rest IH]; intros items tail Hnd HL;
    [now split|].
  cbn [kept missing].
  destruct (linked checkitem) eqn:El.
  - destruct (JsMap.get items (url_of checkitem)) as [item|] eqn:Eg.
    + destruct (stale item checkitem) eqn:Es.
      * apply get_In in Eg.
        destruct (@shown_fresh items (url_of checkitem) item
                    (CheckItem.id checkitem) HL Eg) as [Hl [Hu Hs]].
        cbn [List.app ChecklistDiff.changes missing].
        apply (@NoDup_get _ items (url_of checkitem) item Hnd) in Eg.
        rewrite Hl, Hu, Eg, Hs, delete_twice by exact Hnd.
        apply IH; [now apply NoDup_delete | now apply Linked_delete].
      * cbn [List.app ChecklistDiff.changes missing]. rewrite El, Eg, Es.
        apply IH; [now apply NoDup_delete | now apply Linked_delete].
    + now apply IH.
  - cbn [List.app ChecklistDiff.changes missing]. rewrite El. now apply IH.
Qed.

(** Reading the check items created for the wanted items that were
    missing, the second run sends nothing and is left with no wanted
    item. *)
Lemma changes_added (items : JsMap.t Topics.Item.t) : forall next,
  NoDup (JsMap.keys items) -> Linked items ->
  changes items (added next (JsMap.values items)) = []
  /\ missing items (added next (JsMap.values items)) = [].
Proof.
  induction items as [|[url item] items IH]; intros next Hnd HL; [now split|].
  cbn [JsMap.values List.map snd added ChecklistDiff.changes missing].
  destruct (@shown_fresh ((url, item) :: items) url item (Service.fresh next) HL
              (or_introl eq_refl)) as [Hl [Hu Hs]].
  rewrite Hl, Hu. cbn [JsMap.get]. rewrite eqb_refl, Hs.
  cbn [JsMap.delete]. rewrite eqb_refl.
  cbn [JsMap.keys List.map fst] in Hnd.
  inversion Hnd as [|? ? Hnotin Hnd']; subst.
  apply IH; [exact Hnd'|]. intros u i Hin. apply HL. now right.
Qed.

End Second.

Lemma NoDup_missing (checkItems : list CheckItem.t) :
  forall items : JsMap.t Topics.Item.t,
  NoDup (JsMap.keys items) -> NoDup (JsMap.keys (missing items checkItems)).
Proof.
  induction checkItems as [|checkitem rest IH]; intros items H; [exact H|].
  cbn [missing]. destruct (linked checkitem); [|now apply IH].
  destruct (JsMap.get items (url_of checkitem)) as [item|]; [|now apply IH].
  destruct (stale item checkitem); apply IH; repeat apply NoDup_delete; exact H.
Qed.

Lemma Linked_missing (checkItems : list CheckItem.t) :
  forall items : JsMap.t Topics.Item.t,
  Linked items -> Linked (missing items checkItems).
Proof.
  induction checkItems as [|checkitem rest IH]; intros items H; [exact H|].
  cbn [missing]. destruct (linked checkitem); [|now apply IH].
  destruct (JsMap.get items (url_of checkitem)) as [item|]; [|now apply IH].
  destruct (stale item checkitem); apply IH; repeat apply Linked_delete; exact H.
Qed.

(** X1.  The checklist diff of the topics manager settles in one run: when
    the wanted items are keyed by their URLs and the name of each reads
    back as its title and its URL, and the check items of the checklist
    have distinct ids, [updateChecklist] sends no request for the
    checklist that the board shows after the requests of a first
    [updateChecklist]: no check item is added, updated or deleted. *)
Theorem second_updateChecklist_is_silent World
    (send : request -> World -> option str * World) cardId checklist
    (items : JsMap.t Topics.Item.t) next (w w' : World) :
  NoDup (JsMap.keys items) ->
  Linked items ->
  NoDup (List.map CheckItem.id (Checklist.checkItems checklist)) ->
  let first := sent (Topics.updateChecklist send cardId checklist items w) in
  let checklist' := fst (List.fold_left serve first (checklist, next)) in
  sent (Topics.updateChecklist send cardId checklist' items w') = [].
Proof.
  intros Hnd HL Hids first checklist'.
  assert (Hserved : checklist' = served next checklist items).
  { unfold checklist', first. rewrite updateChecklist_requests.
    rewrite List.fold_left_app. destruct checklist as [id name checkItems].
    cbn [Checklist.id Checklist.checkItems].
    pose proof (@changes_served cardId id name checkItems items [] next Hids)
      as Hc.
    cbn [List.app] in Hc. rewrite Hc.
    unfold additions. rewrite additions_served. reflexivity. }
  rewrite Hserved, updateChecklist_requests. unfold served.
  cbn [Checklist.id Checklist.checkItems].
  destruct (@changes_kept cardId (Checklist.id checklist)
              (Checklist.checkItems checklist) items
              (added next
                 (JsMap.values (missing items (Checklist.checkItems checklist))))
              Hnd HL) as [Hc Hm].
  destruct (@changes_added cardId (Checklist.id checklist)
              (missing items (Checklist.checkItems checklist)) next
              (@NoDup_missing (Checklist.checkItems checklist) items Hnd)
              (@Linked_missing (Checklist.checkItems checklist) items HL))
    as [Hc' Hm'].
  rewrite Hc, Hm, Hc', Hm'. reflexivity.
Qed.

(** *** An example *)

Definition reports : Topics.Item.t :=
  {| Topics.Item.url := lit "https://reliefweb.int/updates?search=flood";
     Topics.Item.title := lit "Latest reports";
     Topics.Item.name :=
       Topics.generateMarkdownLink (lit "https://reliefweb.int/updates?search=flood")
         (lit "Latest reports");
     Topics.Item.position := 1 |}.

Definition maps : Topics.Item.t :=
  {| Topics.Item.url := lit "https://reliefweb.int/maps?search=flood";
     Topics.Item.title := lit "Maps";
     Topics.Item.name :=
       Topics.generateMarkdownLink (lit "https://reliefweb.int/maps?search=flood")
         (lit "Maps");
     Topics.Item.position := 2 |}.

Definition rivers : JsMap.t Topics.Item.t :=
  [(Topics.Item.url reports, reports); (Topics.Item.url maps, maps)].

(** A checklist with a note of an editor, the link to the reports under
    an old title, and a link that the topic no longer has. *)
Definition checklist : Checklist.t :=
  {| Checklist.id := lit "K1";
     Checklist.name := lit "Rivers";
     Checklist.checkItems :=
       [CheckItem.Build_t (lit "I1") (lit "Check the figures") (1 # 1);
        CheckItem.Build_t (lit "I2")
          (Topics.generateMarkdownLink
             (lit "https://reliefweb.int/updates?search=flood") (lit "Reports"))
          (2 # 1);
        CheckItem.Build_t (lit "I3")
          (Topics.generateMarkdownLink
             (lit "https://reliefweb.int/jobs?search=flood") (lit "Jobs"))
          (3 # 1)] |}.

Lemma second_updateChecklist_is_silent_witness :
  sent (Topics.updateChecklist Example.accept (lit "C1")
          (fst (List.fold_left serve
                  (sent (Topics.updateChecklist Example.accept (lit "C1")
                           checklist rivers tt))
                  (checklist, 0)))
          rivers tt)
  = [].
Proof.
  apply (@second_updateChecklist_is_silent unit Example.accept (lit "C1")
           checklist rivers 0 tt tt).
  - repeat constructor; simpl; intuition discriminate.
  - intros url item [H|[H|[]]]; injection H as <- <-; split;
      vm_compute; reflexivity.
  - repeat constructor; simpl; intuition discriminate.
Defined.

End ChecklistDiff.

(** ** Runs that do not settle *)

Module Unsettled.
Import Js JsNumber Trello Async.

(** *** The countries manager and the age of the profile *)

Definition aged : Label.t :=
  Label.Build_t (lit "B4") Countries.profileUpdateOlderThan3Weeks.

Definition labels : JsMap.t Label.t :=
  [(Countries.profileUpdateOlderThan3Weeks, aged)].

(** The card of the country of the examples, with a profile that was
    written on day 0 and has changed since. *)
Definition countryCard : Card.t :=
  {| Card.id := lit "C1";
     Card.name := lit "Chad";
     Card.labels := [];
     Card.idList := lit "L1";
     Card.desc :=
       Countries.profileUpdateHeader ++ lit "0" ++ Countries.profileHeader
       ++ lit "An old text.";
     Card.closed := false;
     Card.pos := 1 # 1;
     Card.attachments := Some [lit "http://reliefweb.int/taxonomy/term/100"];
     Card.checklists := None |}.

Definition countryBoard : Service.board :=
  {| Service.cards := [countryCard];
     Service.labels := [aged];
     Service.next := 0 |}.

Definition countriesRun (b : Service.board) : outcome Service.board nat :=
  Countries.updateBoard [] Example.now Example.Date_parse Example.currentDate
    labels Service.send (Service.cards b) [Example.country] b.

(** In the countries manager the label for the age of the profile
    follows the date that is read from the card, also in the run that
    writes the description with the date of the run: on day 100, for a
    card whose profile of day 0 has changed, the first run adds the label
    [Profile Update > 3 Weeks] and writes the description; the second
    run removes the label; the third run sends nothing. *)
Lemma countries_second_run_removes_the_age_label :
  sent (countriesRun countryBoard)
  = [POST_card_idLabels (lit "C1") (lit "B4");
     PUT_card (lit "C1")
       [(lit "desc",
         VStr (Countries.generateCardDescription Example.currentDate
                 Example.country))]]
  /\ sent (countriesRun (after (countriesRun countryBoard)))
     = [DELETE_card_idLabel (lit "C1") (lit "B4")]
  /\ sent (countriesRun
             (after (countriesRun (after (countriesRun countryBoard)))))
     = [].
Proof. repeat split; vm_compute; reflexivity. Qed.

(** *** The disasters manager and the name of the card *)

(** A board with the card of the disaster of the examples under another
    name. *)
Definition renamed : Service.board :=
  {| Service.cards :=
       [Example.tracked (lit "Flood") (lit "L2") (lit "0")
          (lit "FL-2020-000001-TCD")];
     Service.labels := [Example.flood];
     Service.next := 0 |}.

Definition disastersRun (b : Service.board) : outcome Service.board (nat * nat) :=
  Disasters.updateBoard Example.now Example.Date_parse Example.currentDate
    Example.lists Example.labels Service.send (Service.cards b)
    [Example.disaster] b.

(** In the disasters manager a card that does not bear the name of
    its disaster is renamed in every run: the name that the card update
    writes is the literal ['disaster.name'], which is not the name of the
    disaster either. *)
Lemma disasters_every_run_writes_the_name :
  let put := [PUT_card (lit "C1") [(lit "name", VStr (lit "disaster.name"))]] in
  sent (disastersRun renamed) = put
  /\ sent (disastersRun (after (disastersRun renamed))) = put
  /\ sent (disastersRun
             (after (disastersRun (after (disastersRun renamed))))) = put.
Proof. repeat split; vm_compute; reflexivity. Qed.

End Unsettled.


(** ** The URL of a prepared entity *)

Module Urls.
Import Js JsFacts Trello.

Lemma starts_with_app (needle s : str) :
  starts_with needle s = true ->
  s = needle ++ List.skipn (List.length needle) s.
Proof.
  revert s. induction needle as [|x needle IH]; intros s; [reflexivity|].
  destruct s as [|y s]; [discriminate|]. simpl.
  intros H. apply andb_prop in H as [Hx Hs]. apply N.eqb_eq in Hx. subst y.
  f_equal. now apply IH.
Qed.

Lemma starts_with_prefix (needle rest : str) :
  starts_with needle (needle ++ rest) = true.
Proof.
  induction needle as [|x needle IH]; [reflexivity|]. simpl.
  now rewrite N.eqb_refl.
Qed.

(** The rewrite of the scheme never leaves [https:] in front. *)
Lemma https_to_http_scheme (s : str) :
  starts_with (lit "https:") (https_to_http s) = false.
Proof.
  unfold https_to_http. destruct (starts_with (lit "https:") s) eqn:E;
    [reflexivity | exact E].
Qed.

Lemma https_to_http_twice (s : str) :
  https_to_http (https_to_http s) = https_to_http s.
Proof.
  unfold https_to_http at 1. now rewrite https_to_http_scheme.
Qed.

(** The pattern of the ReliefWeb URLs accepts both schemes alike. *)
Lemma https_to_http_pattern (path s : str) :
  test_reliefweb_url path (https_to_http s) = test_reliefweb_url path s.
Proof.
  unfold https_to_http. destruct (starts_with (lit "https:") s) eqn:E;
    [|reflexivity].
  apply starts_with_app in E.
  change (List.length (lit "https:")) with 6%nat in E.
  remember (List.skipn 6 s) as r eqn:Hr. clear Hr. subst s.
  unfold test_reliefweb_url.
  destruct r as [|a [|b r]]; reflexivity.
Qed.

(** X2.  The URL of a prepared disaster, and of a prepared country, never
    begins with [https:]; it matches the pattern of the card attachments
    exactly when the URL of the API did; and it is the URL of the API
    when that one did not begin with [https:]. *)
Theorem prepared_url_is_http statusPositions (disaster : Disasters.Fields.t)
    (country : Countries.Fields.t) :
  let d := Disasters.prepareDisaster statusPositions disaster in
  let c := Countries.prepareCountry country in
  (starts_with (lit "https:") (Disasters.Disaster.url d) = false
   /\ Disasters.urlPattern (Disasters.Disaster.url d)
      = Disasters.urlPattern (Disasters.Fields.url disaster)
   /\ Disasters.Disaster.url d
      = if starts_with (lit "https:") (Disasters.Fields.url disaster)
        then lit "http:" ++ List.skipn 6 (Disasters.Fields.url disaster)
        else Disasters.Fields.url disaster)
  /\ (starts_with (lit "https:") (Countries.Country.url c) = false
      /\ Countries.urlPattern (Countries.Country.url c)
         = Countries.urlPattern (Countries.Fields.url country)
      /\ Countries.Country.url c
         = if starts_with (lit "https:") (Countries.Fields.url country)
           then lit "http:" ++ List.skipn 6 (Countries.Fields.url country)
           else Countries.Fields.url country).
Proof.
  cbv zeta. unfold Disasters.prepareDisaster, Countries.prepareCountry.
  cbn [Disasters.Disaster.url Countries.Country.url].
  unfold Disasters.urlPattern, Countries.urlPattern.
  rewrite !https_to_http_scheme, !https_to_http_pattern.
  repeat split.
Qed.

End Urls.


(** ** The age of a date, in days *)

Module Elapsed.
Import Js JsFacts JsNumber.

Section Days.

Variable now : Z.
Variable Date_parse : str -> option Z.

(** The seconds between the time [t] and the time of the run, each rounded
    to the second as [unix] does. *)
Definition seconds (t : Z) : Z := (now + 500) / 1000 - (t + 500) / 1000.

(** The rounded number of days, a half day going upwards. *)
Definition rounded (t : Z) : Z := (seconds t + 43200) / 86400.

Lemma days_clone (date : option str) :
  DiffDays.days now Date_parse date
  = match DateWrapper.clone now Date_parse date with
    | Some t => Int (rounded t)
    | None => NaN
    end.
Proof.
  unfold DiffDays.days, DateWrapper.unix, DateWrapper.unix_of, DateWrapper.round_days.
  destruct (DateWrapper.clone now Date_parse date); reflexivity.
Qed.

Lemma rounded_now : rounded now = 0.
Proof. unfold rounded, seconds. rewrite Z.sub_diag. reflexivity. Qed.

Lemma rounded_exact (k : Z) : rounded (now - k * 86400000) = k.
Proof.
  unfold rounded, seconds.
  replace (now - k * 86400000 + 500) with (now + 500 + (- k * 86400) * 1000)
    by lia.
  rewrite Z.div_add by lia.
  replace ((now + 500) / 1000 - ((now + 500) / 1000 + - k * 86400) + 43200)
    with (43200 + k * 86400) by lia.
  rewrite Z.div_add by lia. reflexivity.
Qed.

Lemma rounded_gt (t k : Z) :
  (k <? rounded t) = ((k + 1) * 86400 - 43200 <=? seconds t).
Proof.
  unfold rounded.
  destruct ((k + 1) * 86400 - 43200 <=? seconds t) eqn:E.
  - apply Z.leb_le in E. apply Z.ltb_lt.
    assert (k + 1 <= (seconds t + 43200) / 86400)
      by (apply Z.div_le_lower_bound; lia).
    lia.
  - apply Z.leb_gt in E. apply Z.ltb_ge.
    assert ((seconds t + 43200) / 86400 < k + 1)
      by (apply Z.div_lt_upper_bound; lia).
    lia.
Qed.

(** A threshold check on the printed difference, in seconds of age. *)
Lemma threshold_seconds (date : option str) (k : Z) :
  str_gt (DateWrapper.diffDays now Date_parse date) k
  = match DateWrapper.clone now Date_parse date with
    | Some t => (k + 1) * 86400 - 43200 <=? seconds t
    | None => false
    end.
Proof.
  rewrite DiffDays.threshold, days_clone.
  destruct (DateWrapper.clone now Date_parse date); [apply rounded_gt | reflexivity].
Qed.

(** X3.  What [diffDays] prints.  A missing date and an empty one are read as
    the time of the run and give [0]; a text that is no date gives [NaN];
    a date gives its age in days, rounded to the nearest day with a half
    day going upwards, so a date exactly [k] days before the run gives
    [k] and one in the future a negative number. *)
Theorem diffDays_prints_the_rounded_age :
  DateWrapper.diffDays now Date_parse None = lit "0"
  /\ DateWrapper.diffDays now Date_parse (Some []) = lit "0"
  /\ (forall s,
         truthy s = true -> Date_parse s = None ->
         DateWrapper.diffDays now Date_parse (Some s) = lit "NaN")
  /\ (forall s t k,
         truthy s = true -> Date_parse s = Some t ->
         k * 86400 - 43200 <= seconds t < k * 86400 + 43200 ->
         DateWrapper.diffDays now Date_parse (Some s) = numeral k)
  /\ (forall s k,
         truthy s = true -> Date_parse s = Some (now - k * 86400000) ->
         DateWrapper.diffDays now Date_parse (Some s) = numeral k).
Proof.
  assert (H : forall date,
             DateWrapper.diffDays now Date_parse date
             = toFixed (DiffDays.days now Date_parse date)) by reflexivity.
  rewrite !H. repeat split.
  - rewrite days_clone. cbn [DateWrapper.clone]. now rewrite rounded_now.
  - rewrite days_clone. cbn [DateWrapper.clone truthy]. now rewrite rounded_now.
  - intros s Hs Hp. rewrite H, days_clone. cbn [DateWrapper.clone].
    now rewrite Hs, Hp.
  - intros s t k Hs Hp Hk. rewrite H, days_clone. cbn [DateWrapper.clone].
    rewrite Hs, Hp. cbn [toFixed]. f_equal. unfold rounded.
    symmetry. apply Z.div_unique with (seconds t + 43200 - 86400 * k); lia.
  - intros s k Hs Hp. rewrite H, days_clone. cbn [DateWrapper.clone].
    rewrite Hs, Hp. cbn [toFixed]. now rewrite rounded_exact.
Qed.

Variable labels : JsMap.t Trello.Label.t.

(** X4.  The label on the age of the profile, by the age in seconds, in the
    disasters manager and in the countries manager: none for a card
    without an update date, with an empty one or with one that is no
    date; otherwise the label of the highest of 21, 14 and 7 days that
    the age, rounded to days, exceeds, that is from 21.5, 14.5 and 7.5
    days on. *)
Theorem age_label_by_the_age_in_seconds (lastUpdate : option str) :
  let label (set_label : JsMap.t str -> str -> JsMap.t str) k3 k2 k1 :=
    match lastUpdate with
    | Some s =>
        if truthy s then
          match Date_parse s with
          | Some t =>
              if 1857600 <=? seconds t then set_label JsMap.empty k3
              else if 1252800 <=? seconds t then set_label JsMap.empty k2
              else if 648000 <=? seconds t then set_label JsMap.empty k1
              else JsMap.empty
          | None => JsMap.empty
          end
        else JsMap.empty
    | None => JsMap.empty
    end in
  Disasters.getProfileUpdateLabel now Date_parse labels lastUpdate
  = label (Disasters.set_label labels)
      Disasters.profileUpdateOlderThan3Weeks
      Disasters.profileUpdateOlderThan2Weeks
      Disasters.profileUpdateOlderThan1Week
  /\ Countries.getProfileUpdateLabel now Date_parse labels lastUpdate
     = label (Countries.set_label labels)
         Countries.profileUpdateOlderThan3Weeks
         Countries.profileUpdateOlderThan2Weeks
         Countries.profileUpdateOlderThan1Week.
Proof.
  cbv zeta.
  unfold Disasters.getProfileUpdateLabel, Countries.getProfileUpdateLabel,
    Disasters.diffDays, Countries.diffDays.
  rewrite !threshold_seconds. unfold DateWrapper.clone.
  change ((21 + 1) * 86400 - 43200) with 1857600.
  change ((14 + 1) * 86400 - 43200) with 1252800.
  change ((7 + 1) * 86400 - 43200) with 648000.
  destruct lastUpdate as [s|].
  - destruct (truthy s).
    + destruct (Date_parse s) as [t|]; split; reflexivity.
    + unfold seconds. rewrite Z.sub_diag. split; reflexivity.
  - unfold seconds. rewrite Z.sub_diag. split; reflexivity.
Qed.

(** The labels of the types and of the countries of a disaster. *)
Definition termLabels (disaster : Disasters.Disaster.t) : JsMap.t str :=
  List.fold_left (Disasters.set_term labels)
    (Disasters.Disaster.country disaster)
    (List.fold_left (Disasters.set_term labels)
       (Disasters.Disaster.type disaster) JsMap.empty).

(** X5.  The label on the age of the latest report, from the facets of the
    disaster: when the day facet has data, its first bucket gives the
    date of the latest report and the label is that of the highest of
    60, 30 and 7 days that its age, rounded to days, exceeds (none when
    the bucket holds no date); when the day facet is empty and the year
    facet has data, the label is that of two months. *)
Theorem report_label_by_the_age_in_seconds (disaster : Disasters.Disaster.t)
    (value : str) (rest : list str) (facetYear : option (list str))
    (year : str) (years : list str) :
  Disasters.getDisasterLabels labels
    (Disasters.withLastReport now Date_parse disaster (value :: rest) facetYear)
  = match DateWrapper.clone now Date_parse (Some value) with
    | Some t =>
        if 5227200 <=? seconds t
        then Disasters.set_label labels (termLabels disaster)
               Disasters.lastReportOlderThan2Months
        else if 2635200 <=? seconds t
        then Disasters.set_label labels (termLabels disaster)
               Disasters.lastReportOlderThan1Month
        else if 648000 <=? seconds t
        then Disasters.set_label labels (termLabels disaster)
               Disasters.lastReportOlderThan1Week
        else termLabels disaster
    | None => termLabels disaster
    end
  /\ Disasters.getDisasterLabels labels
       (Disasters.withLastReport now Date_parse disaster []
          (Some (year :: years)))
     = Disasters.set_label labels (termLabels disaster)
         Disasters.lastReportOlderThan2Months.
Proof.
  split; [|reflexivity].
  unfold Disasters.getDisasterLabels, Disasters.withLastReport.
  cbn [Disasters.Disaster.lastReport Disasters.Disaster.type
       Disasters.Disaster.country].
  fold (termLabels disaster).
  unfold Disasters.lastReportOfDay, Disasters.diffDays.
  rewrite !threshold_seconds.
  change ((60 + 1) * 86400 - 43200) with 5227200.
  change ((30 + 1) * 86400 - 43200) with 2635200.
  change ((7 + 1) * 86400 - 43200) with 648000.
  destruct (DateWrapper.clone now Date_parse (Some value)) as [t|] eqn:Ec.
  - destruct (5227200 <=? seconds t) eqn:E60; [reflexivity|].
    destruct (2635200 <=? seconds t) eqn:E30.
    { cbn [value_gt]. reflexivity. }
    destruct (648000 <=? seconds t) eqn:E7.
    { cbn [value_gt]. reflexivity. }
    cbn [value_gt]. rewrite !threshold_seconds, Ec.
    change ((60 + 1) * 86400 - 43200) with 5227200.
    change ((30 + 1) * 86400 - 43200) with 2635200.
    change ((7 + 1) * 86400 - 43200) with 648000.
    now rewrite E60, E30, E7.
  - cbn [value_gt]. rewrite !threshold_seconds, Ec. reflexivity.
Qed.

End Days.

(** A date three days before the run. *)
Lemma diffDays_prints_the_rounded_age_witness :
  DateWrapper.diffDays Example.now Example.Date_parse
    (Some (numeral (97 * Example.day)))
  = lit "3".
Proof.
  destruct (diffDays_prints_the_rounded_age Example.now Example.Date_parse)
    as [_ [_ [_ [_ Hexact]]]].
  apply (Hexact (numeral (97 * Example.day)) 3); reflexivity.
Defined.

End Elapsed.


(** ** From the API response to the entities of the run *)

Module Pipeline.
Import Js JsFacts JsNumber Trello.

(** [Array.prototype.sort] rearranges the array and nothing else. *)
Lemma insert_Permutation {A} (compare : A -> A -> Z) (x : A) (l : list A) :
  Permutation.Permutation (JsArray.insert compare x l) (x :: l).
Proof.
  induction l as [|y l IH]; simpl; [apply Permutation.Permutation_refl|].
  destruct (compare x y <=? 0); [apply Permutation.Permutation_refl|].
  eapply Permutation.perm_trans;
    [apply Permutation.perm_skip, IH | apply Permutation.perm_swap].
Qed.

Lemma sort_Permutation {A} (compare : A -> A -> Z) (l : list A) :
  Permutation.Permutation (JsArray.sort compare l) l.
Proof.
  unfold JsArray.sort. induction l as [|x l IH]; simpl; [constructor|].
  eapply Permutation.perm_trans;
    [apply insert_Permutation | apply Permutation.perm_skip, IH].
Qed.

(** An array that the comparator already orders is left as it is. *)
Lemma sort_sorted {A} (compare : A -> A -> Z) (l : list A) :
  Sorted.StronglySorted (fun a b => compare a b <= 0) l ->
  JsArray.sort compare l = l.
Proof.
  unfold JsArray.sort. induction 1 as [|x l Hs IH Hx]; [reflexivity|].
  simpl. rewrite IH. destruct l as [|y l]; [reflexivity|]. simpl.
  apply List.Forall_inv in Hx. apply Z.leb_le in Hx. now rewrite Hx.
Qed.

(** A disaster without what [getExtraDisasterData] adds to it. *)
Definition withoutLastReport (disaster : Disasters.Disaster.t)
    : Disasters.Disaster.t :=
  {| Disasters.Disaster.id := Disasters.Disaster.id disaster;
     Disasters.Disaster.url := Disasters.Disaster.url disaster;
     Disasters.Disaster.name := Disasters.Disaster.name disaster;
     Disasters.Disaster.glide := Disasters.Disaster.glide disaster;
     Disasters.Disaster.status := Disasters.Disaster.status disaster;
     Disasters.Disaster.overview := Disasters.Disaster.overview disaster;
     Disasters.Disaster.type := Disasters.Disaster.type disaster;
     Disasters.Disaster.country := Disasters.Disaster.country disaster;
     Disasters.Disaster.statusPosition :=
       Disasters.Disaster.statusPosition disaster;
     Disasters.Disaster.pos := Disasters.Disaster.pos disaster;
     Disasters.Disaster.lastReport := VUndefined |}.

Section GetDisasters.

Variable statusPositions : JsMap.t Z.
Variable now : Z.
Variable Date_parse : str -> option Z.

(** [this.rwapiClient.fetch('/reports', ...)] for the facets of the given
    names: [data.embedded.facets], the [data] of each facet given by the
    [value] of its buckets; [None] when the response has none, or when the
    request fails. *)
Variable reports : list str -> option (JsMap.t (list str)).

(** The names of the facets that [getExtraDisasterData] asks for. *)
Definition facetNames (disasters : list Disasters.Disaster.t) : list str :=
  List.flat_map
    (fun disaster =>
       [numeral (Disasters.Disaster.id disaster) ++ lit "-day";
        numeral (Disasters.Disaster.id disaster) ++ lit "-year"])
    disasters.

(** [getDisasters]: [result] is [result.data] of the response to the
    request for the disasters, each item given by its [fields], or [None]
    when there is no such data; the value is [this.disasters], or [None]
    when the function throws. *)
Definition getDisasters (result : option (list Disasters.Fields.t))
    : option (list Disasters.Disaster.t) :=
  match result with
  | None => None
  | Some data =>
      if (0 <? List.length data)%nat then
        (* Prepare the disaster data. *)
        let disasters :=
          List.map (Disasters.prepareDisaster statusPositions) data in
        (* Get the extra data for the disasters. *)
        match reports (facetNames disasters) with
        | None => None
        | Some results =>
            (* Sort the disasters. *)
            Some (Disasters.sortDisasters
                    (Disasters.getExtraDisasterData now Date_parse
                       disasters results))
        end
      else Some []
  end.

Lemma withoutLastReport_withLastReport (disaster : Disasters.Disaster.t)
    facetDay facetYear :
  withoutLastReport
    (Disasters.withLastReport now Date_parse disaster facetDay facetYear)
  = withoutLastReport disaster.
Proof.
  unfold Disasters.withLastReport.
  destruct facetDay; [destruct facetYear as [[|]|]|]; reflexivity.
Qed.

Lemma withoutLastReport_update_last (disasters : list Disasters.Disaster.t)
    key f :
  (forall d, withoutLastReport (f d) = withoutLastReport d) ->
  List.map withoutLastReport (Disasters.update_last disasters key f)
  = List.map withoutLastReport disasters.
Proof.
  intros Hf. induction disasters as [|d rest IH]; [reflexivity|].
  cbn [Disasters.update_last].
  destruct (List.existsb _ rest).
  - cbn [List.map]. now rewrite IH.
  - destruct (eqb _ key); [|reflexivity]. cbn [List.map]. now rewrite Hf.
Qed.

(** [getExtraDisasterData] changes nothing but [lastReport]: it adds no
    disaster, drops none and keeps their order. *)
Lemma withoutLastReport_getExtraDisasterData
    (disasters : list Disasters.Disaster.t) (results : JsMap.t (list str)) :
  List.map withoutLastReport
    (Disasters.getExtraDisasterData now Date_parse disasters results)
  = List.map withoutLastReport disasters.
Proof.
  unfold Disasters.getExtraDisasterData.
  generalize (JsMap.keys results) as keys. intros keys. revert disasters.
  induction keys as [|key keys IH]; intros disasters; [reflexivity|].
  cbn [List.fold_left]. rewrite IH.
  destruct (negb _); [|reflexivity].
  destruct (JsMap.get results key); [|reflexivity].
  apply withoutLastReport_update_last. intros d.
  apply withoutLastReport_withLastReport.
Qed.

Lemma withoutLastReport_prepareDisaster (fields : Disasters.Fields.t) :
  withoutLastReport (Disasters.prepareDisaster statusPositions fields)
  = Disasters.prepareDisaster statusPositions fields.
Proof. reflexivity. Qed.

(** X6.  The disasters of the run.  [getDisasters] throws when the response
    has no data, and when it has disasters but the request for their
    reports gives no facets; an empty response gives no disaster.
    Otherwise the disasters of the run are those of the response, each one
    once, prepared, with nothing but [lastReport] added, in the descending
    order of their ids; when the response came in that order, the order of
    the response is kept. *)
Theorem getDisasters_prepares_and_orders (data : list Disasters.Fields.t) :
  getDisasters None = None
  /\ getDisasters (Some []) = Some []
  /\ (getDisasters (Some data) = None
      <-> data <> []
          /\ reports
               (facetNames
                  (List.map (Disasters.prepareDisaster statusPositions) data))
             = None)
  /\ (forall disasters,
         getDisasters (Some data) = Some disasters ->
         Permutation.Permutation
           (List.map withoutLastReport disasters)
           (List.map (Disasters.prepareDisaster statusPositions) data)
         /\ Sorted.StronglySorted
              (fun a b => Disasters.Disaster.id b <= Disasters.Disaster.id a)
              disasters
         /\ (Sorted.StronglySorted
               (fun a b => Disasters.Fields.id b <= Disasters.Fields.id a)
               data ->
             List.map withoutLastReport disasters
             = List.map (Disasters.prepareDisaster statusPositions) data)).
Proof.
  split; [reflexivity|]. split; [reflexivity|]. split.
  - unfold getDisasters. destruct data as [|f data].
    + split; [discriminate | intros [H _]; contradiction].
    + cbn [List.length Nat.ltb Nat.leb].
      destruct (reports _) as [results|].
      * split; [discriminate | intros [_ H]; discriminate].
      * split; [intros _; split; [discriminate | reflexivity] | reflexivity].
  - intros disasters. unfold getDisasters.
    destruct data as [|f data].
    { intros H. injection H as <-. repeat split; constructor. }
    cbn [List.length Nat.ltb Nat.leb].
    destruct (reports _) as [results|]; [|discriminate].
    intros H. injection H as <-.
    change (Disasters.prepareDisaster statusPositions f
            :: List.map (Disasters.prepareDisaster statusPositions) data)
      with (List.map (Disasters.prepareDisaster statusPositions) (f :: data)).
    set (prepared := List.map (Disasters.prepareDisaster statusPositions)
                       (f :: data)).
    set (extra := Disasters.getExtraDisasterData now Date_parse prepared results).
    assert (Hextra : List.map withoutLastReport extra = prepared).
    { subst extra. rewrite withoutLastReport_getExtraDisasterData.
      subst prepared. rewrite List.map_map. apply List.map_ext.
      intros a. apply withoutLastReport_prepareDisaster. }
    clearbody extra.
    assert (Hpos : forall d, In d extra -> Disasters.Disaster.pos d = None).
    { intros d Hd.
      change (Disasters.Disaster.pos (withoutLastReport d) = None).
      apply (List.in_map withoutLastReport) in Hd. rewrite Hextra in Hd.
      subst prepared. apply List.in_map_iff in Hd as [a [<- _]]. reflexivity. }
    split; [|split].
    + rewrite <- Hextra. apply Permutation.Permutation_map.
      apply sort_Permutation.
    + now apply Sorting.sortDisasters_by_id.
    + intros Hs. unfold Disasters.sortDisasters.
      rewrite sort_sorted; [exact Hextra|].
      assert (Hids : List.map Disasters.Disaster.id extra
                     = List.map Disasters.Fields.id (f :: data)).
      { change Disasters.Disaster.id
          with (fun d => Disasters.Disaster.id (withoutLastReport d)).
        rewrite <- (List.map_map withoutLastReport Disasters.Disaster.id).
        rewrite Hextra. subst prepared. now rewrite List.map_map. }
      clear Hextra prepared.
      revert Hids Hpos Hs. generalize (f :: data) as l. clear f data.
      induction extra as [|d extra IH]; intros l Hids Hpos Hs; [constructor|].
      destruct l as [|a l]; [discriminate|].
      cbn [List.map] in Hids. injection Hids as Hid Hids.
      inversion Hs as [|? ? Hs' Ha]; subst.
      constructor.
      * apply (IH l); auto. intros d' Hd'. apply Hpos. now right.
      * apply List.Forall_forall. intros d' Hd'.
        unfold Disasters.compare.
        rewrite (Hpos d), (Hpos d') by (simpl; auto). cbn [Disasters.pos_eq].
        assert (Hle : Disasters.Disaster.id d' <= Disasters.Disaster.id d).
        { rewrite Hid.
          apply (List.in_map Disasters.Disaster.id) in Hd'. rewrite Hids in Hd'.
          apply List.in_map_iff in Hd' as [a' [<- Ha']].
          rewrite List.Forall_forall in Ha. now apply Ha. }
        destruct (Disasters.Disaster.id d <? Disasters.Disaster.id d') eqn:E;
          [apply Z.ltb_lt in E; lia|].
        destruct (Disasters.Disaster.id d >? Disasters.Disaster.id d');
          lia.
Qed.

End GetDisasters.

(** A service for the reports in which every facet has one bucket, of
    day 97. *)
Definition facets (names : list str) : option (JsMap.t (list str)) :=
  Some (JsMap.of_list
          (List.map (fun name => (name, [numeral (97 * Example.day)])) names)).

Lemma getDisasters_prepares_and_orders_witness :
  exists disasters,
    getDisasters Example.statusPositions Example.now Example.Date_parse facets
      (Some [Sorting.newer; Sorting.older])
    = Some disasters
    /\ List.map withoutLastReport disasters
       = List.map (Disasters.prepareDisaster Example.statusPositions)
           [Sorting.newer; Sorting.older]
    /\ List.map Disasters.Disaster.lastReport disasters
       = [VStr (lit "3"); VStr (lit "3")].
Proof.
  destruct (getDisasters_prepares_and_orders Example.statusPositions
              Example.now Example.Date_parse facets
              [Sorting.newer; Sorting.older]) as [_ [_ [_ H]]].
  eexists. split; [reflexivity|].
  split; [|vm_compute; reflexivity].
  refine (proj2 (proj2 (H _ eq_refl)) _).
  repeat constructor; vm_compute; discriminate.
Defined.

End Pipeline.


(** ** The lists and the labels of the run *)

Module Setup.
Import Js JsFacts JsMapFacts Trello.

(** An item of [this.config.lists]. *)
Module ConfigList.
Record t := { status : str; name : str; position : Z }.
End ConfigList.

Section Board.

Variable World : Type.

(** What [prepareLists] and [prepareLabels] leave: [this.lists] or
    [this.labels] ([None] when the function throws), the bodies of the
    requests that were sent, the objects of the responses, and the remote
    side afterwards. *)
Record outcome (Q A : Type) := Outcome {
  result : option (JsMap.t A);
  posted : list Q;
  created : list A;
  after : World
}.

(** [this.trelloClient.post('/lists', {name, pos, idBoard})]: the list of
    the response, or [None] when the client throws or the response is
    empty. *)
Variable post_list : str -> Z -> World -> option BoardList.t * World.

(** [this.trelloClient.post('/labels', {name, color, idBoard})]. *)
Variable post_label : str -> str -> World -> option Label.t * World.

(** The first loop of [prepareLists]: the lists of the board by name. *)
Definition listsByName (boardLists : list BoardList.t) : JsMap.t BoardList.t :=
  List.fold_left (fun m list => JsMap.set m (BoardList.name list) list)
    boardLists JsMap.empty.

(** The second loop of [prepareLists], from the item it is at: set the
    manager lists, creating non existing ones. *)
Fixpoint setLists (boardLists : JsMap.t BoardList.t)
    (items : list ConfigList.t) (lists : JsMap.t BoardList.t) (w : World)
    : outcome (str * Z) BoardList.t :=
  match items with
  | [] => Outcome (Some lists) [] [] w
  | item :: rest =>
      match JsMap.get boardLists (ConfigList.name item) with
      | Some list =>
          setLists boardLists rest
            (JsMap.set lists (ConfigList.status item) list) w
      | None =>
          let body := (ConfigList.name item, ConfigList.position item) in
          let (r, w') :=
            post_list (ConfigList.name item) (ConfigList.position item) w in
          match r with
          | Some list =>
              let o :=
                setLists boardLists rest
                  (JsMap.set lists (ConfigList.status item) list) w' in
              Outcome (result o) (body :: posted o) (list :: created o)
                (after o)
          | None => Outcome None [body] [] w'
          end
      end
  end.

(** [prepareLists] of the disasters manager and of the topics manager. *)
Definition prepareLists (boardLists : list BoardList.t)
    (config : list ConfigList.t) (w : World) : outcome (str * Z) BoardList.t :=
  setLists (listsByName boardLists) config JsMap.empty w.

(** The first loop of [prepareLabels]: the labels of the board by name,
    those without a name left out. *)
Definition labelsByName (boardLabels : list Label.t) : JsMap.t Label.t :=
  List.fold_left
    (fun m label =>
       if negb (eqb (Label.name label) [])
       then JsMap.set m (Label.name label) label
       else m)
    boardLabels JsMap.empty.

(** The Map [labels] of [prepareLabels]: the colour of each name to
    manage.  [config] holds the properties of [this.config.labels] in the
    order of their enumeration, [terms] the names that the loop over the
    entities sets, in order. *)
Definition wantedLabels (config : list (str * str)) (terms : list str)
    : JsMap.t str :=
  List.fold_left (fun m name => JsMap.set m name [])
    terms
    (List.fold_left (fun m entry => JsMap.set m (fst entry) (snd entry))
       config JsMap.empty).

(** The last loop of [prepareLabels], from the entry it is at: set the
    manager labels, creating non existing ones. *)
Fixpoint setLabels (boardLabels : JsMap.t Label.t) (wanted : list (str * str))
    (labels : JsMap.t Label.t) (w : World) : outcome (str * str) Label.t :=
  match wanted with
  | [] => Outcome (Some labels) [] [] w
  | (name, color) :: rest =>
      match JsMap.get boardLabels name with
      | Some label =>
          setLabels boardLabels rest (JsMap.set labels name label) w
      | None =>
          let (r, w') := post_label name color w in
          match r with
          | Some label =>
              let o :=
                setLabels boardLabels rest (JsMap.set labels name label) w' in
              Outcome (result o) ((name, color) :: posted o)
                (label :: created o) (after o)
          | None => Outcome None [(name, color)] [] w'
          end
      end
  end.

Definition prepareLabels (boardLabels : list Label.t)
    (config : list (str * str)) (terms : list str) (w : World)
    : outcome (str * str) Label.t :=
  setLabels (labelsByName boardLabels) (wantedLabels config terms)
    JsMap.empty w.

End Board.

Arguments result {World Q A} o.
Arguments posted {World Q A} o.
Arguments created {World Q A} o.
Arguments after {World Q A} o.

(** The names that the loop over the entities sets: the types and the
    countries of the disasters; the disaster types and the themes of the
    topics; the ISO3 codes and the short names of the countries. *)
Definition disasterTerms (disasters : list Disasters.Disaster.t) : list str :=
  List.flat_map
    (fun disaster =>
       Disasters.Disaster.type disaster ++ Disasters.Disaster.country disaster)
    disasters.

Definition topicTerms (topics : list Topics.Topic.t) : list str :=
  List.flat_map
    (fun topic =>
       match Topics.Topic.disaster_type topic with
       | Some items => items
       | None => []
       end
       ++ match Topics.Topic.theme topic with
          | Some items => items
          | None => []
          end)
    topics.

Definition countryTerms (countries : list Countries.Country.t) : list str :=
  List.flat_map
    (fun country =>
       match Countries.Country.iso3 country with
       | Some iso3 => if truthy iso3 then [iso3] else []
       | None => []
       end
       ++ match Countries.Country.shortname country with
          | Some shortname => if truthy shortname then [shortname] else []
          | None => []
          end)
    countries.

End Setup.


(** ** What the preparation of the lists and of the labels guarantees *)

Module SetupFacts.
Import Js JsFacts JsMapFacts Trello Setup.

(** *** Maps filled in a loop *)

Section Filled.

Variables (A V : Type) (key : A -> str) (val : A -> V).

Local Abbreviation fill :=
  (List.fold_left (fun m x => JsMap.set m (key x) (val x))).

Lemma fill_snoc (l : list A) (x : A) (acc : JsMap.t V) :
  fill (l ++ [x]) acc = JsMap.set (fill l acc) (key x) (val x).
Proof. now rewrite List.fold_left_app. Qed.

(** A key that the loop sets holds what the loop set last under it. *)
Lemma get_fill_In (l : list A) (acc : JsMap.t V) (k : str) :
  In k (List.map key l) ->
  exists x, In x l /\ key x = k /\ JsMap.get (fill l acc) k = Some (val x).
Proof.
  induction l as [|x l IH] using List.rev_ind; [intros []|].
  rewrite List.map_app, List.in_app_iff, fill_snoc. intros Hin.
  destruct (eqb (key x) k) eqn:E.
  - apply eqb_eq in E. exists x. subst k.
    rewrite get_set_same, List.in_app_iff. simpl. auto.
  - apply eqb_neq in E. destruct Hin as [Hin|[Hin|[]]]; [|contradiction].
    destruct (IH Hin) as [y [Hy [Hk Hget]]]. exists y.
    rewrite get_set_other by exact E. rewrite List.in_app_iff. auto.
Qed.

Lemma get_fill_other (l : list A) (acc : JsMap.t V) (k : str) :
  ~ In k (List.map key l) -> JsMap.get (fill l acc) k = JsMap.get acc k.
Proof.
  induction l as [|x l IH] using List.rev_ind; [reflexivity|].
  rewrite List.map_app, List.in_app_iff, fill_snoc. intros Hin.
  rewrite get_set_other; [apply IH; tauto|].
  intros E. apply Hin. right. left. exact E.
Qed.

(** The element that the loop comes to last under its key. *)
Lemma get_fill_last (before later : list A) (x : A) (acc : JsMap.t V) :
  (forall y, In y later -> key y <> key x) ->
  JsMap.get (fill (before ++ x :: later) acc) (key x) = Some (val x).
Proof.
  intros Hlater. rewrite List.fold_left_app. cbn [List.fold_left].
  rewrite get_fill_other; [apply get_set_same|].
  rewrite List.in_map_iff. intros [y [Hy Hin]]. now apply (Hlater y).
Qed.

Lemma has_fill (l : list A) (acc : JsMap.t V) (k : str) :
  JsMap.has (fill l acc) k = true
  <-> JsMap.has acc k = true \/ In k (List.map key l).
Proof.
  unfold JsMap.has. split.
  - intros H. destruct (List.in_dec (List.list_eq_dec N.eq_dec) k (List.map key l))
      as [Hin|Hin]; [auto|].
    rewrite get_fill_other in H by exact Hin. auto.
  - intros [H|H].
    + destruct (List.in_dec (List.list_eq_dec N.eq_dec) k (List.map key l))
        as [Hin|Hin].
      * destruct (@get_fill_In l acc k Hin) as [x [_ [_ Hx]]]. now rewrite Hx.
      * now rewrite get_fill_other.
    + destruct (@get_fill_In l acc k H) as [x [_ [_ Hx]]]. now rewrite Hx.
Qed.

Lemma NoDup_fill (l : list A) (acc : JsMap.t V) :
  NoDup (JsMap.keys acc) -> NoDup (JsMap.keys (fill l acc)).
Proof.
  revert acc. induction l as [|x l IH]; intros acc Hacc; [exact Hacc|].
  cbn [List.fold_left]. apply IH. now apply ByUrl.NoDup_set.
Qed.

End Filled.

Lemma has_true_get {V} (m : JsMap.t V) (k : str) :
  JsMap.has m k = true <-> exists v, JsMap.get m k = Some v.
Proof.
  unfold JsMap.has. destruct (JsMap.get m k) as [v|]; split;
    try discriminate; eauto.
  intros [v H]. discriminate.
Qed.

(** *** The lists *)

Lemma get_listsByName (boardLists : list BoardList.t) (name : str) :
  JsMap.get (listsByName boardLists) name = None
  <-> ~ In name (List.map BoardList.name boardLists).
Proof.
  unfold listsByName. split.
  - intros H Hin.
    destruct (@get_fill_In _ _ BoardList.name (fun l => l) boardLists JsMap.empty name Hin)
      as [x [_ [_ Hx]]].
    congruence.
  - intros H. now rewrite get_fill_other.
Qed.

Lemma get_listsByName_In (boardLists : list BoardList.t) (name : str) list :
  JsMap.get (listsByName boardLists) name = Some list ->
  In list boardLists /\ BoardList.name list = name.
Proof.
  intros H.
  destruct (List.in_dec (List.list_eq_dec N.eq_dec) name
              (List.map BoardList.name boardLists)) as [Hin|Hin].
  - destruct (@get_fill_In _ _ BoardList.name (fun l => l) boardLists JsMap.empty name Hin)
      as [x [Hx [Hk Hget]]].
    unfold listsByName in H. rewrite Hget in H. injection H as <-. auto.
  - apply get_listsByName in Hin. congruence.
Qed.

Section Lists.

Variable World : Type.
Variable post_list : str -> Z -> World -> option BoardList.t * World.
Variable boardLists : JsMap.t BoardList.t.

Local Abbreviation setLists := (Setup.setLists post_list boardLists).

Definition body (item : ConfigList.t) : str * Z :=
  (ConfigList.name item, ConfigList.position item).

Definition absent (item : ConfigList.t) : bool :=
  negb (JsMap.has boardLists (ConfigList.name item)).

Lemma setLists_posted (items : list ConfigList.t) : forall lists w,
  (exists rest,
      List.map body (List.filter absent items)
      = posted (setLists items lists w) ++ rest)
  /\ (result (setLists items lists w) <> None ->
      posted (setLists items lists w) = List.map body (List.filter absent items)
      /\ List.length (created (setLists items lists w))
         = List.length (List.filter absent items))
  /\ (List.filter absent items = [] ->
      result (setLists items lists w) <> None
      /\ after (setLists items lists w) = w).
Proof.
  induction items as [|item items IH]; intros lists w.
  - cbn. repeat split; try discriminate. now exists [].
  - cbn [Setup.setLists List.filter].
    assert (Ea : absent item
                 = match JsMap.get boardLists (ConfigList.name item) with
                   | Some _ => false
                   | None => true
                   end).
    { unfold absent, JsMap.has.
      now destruct (JsMap.get boardLists (ConfigList.name item)). }
    rewrite Ea. clear Ea.
    destruct (JsMap.get boardLists (ConfigList.name item)) as [list|].
    + apply IH.
    + cbn [List.map].
      destruct (post_list _ _ w) as [[list|] w'].
      * cbn [result posted created after].
        destruct (IH (JsMap.set lists (ConfigList.status item) list) w')
          as [[rest Hrest] [Hok _]].
        split; [|split].
        -- exists rest. cbn [List.app]. now rewrite Hrest.
        -- intros Hr. destruct (Hok Hr) as [Hp Hc]. cbn [List.length].
           now rewrite Hp, Hc.
        -- discriminate.
      * cbn [result posted created after]. split; [|split].
        -- exists (List.map body (List.filter absent items)). reflexivity.
        -- intros H. contradiction.
        -- discriminate.
Qed.

(** The remote side once it has answered the creation requests
    [bodies]. *)
Definition reached (bodies : list (str * Z)) (w : World) : World :=
  List.fold_left (fun w body => snd (post_list (fst body) (snd body) w))
    bodies w.

(** The answer to the creation request [body] that follows the requests
    [done]. *)
Definition answer (done : list (str * Z)) (body : str * Z) (w : World)
    : option BoardList.t :=
  fst (post_list (fst body) (snd body) (reached done w)).

Lemma setLists_answers (items : list ConfigList.t) : forall lists w,
  after (setLists items lists w) = reached (posted (setLists items lists w)) w
  /\ (forall done body rest,
         posted (setLists items lists w) = done ++ body :: rest ->
         (answer done body w = None
          <-> rest = [] /\ result (setLists items lists w) = None))
  /\ (result (setLists items lists w) = None ->
      posted (setLists items lists w) <> []).
Proof.
  induction items as [|item items IH]; intros lists w.
  - cbn [Setup.setLists result posted after]. split; [reflexivity|].
    split; [|discriminate].
    intros done body rest H. now destruct done.
  - cbn [Setup.setLists].
    destruct (JsMap.get boardLists (ConfigList.name item)) as [list|];
      [apply IH|].
    destruct (post_list (ConfigList.name item) (ConfigList.position item) w)
      as [r w'] eqn:Ep.
    destruct r as [list|].
    + cbn [result posted created after].
      destruct (IH (JsMap.set lists (ConfigList.status item) list) w')
        as [Ha [Hb Hc]].
      split; [|split].
      * cbn [reached List.fold_left fst snd]. rewrite Ep. exact Ha.
      * intros done body rest Hp. destruct done as [|b0 done].
        -- cbn [List.app] in Hp. injection Hp as <- Hrest.
           unfold answer. cbn [reached List.fold_left fst snd]. rewrite Ep.
           cbn [fst]. split; [discriminate|]. intros [-> Hr].
           exfalso. exact (Hc Hr Hrest).
        -- cbn [List.app] in Hp. injection Hp as <- Hrest.
           unfold answer. cbn [reached List.fold_left fst snd]. rewrite Ep.
           cbn [snd]. now apply Hb.
      * discriminate.
    + cbn [result posted created after]. split; [|split].
      * cbn [reached List.fold_left fst snd]. now rewrite Ep.
      * intros done body rest Hp. destruct done as [|b0 done].
        -- cbn [List.app] in Hp. injection Hp as <- <-.
           unfold answer. cbn [reached List.fold_left fst snd]. rewrite Ep.
           now split.
        -- cbn [List.app] in Hp. injection Hp as _ Hp. now destruct done.
      * discriminate.
Qed.

Lemma setLists_get_other (items : list ConfigList.t) : forall lists w lists' s,
  result (setLists items lists w) = Some lists' ->
  ~ In s (List.map ConfigList.status items) ->
  JsMap.get lists' s = JsMap.get lists s.
Proof.
  induction items as [|item items IH]; intros lists w lists' s.
  - cbn. intros H _. now injection H as <-.
  - cbn [Setup.setLists List.map In]. intros H Hs.
    assert (Hne : ConfigList.status item <> s) by tauto.
    assert (Hnot : ~ In s (List.map ConfigList.status items)) by tauto.
    destruct (JsMap.get boardLists (ConfigList.name item)) as [list|].
    + rewrite (IH _ _ _ _ H Hnot). now apply get_set_other.
    + destruct (post_list _ _ w) as [[list|] w']; [|discriminate].
      cbn [result] in H. rewrite (IH _ _ _ _ H Hnot). now apply get_set_other.
Qed.

Lemma setLists_has (items : list ConfigList.t) : forall lists w lists' s,
  result (setLists items lists w) = Some lists' ->
  (JsMap.has lists' s = true
   <-> JsMap.has lists s = true \/ In s (List.map ConfigList.status items)).
Proof.
  induction items as [|item items IH]; intros lists w lists' s.
  - cbn. intros H. injection H as <-. tauto.
  - cbn [Setup.setLists List.map In]. intros H.
    assert (Hset : forall list,
               JsMap.has (JsMap.set lists (ConfigList.status item) list) s = true
               <-> JsMap.has lists s = true \/ ConfigList.status item = s).
    { intros list. rewrite Archival.has_set, orb_true_iff, eqb_eq. tauto. }
    destruct (JsMap.get boardLists (ConfigList.name item)) as [list|].
    + rewrite (IH _ _ _ _ H), Hset. tauto.
    + destruct (post_list _ _ w) as [[list|] w']; [|discriminate].
      cbn [result] in H. rewrite (IH _ _ _ _ H), Hset. tauto.
Qed.

Lemma setLists_found (items : list ConfigList.t) : forall lists w lists' item list,
  result (setLists items lists w) = Some lists' ->
  NoDup (List.map ConfigList.status items) ->
  In item items ->
  JsMap.get boardLists (ConfigList.name item) = Some list ->
  JsMap.get lists' (ConfigList.status item) = Some list.
Proof.
  induction items as [|item0 items IH]; intros lists w lists' item list;
    [intros _ _ []|].
  cbn [Setup.setLists List.map]. intros H Hnd [<-|Hin] Hget.
  - inversion Hnd as [|? ? Hnotin _]; subst. rewrite Hget in H.
    rewrite (@setLists_get_other _ _ _ _ _ H Hnotin). apply get_set_same.
  - inversion Hnd as [|? ? _ Hnd']; subst.
    destruct (JsMap.get boardLists (ConfigList.name item0)) as [list0|].
    + now apply (IH _ _ _ _ _ H).
    + destruct (post_list _ _ w) as [[list0|] w']; [|discriminate].
      cbn [result] in H. now apply (IH _ _ _ _ _ H).
Qed.

Lemma setLists_origin (items : list ConfigList.t) : forall lists w lists' s list,
  result (setLists items lists w) = Some lists' ->
  JsMap.get lists' s = Some list ->
  JsMap.get lists s = Some list
  \/ In list (JsMap.values boardLists)
  \/ In list (created (setLists items lists w)).
Proof.
  induction items as [|item items IH]; intros lists w lists' s list.
  - cbn. intros H. injection H as <-. auto.
  - cbn [Setup.setLists].
    assert (Hset : forall l0,
               JsMap.get (JsMap.set lists (ConfigList.status item) l0) s
               = Some list ->
               JsMap.get lists s = Some list \/ l0 = list).
    { intros l0. destruct (eqb (ConfigList.status item) s) eqn:E.
      - apply eqb_eq in E. subst s. rewrite get_set_same. intros H.
        injection H as <-. now right.
      - apply eqb_neq in E. rewrite get_set_other by exact E. auto. }
    destruct (JsMap.get boardLists (ConfigList.name item)) as [list0|] eqn:E0.
    + intros H Hget.
      destruct (IH _ _ _ _ _ H Hget) as [Hl|[Hl|Hl]]; auto.
      apply Hset in Hl as [Hl|<-]; auto.
      right. left. apply get_In in E0. unfold JsMap.values.
      change list0 with (snd (ConfigList.name item, list0)).
      now apply List.in_map.
    + destruct (post_list _ _ w) as [[list0|] w']; [|discriminate].
      cbn [result created]. intros H Hget.
      destruct (IH _ _ _ _ _ H Hget) as [Hl|[Hl|Hl]]; auto.
      * apply Hset in Hl as [Hl|<-]; auto. right. right. now left.
      * right. right. now right.
Qed.

End Lists.

Lemma values_listsByName (boardLists : list BoardList.t) list :
  In list (JsMap.values (listsByName boardLists)) -> In list boardLists.
Proof.
  unfold JsMap.values. rewrite List.in_map_iff. intros [[k v] [<- Hin]].
  cbn [snd]. unfold listsByName in Hin.
  assert (H : forall l acc e,
             In e (List.fold_left
                     (fun m list => JsMap.set m (BoardList.name list) list)
                     l acc) ->
             In e acc \/ In (snd e) l).
  { induction l as [|x l IH]; intros acc e; cbn [List.fold_left]; [auto|].
    intros He. apply IH in He as [He|He]; [|simpl; auto].
    apply In_set in He as [He|[He _]]; [auto|]. right. left. auto. }
  apply H in Hin as [[]|Hin]. exact Hin.
Qed.

Section PrepareLists.

Variable World : Type.
Variable post_list : str -> Z -> World -> option BoardList.t * World.

(** X7.  When [prepareLists] returns, [this.lists] has a list for every
    configured status and for nothing else; each of them is a list of the
    board or the list of a response; and, the statuses of the
    configuration being distinct, an item whose name is borne by lists of
    the board gets the last of them. *)
Theorem prepareLists_gives_every_status_a_list
    (boardLists : list BoardList.t) (config : list ConfigList.t) (w : World)
    (lists : JsMap.t BoardList.t) :
  result (prepareLists post_list boardLists config w) = Some lists ->
  (forall status,
      (exists list, JsMap.get lists status = Some list)
      <-> In status (List.map ConfigList.status config))
  /\ (forall status list,
         JsMap.get lists status = Some list ->
         In list boardLists
         \/ In list (created (prepareLists post_list boardLists config w)))
  /\ (NoDup (List.map ConfigList.status config) ->
      forall item before list later,
        In item config ->
        boardLists = before ++ list :: later ->
        BoardList.name list = ConfigList.name item ->
        (forall l, In l later -> BoardList.name l <> ConfigList.name item) ->
        JsMap.get lists (ConfigList.status item) = Some list).
Proof.
  unfold prepareLists. intros H. split; [|split].
  - intros status. rewrite <- has_true_get, (@setLists_has _ _ _ _ _ _ _ status H).
    cbn. intuition discriminate.
  - intros status list Hget.
    destruct (@setLists_origin _ _ _ _ _ _ _ _ _ H Hget) as [Hl|[Hl|Hl]]; auto.
    + discriminate.
    + left. now apply values_listsByName.
  - intros Hnd item before list later Hin -> Hname Hlater.
    apply (@setLists_found _ _ _ _ _ _ _ _ _ H Hnd Hin).
    unfold listsByName. rewrite <- Hname.
    apply (@get_fill_last _ _ BoardList.name (fun l => l)).
    intros y Hy. rewrite Hname. now apply Hlater.
Qed.

(** X8.  [prepareLists] asks for the creation of the lists whose name no
    list of the board bears, in the order of the configuration and once
    for each configured item, with the name and the position of the item.
    It stops at the first creation that fails, and then throws: a request
    that it has sent was answered with a failure exactly when it is the
    last one sent and the function throws, and the function throws only
    after such a request.  When every creation succeeds it returns and
    has sent them all; when nothing is missing it sends nothing.  The
    remote side is left as these requests leave it. *)
Theorem prepareLists_creates_the_missing_lists
    (boardLists : list BoardList.t) (config : list ConfigList.t) (w : World) :
  let run := prepareLists post_list boardLists config w in
  let missing :=
    List.filter
      (fun item =>
         negb (List.existsb
                 (fun list => eqb (BoardList.name list) (ConfigList.name item))
                 boardLists))
      config in
  let bodies :=
    List.map (fun item => (ConfigList.name item, ConfigList.position item))
      missing in
  (exists rest, bodies = posted run ++ rest)
  /\ (result run <> None ->
      posted run = bodies
      /\ List.length (created run) = List.length missing)
  /\ (missing = [] -> result run <> None /\ posted run = [] /\ after run = w)
  /\ (forall done body rest,
         posted run = done ++ body :: rest ->
         (answer post_list done body w = None
          <-> rest = [] /\ result run = None))
  /\ (result run = None ->
      exists done body,
        posted run = done ++ [body] /\ answer post_list done body w = None)
  /\ ((forall done body rest,
          bodies = done ++ body :: rest ->
          answer post_list done body w <> None) ->
      result run <> None)
  /\ after run = reached post_list (posted run) w.
Proof.
  cbv zeta. unfold prepareLists.
  assert (Hfilter :
            List.filter
              (fun item =>
                 negb (List.existsb
                         (fun list =>
                            eqb (BoardList.name list) (ConfigList.name item))
                         boardLists))
              config
            = List.filter (absent (listsByName boardLists)) config).
  { apply List.filter_ext. intros item. unfold absent. f_equal.
    destruct (JsMap.has (listsByName boardLists) (ConfigList.name item)) eqn:E.
    - apply has_true_get in E as [list E].
      apply get_listsByName_In in E as [Hin Hname].
      apply List.existsb_exists. exists list. split; [exact Hin|].
      now apply eqb_eq.
    - destruct (List.existsb _ boardLists) eqn:Ex; [|reflexivity].
      apply List.existsb_exists in Ex as [list [Hin Hname]].
      apply eqb_eq in Hname.
      assert (Hnone : JsMap.get (listsByName boardLists) (ConfigList.name item)
                      = None).
      { unfold JsMap.has in E.
        now destruct (JsMap.get (listsByName boardLists) (ConfigList.name item)). }
      apply get_listsByName in Hnone. exfalso. apply Hnone.
      rewrite <- Hname. now apply List.in_map. }
  rewrite Hfilter.
  destruct (setLists_posted post_list (listsByName boardLists) config
              JsMap.empty w) as [Hprefix [Hok Hnone]].
  destruct (setLists_answers post_list (listsByName boardLists) config
              JsMap.empty w) as [Hafter [Hlast Hsent]].
  assert (Hthrown :
            result (setLists post_list (listsByName boardLists) config
                      JsMap.empty w) = None ->
            exists done body,
              posted (setLists post_list (listsByName boardLists) config
                        JsMap.empty w) = done ++ [body]
              /\ answer post_list done body w = None).
  { intros Hr.
    destruct (List.exists_last (Hsent Hr)) as [done [body Hp]].
    exists done, body. split; [exact Hp|].
    apply (Hlast done body [] Hp). now split. }
  split; [exact Hprefix|]. split; [exact Hok|]. split.
  { intros Hm. destruct (Hnone Hm) as [Hr Ha]. split; [exact Hr|].
    split; [|exact Ha].
    destruct (Hok Hr) as [Hp _]. rewrite Hp, Hm. reflexivity. }
  split; [exact Hlast|]. split; [exact Hthrown|]. split; [|exact Hafter].
  intros Hall Hr. destruct (Hthrown Hr) as [done [body [Hp Ha]]].
  destruct Hprefix as [rest Hrest]. rewrite Hp, <- List.app_assoc in Hrest.
  exact (Hall done body rest Hrest Ha).
Qed.

End PrepareLists.

(** *** The labels *)

Definition named (label : Label.t) : bool := negb (eqb (Label.name label) []).

Lemma labelsByName_filter (boardLabels : list Label.t) :
  labelsByName boardLabels
  = List.fold_left (fun m label => JsMap.set m (Label.name label) label)
      (List.filter named boardLabels) JsMap.empty.
Proof.
  unfold labelsByName. generalize (@JsMap.empty Label.t) as acc.
  induction boardLabels as [|label rest IH]; intros acc; [reflexivity|].
  cbn [List.fold_left List.filter]. rewrite IH. unfold named at 2.
  now destruct (negb (eqb (Label.name label) [])).
Qed.

Lemma get_labelsByName_In (boardLabels : list Label.t) (name : str) label :
  JsMap.get (labelsByName boardLabels) name = Some label ->
  In label boardLabels /\ Label.name label = name.
Proof.
  rewrite labelsByName_filter. intros H.
  destruct (List.in_dec (List.list_eq_dec N.eq_dec) name
              (List.map Label.name (List.filter named boardLabels)))
    as [Hin|Hin].
  - destruct (@get_fill_In _ _ Label.name (fun l => l)
                (List.filter named boardLabels) JsMap.empty name Hin)
      as [x [Hx [Hk Hget]]].
    rewrite Hget in H. injection H as <-.
    apply List.filter_In in Hx as [Hx _]. auto.
  - rewrite (@get_fill_other _ _ Label.name (fun l => l)) in H by exact Hin.
    discriminate.
Qed.

Lemma get_labelsByName_None (boardLabels : list Label.t) (name : str) :
  JsMap.get (labelsByName boardLabels) name = None
  <-> (forall label, In label boardLabels -> Label.name label = name ->
                     name = []).
Proof.
  rewrite labelsByName_filter. split.
  - intros H label Hin Hname.
    destruct (eqb name []) eqn:E; [now apply eqb_eq in E|].
    assert (Hn : In name (List.map Label.name (List.filter named boardLabels))).
    { rewrite <- Hname. apply List.in_map. apply List.filter_In.
      split; [exact Hin|]. unfold named. now rewrite Hname, E. }
    destruct (@get_fill_In _ _ Label.name (fun l => l)
                (List.filter named boardLabels) JsMap.empty name Hn)
      as [x [_ [_ Hget]]].
    congruence.
  - intros H. apply (@get_fill_other _ _ Label.name (fun l => l)).
    rewrite List.in_map_iff. intros [label [Hname Hin]].
    apply List.filter_In in Hin as [Hin Hnamed].
    unfold named in Hnamed. rewrite (H label Hin Hname) in Hname.
    rewrite Hname in Hnamed. discriminate.
Qed.

Definition str_eq_dec : forall a b : str, {a = b} + {a <> b} :=
  List.list_eq_dec N.eq_dec.

Definition colourless (terms : list str) (acc : JsMap.t str) : JsMap.t str :=
  List.fold_left (fun m name => JsMap.set m name []) terms acc.

Definition configured (config : list (str * str)) : JsMap.t str :=
  List.fold_left (fun m entry => JsMap.set m (fst entry) (snd entry))
    config JsMap.empty.

Lemma get_colourless (terms : list str) (acc : JsMap.t str) (name : str) :
  JsMap.get (colourless terms acc) name
  = if List.in_dec str_eq_dec name terms
    then Some [] else JsMap.get acc name.
Proof.
  destruct (List.in_dec str_eq_dec name terms) as [Hin|Hin].
  - assert (Hin' : In name (List.map (fun x : str => x) terms))
      by now rewrite List.map_id.
    destruct (@get_fill_In _ _ (fun x : str => x) (fun _ => @nil char) terms
                acc name Hin') as [x [_ [_ Hget]]].
    exact Hget.
  - apply (@get_fill_other _ _ (fun x : str => x) (fun _ => @nil char)).
    now rewrite List.map_id.
Qed.

Lemma get_configured (config : list (str * str)) (name color : str) :
  JsMap.get (configured config) name = Some color -> In (name, color) config.
Proof.
  intros H.
  destruct (List.in_dec (List.list_eq_dec N.eq_dec) name
              (List.map fst config)) as [Hc|Hc].
  - destruct (@get_fill_In _ _ (@fst str str) (@snd str str) config
                JsMap.empty name Hc) as [[k v] [Hx [Hk Hget]]].
    cbn [fst snd] in *. subst k.
    assert (He : Some color = Some v) by (rewrite <- H; exact Hget).
    now injection He as ->.
  - assert (Hn : JsMap.get (configured config) name = None)
      by exact (@get_fill_other _ _ (@fst str str) (@snd str str) config
                  JsMap.empty name Hc).
    congruence.
Qed.

Lemma has_configured (config : list (str * str)) (name : str) :
  JsMap.has (configured config) name = true <-> In name (List.map fst config).
Proof.
  pose proof (@has_fill _ _ (@fst str str) (@snd str str) config
                JsMap.empty name) as H.
  unfold configured. cbn in H. cbn. rewrite H. intuition discriminate.
Qed.

Lemma wantedLabels_eq (config : list (str * str)) (terms : list str) :
  wantedLabels config terms = colourless terms (configured config).
Proof. reflexivity. Qed.

Lemma NoDup_wantedLabels (config : list (str * str)) (terms : list str) :
  NoDup (JsMap.keys (wantedLabels config terms)).
Proof.
  unfold wantedLabels.
  apply (@NoDup_fill _ _ (fun name : str => name) (fun _ => @nil char)).
  apply (@NoDup_fill _ _ (@fst str str) (@snd str str)). constructor.
Qed.

Lemma get_wantedLabels (config : list (str * str)) (terms : list str)
    (name color : str) :
  JsMap.get (wantedLabels config terms) name = Some color ->
  (In name terms /\ color = [])
  \/ (~ In name terms /\ In (name, color) config).
Proof.
  rewrite wantedLabels_eq, get_colourless.
  destruct (List.in_dec str_eq_dec name terms) as [Hin|Hin]; intros H.
  - left. split; [exact Hin | congruence].
  - right. split; [exact Hin | now apply get_configured].
Qed.

Lemma has_wantedLabels (config : list (str * str)) (terms : list str)
    (name : str) :
  In name (JsMap.keys (wantedLabels config terms))
  <-> In name (List.map fst config) \/ In name terms.
Proof.
  rewrite <- has_keys, <- has_configured, wantedLabels_eq.
  unfold JsMap.has at 1. rewrite get_colourless.
  destruct (List.in_dec str_eq_dec name terms) as [Hin|Hin].
  - tauto.
  - unfold JsMap.has. destruct (JsMap.get (configured config) name);
      intuition discriminate.
Qed.

Section Labels.

Variable World : Type.
Variable post_label : str -> str -> World -> option Label.t * World.
Variable boardLabels : JsMap.t Label.t.

Local Abbreviation setLabels := (Setup.setLabels post_label boardLabels).

Definition unlabelled (entry : str * str) : bool :=
  negb (JsMap.has boardLabels (fst entry)).

Lemma setLabels_posted (wanted : list (str * str)) : forall labels w,
  (exists rest,
      List.filter unlabelled wanted = posted (setLabels wanted labels w) ++ rest)
  /\ (result (setLabels wanted labels w) <> None ->
      posted (setLabels wanted labels w) = List.filter unlabelled wanted)
  /\ (List.filter unlabelled wanted = [] ->
      result (setLabels wanted labels w) <> None
      /\ after (setLabels wanted labels w) = w).
Proof.
  induction wanted as [|[name color] wanted IH]; intros labels w.
  - cbn. repeat split; try discriminate. now exists [].
  - cbn [Setup.setLabels List.filter].
    assert (Ea : unlabelled (name, color)
                 = match JsMap.get boardLabels name with
                   | Some _ => false
                   | None => true
                   end).
    { unfold unlabelled, JsMap.has. cbn [fst].
      now destruct (JsMap.get boardLabels name). }
    rewrite Ea. clear Ea.
    destruct (JsMap.get boardLabels name) as [label|].
    + apply IH.
    + destruct (post_label name color w) as [[label|] w'].
      * cbn [result posted created after].
        destruct (IH (JsMap.set labels name label) w') as [[rest Hrest] [Hok _]].
        split; [|split].
        -- exists rest. cbn [List.app]. now rewrite Hrest.
        -- intros Hr. now rewrite (Hok Hr).
        -- discriminate.
      * cbn [result posted created after]. split; [|split].
        -- exists (List.filter unlabelled wanted). reflexivity.
        -- intros H. contradiction.
        -- discriminate.
Qed.

Lemma setLabels_has (wanted : list (str * str)) : forall labels w labels' k,
  result (setLabels wanted labels w) = Some labels' ->
  (JsMap.has labels' k = true
   <-> JsMap.has labels k = true \/ In k (List.map fst wanted)).
Proof.
  induction wanted as [|[name color] wanted IH]; intros labels w labels' k.
  - cbn. intros H. injection H as <-. tauto.
  - cbn [Setup.setLabels List.map In fst]. intros H.
    assert (Hset : forall label,
               JsMap.has (JsMap.set labels name label) k = true
               <-> JsMap.has labels k = true \/ name = k).
    { intros label. rewrite Archival.has_set, orb_true_iff, eqb_eq. tauto. }
    destruct (JsMap.get boardLabels name) as [label|].
    + rewrite (IH _ _ _ _ H), Hset. tauto.
    + destruct (post_label name color w) as [[label|] w']; [|discriminate].
      cbn [result] in H. rewrite (IH _ _ _ _ H), Hset. tauto.
Qed.

Lemma setLabels_origin (wanted : list (str * str)) :
  forall labels w labels' k label,
    result (setLabels wanted labels w) = Some labels' ->
    JsMap.get labels' k = Some label ->
    JsMap.get labels k = Some label
    \/ JsMap.get boardLabels k = Some label
    \/ (In label (created (setLabels wanted labels w))
        /\ exists color w0, fst (post_label k color w0) = Some label).
Proof.
  induction wanted as [|[name color] wanted IH]; intros labels w labels' k label.
  - cbn. intros H. injection H as <-. auto.
  - cbn [Setup.setLabels].
    assert (Hset : forall l0,
               JsMap.get (JsMap.set labels name l0) k = Some label ->
               JsMap.get labels k = Some label \/ (l0 = label /\ name = k)).
    { intros l0. destruct (eqb name k) eqn:E.
      - apply eqb_eq in E. subst k. rewrite get_set_same. intros H.
        injection H as <-. now right.
      - apply eqb_neq in E. rewrite get_set_other by exact E. auto. }
    destruct (JsMap.get boardLabels name) as [l0|] eqn:E0.
    + intros H Hget.
      destruct (IH _ _ _ _ _ H Hget) as [Hl|[Hl|Hl]]; auto.
      apply Hset in Hl as [Hl|[<- <-]]; auto.
    + destruct (post_label name color w) as [[l0|] w'] eqn:Ep; [|discriminate].
      cbn [result created]. intros H Hget.
      destruct (IH _ _ _ _ _ H Hget) as [Hl|[Hl|[Hl Hp]]]; auto.
      * apply Hset in Hl as [Hl|[<- <-]]; auto. right. right.
        split; [now left|]. exists color, w. now rewrite Ep.
      * right. right. split; [now right | exact Hp].
Qed.

End Labels.

Lemma NoDup_filter {A} (f : A -> str) (p : A -> bool) (l : list A) :
  NoDup (List.map f l) -> NoDup (List.map f (List.filter p l)).
Proof.
  induction l as [|x l IH]; cbn [List.map List.filter]; [trivial|].
  intros Hnd. inversion Hnd as [|? ? Hnotin Hnd']; subst.
  destruct (p x); [|now apply IH].
  cbn [List.map]. constructor; [|now apply IH].
  rewrite List.in_map_iff. intros [y [Hy Hin]]. apply Hnotin.
  rewrite <- Hy. apply List.in_map. now apply List.filter_In in Hin as [Hin _].
Qed.

(** The label of the board that bears an id, the ids being distinct. *)
Lemma find_id (labels : list Label.t) (label : Label.t) :
  NoDup (List.map Label.id labels) -> In label labels ->
  List.find (fun l => eqb (Label.id l) (Label.id label)) labels = Some label.
Proof.
  induction labels as [|l0 labels IH]; cbn [List.map List.find]; [intros _ []|].
  intros Hnd Hin. inversion Hnd as [|? ? Hnotin Hnd']; subst.
  destruct Hin as [<-|Hin]; [now rewrite eqb_refl|].
  destruct (eqb (Label.id l0) (Label.id label)) eqn:E; [|now apply IH].
  apply eqb_eq in E. exfalso. apply Hnotin. rewrite E. now apply List.in_map.
Qed.

Section PrepareLabels.

Variable World : Type.
Variable post_label : str -> str -> World -> option Label.t * World.

Variable boardLabels : list Label.t.
Variable config : list (str * str).
Variable terms : list str.
Variable w : World.

Local Abbreviation run := (prepareLabels post_label boardLabels config terms w).

Lemma prepareLabels_origin (labels : JsMap.t Label.t) name label :
  result run = Some labels ->
  JsMap.get labels name = Some label ->
  (In label boardLabels /\ Label.name label = name)
  \/ (In label (created run)
      /\ exists color w0, fst (post_label name color w0) = Some label).
Proof.
  unfold prepareLabels. intros H Hget.
  destruct (@setLabels_origin _ _ _ _ _ _ _ _ _ H Hget) as [Hl|[Hl|Hl]].
  - discriminate.
  - left. now apply get_labelsByName_In.
  - now right.
Qed.

Lemma prepareLabels_keys (labels : JsMap.t Label.t) name :
  result run = Some labels ->
  ((exists label, JsMap.get labels name = Some label)
   <-> In name (List.map fst config) \/ In name terms).
Proof.
  unfold prepareLabels. intros H.
  rewrite <- has_true_get, (@setLabels_has _ _ _ _ _ _ _ name H).
  change (List.map fst (wantedLabels config terms))
    with (JsMap.keys (wantedLabels config terms)).
  rewrite has_wantedLabels. cbn. intuition discriminate.
Qed.

(** X9.  When [prepareLabels] returns, [this.labels] has a label for every
    name of the configuration and for every name taken from the entities,
    and for nothing else; the label under a name is a label of the board
    that bears the name, or the label of the response to the request that
    created one for the name. *)
Theorem prepareLabels_gives_every_name_a_label (labels : JsMap.t Label.t) :
  result run = Some labels ->
  (forall name,
      (exists label, JsMap.get labels name = Some label)
      <-> In name (List.map fst config) \/ In name terms)
  /\ (forall name label,
         JsMap.get labels name = Some label ->
         (In label boardLabels /\ Label.name label = name)
         \/ (In label (created run)
             /\ exists color w0, fst (post_label name color w0) = Some label)).
Proof.
  intros H. split.
  - intros name. now apply prepareLabels_keys.
  - intros name label Hget. now apply prepareLabels_origin with labels.
Qed.

(** X10.  [prepareLabels] asks for the creation of a label once for each
    name that it manages and that no label of the board bears, and for
    nothing else; a name taken from the entities is created without a
    colour, also when the configuration gives it one, and any other name
    with the colour of the configuration. *)
Theorem prepareLabels_creates_each_missing_label_once :
  NoDup (List.map fst (posted run))
  /\ (forall name color,
         In (name, color) (posted run) ->
         (forall label, In label boardLabels -> Label.name label = name ->
                        name = [])
         /\ ((In name terms /\ color = [])
             \/ (~ In name terms /\ In (name, color) config)))
  /\ (result run <> None ->
      forall name,
        In name (List.map fst config) \/ In name terms ->
        (forall label, In label boardLabels -> Label.name label = name ->
                       name = []) ->
        In name (List.map fst (posted run))).
Proof.
  unfold prepareLabels.
  destruct (setLabels_posted post_label (labelsByName boardLabels)
              (wantedLabels config terms) JsMap.empty w)
    as [[rest Hprefix] [Hok _]].
  pose proof (NoDup_wantedLabels config terms) as Hnd.
  assert (Hsub : forall e,
             In e (posted (setLabels post_label (labelsByName boardLabels)
                             (wantedLabels config terms) JsMap.empty w)) ->
             In e (wantedLabels config terms)
             /\ unlabelled (labelsByName boardLabels) e = true).
  { intros e He. apply List.filter_In. rewrite Hprefix.
    apply List.in_or_app. now left. }
  split; [|split].
  - apply (@NoDup_filter _ (@fst str str)
             (unlabelled (labelsByName boardLabels))) in Hnd.
    rewrite Hprefix, List.map_app in Hnd.
    now apply List.NoDup_app_remove_r in Hnd.
  - intros name color Hin. apply Hsub in Hin as [Hin Hun]. split.
    + apply get_labelsByName_None. unfold unlabelled, JsMap.has in Hun.
      cbn [fst] in Hun.
      now destruct (JsMap.get (labelsByName boardLabels) name).
    + apply get_wantedLabels. now apply ByUrl.NoDup_get.
  - intros Hr name Hname Hboard. rewrite (Hok Hr).
    apply has_wantedLabels in Hname.
    unfold JsMap.keys in Hname. apply List.in_map_iff in Hname as [e [He Hin]].
    apply List.in_map_iff. exists e. split; [exact He|].
    apply List.filter_In. split; [exact Hin|].
    unfold unlabelled, JsMap.has. rewrite He.
    apply get_labelsByName_None in Hboard. now rewrite Hboard.
Qed.

(** X11.  When [prepareLabels] returns, the service having answered each
    request with a label of the name it was asked for, and the labels of
    the board and of the responses having distinct ids, [this.labels]
    holds under each name a label of that name, and that label is the one
    that the board, with the new labels, has for its id. *)
Theorem prepareLabels_names_the_labels_of_the_board (labels : JsMap.t Label.t) :
  (forall name color w0 label,
      fst (post_label name color w0) = Some label -> Label.name label = name) ->
  result run = Some labels ->
  NoDup (List.map Label.id (boardLabels ++ created run)) ->
  NewLabels.Consistent labels (boardLabels ++ created run).
Proof.
  intros Hpost H Hnd key label Hget.
  destruct (@prepareLabels_origin labels key label H Hget) as [[Hin Hname]|[Hin [color [w0 Hp]]]].
  - split; [exact Hname|]. apply find_id; [exact Hnd|].
    apply List.in_or_app. now left.
  - split; [now apply (Hpost key color w0)|]. apply find_id; [exact Hnd|].
    apply List.in_or_app. now right.
Qed.

End PrepareLabels.

(** *** The labels of the terms of an entity *)

Lemma has_set_term (labels : JsMap.t Label.t) (m : JsMap.t str) item t :
  JsMap.has m t = true ->
  JsMap.has (Disasters.set_term labels m item) t = true.
Proof.
  intros H. unfold Disasters.set_term.
  destruct (JsMap.get labels item); [|exact H].
  rewrite Archival.has_set, H. apply orb_true_r.
Qed.

Lemma has_set_terms (labels : JsMap.t Label.t) items : forall m t,
  JsMap.has m t = true
  \/ (In t items /\ exists label, JsMap.get labels t = Some label) ->
  JsMap.has (List.fold_left (Disasters.set_term labels) items m) t = true.
Proof.
  induction items as [|item items IH]; intros m t; cbn [List.fold_left].
  - intros [H|[[] _]]. exact H.
  - intros [H|[[->|Hin] Hl]]; apply IH.
    + left. now apply has_set_term.
    + left. destruct Hl as [label Hl]. unfold Disasters.set_term.
      rewrite Hl, Archival.has_set, eqb_refl. reflexivity.
    + right. auto.
Qed.

Lemma has_set_label (labels : JsMap.t Label.t) (m : JsMap.t str) key t :
  JsMap.has m t = true ->
  JsMap.has (Disasters.set_label labels m key) t = true.
Proof.
  intros H. unfold Disasters.set_label.
  destruct (JsMap.get labels key); [|exact H].
  rewrite Archival.has_set, H. apply orb_true_r.
Qed.

Lemma has_set_if (labels : JsMap.t Label.t) cond (m : JsMap.t str) key t :
  JsMap.has m t = true ->
  JsMap.has (Countries.set_if labels cond m key) t = true.
Proof.
  intros H. unfold Countries.set_if.
  destruct (JsMap.get labels key); [|exact H].
  destruct cond; [|exact H].
  rewrite Archival.has_set, H. apply orb_true_r.
Qed.

Section Terms.

Variable World : Type.
Variable post_label : str -> str -> World -> option Label.t * World.
Variable boardLabels : list Label.t.
Variable config : list (str * str).
Variable w : World.

(** X12.  After [prepareLabels] the labels that a disaster wants include
    one for each of its types and of its countries, and the labels that a
    country wants include one for its ISO3 code and one for its short
    name, when it has them: no term is left without a label because the
    board had none for it. *)
Theorem every_term_of_an_entity_is_labelled :
  (forall disasters labels disaster term,
      result (prepareLabels post_label boardLabels config
                (disasterTerms disasters) w) = Some labels ->
      In disaster disasters ->
      In term (Disasters.Disaster.type disaster)
      \/ In term (Disasters.Disaster.country disaster) ->
      JsMap.has (Disasters.getDisasterLabels labels disaster) term = true)
  /\ (forall statuses countries labels country term,
         result (prepareLabels post_label boardLabels config
                   (countryTerms countries) w) = Some labels ->
         In country countries ->
         term <> [] ->
         Countries.Country.iso3 country = Some term
         \/ Countries.Country.shortname country = Some term ->
         JsMap.has (Countries.getCountryLabels statuses labels country) term
         = true).
Proof.
  split.
  - intros disasters labels disaster term H Hd Hterm.
    assert (Hlabel : exists label, JsMap.get labels term = Some label).
    { apply (@prepareLabels_keys _ _ _ _ _ _ _ term H). right. unfold disasterTerms.
      apply List.in_flat_map. exists disaster. split; [exact Hd|].
      apply List.in_or_app. exact Hterm. }
    assert (Hterms :
              JsMap.has
                (List.fold_left (Disasters.set_term labels)
                   (Disasters.Disaster.country disaster)
                   (List.fold_left (Disasters.set_term labels)
                      (Disasters.Disaster.type disaster) JsMap.empty))
                term = true).
    { apply has_set_terms. destruct Hterm as [Ht|Hc]; [left | right; auto].
      apply has_set_terms. right. auto. }
    unfold Disasters.getDisasterLabels.
    destruct (JsNumber.value_gt _ 60); [now apply has_set_label|].
    destruct (JsNumber.value_gt _ 30); [now apply has_set_label|].
    destruct (JsNumber.value_gt _ 7); [now apply has_set_label | exact Hterms].
  - intros statuses countries labels country term H Hc Hne Hterm.
    assert (Htruthy : truthy term = true) 
      by (destruct term; [exfalso; apply Hne; reflexivity | reflexivity]).
    assert (Hlabel : exists label, JsMap.get labels term = Some label).
    { apply (@prepareLabels_keys _ _ _ _ _ _ _ term H). right. unfold countryTerms.
      apply List.in_flat_map. exists country. split; [exact Hc|].
      apply List.in_or_app.
      destruct Hterm as [-> | ->]; rewrite Htruthy; simpl; auto. }
    destruct Hlabel as [label Hlabel].
    assert (Hset : forall m,
               JsMap.has (Countries.set_if labels (truthy term) m term) term
               = true).
    { intros m. unfold Countries.set_if.
      rewrite Hlabel, Htruthy, Archival.has_set, eqb_refl. reflexivity. }
    unfold Countries.getCountryLabels.
    destruct Hterm as [Hi|Hs].
    + rewrite Hi.
      destruct (Countries.Country.shortname country); [|apply Hset].
      apply has_set_if. apply Hset.
    + rewrite Hs. apply Hset.
Qed.

End Terms.

(** *** A board with one list and one label *)

(** A service that creates what it is asked for. *)
Definition create_list (name : str) (pos : Z) (w : unit)
    : option BoardList.t * unit :=
  (Some (BoardList.Build_t (lit "new-" ++ name) name), w).

Definition create_label (name color : str) (w : unit)
    : option Label.t * unit :=
  (Some (Label.Build_t (lit "new-" ++ name) name), w).

Definition configLists : list ConfigList.t :=
  [ConfigList.Build_t (lit "alert") (lit "Alert") 1;
   ConfigList.Build_t (lit "ongoing") (lit "Ongoing") 2].

Definition alertList : BoardList.t := BoardList.Build_t (lit "L1") (lit "Alert").

Definition configLabels : list (str * str) :=
  [(lit "Last Report > 1 Week", lit "yellow"); (lit "Flood", lit "blue")].

Lemma prepareLists_gives_every_status_a_list_witness :
  exists lists,
    result (prepareLists create_list [alertList] configLists tt) = Some lists
    /\ JsMap.get lists (lit "alert") = Some alertList.
Proof.
  eexists. split; [reflexivity|].
  refine (proj2 (proj2 (prepareLists_gives_every_status_a_list
                          create_list [alertList] configLists tt eq_refl))
            _ (ConfigList.Build_t (lit "alert") (lit "Alert") 1)
            [] alertList [] _ eq_refl eq_refl _).
  - vm_compute. repeat constructor; intros H; repeat destruct H as [H|H];
      try discriminate; exact H.
  - now left.
  - intros l [].
Defined.

(** A service that creates the first list it is asked for and fails
    afterwards. *)
Definition create_one_list (name : str) (pos : Z) (w : bool)
    : option BoardList.t * bool :=
  if w then (None, w)
  else (Some (BoardList.Build_t (lit "new-" ++ name) name), true).

(** On a board that has the list [Alert], the list [Ongoing] is created.
    On a board with no list, with a service that fails at the second
    creation, the function throws after it has asked for both lists; with
    a service that creates what it is asked for, it returns. *)
Lemma prepareLists_creates_the_missing_lists_witness :
  posted (prepareLists create_list [alertList] configLists tt)
  = [(lit "Ongoing", 2)]
  /\ (result (prepareLists create_one_list [] configLists false) = None
      /\ posted (prepareLists create_one_list [] configLists false)
         = [(lit "Alert", 1); (lit "Ongoing", 2)]
      /\ exists done body,
          posted (prepareLists create_one_list [] configLists false)
          = done ++ [body]
          /\ answer create_one_list done body false = None)
  /\ result (prepareLists create_list [] configLists tt) <> None.
Proof.
  split; [|split].
  - refine (proj1 (proj1 (proj2 (prepareLists_creates_the_missing_lists
                                   create_list [alertList] configLists tt)) _)).
    vm_compute. discriminate.
  - split; [reflexivity|]. split; [reflexivity|].
    refine (proj1 (proj2 (proj2 (proj2 (proj2
              (prepareLists_creates_the_missing_lists
                 create_one_list [] configLists false))))) _).
    reflexivity.
  - refine (proj1 (proj2 (proj2 (proj2 (proj2 (proj2
              (prepareLists_creates_the_missing_lists
                 create_list [] configLists tt)))))) _).
    intros done body rest _. unfold answer, create_list. cbn [fst].
    discriminate.
Defined.

Lemma prepareLabels_gives_every_name_a_label_witness :
  exists labels label,
    result (prepareLabels create_label [Example.flood] configLabels
              [lit "Flood"; lit "Chad"] tt) = Some labels
    /\ JsMap.get labels (lit "Chad") = Some label.
Proof.
  eexists.
  refine (let H := prepareLabels_gives_every_name_a_label create_label
                     [Example.flood] configLabels [lit "Flood"; lit "Chad"] tt
                     eq_refl in _).
  destruct (proj2 (proj1 H (lit "Chad"))) as [label Hlabel].
  - right. right. now left.
  - exists label. split; [reflexivity | exact Hlabel].
Defined.

Lemma prepareLabels_creates_each_missing_label_once_witness :
  In (lit "Chad")
    (List.map fst
       (posted (prepareLabels create_label [Example.flood] configLabels
                  [lit "Flood"; lit "Chad"] tt))).
Proof.
  refine (proj2 (proj2 (prepareLabels_creates_each_missing_label_once
                          create_label [Example.flood] configLabels
                          [lit "Flood"; lit "Chad"] tt))
            _ (lit "Chad") _ _).
  - vm_compute. discriminate.
  - right. right. now left.
  - intros label [<-|[]] H. vm_compute in H. discriminate.
Defined.

Lemma prepareLabels_names_the_labels_of_the_board_witness :
  exists labels,
    result (prepareLabels create_label [Example.flood] configLabels
              [lit "Flood"; lit "Chad"] tt) = Some labels
    /\ NewLabels.Consistent labels
         (Example.flood
          :: created (prepareLabels create_label [Example.flood] configLabels
                        [lit "Flood"; lit "Chad"] tt)).
Proof.
  eexists. split; [reflexivity|].
  apply (@prepareLabels_names_the_labels_of_the_board unit create_label
           [Example.flood] configLabels [lit "Flood"; lit "Chad"] tt).
  - intros name color w0 label H. injection H as <-. reflexivity.
  - reflexivity.
  - vm_compute. repeat constructor; intros H; repeat destruct H as [H|H];
      try discriminate; exact H.
Defined.

Lemma every_term_of_an_entity_is_labelled_witness :
  JsMap.has
    (Disasters.getDisasterLabels
       [(lit "Last Report > 1 Week",
         Label.Build_t (lit "new-Last Report > 1 Week")
           (lit "Last Report > 1 Week"));
        (lit "Flood", Example.flood)]
       Example.disaster)
    (lit "Flood")
  = true.
Proof.
  apply (proj1 (every_term_of_an_entity_is_labelled create_label
                  [Example.flood] configLabels tt) [Example.disaster]).
  - vm_compute. reflexivity.
  - now left.
  - left. now left.
Defined.

End SetupFacts.


(** ** The sections of a card description *)

Module Sections.
Import Js JsFacts JsMapFacts Trello.

(** The number sign, which opens every header of the managers. *)
Definition hash : char := 35%N.

(** [needle] occurs nowhere in [s]. *)
Definition absent (needle s : str) : Prop :=
  forall k, starts_with needle (List.skipn k s) = false.

Lemma lastIndexOf_from_absent (needle s : str) : forall i,
  absent needle s -> lastIndexOf_from needle s i = -1.
Proof.
  induction s as [|x s IH]; intros i H;
    pose proof (H 0%nat) as H0; cbn [List.skipn] in H0.
  - cbn [lastIndexOf_from]. now rewrite H0.
  - cbn [lastIndexOf_from]. rewrite IH by (intros k; apply (H (S k))).
    change (-1 =? -1) with true. cbv iota. now rewrite H0.
Qed.

Lemma lastIndexOf_from_here (needle s : str) (i : Z) :
  starts_with needle s = true -> absent needle (List.tl s) ->
  lastIndexOf_from needle s i = i.
Proof.
  intros Hs Hlater. destruct s as [|x s].
  - cbn [lastIndexOf_from]. now rewrite Hs.
  - cbn [lastIndexOf_from]. cbn [List.tl] in Hlater.
    rewrite lastIndexOf_from_absent by exact Hlater.
    change (-1 =? -1) with true. cbv iota. now rewrite Hs.
Qed.

Lemma lastIndexOf_from_app (needle a s : str) : forall i,
  lastIndexOf_from needle s (i + Z.of_nat (List.length a)) <> -1 ->
  lastIndexOf_from needle (a ++ s) i
  = lastIndexOf_from needle s (i + Z.of_nat (List.length a)).
Proof.
  induction a as [|x a IH]; intros i H.
  - cbn. now rewrite Z.add_0_r.
  - cbn [List.app lastIndexOf_from].
    replace (i + Z.of_nat (List.length (x :: a)))
      with (i + 1 + Z.of_nat (List.length a)) in * by (cbn [List.length]; lia).
    rewrite IH by exact H.
    apply Z.eqb_neq in H. now rewrite H.
Qed.

(** The last occurrence of a header is the one after which it occurs no
    more. *)
Lemma lastIndexOf_found (a needle b : str) :
  absent needle (List.tl (needle ++ b)) ->
  lastIndexOf (a ++ needle ++ b) needle = Z.of_nat (List.length a).
Proof.
  intros H. unfold lastIndexOf.
  assert (Hhere : lastIndexOf_from needle (needle ++ b)
                    (0 + Z.of_nat (List.length a))
                  = 0 + Z.of_nat (List.length a)).
  { apply lastIndexOf_from_here; [apply Urls.starts_with_prefix | exact H]. }
  rewrite lastIndexOf_from_app; rewrite Hhere; lia.
Qed.

Lemma absent_nil (needle : str) : needle <> [] -> absent needle [].
Proof.
  intros H k. destruct needle; [contradiction|]. now destruct k.
Qed.

Lemma absent_cons (needle : str) (c : char) (t : str) :
  starts_with needle (c :: t) = false -> absent needle t ->
  absent needle (c :: t).
Proof. intros H Ht [|k]; [exact H | apply Ht]. Qed.

Lemma starts_with_nth (needle : str) : forall t j c,
  starts_with needle t = true ->
  List.nth_error needle j = Some c -> List.nth_error t j = Some c.
Proof.
  induction needle as [|x needle IH]; intros t j c H Hj.
  - now destruct j.
  - destruct t as [|y t]; [discriminate|]. cbn in H.
    apply andb_prop in H as [Hx Ht]. apply N.eqb_eq in Hx. subst y.
    destruct j as [|j]; [exact Hj|]. cbn in *. now apply IH.
Qed.

(** A header occurs in no text without a number sign; it can only begin
    in the last characters of such a text when the number sign falls into
    what follows. *)
Lemma absent_free (needle : str) (j : nat) (u t : str) :
  List.nth_error needle j = Some hash ->
  ~ In hash u ->
  (forall m, (j - List.length u <= m < j)%nat ->
             List.nth_error t m <> Some hash) ->
  absent needle t ->
  absent needle (u ++ t).
Proof.
  intros Hj Hu Hwindow Ht k.
  destruct (starts_with needle (List.skipn k (u ++ t))) eqn:E; [|reflexivity].
  exfalso.
  pose proof (@starts_with_nth needle _ j hash E Hj) as Hn.
  rewrite List.nth_error_skipn in Hn.
  destruct (Nat.lt_ge_cases (k + j) (List.length u)) as [Hlt|Hge].
  - rewrite List.nth_error_app1 in Hn by exact Hlt.
    apply Hu. now apply List.nth_error_In with (k + j)%nat.
  - rewrite List.nth_error_app2 in Hn by exact Hge.
    destruct (Nat.lt_ge_cases k (List.length u)) as [Hk|Hk].
    + apply (Hwindow (k + j - List.length u)%nat); [lia | exact Hn].
    + rewrite List.skipn_app, List.skipn_all2 in E by exact Hk.
      cbn [List.app] in E. now rewrite Ht in E.
Qed.

(** [substring] between two sections, and from a section on. *)
Lemma substring_between (x y z : str) :
  substring (x ++ y ++ z) (Z.of_nat (List.length x))
    (Some (Z.of_nat (List.length x + List.length y)))
  = y.
Proof.
  unfold substring. rewrite !List.length_app.
  set (lx := List.length x). set (ly := List.length y).
  set (lz := List.length z).
  replace (Z.min (Z.max (Z.of_nat lx) 0) (Z.of_nat (lx + (ly + lz))))
    with (Z.of_nat lx) by lia.
  replace (Z.min (Z.max (Z.of_nat (lx + ly)) 0) (Z.of_nat (lx + (ly + lz))))
    with (Z.of_nat (lx + ly)) by lia.
  replace (Z.min (Z.of_nat lx) (Z.of_nat (lx + ly))) with (Z.of_nat lx) by lia.
  replace (Z.max (Z.of_nat lx) (Z.of_nat (lx + ly)))
    with (Z.of_nat (lx + ly)) by lia.
  rewrite !Nat2Z.id. subst lx ly lz.
  rewrite List.skipn_app, List.skipn_all, Nat.sub_diag. cbn [List.app List.skipn].
  replace (List.length x + List.length y - List.length x)%nat
    with (List.length y + 0)%nat by lia.
  rewrite List.firstn_app_2. cbn. apply List.app_nil_r.
Qed.

Lemma substring_from (x y : str) :
  substring (x ++ y) (Z.of_nat (List.length x)) None = y.
Proof.
  unfold substring. rewrite !List.length_app.
  set (lx := List.length x). set (ly := List.length y).
  replace (Z.min (Z.max (Z.of_nat lx) 0) (Z.of_nat (lx + ly)))
    with (Z.of_nat lx) by lia.
  replace (Z.min (Z.of_nat lx) (Z.of_nat (lx + ly))) with (Z.of_nat lx) by lia.
  replace (Z.max (Z.of_nat lx) (Z.of_nat (lx + ly)))
    with (Z.of_nat (lx + ly)) by lia.
  rewrite !Nat2Z.id. subst lx ly.
  rewrite List.skipn_app, List.skipn_all, Nat.sub_diag. cbn [List.app List.skipn].
  replace (List.length x + List.length y - List.length x)%nat
    with (List.length y) by lia.
  apply List.firstn_all.
Qed.

Lemma substring_until (x y : str) :
  substring (x ++ y) 0 (Some (Z.of_nat (List.length x))) = x.
Proof.
  pose proof (@substring_between [] x y) as H. cbn [List.app List.length] in H.
  exact H.
Qed.

Lemma absent_hashless (needle : str) (j : nat) (u : str) :
  List.nth_error needle j = Some hash -> ~ In hash u -> absent needle u.
Proof.
  intros Hj Hu. rewrite <- (List.app_nil_r u).
  apply (@absent_free needle j u []); auto.
  - intros m _. now destruct m.
  - apply absent_nil. intros ->. now destruct j.
Qed.

(** The header is written out, and the text it is sought in is brought
    into the form of a list that begins with its known characters. *)
Ltac spell header :=
  let v := eval vm_compute in header in
  change header with v.

Ltac peel := repeat (apply absent_cons; [reflexivity|]).

Ltac hashless :=
  let H := fresh in
  intros H; cbn [In] in H;
  repeat (destruct H as [H|H]; [unfold hash in H; discriminate H|]);
  contradiction.

Ltac window :=
  let m := fresh "m" in
  let Hm := fresh "Hm" in
  intros m Hm;
  first [ exfalso; cbn in Hm; lia
        | destruct m as [|[|m]];
          [cbn; discriminate | cbn; discriminate | exfalso; cbn in Hm; lia] ].

(** *** The headers of the disasters and of the countries *)

Lemma absent_profileUpdateHeader (stamp profile rest : str) :
  ~ In hash stamp -> ~ In hash profile ->
  absent Disasters.profileUpdateHeader rest ->
  absent Disasters.profileUpdateHeader
    (List.tl (Disasters.profileUpdateHeader ++ stamp
              ++ Disasters.profileHeader ++ profile ++ rest)).
Proof.
  intros Hs Hp Hrest.
  spell Disasters.profileUpdateHeader. spell Disasters.profileHeader.
  cbn [List.app List.tl]. peel.
  apply (@absent_free _ 0 stamp); [reflexivity | exact Hs | window |].
  peel.
  apply (@absent_free _ 0 profile); [reflexivity | exact Hp | window |].
  exact Hrest.
Qed.

Lemma absent_glide_after_profileUpdateHeader (glide : str) :
  ~ In hash glide ->
  absent Disasters.profileUpdateHeader (Disasters.glideHeader ++ glide).
Proof.
  intros Hg.
  spell Disasters.profileUpdateHeader. spell Disasters.glideHeader.
  cbn [List.app]. peel.
  now apply absent_hashless with 0%nat.
Qed.

Lemma absent_profileHeader (profile rest : str) :
  ~ In hash profile ->
  absent Disasters.profileHeader rest ->
  (forall m, (m < 2)%nat -> List.nth_error rest m <> Some hash) ->
  absent Disasters.profileHeader
    (List.tl (Disasters.profileHeader ++ profile ++ rest)).
Proof.
  intros Hp Hrest Hw.
  spell Disasters.profileHeader.
  cbn [List.app List.tl]. peel.
  match goal with
  | |- absent ?h (?a :: ?b :: profile ++ rest) =>
      change (absent h ((a :: b :: profile) ++ rest))
  end.
  apply (@absent_free _ 2); [reflexivity | hashless | | exact Hrest].
  intros m Hm. apply Hw. lia.
Qed.

Lemma absent_profileHeader_glide (glide : str) :
  ~ In hash glide ->
  absent Disasters.profileHeader (Disasters.glideHeader ++ glide).
Proof.
  intros Hg.
  spell Disasters.profileHeader. spell Disasters.glideHeader.
  cbn [List.app]. peel.
  apply absent_hashless with 2%nat; [reflexivity | hashless].
Qed.

Lemma absent_glideHeader (glide : str) :
  ~ In hash glide ->
  absent Disasters.glideHeader
    (List.tl (Disasters.glideHeader ++ glide)).
Proof.
  intros Hg.
  spell Disasters.glideHeader.
  cbn [List.app List.tl]. peel.
  apply absent_hashless with 2%nat; [reflexivity | hashless].
Qed.

Lemma glideHeader_window (glide : str) (m : nat) :
  (m < 2)%nat ->
  List.nth_error (Disasters.glideHeader ++ glide) m <> Some hash.
Proof.
  intros Hm. destruct m as [|[|m]]; [discriminate | discriminate | lia].
Qed.

Lemma of_nat_not_minus_one (n : nat) : (Z.of_nat n =? -1) = false.
Proof. apply Z.eqb_neq. lia. Qed.

(** A description of three headers reads back as its three sections, when
    each header is found where it was written. *)
Lemma read_three (h1 h2 h3 s1 s2 s3 : str) :
  let s := h1 ++ s1 ++ h2 ++ s2 ++ h3 ++ s3 in
  substring s (0 + Z.of_nat (List.length h1))
    (Some (Z.of_nat (List.length (h1 ++ s1)))) = s1
  /\ substring s
       (Z.of_nat (List.length (h1 ++ s1)) + Z.of_nat (List.length h2))
       (Some (Z.of_nat (List.length (h1 ++ s1 ++ h2 ++ s2)))) = s2
  /\ substring s
       (Z.of_nat (List.length (h1 ++ s1 ++ h2 ++ s2))
        + Z.of_nat (List.length h3)) None = s3.
Proof.
  cbv zeta. split; [|split].
  - rewrite Z.add_0_l, List.length_app. apply substring_between.
  - replace (h1 ++ s1 ++ h2 ++ s2 ++ h3 ++ s3)
      with ((h1 ++ s1 ++ h2) ++ s2 ++ h3 ++ s3)
      by (now rewrite <- !List.app_assoc).
    replace (Z.of_nat (List.length (h1 ++ s1)) + Z.of_nat (List.length h2))
      with (Z.of_nat (List.length (h1 ++ s1 ++ h2)))
      by (rewrite !List.length_app; lia).
    replace (Z.of_nat (List.length (h1 ++ s1 ++ h2 ++ s2)))
      with (Z.of_nat (List.length (h1 ++ s1 ++ h2) + List.length s2))
      by (rewrite !List.length_app; lia).
    apply substring_between.
  - replace (h1 ++ s1 ++ h2 ++ s2 ++ h3 ++ s3)
      with ((h1 ++ s1 ++ h2 ++ s2 ++ h3) ++ s3)
      by (now rewrite <- !List.app_assoc).
    replace (Z.of_nat (List.length (h1 ++ s1 ++ h2 ++ s2))
             + Z.of_nat (List.length h3))
      with (Z.of_nat (List.length (h1 ++ s1 ++ h2 ++ s2 ++ h3)))
      by (rewrite !List.length_app; lia).
    apply substring_from.
Qed.

(** Where the three headers of a disaster card are found. *)
Lemma disasters_headers (stamp profile glide : str) :
  ~ In hash stamp -> ~ In hash profile -> ~ In hash glide ->
  let s :=
    Disasters.profileUpdateHeader ++ stamp ++ Disasters.profileHeader
    ++ profile ++ Disasters.glideHeader ++ glide in
  lastIndexOf s Disasters.profileUpdateHeader = 0
  /\ lastIndexOf s Disasters.profileHeader
     = Z.of_nat (List.length (Disasters.profileUpdateHeader ++ stamp))
  /\ lastIndexOf s Disasters.glideHeader
     = Z.of_nat (List.length (Disasters.profileUpdateHeader ++ stamp
                              ++ Disasters.profileHeader ++ profile)).
Proof.
  intros Hs Hp Hg. cbv zeta. split; [|split].
  - apply (@lastIndexOf_found [] Disasters.profileUpdateHeader).
    apply absent_profileUpdateHeader; auto.
    now apply absent_glide_after_profileUpdateHeader.
  - rewrite List.app_assoc. apply lastIndexOf_found.
    apply absent_profileHeader; auto.
    + now apply absent_profileHeader_glide.
    + intros m Hm. now apply glideHeader_window.
  - replace (Disasters.profileUpdateHeader ++ stamp ++ Disasters.profileHeader
             ++ profile ++ Disasters.glideHeader ++ glide)
      with ((Disasters.profileUpdateHeader ++ stamp ++ Disasters.profileHeader
             ++ profile) ++ Disasters.glideHeader ++ glide)
      by (now rewrite <- !List.app_assoc).
    apply lastIndexOf_found. now apply absent_glideHeader.
Qed.

(** The sections that [prepareCard] reads from the description of a
    disaster card. *)
Lemma disasters_read (c : Card.t) (stamp profile glide : str) :
  ~ In hash stamp -> ~ In hash profile -> ~ In hash glide ->
  Card.desc c
  = Disasters.profileUpdateHeader ++ stamp ++ Disasters.profileHeader
    ++ profile ++ Disasters.glideHeader ++ glide ->
  Disasters.prepareCard c
  = {| Disasters.PCard.card := c;
       Disasters.PCard.profileUpdate := Some stamp;
       Disasters.PCard.profile := Some profile;
       Disasters.PCard.glide := Some glide |}.
Proof.
  intros Hs Hp Hg Hdesc.
  destruct (@disasters_headers stamp profile glide Hs Hp Hg) as [H1 [H2 H3]].
  destruct (read_three Disasters.profileUpdateHeader Disasters.profileHeader
              Disasters.glideHeader stamp profile glide) as [R1 [R2 R3]].
  unfold Disasters.prepareCard. rewrite Hdesc, H1, H2, H3.
  rewrite !of_nat_not_minus_one. change (0 =? -1) with false.
  cbn [negb andb]. rewrite R1, R2, R3.
  match goal with
  | |- context [eqb (Disasters.profileUpdateHeader ++ ?rest) []] =>
      change (eqb (Disasters.profileUpdateHeader ++ rest) []) with false
  end.
  reflexivity.
Qed.

(** X13.  The description of a disaster card reads back.  When the update
    date, the overview and the glide number hold no number sign,
    [prepareCard] reads from the description that
    [generateCardDescription] builds the update date (the date of the run
    when none was given), the overview and the glide number it was built
    from; and [updateCard] then finds no description to write. *)
Theorem disasters_description_reads_back (currentDate : str)
    (disaster : Disasters.Disaster.t) (updateDate : option str) (c : Card.t)
    (position : Z) (list : BoardList.t) :
  let timestamp :=
    or_else (match updateDate with Some d => d | None => [] end) currentDate in
  ~ In hash timestamp ->
  ~ In hash (Disasters.Disaster.overview disaster) ->
  ~ In hash (Disasters.Disaster.glide disaster) ->
  Card.desc c = Disasters.generateCardDescription currentDate disaster updateDate ->
  Disasters.prepareCard c
  = {| Disasters.PCard.card := c;
       Disasters.PCard.profileUpdate := Some timestamp;
       Disasters.PCard.profile := Some (Disasters.Disaster.overview disaster);
       Disasters.PCard.glide := Some (Disasters.Disaster.glide disaster) |}
  /\ JsMap.get
       (Disasters.cardData currentDate position (Disasters.prepareCard c)
          disaster list)
       (lit "desc")
     = None.
Proof.
  cbv zeta. intros Hs Hp Hg Hdesc.
  pose proof (@disasters_read c _ _ _ Hs Hp Hg Hdesc) as Hread.
  split; [exact Hread|].
  rewrite CardFields.disasters_desc, Hread.
  cbn [Disasters.PCard.profile Disasters.PCard.glide].
  now rewrite !Timestamp.differs_same.
Qed.

(** *** The headers of the topics *)

Lemma absent_lastUpdateHeader (stamp introduction : str) :
  ~ In hash stamp -> ~ In hash introduction ->
  absent Topics.lastUpdateHeader
    (List.tl (Topics.lastUpdateHeader ++ stamp ++ Topics.introductionHeader
              ++ introduction)).
Proof.
  intros Hs Hi.
  spell Topics.lastUpdateHeader. spell Topics.introductionHeader.
  cbn [List.app List.tl]. peel.
  apply (@absent_free _ 0 stamp); [reflexivity | exact Hs | window |].
  peel.
  now apply absent_hashless with 0%nat.
Qed.

Lemma absent_introductionHeader (introduction : str) :
  ~ In hash introduction ->
  absent Topics.introductionHeader
    (List.tl (Topics.introductionHeader ++ introduction)).
Proof.
  intros Hi.
  spell Topics.introductionHeader.
  cbn [List.app List.tl]. peel.
  apply absent_hashless with 2%nat; [reflexivity | hashless].
Qed.

Lemma topics_headers (editor stamp introduction : str) :
  ~ In hash stamp -> ~ In hash introduction ->
  let s :=
    editor ++ Topics.lastUpdateHeader ++ stamp ++ Topics.introductionHeader
    ++ introduction in
  lastIndexOf s Topics.lastUpdateHeader = Z.of_nat (List.length editor)
  /\ lastIndexOf s Topics.introductionHeader
     = Z.of_nat (List.length (editor ++ Topics.lastUpdateHeader ++ stamp)).
Proof.
  intros Hs Hi. cbv zeta. split.
  - apply lastIndexOf_found. now apply absent_lastUpdateHeader.
  - replace (editor ++ Topics.lastUpdateHeader ++ stamp
             ++ Topics.introductionHeader ++ introduction)
      with ((editor ++ Topics.lastUpdateHeader ++ stamp)
            ++ Topics.introductionHeader ++ introduction)
      by (now rewrite <- !List.app_assoc).
    apply lastIndexOf_found. now apply absent_introductionHeader.
Qed.

(** What [prepareCard] reads from the description of a topic card: the
    text above the sections of the manager stays in the card. *)
Definition above (c : Card.t) (editor : str) : Card.t :=
  {| Card.id := Card.id c;
     Card.name := Card.name c;
     Card.labels := Card.labels c;
     Card.idList := Card.idList c;
     Card.desc := editor;
     Card.closed := Card.closed c;
     Card.pos := Card.pos c;
     Card.attachments := Card.attachments c;
     Card.checklists := Card.checklists c |}.

Lemma topics_read (c : Card.t) (editor stamp introduction : str) :
  ~ In hash stamp -> ~ In hash introduction ->
  Card.desc c
  = editor ++ Topics.lastUpdateHeader ++ stamp ++ Topics.introductionHeader
    ++ introduction ->
  Topics.prepareCard c
  = {| Topics.PCard.card := above c editor;
       Topics.PCard.lastUpdate := Some stamp;
       Topics.PCard.introduction := Some introduction |}.
Proof.
  intros Hs Hi Hdesc.
  destruct (@topics_headers editor stamp introduction Hs Hi) as [H1 H2].
  unfold Topics.prepareCard, above. rewrite Hdesc, H1, H2.
  rewrite !of_nat_not_minus_one. cbn [negb andb].
  rewrite substring_until.
  replace (substring _ (Z.of_nat (List.length editor)
                        + Z.of_nat (List.length Topics.lastUpdateHeader)) _)
    with stamp.
  2:{ replace (editor ++ Topics.lastUpdateHeader ++ stamp
               ++ Topics.introductionHeader ++ introduction)
        with ((editor ++ Topics.lastUpdateHeader) ++ stamp
              ++ Topics.introductionHeader ++ introduction)
        by (now rewrite <- !List.app_assoc).
      replace (Z.of_nat (List.length editor)
               + Z.of_nat (List.length Topics.lastUpdateHeader))
        with (Z.of_nat (List.length (editor ++ Topics.lastUpdateHeader)))
        by (rewrite !List.length_app; lia).
      replace (Z.of_nat (List.length (editor ++ Topics.lastUpdateHeader ++ stamp)))
        with (Z.of_nat (List.length (editor ++ Topics.lastUpdateHeader)
                        + List.length stamp))
        by (rewrite !List.length_app; lia).
      symmetry. apply substring_between. }
  replace (substring _ (Z.of_nat (List.length (editor ++ Topics.lastUpdateHeader
                                               ++ stamp))
                        + Z.of_nat (List.length Topics.introductionHeader)) _)
    with introduction.
  2:{ replace (editor ++ Topics.lastUpdateHeader ++ stamp
               ++ Topics.introductionHeader ++ introduction)
        with ((editor ++ Topics.lastUpdateHeader ++ stamp
               ++ Topics.introductionHeader) ++ introduction)
        by (now rewrite <- !List.app_assoc).
      replace (Z.of_nat (List.length (editor ++ Topics.lastUpdateHeader ++ stamp))
               + Z.of_nat (List.length Topics.introductionHeader))
        with (Z.of_nat (List.length (editor ++ Topics.lastUpdateHeader ++ stamp
                                     ++ Topics.introductionHeader)))
        by (rewrite !List.length_app; lia).
      symmetry. apply substring_from. }
  assert (Hne : eqb (editor ++ Topics.lastUpdateHeader ++ stamp
                     ++ Topics.introductionHeader ++ introduction) [] = false)
    by (destruct editor; reflexivity).
  now rewrite Hne.
Qed.

(** X14.  The topics manager keeps the text that an editor wrote above its
    sections.  For a card whose description is any text followed by the
    two sections of the manager, the update date and the introduction
    holding no number sign, [prepareCard] reads the two sections and
    leaves the text above them in the card; and the description that
    [updateCard] writes, when the update date or the introduction of the
    topic differs from what was read, is that same text followed by the
    sections of the topic; otherwise no description is written. *)
Theorem topics_description_keeps_the_text_above (lists : JsMap.t BoardList.t)
    (position : Z) (c : Card.t) (editor stamp introduction : str)
    (topic : Topics.Topic.t) (list : option BoardList.t) :
  ~ In hash stamp -> ~ In hash introduction ->
  Card.desc c = Topics.generateCardDescription editor stamp introduction ->
  Card.desc (Topics.PCard.card (Topics.prepareCard c)) = editor
  /\ Topics.PCard.lastUpdate (Topics.prepareCard c) = Some stamp
  /\ Topics.PCard.introduction (Topics.prepareCard c) = Some introduction
  /\ JsMap.get
       (Topics.cardData lists position (Topics.prepareCard c) topic list)
       (lit "desc")
     = if eqb (Topics.Topic.introduction topic) introduction
          && eqb (Topics.Topic.lastUpdate topic) stamp
       then None
       else Some (VStr (Topics.generateCardDescription editor
                          (Topics.Topic.lastUpdate topic)
                          (Topics.Topic.introduction topic))).
Proof.
  intros Hs Hi Hdesc.
  pose proof (@topics_read c editor stamp introduction Hs Hi Hdesc) as Hread.
  rewrite CardFields.topics_desc, Hread.
  cbn [Topics.PCard.card Topics.PCard.lastUpdate Topics.PCard.introduction
       above Card.desc Disasters.differs].
  repeat split.
  now destruct (eqb (Topics.Topic.introduction topic) introduction),
    (eqb (Topics.Topic.lastUpdate topic) stamp).
Qed.

(** *** The headers of the countries *)

Lemma countries_read (c : Card.t) (stamp description : str) :
  ~ In hash stamp -> ~ In hash description ->
  Card.desc c
  = Countries.profileUpdateHeader ++ stamp ++ Countries.profileHeader
    ++ description ->
  Countries.prepareCard c
  = {| Countries.PCard.card := c;
       Countries.PCard.profileUpdate := Some (trim stamp);
       Countries.PCard.description := Some description |}.
Proof.
  intros Hs Hd Hdesc.
  assert (H1 : lastIndexOf (Card.desc c) Countries.profileUpdateHeader = 0).
  { rewrite Hdesc.
    apply (@lastIndexOf_found [] Countries.profileUpdateHeader).
    rewrite <- (List.app_nil_r description).
    apply (@absent_profileUpdateHeader stamp description []); auto.
    now apply absent_nil. }
  assert (H2 : lastIndexOf (Card.desc c) Countries.profileHeader
               = Z.of_nat (List.length (Countries.profileUpdateHeader ++ stamp))).
  { rewrite Hdesc, List.app_assoc. apply lastIndexOf_found.
    rewrite <- (List.app_nil_r description).
    apply (@absent_profileHeader description []); auto.
    - now apply absent_nil.
    - intros m _. now destruct m. }
  unfold Countries.prepareCard. rewrite H1, H2, Hdesc.
  rewrite !of_nat_not_minus_one. change (0 =? -1) with false.
  cbn [negb].
  rewrite Z.add_0_l, List.length_app, substring_between.
  replace (substring _ (Z.of_nat (List.length Countries.profileUpdateHeader
                                  + List.length stamp)
                        + Z.of_nat (List.length Countries.profileHeader)) _)
    with description.
  2:{ replace (Countries.profileUpdateHeader ++ stamp
               ++ Countries.profileHeader ++ description)
        with ((Countries.profileUpdateHeader ++ stamp
               ++ Countries.profileHeader) ++ description)
        by (now rewrite <- !List.app_assoc).
      replace (Z.of_nat (List.length Countries.profileUpdateHeader
                         + List.length stamp)
               + Z.of_nat (List.length Countries.profileHeader))
        with (Z.of_nat (List.length (Countries.profileUpdateHeader ++ stamp
                                     ++ Countries.profileHeader)))
        by (rewrite !List.length_app; lia).
      symmetry. apply substring_from. }
  match goal with
  | |- context [eqb (Countries.profileUpdateHeader ++ ?rest) []] =>
      change (eqb (Countries.profileUpdateHeader ++ rest) []) with false
  end.
  reflexivity.
Qed.

(** X15.  The description of a country card reads back.  When the date of
    the run and the description of the country hold no number sign,
    [prepareCard] reads from the description that
    [generateCardDescription] builds the date of the run, trimmed, and
    the description of the country; and [updateCard] then writes nothing
    for a country that has a description. *)
Theorem countries_description_reads_back (currentDate : str)
    (country : Countries.Country.t) (c : Card.t) :
  ~ In hash currentDate ->
  ~ In hash (Countries.Country.description country) ->
  Card.desc c = Countries.generateCardDescription currentDate country ->
  Countries.prepareCard c
  = {| Countries.PCard.card := c;
       Countries.PCard.profileUpdate := Some (trim currentDate);
       Countries.PCard.description :=
         Some (Countries.Country.description country) |}
  /\ (Countries.Country.description country <> [] ->
      Countries.cardData currentDate (Countries.prepareCard c) country = []).
Proof.
  intros Hs Hd Hdesc.
  pose proof (@countries_read c _ _ Hs Hd Hdesc) as Hread.
  split; [exact Hread|].
  intros Hne. unfold Countries.cardData. rewrite Hread.
  cbn [Countries.PCard.description].
  apply eqb_neq in Hne. rewrite Hne. cbn [negb].
  now rewrite Timestamp.differs_same.
Qed.

(** *** Cards that bear what the managers write *)

Ltac no_hash :=
  let H := fresh in
  intros H; vm_compute in H;
  repeat (destruct H as [H|H]; [discriminate H|]); exact H.

Lemma disasters_description_reads_back_witness :
  JsMap.get
    (Disasters.cardData Example.currentDate (Disasters.maxIndex - 100)
       (Disasters.prepareCard
          (Example.tracked (lit "Flood in Chad") (lit "L2") (lit "1 Apr 1970")
             (lit "FL-2020-000001-TCD")))
       Example.disaster (BoardList.Build_t (lit "L2") (lit "Ongoing")))
    (lit "desc")
  = None.
Proof.
  refine (proj2 (@disasters_description_reads_back Example.currentDate
                   Example.disaster (Some (lit "1 Apr 1970"))
                   (Example.tracked (lit "Flood in Chad") (lit "L2")
                      (lit "1 Apr 1970") (lit "FL-2020-000001-TCD"))
                   (Disasters.maxIndex - 100)
                   (BoardList.Build_t (lit "L2") (lit "Ongoing")) _ _ _ _)).
  - no_hash.
  - no_hash.
  - no_hash.
  - vm_compute. reflexivity.
Defined.

(** A topic card with a note of an editor above the sections. *)
Definition annotated : Card.t :=
  {| Card.id := lit "C1";
     Card.name := lit "Floods";
     Card.labels := [];
     Card.idList := lit "L2";
     Card.desc :=
       Topics.generateCardDescription (lit "# Contact: the desk")
         (lit "1 Apr 1970 00:00:00 UTC") (lit "About floods.");
     Card.closed := false;
     Card.pos := 9999900 # 1;
     Card.attachments := Some [lit "https://reliefweb.int/node/100"];
     Card.checklists := None |}.

Lemma topics_description_keeps_the_text_above_witness :
  JsMap.get
    (Topics.cardData Example.lists (Topics.maxIndex - 100)
       (Topics.prepareCard annotated) Example.topic
       (Some (BoardList.Build_t (lit "L2") (lit "Ongoing"))))
    (lit "desc")
  = Some (VStr (Topics.generateCardDescription (lit "# Contact: the desk")
                  (lit "10 Apr 1970 00:00:00 UTC") (lit "About floods."))).
Proof.
  refine (proj2 (proj2 (proj2
            (@topics_description_keeps_the_text_above Example.lists
               (Topics.maxIndex - 100) annotated (lit "# Contact: the desk")
               (lit "1 Apr 1970 00:00:00 UTC") (lit "About floods.")
               Example.topic
               (Some (BoardList.Build_t (lit "L2") (lit "Ongoing"))) _ _ _)))).
  - no_hash.
  - no_hash.
  - reflexivity.
Defined.

(** A country card as the manager writes it. *)
Definition profiled : Card.t :=
  {| Card.id := lit "C1";
     Card.name := lit "Chad";
     Card.labels := [];
     Card.idList := lit "L2";
     Card.desc :=
       Countries.generateCardDescription Example.currentDate Example.country;
     Card.closed := false;
     Card.pos := 1 # 1;
     Card.attachments := Some [lit "http://reliefweb.int/taxonomy/term/100"];
     Card.checklists := None |}.

Lemma countries_description_reads_back_witness :
  Countries.cardData Example.currentDate (Countries.prepareCard profiled)
    Example.country
  = [].
Proof.
  refine (proj2 (@countries_description_reads_back Example.currentDate
                   Example.country profiled _ _ _) _).
  - no_hash.
  - no_hash.
  - reflexivity.
  - vm_compute. discriminate.
Defined.

End Sections.


(** ** A card that does not bear the name of its disaster *)

Module Renaming.
Import Js JsFacts JsMapFacts Trello Async.

Section Card.

Variable now : Z.
Variable Date_parse : str -> option Z.
Variable currentDate : str.
Variable lists : JsMap.t BoardList.t.
Variable labels : JsMap.t Label.t.

(** The name of a card after the requests of [updateCard] for a disaster
    whose name the card of the run does not bear. *)
Lemma name_after_updateCard (boardLabels : list Label.t) (qs : list request)
    (c x : Card.t) (disaster : Disasters.Disaster.t) (list : BoardList.t) :
  Card.name c <> Disasters.Disaster.name disaster ->
  Card.name
    (OnCard.effects boardLabels
       (qs ++ CardUpdate.put (Card.id c)
                (Disasters.cardData currentDate (Settle.position disaster)
                   (Disasters.prepareCard c) disaster list))
       x)
  = lit "disaster.name".
Proof.
  intros Hname. rewrite Settle.effects_app, Settle.effects_put.
  destruct (Settle.write_cardData currentDate (Settle.position disaster)
              (Disasters.prepareCard c) disaster list
              (OnCard.effects boardLabels qs x)) as [_ [_ [_ [Hn _]]]].
  rewrite Hn, Settle.prepareCard_card.
  apply eqb_neq in Hname. now rewrite Hname.
Qed.

(** X16.  In the disasters manager a card that does not bear the name of
    its disaster never comes to bear it.  For a card of the board whose
    name differs from the name of the disaster, the disaster not being
    called [disaster.name], [updateCard] sends a card update that sets the
    name to the text [disaster.name]; on the board that the service
    leaves, the card is still there and every card of its id bears that
    text, which is not the name of the disaster either, so the next run
    finds the card as this one did. *)
Theorem card_of_another_name_is_renamed_in_every_run (board : Service.board)
    (c : Card.t) (disaster : Disasters.Disaster.t) (list : BoardList.t) :
  JsMap.get lists (Disasters.Disaster.status disaster) = Some list ->
  In c (Service.cards board) ->
  Card.name c <> Disasters.Disaster.name disaster ->
  Disasters.Disaster.name disaster <> lit "disaster.name" ->
  let run :=
    Disasters.updateCard now Date_parse currentDate lists labels Service.send
      (Disasters.maxIndex - Disasters.Disaster.id disaster)
      (Disasters.prepareCard c) disaster board in
  (exists data,
      In (PUT_card (Card.id c) data) (sent run)
      /\ JsMap.get data (lit "name") = Some (VStr (lit "disaster.name")))
  /\ (exists c', In c' (Service.cards (after run)) /\ Card.id c' = Card.id c)
  /\ (forall c',
         In c' (Service.cards (after run)) ->
         Card.id c' = Card.id c ->
         Card.name c' = lit "disaster.name"
         /\ Card.name c' <> Disasters.Disaster.name disaster).
Proof.
  intros Hlist Hin Hname Hliteral. cbv zeta.
  change (Disasters.maxIndex - Disasters.Disaster.id disaster)
    with (Settle.position disaster).
  pose proof (Settle.updateCard_sent now Date_parse currentDate lists labels
                Service.send c disaster board Hlist) as Hsent.
  set (data := Disasters.cardData currentDate (Settle.position disaster)
                 (Disasters.prepareCard c) disaster list) in *.
  assert (Hdata : JsMap.get data (lit "name")
                  = Some (VStr (lit "disaster.name"))).
  { subst data. rewrite CardFields.disasters_name, Settle.prepareCard_card.
    apply eqb_neq in Hname. now rewrite Hname. }
  assert (Hput : CardUpdate.put (Card.id c) data = [PUT_card (Card.id c) data]).
  { unfold CardUpdate.put. destruct data; [discriminate | reflexivity]. }
  assert (Hcard : Service.has_card board (Card.id c) = true).
  { unfold Service.has_card. apply List.existsb_exists. exists c.
    split; [exact Hin | apply eqb_refl]. }
  assert (Hafter :
            Service.cards
              (after (Disasters.updateCard now Date_parse currentDate lists
                        labels Service.send (Settle.position disaster)
                        (Disasters.prepareCard c) disaster board))
            = Service.on_card (Card.id c)
                (OnCard.effects (Service.labels board)
                   (LabelDiff.requests (Card.id c) Relabel.all
                      (Settle.wanted now Date_parse labels
                         (Disasters.PCard.profileUpdate
                            (Disasters.touched currentDate
                               (Disasters.prepareCard c) disaster))
                         disaster)
                      (Card.labels c)
                    ++ CardUpdate.put (Card.id c) data))
                (Service.cards board)).
  { rewrite (Replay.disasters_updateCard now Date_parse currentDate lists
               labels Service.send (Settle.position disaster)
               (Disasters.prepareCard c) disaster board).
    rewrite Hsent.
    rewrite (@OnCard.replay_on_card _ board (Card.id c)).
    - reflexivity.
    - rewrite List.forallb_app, OnBoard.requests_target, OnBoard.put_targets.
      reflexivity.
    - exact Hcard. }
  split; [|split].
  - exists data. split; [|exact Hdata].
    rewrite Hsent, Hput. apply List.in_or_app. right. now left.
  - rewrite Hafter. eexists. split.
    + unfold Service.on_card. apply List.in_map. exact Hin.
    + cbv beta. rewrite eqb_refl. apply OnCard.effects_id.
  - intros c' Hc' Hid. rewrite Hafter in Hc'.
    unfold Service.on_card in Hc'. apply List.in_map_iff in Hc' as [x [Hx _]].
    assert (Hn : Card.name c' = lit "disaster.name").
    { destruct (eqb (Card.id x) (Card.id c)) eqn:E.
      - subst c'. subst data. now apply name_after_updateCard.
      - subst c'. apply eqb_neq in E. contradiction. }
    split; [exact Hn|]. rewrite Hn. congruence.
Qed.

End Card.

(** The board of one card that bears another name. *)
Lemma card_of_another_name_is_renamed_in_every_run_witness :
  exists data,
    In (PUT_card (lit "C1") data)
      (sent (Disasters.updateCard Example.now Example.Date_parse
               Example.currentDate Example.lists Example.labels Service.send
               (Disasters.maxIndex - 100)
               (Disasters.prepareCard
                  (Example.tracked (lit "Flood") (lit "L2") (lit "0")
                     (lit "FL-2020-000001-TCD")))
               Example.disaster Unsettled.renamed))
    /\ JsMap.get data (lit "name") = Some (VStr (lit "disaster.name")).
Proof.
  refine (proj1 (@card_of_another_name_is_renamed_in_every_run Example.now
                   Example.Date_parse Example.currentDate Example.lists
                   Example.labels Unsettled.renamed
                   (Example.tracked (lit "Flood") (lit "L2") (lit "0")
                      (lit "FL-2020-000001-TCD"))
                   Example.disaster
                   (BoardList.Build_t (lit "L2") (lit "Ongoing")) _ _ _ _)).
  - reflexivity.
  - now left.
  - vm_compute. discriminate.
  - vm_compute. discriminate.
Defined.

End Renaming.


(** ** The links of the checklists *)

Module Links.
Import Js JsFacts JsMapFacts Trello.

(** The text that closes the title of a link and opens its URL. *)
Definition middle : str := lit "](".

(** A text in which [middle] does not occur. *)
Definition plain (s : str) : Prop := Sections.absent middle s.

(** The check that a text is plain. *)
Fixpoint free (s : str) : bool :=
  negb (starts_with middle s)
  && match s with
     | [] => true
     | _ :: s' => free s'
     end.

Lemma free_plain (s : str) : free s = true -> plain s.
Proof.
  induction s as [|c s IH]; intros H k.
  - now destruct k.
  - cbn [free] in H. apply andb_prop in H as [H0 Hs].
    destruct k as [|k]; [now apply negb_true_iff in H0 | now apply IH].
Qed.

(** [middle] begins nowhere in [x] when [x] is plain and followed by a
    text that does not begin with its second character. *)
Lemma plain_then (x rest : str) (k : nat) :
  plain x ->
  match rest with c :: _ => c <> 40%N | [] => True end ->
  (k < List.length x)%nat ->
  starts_with middle (List.skipn k (x ++ rest)) = false.
Proof.
  intros Hx Hrest Hk.
  rewrite List.skipn_app.
  replace (k - List.length x)%nat with 0%nat by lia. cbn [List.skipn].
  pose proof (Hx k) as Hxk.
  destruct (List.skipn k x) as [|c [|c2 t]] eqn:E.
  - apply (f_equal (@List.length char)) in E. rewrite List.length_skipn in E.
    cbn in E. lia.
  - cbn [List.app]. change middle with [93%N; 40%N]. cbn [starts_with].
    destruct rest as [|r rest]; [now rewrite andb_false_r|].
    apply N.eqb_neq in Hrest. rewrite N.eqb_sym in Hrest.
    now rewrite Hrest, andb_false_r.
  - exact Hxk.
Qed.

Lemma split_on_free (sep x : str) : forall cur rest,
  (forall k, (k < List.length x)%nat ->
             starts_with sep (List.skipn k (x ++ rest)) = false) ->
  split_on sep 0 cur (x ++ rest) = split_on sep 0 (List.rev x ++ cur) rest.
Proof.
  induction x as [|c x IH]; intros cur rest H; [reflexivity|].
  cbn [List.app split_on].
  pose proof (H 0%nat) as H0. cbn [List.skipn List.app] in H0.
  rewrite H0 by (cbn; lia).
  rewrite IH.
  - cbn [List.rev]. now rewrite <- List.app_assoc.
  - intros k Hk. apply (H (S k)). cbn. lia.
Qed.

Lemma indexOf_from_free (sep x : str) : forall rest i,
  (forall k, (k < List.length x)%nat ->
             starts_with sep (List.skipn k (x ++ rest)) = false) ->
  indexOf_from sep (x ++ rest) i
  = indexOf_from sep rest (i + Z.of_nat (List.length x)).
Proof.
  induction x as [|c x IH]; intros rest i H.
  - cbn. now rewrite Z.add_0_r.
  - pose proof (H 0%nat) as H0. cbn [List.skipn] in H0.
    cbn [List.app indexOf_from] in *. rewrite H0 by (cbn; lia).
    rewrite IH by (intros k Hk; apply (H (S k)); cbn; lia).
    f_equal. cbn [List.length]. lia.
Qed.

Lemma plain_bracket (title : str) : plain title -> plain (91%N :: title).
Proof. intros H. now apply Sections.absent_cons. Qed.

(** The pieces of the name of a link. *)
Lemma split_link (url title : str) :
  plain title -> plain url ->
  split (Topics.generateMarkdownLink url title) middle
  = [lit "[" ++ title; url ++ lit ")"].
Proof.
  intros Ht Hu. unfold split, Topics.generateMarkdownLink.
  rewrite List.app_assoc.
  rewrite split_on_free.
  2:{ intros k Hk. apply plain_then; [|discriminate | exact Hk].
      now apply plain_bracket. }
  change (lit "](" ++ url ++ lit ")") with (93%N :: 40%N :: url ++ lit ")").
  change middle with [93%N; 40%N].
  cbn [split_on starts_with N.eqb Pos.eqb andb List.length].
  rewrite List.app_nil_r, List.rev_involutive. f_equal.
  change [93%N; 40%N] with middle.
  rewrite split_on_free.
  2:{ intros k Hk. apply plain_then; [exact Hu | discriminate | exact Hk]. }
  cbn. now rewrite List.app_nil_r, List.rev_involutive.
Qed.

Lemma slice_tail (c : char) (s : str) : slice (c :: s) 1 None = s.
Proof.
  unfold slice, rel_index. cbn [List.length Z.ltb Z.compare].
  replace (Nat.min (Z.to_nat 1) (S (List.length s))) with 1%nat by lia.
  cbn [List.skipn]. replace (S (List.length s) - 1)%nat with (List.length s)
    by lia.
  apply List.firstn_all.
Qed.

Lemma slice_but_last (s : str) (c : char) :
  slice (s ++ [c]) 0 (Some (-1)) = s.
Proof.
  unfold slice, rel_index. cbn [Z.ltb Z.compare].
  rewrite List.length_app. cbn [List.length].
  replace (Nat.min (Z.to_nat 0) (List.length s + 1)) with 0%nat by lia.
  replace (Z.to_nat (Z.max (Z.of_nat (List.length s + 1) + -1) 0))
    with (List.length s) by lia.
  cbn [List.skipn]. rewrite Nat.sub_0_r.
  rewrite <- (Nat.add_0_r (List.length s)), List.firstn_app_2.
  cbn. apply List.app_nil_r.
Qed.

(** What [updateChecklist] reads from the name of a link. *)
Lemma linkParts_generateMarkdownLink (url title : str) :
  plain title -> plain url ->
  Topics.linkParts (Topics.generateMarkdownLink url title) = (title, url).
Proof.
  intros Ht Hu.
  unfold Topics.linkParts. fold middle. rewrite (split_link Ht Hu).
  cbn [List.nth]. change (lit "[" ++ title) with (91%N :: title).
  change (lit ")") with [41%N].
  now rewrite slice_tail, slice_but_last.
Qed.

(** Where the name of a link has the text that joins its parts. *)
Lemma indexOf_generateMarkdownLink (url title : str) :
  plain title ->
  indexOf (Topics.generateMarkdownLink url title) (lit "](")
  = 1 + Z.of_nat (List.length title).
Proof.
  intros Ht.
  unfold indexOf, Topics.generateMarkdownLink. fold middle.
  rewrite List.app_assoc, indexOf_from_free.
  2:{ intros k Hk. apply plain_then; [|discriminate | exact Hk].
      now apply plain_bracket. }
  change (middle ++ url ++ lit ")") with (93%N :: 40%N :: url ++ lit ")").
  change middle with [93%N; 40%N].
  cbn [indexOf_from starts_with N.eqb Pos.eqb andb].
  rewrite List.length_app. cbn [List.length lit List.map
    list_ascii_of_string]. lia.
Qed.

(** X17.  The name of a link reads back.  When neither the title nor the
    URL holds the text [](] that joins them, [updateChecklist] reads
    from the name that [generateMarkdownLink] builds the title and the
    URL it was built from, and finds the name to be a link. *)
Theorem link_reads_back (url title : str) :
  plain title -> plain url ->
  Topics.linkParts (Topics.generateMarkdownLink url title) = (title, url)
  /\ indexOf (Topics.generateMarkdownLink url title) (lit "](")
     = 1 + Z.of_nat (List.length title).
Proof.
  intros Ht Hu. split.
  - exact (@linkParts_generateMarkdownLink url title Ht Hu).
  - exact (@indexOf_generateMarkdownLink url title Ht).
Qed.

(** *** The checklists of a prepared topic *)

(** The wanted items are keyed by their URLs, once each, and their names
    read back. *)
Definition Wellformed (items : JsMap.t Topics.Item.t) : Prop :=
  NoDup (JsMap.keys items) /\ ChecklistDiff.Linked items.

Lemma Wellformed_empty : Wellformed JsMap.empty.
Proof. split; [constructor | intros url item []]. Qed.

Lemma Wellformed_set (items : JsMap.t Topics.Item.t) (url title : str)
    (position : Z) :
  plain title -> plain url ->
  Wellformed items ->
  Wellformed
    (JsMap.set items url
       {| Topics.Item.url := url;
          Topics.Item.title := title;
          Topics.Item.name := Topics.generateMarkdownLink url title;
          Topics.Item.position := position |}).
Proof.
  intros Ht Hu [Hnd HL]. split; [now apply ByUrl.NoDup_set|].
  intros u item Hin. apply In_set in Hin as [Hin|[Hitem Hkey]].
  - now apply HL.
  - cbn [fst snd] in *. subst u item. cbn [Topics.Item.name Topics.Item.title].
    pose proof (@linkParts_generateMarkdownLink url title Ht Hu) as Hparts.
    pose proof (@indexOf_generateMarkdownLink url title Ht) as Hindex.
    split; [|exact Hparts]. rewrite Hindex. apply Z.ltb_lt. lia.
Qed.

Lemma Wellformed_rivers (rivers : list Topics.River.t) : forall st,
  (forall river, In river rivers ->
                 plain (Topics.River.title river)
                 /\ plain (Topics.River.url river)) ->
  Wellformed (fst st) -> Wellformed (snd st) ->
  Wellformed (fst (List.fold_left Topics.addRiver rivers st))
  /\ Wellformed (snd (List.fold_left Topics.addRiver rivers st)).
Proof.
  induction rivers as [|river rivers IH]; intros st H H1 H2; [now split|].
  cbn [List.fold_left].
  destruct (H river (or_introl eq_refl)) as [Ht Hu].
  apply IH; [intros r Hr; apply H; now right | |];
    unfold Topics.addRiver; destruct (indexOf _ _ =? 0); cbn [fst snd]; auto;
    now apply Wellformed_set.
Qed.

Lemma Wellformed_resources (matches : list (str * str)) : forall resources,
  (forall m, In m matches ->
             plain (trim (fst m)) /\ plain (trim (snd m))
             /\ trim (snd m) <> []) ->
  Wellformed resources ->
  Wellformed (List.fold_left Topics.addResource matches resources).
Proof.
  induction matches as [|m matches IH]; intros resources H Hr; [exact Hr|].
  cbn [List.fold_left].
  destruct (H m (or_introl eq_refl)) as [Hu [Ht Hne]].
  apply IH; [intros m' Hm'; apply H; now right|].
  unfold Topics.addResource.
  replace (or_else (trim (snd m)) (trim (fst m))) with (trim (snd m))
    by (unfold or_else; destruct (trim (snd m)); [contradiction | reflexivity]).
  now apply Wellformed_set.
Qed.

Section Prepared.

Variable statusPositions : JsMap.t Z.
Variable now : Z.
Variable Date_parse : str -> option Z.
Variable Date_format : option Z -> str.

(** X18.  The checklists of a prepared topic are those that the checklist
    diff settles in one run.  When the titles and the URLs of the rivers
    and of the resource links of a topic, trimmed for the latter, do not
    hold the text [](], and no resource link has an empty text, each of
    the three checklists that [prepareTopic] builds is keyed by the URLs
    of its items, once each, and the name of each item reads back as its
    title and its URL. *)
Theorem prepared_checklists_read_back (topic : Topics.Fields.t) :
  (forall rivers river,
      Topics.Fields.rivers topic = Some rivers -> In river rivers ->
      plain (Topics.River.title river) /\ plain (Topics.River.url river)) ->
  (forall matches m,
      Topics.Fields.resources topic = Some matches -> In m matches ->
      plain (trim (fst m)) /\ plain (trim (snd m)) /\ trim (snd m) <> []) ->
  forall name items,
    In (name, items)
      (Topics.Topic.checklists
         (Topics.prepareTopic statusPositions now Date_parse Date_format topic)) ->
    NoDup (JsMap.keys items) /\ ChecklistDiff.Linked items.
Proof.
  intros Hrivers Hresources name items Hin.
  unfold Topics.prepareTopic in Hin. cbn [Topics.Topic.checklists] in Hin.
  assert (Hrs : Wellformed
                  (fst match Topics.Fields.rivers topic with
                       | Some rivers =>
                           List.fold_left Topics.addRiver rivers
                             (JsMap.empty, JsMap.empty)
                       | None => (JsMap.empty, JsMap.empty)
                       end)
                /\ Wellformed
                     (snd match Topics.Fields.rivers topic with
                          | Some rivers =>
                              List.fold_left Topics.addRiver rivers
                                (JsMap.empty, JsMap.empty)
                          | None => (JsMap.empty, JsMap.empty)
                          end)).
  { destruct (Topics.Fields.rivers topic) as [rivers|].
    - apply Wellformed_rivers; try apply Wellformed_empty.
      intros river Hr. now apply (Hrivers rivers).
    - split; apply Wellformed_empty. }
  assert (Hres : Wellformed
                   match Topics.Fields.resources topic with
                   | Some matches =>
                       List.fold_left Topics.addResource matches JsMap.empty
                   | None => JsMap.empty
                   end).
  { destruct (Topics.Fields.resources topic) as [matches|].
    - apply Wellformed_resources; [|apply Wellformed_empty].
      intros m Hm. now apply (Hresources matches).
    - apply Wellformed_empty. }
  destruct Hrs as [H1 H2].
  change (In (name, items)
            [(lit "Rivers",
              fst match Topics.Fields.rivers topic with
                  | Some rivers =>
                      List.fold_left Topics.addRiver rivers
                        (JsMap.empty, JsMap.empty)
                  | None => (JsMap.empty, JsMap.empty)
                  end);
             (lit "Sections",
              snd match Topics.Fields.rivers topic with
                  | Some rivers =>
                      List.fold_left Topics.addRiver rivers
                        (JsMap.empty, JsMap.empty)
                  | None => (JsMap.empty, JsMap.empty)
                  end);
             (lit "Resources",
              match Topics.Fields.resources topic with
              | Some matches =>
                  List.fold_left Topics.addResource matches JsMap.empty
              | None => JsMap.empty
              end)]) in Hin.
  destruct Hin as [Hin|[Hin|[Hin|[]]]]; injection Hin as _ <-; assumption.
Qed.

End Prepared.

(** X19.  A resource link without a text is updated in every run.  Its
    item is given the URL as its title but a name with an empty title, so
    the title read from a check item that shows the name of the item, at
    the position of the item, still differs from the title of the item,
    and [updateChecklist] sends an update of the check item. *)
Theorem untitled_resource_is_updated_in_every_run World
    (send : request -> World -> option str * World) (cardId : str)
    (checklist : Checklist.t) (m : str * str) (checkitem : CheckItem.t)
    (w : World) :
  let url := trim (fst m) in
  let items := Topics.addResource JsMap.empty m in
  trim (snd m) = [] -> url <> [] -> plain url ->
  Checklist.checkItems checklist = [checkitem] ->
  CheckItem.name checkitem = Topics.generateMarkdownLink url [] ->
  Qeq_bool 1 (CheckItem.pos checkitem) = true ->
  JsMap.values items
  = [{| Topics.Item.url := url;
        Topics.Item.title := url;
        Topics.Item.name := Topics.generateMarkdownLink url [];
        Topics.Item.position := 1 |}]
  /\ Async.sent (Topics.updateChecklist send cardId checklist items w)
     = [PUT_card_checkItem cardId (Checklist.id checklist)
          (CheckItem.id checkitem) (Topics.generateMarkdownLink url []) 1].
Proof.
  cbv zeta. intros Ht Hne Hu Hitems Hname Hpos.
  assert (Hplain : plain []) by (intros k; now destruct k).
  pose proof (@linkParts_generateMarkdownLink (trim (fst m)) [] Hplain Hu) as Hparts.
  pose proof (@indexOf_generateMarkdownLink (trim (fst m)) [] Hplain) as Hindex.
  unfold Topics.addResource. rewrite Ht.
  assert (Hor : or_else [] (trim (fst m)) = trim (fst m)) by reflexivity.
  rewrite Hor. cbn [JsMap.set JsMap.empty JsMap.size List.length Z.of_nat Z.add].
  split; [reflexivity|].
  rewrite ChecklistDiff.updateChecklist_requests, Hitems.
  cbn [ChecklistDiff.changes ChecklistDiff.missing].
  unfold ChecklistDiff.linked, ChecklistDiff.url_of, ChecklistDiff.stale,
    ChecklistDiff.title_of.
  rewrite Hname, Hindex, Hparts. cbn [fst snd List.length Z.of_nat Z.add Z.ltb
    Z.compare JsMap.get Topics.Item.title Topics.Item.position
    Topics.Item.name].
  rewrite eqb_refl.
  cbn [Topics.Item.title Topics.Item.position Topics.Item.name].
  assert (Hdiff : eqb (trim (fst m)) [] = false) by now apply eqb_neq.
  rewrite Hdiff. cbn [negb orb JsMap.delete].
  rewrite eqb_refl. reflexivity.
Qed.

(** A topic of one river and one resource link. *)
Definition linkedTopic : Topics.Fields.t :=
  {| Topics.Fields.id := 100;
     Topics.Fields.url := lit "https://reliefweb.int/node/100";
     Topics.Fields.title := lit "Floods";
     Topics.Fields.date_changed := JsNumber.numeral Example.now;
     Topics.Fields.status := lit "ongoing";
     Topics.Fields.featured := false;
     Topics.Fields.introduction := None;
     Topics.Fields.rivers :=
       Some [Topics.River.Build_t (lit "river-1")
               (lit "https://reliefweb.int/updates") (lit "Updates")];
     Topics.Fields.resources :=
       Some [(lit " https://example.org/a ", lit " A guide ")];
     Topics.Fields.disaster_type := None;
     Topics.Fields.theme := None |}.

Ltac is_plain := apply free_plain; vm_compute; reflexivity.

Lemma link_reads_back_witness :
  Topics.linkParts (lit "[Updates](https://reliefweb.int/updates)")
  = (lit "Updates", lit "https://reliefweb.int/updates").
Proof.
  refine (proj1 (@link_reads_back (lit "https://reliefweb.int/updates")
                   (lit "Updates") _ _)); is_plain.
Defined.

Lemma prepared_checklists_read_back_witness :
  ChecklistDiff.Linked
    [(lit "https://example.org/a",
      {| Topics.Item.url := lit "https://example.org/a";
         Topics.Item.title := lit "A guide";
         Topics.Item.name := lit "[A guide](https://example.org/a)";
         Topics.Item.position := 1 |})].
Proof.
  refine (proj2 (@prepared_checklists_read_back Example.statusPositions
                   Example.now Example.Date_parse (fun _ => lit "10 Apr 1970")
                   linkedTopic _ _ (lit "Resources") _ _)).
  - intros rivers river H Hin. injection H as <-.
    destruct Hin as [<-|[]]. split; is_plain.
  - intros matches m H Hin. injection H as <-.
    destruct Hin as [<-|[]]. split; [is_plain|]. split; [is_plain|].
    vm_compute. discriminate.
  - right. right. left. vm_compute. reflexivity.
Defined.

Lemma untitled_resource_is_updated_in_every_run_witness :
  Async.sent
    (Topics.updateChecklist Example.accept (lit "C1")
       (Checklist.Build_t (lit "K1") (lit "Resources")
          [CheckItem.Build_t (lit "I1") (lit "[](https://example.org/a)") 1])
       (Topics.addResource JsMap.empty (lit "https://example.org/a", lit " "))
       tt)
  = [PUT_card_checkItem (lit "C1") (lit "K1") (lit "I1")
       (lit "[](https://example.org/a)") 1].
Proof.
  refine (proj2 (@untitled_resource_is_updated_in_every_run unit
                   Example.accept (lit "C1")
                   (Checklist.Build_t (lit "K1") (lit "Resources")
                      [CheckItem.Build_t (lit "I1")
                         (lit "[](https://example.org/a)") 1])
                   (lit "https://example.org/a", lit " ")
                   (CheckItem.Build_t (lit "I1")
                      (lit "[](https://example.org/a)") 1)
                   tt _ _ _ _ _ _)).
  - reflexivity.
  - vm_compute. discriminate.
  - is_plain.
  - reflexivity.
  - reflexivity.
  - reflexivity.
Defined.

End Links.


(** ** What the checklist update leaves alone *)

Module LeftAlone.
Import Js JsFacts JsMapFacts Trello Async AsyncFacts.

(** The check item that a request changes or deletes: its checklist and
    its id. *)
Definition touched (q : request) : option (str * str) :=
  match q with
  | PUT_card_checkItem _ checklist item _ _ => Some (checklist, item)
  | DELETE_checklist_checkItem checklist item => Some (checklist, item)
  | _ => None
  end.

(** The request is one on the checklists of card [cardId] that changes or
    deletes no check item but a link of [checkItems] in checklist
    [checklistId]. *)
Definition on_links (cardId checklistId : str) (checkItems : list CheckItem.t)
    (q : request) : bool :=
  match q with
  | PUT_card_checkItem card checklist item _ _ =>
      eqb card cardId && eqb checklist checklistId
      && List.existsb
           (fun checkitem =>
              eqb (CheckItem.id checkitem) item && ChecklistDiff.linked checkitem)
           checkItems
  | DELETE_checklist_checkItem checklist item =>
      eqb checklist checklistId
      && List.existsb
           (fun checkitem =>
              eqb (CheckItem.id checkitem) item && ChecklistDiff.linked checkitem)
           checkItems
  | POST_checklist_checkItems _ _ _ => true
  | POST_card_checklists card _ => eqb card cardId
  | _ => false
  end.

(** The same for the checklists of a card that bear the name of a
    checklist of the topic. *)
Definition on_links_of (cardId : str) (names : list str)
    (cardChecklists : list Checklist.t) (q : request) : bool :=
  match q with
  | PUT_card_checkItem _ _ _ _ _ | DELETE_checklist_checkItem _ _ =>
      List.existsb
        (fun checklist =>
           List.existsb (eqb (Checklist.name checklist)) names
           && on_links cardId (Checklist.id checklist)
                (Checklist.checkItems checklist) q)
        cardChecklists
  | POST_checklist_checkItems _ _ _ => true
  | POST_card_checklists card _ => eqb card cardId
  | _ => false
  end.

Lemma changes_on_links (cardId checklistId : str) (all : list CheckItem.t)
    (rest : list CheckItem.t) : forall items,
  (forall checkitem, In checkitem rest -> In checkitem all) ->
  List.forallb (on_links cardId checklistId all)
    (ChecklistDiff.changes cardId checklistId items rest) = true.
Proof.
  induction rest as [|checkitem rest IH]; intros items Hall; [reflexivity|].
  assert (Hrest : forall c, In c rest -> In c all)
    by (intros c Hc; apply Hall; now right).
  assert (Hhere : ChecklistDiff.linked checkitem = true ->
                  List.existsb
                    (fun c => eqb (CheckItem.id c) (CheckItem.id checkitem)
                              && ChecklistDiff.linked c) all = true).
  { intros Hl. apply List.existsb_exists. exists checkitem.
    split; [apply Hall; now left|]. now rewrite eqb_refl, Hl. }
  cbn [ChecklistDiff.changes].
  destruct (ChecklistDiff.linked checkitem) eqn:El; [|now apply IH].
  destruct (JsMap.get items _) as [item|].
  - destruct (ChecklistDiff.stale item checkitem); [|now apply IH].
    cbn [List.forallb on_links]. rewrite !eqb_refl, Hhere by reflexivity.
    now apply IH.
  - cbn [List.forallb on_links]. rewrite !eqb_refl, Hhere by reflexivity.
    now apply IH.
Qed.

Lemma additions_on_links (cardId checklistId : str) (all : list CheckItem.t)
    (items : JsMap.t Topics.Item.t) :
  List.forallb (on_links cardId checklistId all)
    (ChecklistDiff.additions checklistId items) = true.
Proof.
  unfold ChecklistDiff.additions.
  induction (JsMap.values items) as [|item rest IH]; [reflexivity | exact IH].
Qed.

Section Requests.

Variable World : Type.
Variable send : request -> World -> option str * World.

(** A property of the requests of each turn of a loop, for the elements
    of the list, holds of the requests of the loop. *)
Lemma for_of_forall_in {A S} (ok : request -> bool)
    (body : S -> A -> M World S) (l : list A) : forall s w,
  (forall s x w, In x l -> List.forallb ok (sent (body s x w)) = true) ->
  List.forallb ok (sent (for_of l s body w)) = true.
Proof.
  induction l as [|x l IH]; intros s w Hbody; [reflexivity|].
  cbn [for_of]. rewrite sent_bind, List.forallb_app.
  rewrite Hbody by now left.
  destruct (result (body s x w)); [|reflexivity].
  apply IH. intros s' x' w' Hx'. apply Hbody. now right.
Qed.

Lemma updateChecklist_on_links cardId checklist items (w : World) :
  List.forallb
    (on_links cardId (Checklist.id checklist) (Checklist.checkItems checklist))
    (sent (Topics.updateChecklist send cardId checklist items w)) = true.
Proof.
  rewrite ChecklistDiff.updateChecklist_requests, List.forallb_app.
  rewrite changes_on_links by auto. apply additions_on_links.
Qed.

Lemma addChecklist_on_links cardId names cardChecklists name items (w : World) :
  List.forallb (on_links_of cardId names cardChecklists)
    (sent (Topics.addChecklist send cardId name items w)) = true.
Proof.
  unfold Topics.addChecklist. run.
  cbn [List.app List.forallb on_links_of]. rewrite eqb_refl. cbn [andb].
  destruct (fst (send (POST_card_checklists cardId name) w)) as [id|];
    [|reflexivity].
  apply for_of_forall. intros s item w'.
  rewrite CardUpdate.addCheckItem_run. reflexivity.
Qed.

Lemma byName_In (cardChecklists : list Checklist.t) name checklist :
  JsMap.get
    (List.fold_left
       (fun m checklist => JsMap.set m (Checklist.name checklist) checklist)
       cardChecklists JsMap.empty) name = Some checklist ->
  In checklist cardChecklists /\ Checklist.name checklist = name.
Proof.
  intros H.
  destruct (List.in_dec SetupFacts.str_eq_dec name
              (List.map Checklist.name cardChecklists)) as [Hin|Hin].
  - destruct (@SetupFacts.get_fill_In _ _ Checklist.name (fun k => k)
                cardChecklists JsMap.empty name Hin) as [x [Hx [Hk Hget]]].
    assert (He : Some checklist = Some x) by (rewrite <- H; exact Hget).
    injection He as ->. auto.
  - assert (Hn : JsMap.get
                   (List.fold_left
                      (fun m checklist =>
                         JsMap.set m (Checklist.name checklist) checklist)
                      cardChecklists JsMap.empty) name = None)
      by exact (@SetupFacts.get_fill_other _ _ Checklist.name (fun k => k)
                  cardChecklists JsMap.empty name Hin).
    congruence.
Qed.

(** X20.  The checklist update of the topics manager changes and deletes
    links only.  Every request of [updateCardChecklists] creates a
    checklist on the card, adds a check item, or updates or deletes a
    check item of the card whose name is a link and whose checklist bears
    the name of a checklist of the topic: the other checklists of the
    card, and the check items that are no links, are left as they are. *)
Theorem checklist_update_touches_links_only (cardId : str)
    (cardChecklists : option (list Checklist.t)) (topic : Topics.Topic.t)
    (w : World) (q : request) :
  In q (sent (Topics.updateCardChecklists send cardId cardChecklists topic w)) ->
  match q with
  | PUT_card_checkItem card checklistId id _ _ =>
      card = cardId
      /\ exists checklists checklist checkitem,
          cardChecklists = Some checklists
          /\ In checklist checklists
          /\ In (Checklist.name checklist)
               (JsMap.keys (Topics.Topic.checklists topic))
          /\ Checklist.id checklist = checklistId
          /\ In checkitem (Checklist.checkItems checklist)
          /\ CheckItem.id checkitem = id
          /\ (0 <? indexOf (CheckItem.name checkitem) (lit "](")) = true
  | DELETE_checklist_checkItem checklistId id =>
      exists checklists checklist checkitem,
        cardChecklists = Some checklists
        /\ In checklist checklists
        /\ In (Checklist.name checklist)
             (JsMap.keys (Topics.Topic.checklists topic))
        /\ Checklist.id checklist = checklistId
        /\ In checkitem (Checklist.checkItems checklist)
        /\ CheckItem.id checkitem = id
        /\ (0 <? indexOf (CheckItem.name checkitem) (lit "](")) = true
  | POST_checklist_checkItems _ _ _ => True
  | POST_card_checklists card _ => card = cardId
  | _ => False
  end.
Proof.
  intros Hq.
  set (names := JsMap.keys (Topics.Topic.checklists topic)).
  set (checklists := match cardChecklists with Some l => l | None => [] end).
  assert (Hall : List.forallb (on_links_of cardId names checklists)
                   (sent (Topics.updateCardChecklists send cardId
                            cardChecklists topic w)) = true).
  { unfold Topics.updateCardChecklists.
    apply for_of_forall_in. intros changed [name items] w' Hin.
    cbn [fst snd].
    destruct (JsMap.get _ name) as [checklist|] eqn:E.
    - run.
      destruct (CardUpdate.updateChecklist_sent send cardId checklist items w')
        as [_ [c Hc]].
      rewrite Hc. run. rewrite List.app_nil_r.
      assert (Hk : In checklist checklists /\ Checklist.name checklist = name).
      { subst checklists. destruct cardChecklists as [l|].
        - now apply byName_In.
        - discriminate. }
      destruct Hk as [Hk Hname].
      pose proof (updateChecklist_on_links cardId checklist items w') as Hl.
      rewrite List.forallb_forall in *. intros r Hr. specialize (Hl r Hr).
      assert (Hex : forall ok,
                 on_links cardId (Checklist.id checklist)
                   (Checklist.checkItems checklist) r = true ->
                 ok = on_links cardId (Checklist.id checklist)
                        (Checklist.checkItems checklist) r ->
                 List.existsb
                   (fun k =>
                      List.existsb (eqb (Checklist.name k)) names
                      && on_links cardId (Checklist.id k)
                           (Checklist.checkItems k) r)
                   checklists = true).
      { intros ok Hok _. apply List.existsb_exists. exists checklist.
        split; [exact Hk|]. rewrite Hok, andb_true_r.
        apply List.existsb_exists. exists name. split.
        - subst names. unfold JsMap.keys.
          change name with (fst (name, items)). now apply List.in_map.
        - rewrite Hname. apply eqb_refl. }
      destruct r; cbn [on_links_of]; try exact Hl;
        try (apply (Hex _ Hl eq_refl)).
    - run.
      destruct (CardUpdate.addChecklist_sent send cardId name items w')
        as [_ Hr].
      rewrite Hr. run. rewrite List.app_nil_r.
      apply addChecklist_on_links. }
  rewrite List.forallb_forall in Hall. specialize (Hall q Hq).
  assert (Hfound : forall r,
             List.existsb
               (fun k =>
                  List.existsb (eqb (Checklist.name k)) names
                  && on_links cardId (Checklist.id k) (Checklist.checkItems k) r)
               checklists = true ->
             exists l checklist,
               cardChecklists = Some l /\ In checklist l
               /\ In (Checklist.name checklist) names
               /\ on_links cardId (Checklist.id checklist)
                    (Checklist.checkItems checklist) r = true).
  { intros r Hr. apply List.existsb_exists in Hr as [k [Hk Hok]].
    apply andb_prop in Hok as [Hname Hok].
    apply List.existsb_exists in Hname as [n [Hn He]]. apply eqb_eq in He.
    subst checklists. destruct cardChecklists as [l|]; [|contradiction].
    exists l, k. rewrite He. auto. }
  destruct q; cbn [on_links_of] in Hall; try discriminate; try exact I.
  - now apply eqb_eq.
  - apply Hfound in Hall as [l [k [Hl [Hk [Hname Hok]]]]].
    cbn [on_links] in Hok.
    apply andb_prop in Hok as [Hok Hitem]. apply andb_prop in Hok as [Hc Hid].
    apply eqb_eq in Hc, Hid.
    apply List.existsb_exists in Hitem as [ci [Hci Hi]].
    apply andb_prop in Hi as [Hi Hlinked]. apply eqb_eq in Hi.
    split; [exact Hc|]. exists l, k, ci. repeat split; auto.
  - apply Hfound in Hall as [l [k [Hl [Hk [Hname Hok]]]]].
    cbn [on_links] in Hok.
    apply andb_prop in Hok as [Hid Hitem]. apply eqb_eq in Hid.
    apply List.existsb_exists in Hitem as [ci [Hci Hi]].
    apply andb_prop in Hi as [Hi Hlinked]. apply eqb_eq in Hi.
    exists l, k, ci. repeat split; auto.
Qed.

End Requests.

(** A card with a checklist of the topic that holds a note and a link. *)
Lemma checklist_update_touches_links_only_witness :
  exists checklists checklist checkitem,
    Some [Checklist.Build_t (lit "K1") (lit "Rivers")
            [CheckItem.Build_t (lit "I1") (lit "Call the desk") 1;
             CheckItem.Build_t (lit "I2") (lit "[Old](http://example.org/old)")
               2]]
    = Some checklists
    /\ In checklist checklists
    /\ In (Checklist.name checklist)
         (JsMap.keys (Topics.Topic.checklists Example.topic))
    /\ Checklist.id checklist = lit "K1"
    /\ In checkitem (Checklist.checkItems checklist)
    /\ CheckItem.id checkitem = lit "I2"
    /\ (0 <? indexOf (CheckItem.name checkitem) (lit "](")) = true.
Proof.
  refine (@checklist_update_touches_links_only unit Example.accept (lit "C1")
            (Some [Checklist.Build_t (lit "K1") (lit "Rivers")
                     [CheckItem.Build_t (lit "I1") (lit "Call the desk") 1;
                      CheckItem.Build_t (lit "I2")
                        (lit "[Old](http://example.org/old)") 2]])
            Example.topic tt
            (DELETE_checklist_checkItem (lit "K1") (lit "I2")) _).
  vm_compute. now left.
Defined.

End LeftAlone.


(** ** The cards that a run matches *)

Module Matching.
Import Js JsFacts JsMapFacts Trello Async AsyncFacts.

Section Generic.

Variable P : Type.
Variable pattern : str -> bool.
Variable prepare : Card.t -> P.

(** The URL that the first loop of [updateBoard] reads from a card: the
    first of its attachments that matches the pattern of the manager. *)
Definition first_url (card : Card.t) : option str :=
  match Card.attachments card with
  | Some attachments => List.find pattern attachments
  | None => None
  end.

(** The first loop of [updateBoard], from the card it is at. *)
Definition collect (boardCards : list Card.t) (cards : JsMap.t P) : JsMap.t P :=
  List.fold_left
    (fun cards card =>
       match Card.attachments card with
       | Some attachments =>
           match List.find pattern attachments with
           | Some url => JsMap.set cards url (prepare card)
           | None => cards
           end
       | None => cards
       end)
    boardCards cards.

Lemma collect_other (boardCards : list Card.t) (url : str) : forall cards,
  (forall card, In card boardCards -> first_url card <> Some url) ->
  JsMap.get (collect boardCards cards) url = JsMap.get cards url.
Proof.
  induction boardCards as [|card rest IH]; intros cards H; [reflexivity|].
  cbn [collect List.fold_left]. fold (collect rest).
  rewrite IH by (intros c Hc; apply H; now right).
  pose proof (H card (or_introl eq_refl)) as Hcard. unfold first_url in Hcard.
  destruct (Card.attachments card) as [attachments|]; [|reflexivity].
  destruct (List.find pattern attachments) as [u|]; [|reflexivity].
  apply get_set_other. congruence.
Qed.

Lemma collect_last (before later : list Card.t) (card : Card.t) (url : str)
    (cards : JsMap.t P) :
  first_url card = Some url ->
  (forall c, In c later -> first_url c <> Some url) ->
  JsMap.get (collect (before ++ card :: later) cards) url = Some (prepare card).
Proof.
  intros Hcard Hlater. unfold collect.
  rewrite List.fold_left_app. cbn [List.fold_left].
  fold (collect before cards). unfold first_url in Hcard.
  destruct (Card.attachments card) as [attachments|]; [|discriminate].
  rewrite Hcard.
  match goal with
  | |- JsMap.get (List.fold_left ?f later ?acc) url = _ =>
      change (JsMap.get (collect later acc) url = Some (prepare card))
  end.
  rewrite collect_other by exact Hlater. apply get_set_same.
Qed.

(** The entries of the map are the last cards of their URLs. *)
Lemma collect_found (boardCards : list Card.t) (url : str) (p : P) :
  JsMap.get (collect boardCards JsMap.empty) url = Some p ->
  exists before card later,
    boardCards = before ++ card :: later
    /\ p = prepare card
    /\ first_url card = Some url
    /\ forall c, In c later -> first_url c <> Some url.
Proof.
  induction boardCards as [|card rest IH] using List.rev_ind;
    [discriminate|].
  unfold collect. rewrite List.fold_left_app. cbn [List.fold_left].
  fold (collect rest JsMap.empty).
  destruct (first_url card) as [u|] eqn:Eu.
  - assert (Hstep : match Card.attachments card with
                    | Some attachments =>
                        match List.find pattern attachments with
                        | Some url0 =>
                            JsMap.set (collect rest JsMap.empty) url0
                              (prepare card)
                        | None => collect rest JsMap.empty
                        end
                    | None => collect rest JsMap.empty
                    end = JsMap.set (collect rest JsMap.empty) u (prepare card)).
    { unfold first_url in Eu.
      destruct (Card.attachments card) as [attachments|]; [|discriminate].
      now rewrite Eu. }
    rewrite Hstep. destruct (eqb u url) eqn:E.
    + apply eqb_eq in E. subst u. rewrite get_set_same. intros H.
      injection H as <-. exists rest, card, []. repeat split; [exact Eu|].
      intros c [].
    + apply eqb_neq in E. rewrite get_set_other by exact E. intros H.
      destruct (IH H) as [before [c [later [-> [Hp [Hc Hlater]]]]]].
      exists before, c, (later ++ [card]). repeat split; auto.
      * now rewrite <- List.app_assoc.
      * intros c' Hc'. apply List.in_app_or in Hc' as [Hc'|[<-|[]]];
          [now apply Hlater|].
        rewrite Eu. congruence.
  - assert (Hsame : match Card.attachments card with
                    | Some attachments =>
                        match List.find pattern attachments with
                        | Some url0 =>
                            JsMap.set (collect rest JsMap.empty) url0
                              (prepare card)
                        | None => collect rest JsMap.empty
                        end
                    | None => collect rest JsMap.empty
                    end = collect rest JsMap.empty).
    { unfold first_url in Eu.
      destruct (Card.attachments card) as [attachments|]; [|reflexivity].
      now rewrite Eu. }
    rewrite Hsame. intros H.
    destruct (IH H) as [before [c [later [-> [Hp [Hc Hlater]]]]]].
    exists before, c, (later ++ [card]). repeat split; auto.
    + now rewrite <- List.app_assoc.
    + intros c' Hc'. apply List.in_app_or in Hc' as [Hc'|[<-|[]]];
        [now apply Hlater|].
      rewrite Eu. discriminate.
Qed.

Lemma NoDup_collect (boardCards : list Card.t) : forall cards,
  NoDup (JsMap.keys cards) -> NoDup (JsMap.keys (collect boardCards cards)).
Proof.
  induction boardCards as [|card rest IH]; intros cards H; [exact H|].
  cbn [collect List.fold_left]. fold (collect rest). apply IH.
  destruct (Card.attachments card) as [attachments|]; [|exact H].
  destruct (List.find pattern attachments); [|exact H].
  now apply ByUrl.NoDup_set.
Qed.

End Generic.

Section Managers.

Variable boardCards : list Card.t.
Variable url : str.

(** X21.  Of the cards of a URL the last one is matched.  In each of the
    three managers the first loop of [updateBoard] files a card under the
    first of its attachments that matches the URL pattern, and a later
    card replaces an earlier one: the card found for a URL is the last
    card of the board whose URL it is, and none is found when no card
    has it. *)
Theorem the_last_card_of_a_url_is_matched (before later : list Card.t)
    (card : Card.t) :
  (boardCards = before ++ card :: later ->
   (first_url Disasters.urlPattern card = Some url ->
    (forall c, In c later -> first_url Disasters.urlPattern c <> Some url) ->
    JsMap.get (Disasters.existingCards boardCards) url
    = Some (Disasters.prepareCard card))
   /\ (first_url Topics.urlPattern card = Some url ->
       (forall c, In c later -> first_url Topics.urlPattern c <> Some url) ->
       JsMap.get (Topics.existingCards boardCards) url
       = Some (Topics.prepareCard card))
   /\ (first_url Countries.urlPattern card = Some url ->
       (forall c, In c later -> first_url Countries.urlPattern c <> Some url) ->
       JsMap.get (Countries.existingCards boardCards) url
       = Some (Countries.prepareCard card)))
  /\ ((forall c, In c boardCards -> first_url Disasters.urlPattern c <> Some url) ->
      JsMap.get (Disasters.existingCards boardCards) url = None)
  /\ ((forall c, In c boardCards -> first_url Topics.urlPattern c <> Some url) ->
      JsMap.get (Topics.existingCards boardCards) url = None)
  /\ ((forall c, In c boardCards -> first_url Countries.urlPattern c <> Some url) ->
      JsMap.get (Countries.existingCards boardCards) url = None).
Proof.
  split; [|split; [|split]].
  - intros ->. split; [|split]; intros Hcard Hlater.
    + now apply (@collect_last _ Disasters.urlPattern Disasters.prepareCard).
    + now apply (@collect_last _ Topics.urlPattern Topics.prepareCard).
    + now apply (@collect_last _ Countries.urlPattern Countries.prepareCard).
  - intros H.
    now apply (@collect_other _ Disasters.urlPattern Disasters.prepareCard).
  - intros H.
    now apply (@collect_other _ Topics.urlPattern Topics.prepareCard).
  - intros H.
    now apply (@collect_other _ Countries.urlPattern Countries.prepareCard).
Qed.

End Managers.

(** *** The cards that a run changes *)

(** The card whose fields or labels a request changes. *)
Definition card_id (q : request) : option str :=
  match q with
  | PUT_card id _ | DELETE_card_idLabel id _ | POST_card_idLabels id _ =>
      Some id
  | _ => None
  end.

(** The request changes no card but one of the map. *)
Definition on_matched {P} (id_of : P -> str) (cards : JsMap.t P)
    (q : request) : bool :=
  match card_id q with
  | Some id => List.existsb (fun e => eqb (id_of (snd e)) id) cards
  | None => true
  end.

Lemma targets_matched {P} (id_of : P -> str) (cards : JsMap.t P) (url : str)
    (p : P) (qs : list request) :
  In (url, p) cards ->
  List.forallb (OnCard.targets (id_of p)) qs = true ->
  List.forallb (on_matched id_of cards) qs = true.
Proof.
  intros Hin H. rewrite List.forallb_forall in *. intros q Hq.
  specialize (H q Hq). unfold on_matched.
  destruct (card_id q) as [id|] eqn:E; [|reflexivity].
  apply List.existsb_exists. exists (url, p). split; [exact Hin|]. cbn [snd].
  destruct q; try discriminate; cbn in E, H; injection E as <-;
    now rewrite eqb_sym.
Qed.

Section Loops.

Variable World : Type.
Variable send : request -> World -> option str * World.

(** A loop whose variables keep an invariant under which every turn sends
    requests of some kind sends requests of that kind only. *)
Lemma for_of_inv {A S} (ok : request -> bool) (Inv : S -> Prop)
    (body : S -> A -> M World S) :
  (forall s x w,
      Inv s ->
      List.forallb ok (sent (body s x w)) = true
      /\ forall s', result (body s x w) = Some s' -> Inv s') ->
  forall l s w,
    Inv s ->
    List.forallb ok (sent (for_of l s body w)) = true
    /\ forall s', result (for_of l s body w) = Some s' -> Inv s'.
Proof.
  intros Hbody. induction l as [|x l IH]; intros s w Hs.
  - split; [reflexivity|]. intros s' H. now injection H as <-.
  - cbn [for_of]. rewrite sent_bind, result_bind, List.forallb_app.
    destruct (Hbody s x w Hs) as [Hok Hnext]. rewrite Hok.
    destruct (result (body s x w)) as [s1|]; [|split; [reflexivity | discriminate]].
    apply IH. now apply Hnext.
Qed.

End Loops.

Section Disasters.

Variable now : Z.
Variable Date_parse : str -> option Z.
Variable currentDate : str.
Variable lists : JsMap.t BoardList.t.
Variable labels : JsMap.t Label.t.
Variable World : Type.
Variable send : request -> World -> option str * World.
Variable boardCards : list Card.t.

Local Abbreviation id_of :=
  (fun card : Disasters.PCard.t => Card.id (Disasters.PCard.card card)).

(** The map of the loop holds entries of the map of the matched cards. *)
Definition Sub (st : JsMap.t Disasters.PCard.t * nat) : Prop :=
  forall e, In e (fst st) -> In e (Disasters.existingCards boardCards).

Lemma updateOrCreateOne_matched st disaster (w : World) :
  Sub st ->
  List.forallb (on_matched id_of (Disasters.existingCards boardCards))
    (sent (Disasters.updateOrCreateOne now Date_parse currentDate lists labels
             send st disaster w)) = true
  /\ forall st',
      result (Disasters.updateOrCreateOne now Date_parse currentDate lists
                labels send st disaster w) = Some st' ->
      Sub st'.
Proof.
  intros Hsub. split.
  - unfold Disasters.updateOrCreateOne.
    destruct (JsMap.get (fst st) (Disasters.Disaster.url disaster))
      as [card|] eqn:E.
    + rewrite sent_bind.
      assert (Hcard : List.forallb
                        (on_matched id_of (Disasters.existingCards boardCards))
                        (sent (Disasters.updateCard now Date_parse currentDate
                                 lists labels send
                                 (Disasters.maxIndex - Disasters.Disaster.id disaster)
                                 card disaster w)) = true).
      { destruct (JsMap.get lists (Disasters.Disaster.status disaster))
          as [list|] eqn:El.
        - rewrite (CardUpdate.disasters_sent now Date_parse currentDate lists
                     labels send _ card disaster w El).
          destruct (ManagedLabels.disasters_requests now Date_parse labels send
                      (Disasters.touched currentDate card disaster) disaster w)
            as [Hr _].
          rewrite Hr, Settle.touched_card.
          apply (@targets_matched _ id_of _ (Disasters.Disaster.url disaster)
                   card).
          + apply Hsub. now apply get_In.
          + rewrite List.forallb_app, OnBoard.requests_target,
              OnBoard.put_targets. reflexivity.
        - unfold Disasters.updateCard. rewrite El. reflexivity. }
      rewrite List.forallb_app, Hcard.
      destruct (result _); reflexivity.
    + unfold Disasters.createCard.
      destruct (JsMap.get lists (Disasters.Disaster.status disaster));
        [|reflexivity].
      run. destruct (fst (send _ w)); run; reflexivity.
  - intros st' H e He.
    rewrite (Archival.disasters_one_remaining _ _ _ _ _ _ _ _ _ H) in He.
    apply Hsub. now apply In_delete in He.
Qed.

Lemma updateBoard_matched disasters (w : World) :
  List.forallb (on_matched id_of (Disasters.existingCards boardCards))
    (sent (Disasters.updateBoard now Date_parse currentDate lists labels send
             boardCards disasters w)) = true.
Proof.
  unfold Disasters.updateBoard, Disasters.updateOrCreate.
  rewrite sent_bind, List.forallb_app.
  destruct (@for_of_inv World _ _
              (on_matched id_of (Disasters.existingCards boardCards)) Sub
              (Disasters.updateOrCreateOne now Date_parse currentDate lists
                 labels send)
              (fun s x w => @updateOrCreateOne_matched s x w)
              disasters (Disasters.existingCards boardCards, O) w)
    as [Hloop Hinv]; [intros e He; exact He|].
  rewrite Hloop.
  destruct (result (for_of disasters _ _ w)) as [st|] eqn:E; [|reflexivity].
  specialize (Hinv st eq_refl).
  rewrite sent_bind, List.forallb_app, Archival.archiveRemaining_sent.
  assert (Harchived : List.forallb
                        (on_matched id_of (Disasters.existingCards boardCards))
                        (List.map Archival.archive
                           (Archival.archived lists (fst st))) = true).
  { apply List.forallb_forall. intros q Hq.
    apply List.in_map_iff in Hq as [card [<- Hcard]].
    unfold Archival.archived in Hcard. apply List.filter_In in Hcard as [Hcard _].
    unfold JsMap.values in Hcard. apply List.in_map_iff in Hcard as [e [<- He]].
    unfold on_matched, Archival.archive. cbn [card_id].
    apply List.existsb_exists. exists e. split; [now apply Hinv | apply eqb_refl]. }
  rewrite Harchived.
  destruct (result (Disasters.archiveRemaining _ _ _ _)); reflexivity.
Qed.

End Disasters.

Section Countries.

Variable statuses : JsMap.t str.
Variable now : Z.
Variable Date_parse : str -> option Z.
Variable currentDate : str.
Variable labels : JsMap.t Label.t.
Variable World : Type.
Variable send : request -> World -> option str * World.
Variable boardCards : list Card.t.

Local Abbreviation id_of :=
  (fun card : Countries.PCard.t => Card.id (Countries.PCard.card card)).

Lemma countries_matched countries (w : World) :
  List.forallb (on_matched id_of (Countries.existingCards boardCards))
    (sent (Countries.updateBoard statuses now Date_parse currentDate labels
             send boardCards countries w)) = true.
Proof.
  unfold Countries.updateBoard. apply for_of_forall.
  intros updated country w'. unfold Countries.updateOne.
  destruct (JsMap.get _ (Countries.Country.url country)) as [card|] eqn:E;
    [|reflexivity].
  rewrite sent_bind, List.forallb_app.
  rewrite (CardUpdate.countries_sent now Date_parse currentDate labels statuses
             send card country w').
  destruct (ManagedLabels.countries_requests now Date_parse labels statuses
              send card country w') as [Hr _].
  rewrite Hr.
  rewrite (@targets_matched _ id_of _ (Countries.Country.url country) card).
  - destruct (result _); reflexivity.
  - now apply get_In.
  - rewrite List.forallb_app, OnBoard.requests_target, OnBoard.put_targets.
    reflexivity.
Qed.

End Countries.

Lemma countries_prepareCard_card (c : Card.t) :
  Countries.PCard.card (Countries.prepareCard c) = c.
Proof.
  unfold Countries.prepareCard.
  repeat match goal with |- context [if ?x then _ else _] => destruct x end;
    reflexivity.
Qed.

(** X22.  A run changes matched cards only.  Every request of
    [updateBoard], in the disasters manager and in the countries manager,
    that writes the fields of a card, archives it, or adds or removes one
    of its labels, names a card of the board that has an attachment
    matching the URL pattern and is the last card of the board for the
    first such attachment: a card without such an attachment, and a card
    whose URL a later card has too, is never changed. *)
Theorem a_run_changes_matched_cards_only World
    (send : request -> World -> option str * World) (now : Z)
    (Date_parse : str -> option Z) (currentDate : str)
    (labels : JsMap.t Label.t) (boardCards : list Card.t) (w : World)
    (q : request) (id : str) :
  card_id q = Some id ->
  (forall lists disasters,
      In q (sent (Disasters.updateBoard now Date_parse currentDate lists labels
                    send boardCards disasters w)) ->
      exists before card later url,
        boardCards = before ++ card :: later
        /\ Card.id card = id
        /\ first_url Disasters.urlPattern card = Some url
        /\ forall c, In c later -> first_url Disasters.urlPattern c <> Some url)
  /\ (forall statuses countries,
         In q (sent (Countries.updateBoard statuses now Date_parse currentDate
                       labels send boardCards countries w)) ->
         exists before card later url,
           boardCards = before ++ card :: later
           /\ Card.id card = id
           /\ first_url Countries.urlPattern card = Some url
           /\ forall c, In c later -> first_url Countries.urlPattern c <> Some url).
Proof.
  intros Hid. split.
  - intros lists disasters Hq.
    pose proof (updateBoard_matched now Date_parse currentDate lists labels
                  send boardCards disasters w) as H.
    rewrite List.forallb_forall in H. specialize (H q Hq).
    unfold on_matched in H. rewrite Hid in H.
    apply List.existsb_exists in H as [[url p] [He Hp]]. cbn [snd] in Hp.
    apply eqb_eq in Hp.
    apply ByUrl.NoDup_get in He;
      [|apply (@NoDup_collect _ Disasters.urlPattern Disasters.prepareCard);
        constructor].
    apply (@collect_found _ Disasters.urlPattern Disasters.prepareCard) in He
      as [before [card [later [Hcs [-> [Hurl Hlater]]]]]].
    exists before, card, later, url. rewrite Settle.prepareCard_card in Hp. auto.
  - intros statuses countries Hq.
    pose proof (countries_matched statuses now Date_parse currentDate labels
                  send boardCards countries w) as H.
    rewrite List.forallb_forall in H. specialize (H q Hq).
    unfold on_matched in H. rewrite Hid in H.
    apply List.existsb_exists in H as [[url p] [He Hp]]. cbn [snd] in Hp.
    apply eqb_eq in Hp.
    apply ByUrl.NoDup_get in He;
      [|apply (@NoDup_collect _ Countries.urlPattern Countries.prepareCard);
        constructor].
    apply (@collect_found _ Countries.urlPattern Countries.prepareCard) in He
      as [before [card [later [Hcs [-> [Hurl Hlater]]]]]].
    exists before, card, later, url. rewrite countries_prepareCard_card in Hp.
    auto.
Qed.

(** *** A card attached under the secure scheme *)

Section Secure.

Variable statusPositions : JsMap.t Z.
Variable now : Z.
Variable Date_parse : str -> option Z.
Variable reports : list str -> option (JsMap.t (list str)).
Variable currentDate : str.
Variable lists : JsMap.t BoardList.t.
Variable labels : JsMap.t Label.t.
Variable World : Type.
Variable send : request -> World -> option str * World.

(** The URLs of the disasters of a run are those that [prepareDisaster]
    made. *)
Lemma getDisasters_urls (data : list Disasters.Fields.t)
    (disasters : list Disasters.Disaster.t) (disaster : Disasters.Disaster.t) :
  Pipeline.getDisasters statusPositions now Date_parse reports (Some data)
  = Some disasters ->
  In disaster disasters ->
  starts_with (lit "https:") (Disasters.Disaster.url disaster) = false.
Proof.
  unfold Pipeline.getDisasters.
  destruct (0 <? List.length data)%nat;
    [|intros H; injection H as <-; intros []].
  destruct (reports _) as [results|]; [|discriminate].
  intros H Hin. injection H as <-.
  apply (Permutation.Permutation_in _
           (Pipeline.sort_Permutation Disasters.compare _)) in Hin.
  apply (List.in_map Pipeline.withoutLastReport) in Hin.
  rewrite Pipeline.withoutLastReport_getExtraDisasterData in Hin.
  rewrite List.map_map in Hin. apply List.in_map_iff in Hin as [fields [Hf _]].
  change (Disasters.Disaster.url disaster)
    with (Disasters.Disaster.url (Pipeline.withoutLastReport disaster)).
  rewrite <- Hf. cbn [Pipeline.withoutLastReport Disasters.Disaster.url
    Disasters.prepareDisaster].
  apply Urls.https_to_http_scheme.
Qed.

(** X23.  A card attached under [https:] is taken for the card of no
    disaster.  The URLs of the disasters of a run begin with [http:], so
    a card that the board has for a URL beginning with [https:] is still
    in the map of the matched cards when the loop over the disasters
    ends: no disaster has updated it, and it is archived when it is open
    and in one of the status lists. *)
Theorem a_card_attached_under_https_is_archived
    (data : list Disasters.Fields.t) (disasters : list Disasters.Disaster.t)
    (boardCards : list Card.t) (url : str) (card : Disasters.PCard.t)
    (w : World) (st : JsMap.t Disasters.PCard.t * nat) :
  Pipeline.getDisasters statusPositions now Date_parse reports (Some data)
  = Some disasters ->
  JsMap.get (Disasters.existingCards boardCards) url = Some card ->
  starts_with (lit "https:") url = true ->
  result (Disasters.updateOrCreate now Date_parse currentDate lists labels send
            disasters (Disasters.existingCards boardCards) w) = Some st ->
  JsMap.get (fst st) url = Some card
  /\ (Archival.inStatusList lists (Disasters.PCard.card card) = true ->
      Card.closed (Disasters.PCard.card card) = false ->
      In (PUT_card (Card.id (Disasters.PCard.card card)) archive_data)
        (sent (Disasters.updateBoard now Date_parse currentDate lists labels
                 send boardCards disasters w))).
Proof.
  intros Hds Hcard Hurl Hst.
  assert (Hleft : JsMap.get (fst st) url = Some card).
  { unfold Disasters.updateOrCreate in Hst.
    rewrite (@for_of_fold World _ _ _ fst
               (fun cards disaster =>
                  JsMap.delete cards (Disasters.Disaster.url disaster))
               _ (@Archival.disasters_one_remaining now Date_parse currentDate
                    lists labels World send) _ _ _ _ Hst).
    cbn [fst].
    fold (Archival.remaining disasters (Disasters.existingCards boardCards)).
    rewrite ByUrl.get_remaining by apply ByUrl.NoDup_existingCards.
    destruct (List.existsb (eqb url) (ByUrl.urls disasters)) eqn:E;
      [|exact Hcard].
    apply List.existsb_exists in E as [u [Hu He]]. apply eqb_eq in He. subst u.
    unfold ByUrl.urls in Hu. apply List.in_map_iff in Hu as [d [Hd Hin]].
    pose proof (@getDisasters_urls data disasters d Hds Hin) as Hhttp.
    rewrite Hd, Hurl in Hhttp. discriminate. }
  split; [exact Hleft|].
  intros Hlist Hopen. unfold Disasters.updateBoard.
  rewrite sent_bind. apply List.in_or_app. right.
  fold (Disasters.updateOrCreate now Date_parse currentDate lists labels send
          disasters (Disasters.existingCards boardCards)).
  rewrite Hst, sent_bind, Archival.archiveRemaining_sent.
  apply List.in_or_app. left.
  change (PUT_card (Card.id (Disasters.PCard.card card)) archive_data)
    with (Archival.archive card).
  apply List.in_map. unfold Archival.archived. apply List.filter_In. split.
  - unfold JsMap.values. change card with (snd (url, card)).
    apply List.in_map. now apply get_In.
  - now rewrite Hlist, Hopen.
Qed.

End Secure.

(** *** A board of two cards for one URL *)

Definition earlier : Card.t :=
  Example.tracked (lit "Flood") (lit "L2") (lit "0") (lit "FL-2020-000001-TCD").

Lemma the_last_card_of_a_url_is_matched_witness :
  JsMap.get (Disasters.existingCards [earlier; Example.card])
    (lit "http://reliefweb.int/taxonomy/term/100")
  = Some (Disasters.prepareCard Example.card).
Proof.
  refine (proj1 (proj1 (@the_last_card_of_a_url_is_matched
                          [earlier; Example.card]
                          (lit "http://reliefweb.int/taxonomy/term/100")
                          [earlier] [] Example.card) eq_refl) _ _).
  - reflexivity.
  - intros c [].
Defined.

Lemma a_run_changes_matched_cards_only_witness :
  exists before card later url,
    Service.cards Unsettled.renamed = before ++ card :: later
    /\ Card.id card = lit "C1"
    /\ first_url Disasters.urlPattern card = Some url
    /\ forall c, In c later -> first_url Disasters.urlPattern c <> Some url.
Proof.
  refine (proj1 (@a_run_changes_matched_cards_only Service.board Service.send
                   Example.now Example.Date_parse Example.currentDate
                   Example.labels (Service.cards Unsettled.renamed)
                   Unsettled.renamed
                   (PUT_card (lit "C1")
                      [(lit "name", VStr (lit "disaster.name"))])
                   (lit "C1") eq_refl)
            Example.lists [Example.disaster] _).
  vm_compute. now left.
Defined.

(** A card attached under [https:] to the disaster of the examples. *)
Definition secure : Card.t :=
  {| Card.id := lit "C7";
     Card.name := lit "Flood in Chad";
     Card.labels := [];
     Card.idList := lit "L2";
     Card.desc := [];
     Card.closed := false;
     Card.pos := 5 # 1;
     Card.attachments := Some [lit "https://reliefweb.int/taxonomy/term/10"];
     Card.checklists := None |}.

Lemma a_card_attached_under_https_is_archived_witness :
  In (PUT_card (lit "C7") archive_data)
    (sent (Disasters.updateBoard Example.now Example.Date_parse
             Example.currentDate Example.lists Example.labels Example.accept
             [secure]
             (Disasters.sortDisasters
                (Disasters.getExtraDisasterData Example.now Example.Date_parse
                   (List.map (Disasters.prepareDisaster Example.statusPositions)
                      [Sorting.newer])
                   (JsMap.of_list
                      (List.map
                         (fun name =>
                            (name, [JsNumber.numeral (97 * Example.day)]))
                         (Pipeline.facetNames
                            (List.map
                               (Disasters.prepareDisaster
                                  Example.statusPositions)
                               [Sorting.newer]))))))
             tt)).
Proof.
  refine (proj2 (@a_card_attached_under_https_is_archived
                   Example.statusPositions Example.now Example.Date_parse
                   Pipeline.facets Example.currentDate Example.lists
                   Example.labels unit Example.accept [Sorting.newer] _
                   [secure] (lit "https://reliefweb.int/taxonomy/term/10")
                   (Disasters.prepareCard secure) tt _ eq_refl _ _ _) _ _).
  - vm_compute. reflexivity.
  - reflexivity.
  - vm_compute. reflexivity.
  - reflexivity.
  - reflexivity.
Defined.

End Matching.


(** ** The countries run and the answers of the service *)

Module Answers.
Import Js JsFacts JsMapFacts Trello Async AsyncFacts.

Section Countries.

Variable statuses : JsMap.t str.
Variable now : Z.
Variable Date_parse : str -> option Z.
Variable currentDate : str.
Variable labels : JsMap.t Label.t.

(** The requests for one country: the label diff and the card update of
    its card, when it has one. *)
Definition requestsFor (cards : JsMap.t Countries.PCard.t)
    (country : Countries.Country.t) : list request :=
  match JsMap.get cards (Countries.Country.url country) with
  | Some card =>
      LabelDiff.requests (Card.id (Countries.PCard.card card))
        (JsMap.has labels)
        (ManagedLabels.wantedOfCountry now Date_parse labels statuses card
           country)
        (Card.labels (Countries.PCard.card card))
      ++ CardUpdate.put (Card.id (Countries.PCard.card card))
           (Countries.cardData currentDate card country)
  | None => []
  end.

Section Service.

Variable World : Type.
Variable send : request -> World -> option str * World.

Lemma updateCard_result card country (w : World) :
  exists changed,
    result (Countries.updateCard statuses now Date_parse currentDate labels
              send card country w) = Some changed.
Proof.
  unfold Countries.updateCard. rewrite result_bind.
  destruct (ManagedLabels.countries_requests now Date_parse labels statuses
              send card country w) as [_ [changed Hr]].
  rewrite Hr.
  destruct (0 <? JsMap.size _)%nat; [|now eexists].
  rewrite result_bind, result_await. now eexists.
Qed.

Lemma updateOne_run cards updated country (w : World) :
  sent (Countries.updateOne statuses now Date_parse currentDate labels send
          cards updated country w)
  = requestsFor cards country
  /\ exists updated',
      result (Countries.updateOne statuses now Date_parse currentDate labels
                send cards updated country w) = Some updated'.
Proof.
  unfold Countries.updateOne, requestsFor.
  destruct (JsMap.get cards (Countries.Country.url country)) as [card|];
    [|split; [reflexivity | now eexists]].
  destruct (updateCard_result card country w) as [changed Hc].
  run. rewrite Hc. run. rewrite List.app_nil_r.
  rewrite (CardUpdate.countries_sent now Date_parse currentDate labels
             statuses send card country w).
  destruct (ManagedLabels.countries_requests now Date_parse labels statuses
              send card country w) as [Hr _].
  rewrite Hr. split; [reflexivity | now eexists].
Qed.

Lemma updateBoard_run cards countries : forall updated (w : World),
  sent (for_of countries updated
          (Countries.updateOne statuses now Date_parse currentDate labels send
             cards) w)
  = List.flat_map (requestsFor cards) countries
  /\ exists updated',
      result (for_of countries updated
                (Countries.updateOne statuses now Date_parse currentDate labels
                   send cards) w) = Some updated'.
Proof.
  induction countries as [|country countries IH]; intros updated w.
  - split; [reflexivity | now eexists].
  - cbn [for_of List.flat_map]. rewrite sent_bind, result_bind.
    destruct (updateOne_run cards updated country w) as [Hs1 [n Hr1]].
    rewrite Hs1, Hr1.
    match goal with
    | |- context [sent (for_of countries n _ ?w')] =>
        destruct (IH n w') as [Hs Hres]
    end.
    rewrite Hs. split; [reflexivity | exact Hres].
Qed.

End Service.

(** X24.  The countries run asks for the same whatever the service
    answers.  [updateBoard] of the countries manager never throws, and
    the requests it sends are, for each country that has a card, the
    label diff of the card followed by its card update, in the order of
    the countries: they are the same for every service, so a request
    that fails neither stops the run nor changes what else is sent. *)
Theorem countries_requests_do_not_depend_on_the_answers
    (boardCards : list Card.t) (countries : list Countries.Country.t)
    World (send : request -> World -> option str * World) (w : World)
    World' (send' : request -> World' -> option str * World') (w' : World') :
  sent (Countries.updateBoard statuses now Date_parse currentDate labels send
          boardCards countries w)
  = List.flat_map (requestsFor (Countries.existingCards boardCards)) countries
  /\ sent (Countries.updateBoard statuses now Date_parse currentDate labels
             send boardCards countries w)
     = sent (Countries.updateBoard statuses now Date_parse currentDate labels
               send' boardCards countries w')
  /\ result (Countries.updateBoard statuses now Date_parse currentDate labels
               send boardCards countries w) <> None.
Proof.
  unfold Countries.updateBoard.
  destruct (updateBoard_run send (Countries.existingCards boardCards) countries
              O w) as [Hs [n Hr]].
  destruct (updateBoard_run send' (Countries.existingCards boardCards)
              countries O w') as [Hs' _].
  rewrite Hs, Hs', Hr. repeat split. discriminate.
Qed.

End Countries.

End Answers.


(** ** The label diff that spares the labels of the editors *)

Module Guarded.
Import Js JsFacts JsMapFacts Trello Async AsyncFacts LabelDiff.

Lemma In_delete_other {V} (m : JsMap.t V) (k : str) (e : str * V) :
  In e m -> fst e <> k -> In e (JsMap.delete m k).
Proof.
  induction m as [|[k0 v0] m IH]; simpl; [tauto|].
  intros [<-|H] Hk.
  - destruct (eqb k0 k) eqn:E; [|now left].
    apply eqb_eq in E. contradiction.
  - destruct (eqb k0 k); [exact H | right; now apply IH].
Qed.

Lemma In_has {V} (m : JsMap.t V) (e : str * V) :
  In e m -> JsMap.has m (fst e) = true.
Proof. intros H. apply has_keys. unfold JsMap.keys. now apply List.in_map. Qed.

Section Diff.

(** [this.labels.has(name)]: the label is one of the manager. *)
Variable managed : str -> bool.

(** The labels of the card that the first loop of [updateCardLabels]
    leaves in place: the wanted ones and those of the editors. *)
Fixpoint kept (wanted : JsMap.t str) (cardLabels : list Label.t)
    : list Label.t :=
  match cardLabels with
  | [] => []
  | label :: rest =>
      if negb (JsMap.has wanted (Label.name label)) then
        if managed (Label.name label) then kept wanted rest
        else label :: kept wanted rest
      else label :: kept (JsMap.delete wanted (Label.name label)) rest
  end.

(** The labels of a card after the requests of the label diff. *)
Definition relabelled (wanted : JsMap.t str) (cardLabels : list Label.t)
    : list Label.t :=
  kept wanted cardLabels
  ++ List.map Relabel.label_of (missing wanted cardLabels).

Lemma removed_spared (wanted : JsMap.t str) (cardLabels : list Label.t) :
  removed managed wanted (kept wanted cardLabels) = []
  /\ missing wanted (kept wanted cardLabels) = missing wanted cardLabels.
Proof.
  revert wanted. induction cardLabels as [|l rest IH]; intros wanted;
    [now split|].
  cbn [kept missing].
  destruct (JsMap.has wanted (Label.name l)) eqn:E; cbn [negb].
  - cbn [removed missing]. rewrite E. cbn [negb]. apply IH.
  - destruct (managed (Label.name l)) eqn:Em; [apply IH|].
    cbn [removed missing]. rewrite E, Em. cbn [negb]. apply IH.
Qed.

Lemma removed_added (m : JsMap.t str) :
  removed managed m (List.map Relabel.label_of m) = []
  /\ missing m (List.map Relabel.label_of m) = [].
Proof.
  induction m as [|[k v] m IH]; [now split|].
  cbn [List.map removed missing Relabel.label_of Label.name fst].
  unfold JsMap.has. cbn [JsMap.get JsMap.delete]. rewrite eqb_refl.
  cbn [negb]. exact IH.
Qed.

Lemma relabelled_quiet cardId (wanted : JsMap.t str) cardLabels :
  requests cardId managed wanted (relabelled wanted cardLabels) = [].
Proof.
  unfold requests, relabelled.
  rewrite Relabel.removed_app, Relabel.missing_app.
  destruct (removed_spared wanted cardLabels) as [Hr Hm].
  rewrite Hr, Hm.
  destruct (removed_added (missing wanted cardLabels)) as [Hr' Hm'].
  now rewrite Hr', Hm'.
Qed.

Lemma filter_spared (wanted : JsMap.t str) (cardLabels : list Label.t) :
  NoDup (List.map Label.id cardLabels) ->
  List.filter
    (fun l =>
       negb (List.existsb (fun r => eqb (Label.id l) (Label.id r))
               (removed managed wanted cardLabels)))
    cardLabels
  = kept wanted cardLabels.
Proof.
  revert wanted. induction cardLabels as [|l rest IH]; intros wanted Hnd;
    [reflexivity|].
  inversion Hnd as [|? ? Hnotin Hnd']; subst.
  assert (Hrest : forall wanted',
             List.existsb (fun r => eqb (Label.id l) (Label.id r))
               (removed managed wanted' rest) = false).
  { intros wanted'. apply not_true_is_false. intros H.
    apply List.existsb_exists in H as [r [Hr He]].
    apply eqb_eq in He. apply removed_managed in Hr as [Hr _].
    apply Hnotin. rewrite He. now apply List.in_map. }
  assert (Hskip : forall wanted',
             List.filter
               (fun x =>
                  negb (List.existsb (fun r => eqb (Label.id x) (Label.id r))
                          (l :: removed managed wanted' rest)))
               rest
             = List.filter
                 (fun x =>
                    negb (List.existsb (fun r => eqb (Label.id x) (Label.id r))
                            (removed managed wanted' rest)))
                 rest).
  { intros wanted'. apply List.filter_ext_in. intros x Hx.
    cbn [List.existsb].
    destruct (eqb (Label.id x) (Label.id l)) eqn:Ex; [|reflexivity].
    apply eqb_eq in Ex. exfalso. apply Hnotin. rewrite <- Ex.
    now apply List.in_map. }
  cbn [removed kept].
  destruct (JsMap.has wanted (Label.name l)) eqn:E; cbn [negb].
  - cbn [List.filter]. rewrite Hrest. cbn [negb]. f_equal. now apply IH.
  - destruct (managed (Label.name l)) eqn:Em.
    + cbn [List.filter List.existsb]. rewrite eqb_refl. cbn [orb negb].
      rewrite <- (IH wanted Hnd'). apply Hskip.
    + cbn [List.filter]. rewrite Hrest. cbn [negb]. f_equal. now apply IH.
Qed.

(** What the service makes of the labels of a card when it serves the
    requests of the label diff. *)
Lemma effects_requests (boardLabels : list Label.t) (cardId : str)
    (wanted : JsMap.t str) (c : Card.t) :
  NoDup (List.map Label.id (Card.labels c)) ->
  (forall e, In e wanted -> NewLabels.known boardLabels e) ->
  OnCard.effects boardLabels
    (requests cardId managed wanted (Card.labels c)) c
  = Service.set_labels c (relabelled wanted (Card.labels c)).
Proof.
  intros Hnd Hknown. unfold requests, relabelled.
  rewrite Settle.effects_app, Settle.effects_removed, Settle.effects_added
    by (intros e He; apply Hknown; now apply Settle.In_missing in He).
  cbn [Service.set_labels Card.labels].
  now rewrite (@filter_spared wanted (Card.labels c) Hnd).
Qed.

(** *** The labels of the card afterwards *)

(** Every wanted label is on the card. *)
Lemma relabelled_wanted (cardLabels : list Label.t) :
  forall (wanted : JsMap.t str) e,
  In e wanted ->
  exists l, In l (relabelled wanted cardLabels) /\ Label.name l = fst e.
Proof.
  unfold relabelled.
  induction cardLabels as [|l rest IH]; intros wanted e He.
  - cbn [kept missing List.app]. exists (Relabel.label_of e).
    split; [now apply List.in_map | reflexivity].
  - cbn [kept missing].
    destruct (JsMap.has wanted (Label.name l)) eqn:E; cbn [negb].
    + destruct (List.list_eq_dec N.eq_dec (fst e) (Label.name l)) as [Hn|Hn].
      * exists l. split; [now left | now symmetry].
      * destruct (IH (JsMap.delete wanted (Label.name l)) e
                    (In_delete_other _ _ He Hn)) as [x [Hx Hname]].
        exists x. split; [now right | exact Hname].
    + destruct (IH wanted e He) as [x [Hx Hname]]. exists x.
      split; [|exact Hname].
      destruct (managed (Label.name l)); [exact Hx | now right].
Qed.

(** No label of the card is managed and not wanted. *)
Lemma relabelled_managed (cardLabels : list Label.t) :
  forall (wanted : JsMap.t str) l,
  In l (relabelled wanted cardLabels) ->
  managed (Label.name l) = true ->
  JsMap.has wanted (Label.name l) = true.
Proof.
  unfold relabelled. intros wanted l Hin Hm.
  apply List.in_app_or in Hin as [Hin|Hin].
  - revert wanted Hin.
    induction cardLabels as [|x rest IH]; intros wanted Hin; [destruct Hin|].
    cbn [kept] in Hin.
    destruct (JsMap.has wanted (Label.name x)) eqn:E; cbn [negb] in Hin.
    + destruct Hin as [<-|Hin]; [exact E|].
      apply has_delete_true with (Label.name x). now apply IH.
    + destruct (managed (Label.name x)) eqn:Ex; [now apply IH|].
      destruct Hin as [<-|Hin]; [congruence | now apply IH].
  - apply List.in_map_iff in Hin as [e [<- He]].
    apply Settle.In_missing in He. now apply In_has in He.
Qed.

(** The labels that are not managed are where they were. *)
Lemma relabelled_unmanaged (cardLabels : list Label.t) :
  forall wanted : JsMap.t str,
  (forall e, In e wanted -> managed (fst e) = true) ->
  List.filter (fun l => negb (managed (Label.name l)))
    (relabelled wanted cardLabels)
  = List.filter (fun l => negb (managed (Label.name l))) cardLabels.
Proof.
  unfold relabelled. intros wanted Hw. rewrite List.filter_app.
  assert (Hnew : List.filter (fun l => negb (managed (Label.name l)))
                   (List.map Relabel.label_of (missing wanted cardLabels))
                 = []).
  { apply Quiet.filter_none. intros l Hl.
    apply List.in_map_iff in Hl as [e [<- He]].
    apply Settle.In_missing in He. cbn [Relabel.label_of Label.name].
    now rewrite (Hw e He). }
  rewrite Hnew, List.app_nil_r. clear Hnew. revert wanted Hw.
  induction cardLabels as [|x rest IH]; intros wanted Hw; [reflexivity|].
  cbn [kept List.filter].
  destruct (JsMap.has wanted (Label.name x)) eqn:E; cbn [negb].
  - assert (Hx : managed (Label.name x) = true).
    { apply has_keys in E. unfold JsMap.keys in E.
      apply List.in_map_iff in E as [e [He Hin]]. rewrite <- He.
      now apply Hw. }
    cbn [List.filter]. rewrite Hx. cbn [negb]. apply IH.
    intros e He. apply Hw. now apply In_delete in He.
  - destruct (managed (Label.name x)) eqn:Ex; cbn [negb].
    + now apply IH.
    + cbn [List.filter]. rewrite Ex. cbn [negb]. f_equal. now apply IH.
Qed.

End Diff.

(** *** The wanted labels are labels of the manager *)

Section Wanted.

Variable labels : JsMap.t Label.t.

(** A property of the entries that [this.labels] gives rise to. *)
Variable P : str * str -> Prop.

Hypothesis keyed :
  forall key label, JsMap.get labels key = Some label -> P (key, Label.id label).

Hypothesis named :
  forall key label,
    JsMap.get labels key = Some label -> P (Label.name label, Label.id label).

Definition All (m : JsMap.t str) : Prop := forall e, In e m -> P e.

Lemma All_empty : All JsMap.empty.
Proof. intros e []. Qed.

Lemma All_set (m : JsMap.t str) k v : All m -> P (k, v) -> All (JsMap.set m k v).
Proof.
  intros Hm Hk e He. apply In_set in He as [He|[Hv Hkey]]; [now apply Hm|].
  destruct e as [k' v']. cbn [fst snd] in *. now subst.
Qed.

Lemma All_set_term (m : JsMap.t str) item :
  All m -> All (Disasters.set_term labels m item).
Proof.
  intros Hm. unfold Disasters.set_term.
  destruct (JsMap.get labels item) as [label|] eqn:E; [|exact Hm].
  apply All_set; [exact Hm | now apply keyed].
Qed.

Lemma All_set_label (m : JsMap.t str) key :
  All m -> All (Disasters.set_label labels m key).
Proof.
  intros Hm. unfold Disasters.set_label.
  destruct (JsMap.get labels key) as [label|] eqn:E; [|exact Hm].
  apply All_set; [exact Hm | now apply named with key].
Qed.

Lemma All_set_if cond (m : JsMap.t str) key :
  All m -> All (Countries.set_if labels cond m key).
Proof.
  intros Hm. unfold Countries.set_if.
  destruct (JsMap.get labels key) as [label|] eqn:E; [|exact Hm].
  destruct cond; [|exact Hm]. apply All_set; [exact Hm | now apply keyed].
Qed.

Lemma All_terms items : forall m : JsMap.t str,
  All m -> All (List.fold_left (Disasters.set_term labels) items m).
Proof.
  induction items as [|item items IH]; intros m Hm; [exact Hm|].
  cbn [List.fold_left]. apply IH. now apply All_set_term.
Qed.

Lemma All_countries_set_label (m : JsMap.t str) key :
  All m -> All (Countries.set_label labels m key).
Proof. exact (@All_set_label m key). Qed.

Lemma All_topics_set_label (m : JsMap.t str) key :
  All m -> All (Topics.set_label labels m key).
Proof. exact (@All_set_label m key). Qed.

Lemma All_topics_terms items (m : JsMap.t str) :
  All m -> All (List.fold_left (Topics.set_term labels) items m).
Proof. exact (@All_terms items m). Qed.

Lemma All_of_list (l : list (str * str)) : All l -> All (JsMap.of_list l).
Proof. intros H e He. apply H. now apply NewLabels.In_of_list. Qed.

Lemma All_app (l l' : list (str * str)) : All l -> All l' -> All (l ++ l').
Proof. intros H H' e He. apply List.in_app_or in He as [He|He]; auto. Qed.

Variable now : Z.
Variable Date_parse : str -> option Z.

Lemma All_getProfileUpdateLabel lastUpdate :
  All (Countries.getProfileUpdateLabel now Date_parse labels lastUpdate).
Proof.
  unfold Countries.getProfileUpdateLabel.
  repeat match goal with
         | |- context [if ?c then _ else _] => destruct c
         end;
    try apply All_countries_set_label; apply All_empty.
Qed.

Lemma All_wantedOfCountry statuses card country :
  All (ManagedLabels.wantedOfCountry now Date_parse labels statuses card
         country).
Proof.
  unfold ManagedLabels.wantedOfCountry.
  apply All_of_list, All_app; [|apply All_getProfileUpdateLabel].
  unfold Countries.getCountryLabels.
  repeat match goal with
         | |- context [match ?x with Some _ => _ | None => _ end] =>
             destruct x
         end;
    repeat apply All_set_if; apply All_empty.
Qed.

Lemma All_getTopicLabels lists topic wanted :
  Topics.getTopicLabels now Date_parse lists labels topic = Some wanted ->
  All wanted.
Proof.
  unfold Topics.getTopicLabels.
  destruct (JsMap.get lists (Topics.Topic.status topic)) as [list|];
    [|discriminate].
  intros H. injection H as <-.
  assert (H1 : All match Topics.Topic.disaster_type topic with
                   | Some items =>
                       List.fold_left (Topics.set_term labels) items JsMap.empty
                   | None => JsMap.empty
                   end).
  { destruct (Topics.Topic.disaster_type topic);
      [apply All_topics_terms|]; apply All_empty. }
  assert (H2 : All match Topics.Topic.theme topic with
                   | Some items =>
                       List.fold_left (Topics.set_term labels) items
                         match Topics.Topic.disaster_type topic with
                         | Some items =>
                             List.fold_left (Topics.set_term labels) items
                               JsMap.empty
                         | None => JsMap.empty
                         end
                   | None =>
                       match Topics.Topic.disaster_type topic with
                       | Some items =>
                           List.fold_left (Topics.set_term labels) items
                             JsMap.empty
                       | None => JsMap.empty
                       end
                   end).
  { destruct (Topics.Topic.theme topic);
      [now apply All_topics_terms | exact H1]. }
  destruct (Topics.Topic.featured topic);
    repeat match goal with
           | |- context [if ?c then _ else _] => destruct c
           end;
    repeat apply All_topics_set_label; exact H2.
Qed.

End Wanted.

Section Managers.

Variable now : Z.
Variable Date_parse : str -> option Z.
Variable labels : JsMap.t Label.t.
Variable boardLabels : list Label.t.

Hypothesis consistent : NewLabels.Consistent labels boardLabels.

Lemma known_keyed key label :
  JsMap.get labels key = Some label ->
  NewLabels.known boardLabels (key, Label.id label).
Proof.
  intros E. destruct (consistent _ E) as [Hname Hfind].
  unfold NewLabels.known, Relabel.label_of. cbn [fst snd]. rewrite Hfind.
  f_equal. destruct label. cbn in *. now subst.
Qed.

Lemma known_named key label :
  JsMap.get labels key = Some label ->
  NewLabels.known boardLabels (Label.name label, Label.id label).
Proof.
  intros E. destruct (consistent _ E) as [Hname Hfind].
  rewrite Hname. now apply known_keyed.
Qed.

Lemma managed_keyed key (label : Label.t) :
  JsMap.get labels key = Some label ->
  JsMap.has labels (fst (key, Label.id label)) = true.
Proof. intros E. unfold JsMap.has. cbn [fst]. now rewrite E. Qed.

Lemma managed_named key label :
  JsMap.get labels key = Some label ->
  JsMap.has labels (fst (Label.name label, Label.id label)) = true.
Proof.
  intros E. destruct (consistent _ E) as [Hname _]. cbn [fst].
  rewrite Hname. unfold JsMap.has. now rewrite E.
Qed.

(** X25.  The label diff of the topics and of the countries managers
    settles in one run and spares the labels of the editors.  When the
    labels of the card have distinct ids and the labels of the manager
    are the labels of the board, by name, the card as the service leaves
    it after the requests of [updateCardLabels] bears a label for every
    wanted name, bears no label that the manager manages and does not
    want, and has the labels that the manager does not manage where they
    were; and [updateCardLabels] for the same entity sends no request for
    that card.  When the status of a topic has no list,
    [updateCardLabels] throws before it sends anything. *)
Theorem guarded_label_diff_settles_in_one_run
    World (send : request -> World -> option str * World) (w : World)
    World' (send' : request -> World' -> option str * World') (w' : World')
    (c : Card.t) :
  NoDup (List.map Label.id (Card.labels c)) ->
  let unmanaged (l : Label.t) := negb (JsMap.has labels (Label.name l)) in
  (forall statuses (card : Countries.PCard.t) country,
      Countries.PCard.card card = c ->
      let wanted :=
        ManagedLabels.wantedOfCountry now Date_parse labels statuses card
          country in
      let first :=
        sent (Countries.updateCardLabels statuses now Date_parse labels send
                card country w) in
      let c' := OnCard.effects boardLabels first c in
      (forall e, In e wanted ->
                 exists l, In l (Card.labels c') /\ Label.name l = fst e)
      /\ (forall l, In l (Card.labels c') ->
                    JsMap.has labels (Label.name l) = true ->
                    JsMap.has wanted (Label.name l) = true)
      /\ List.filter unmanaged (Card.labels c')
         = List.filter unmanaged (Card.labels c)
      /\ sent (Countries.updateCardLabels statuses now Date_parse labels send'
                 {| Countries.PCard.card := c';
                    Countries.PCard.profileUpdate :=
                      Countries.PCard.profileUpdate card;
                    Countries.PCard.description :=
                      Countries.PCard.description card |}
                 country w') = [])
  /\ (forall lists (card : Topics.PCard.t) topic wanted,
         Topics.PCard.card card = c ->
         Topics.getTopicLabels now Date_parse lists labels topic
         = Some wanted ->
         let first :=
           sent (Topics.updateCardLabels now Date_parse lists labels send
                   card topic w) in
         let c' := OnCard.effects boardLabels first c in
         (forall e, In e wanted ->
                    exists l, In l (Card.labels c') /\ Label.name l = fst e)
         /\ (forall l, In l (Card.labels c') ->
                       JsMap.has labels (Label.name l) = true ->
                       JsMap.has wanted (Label.name l) = true)
         /\ List.filter unmanaged (Card.labels c')
            = List.filter unmanaged (Card.labels c)
         /\ sent (Topics.updateCardLabels now Date_parse lists labels send'
                    {| Topics.PCard.card := c';
                       Topics.PCard.lastUpdate := Topics.PCard.lastUpdate card;
                       Topics.PCard.introduction :=
                         Topics.PCard.introduction card |}
                    topic w') = [])
  /\ (forall lists (card : Topics.PCard.t) topic,
         Topics.getTopicLabels now Date_parse lists labels topic = None ->
         sent (Topics.updateCardLabels now Date_parse lists labels send
                 card topic w) = []
         /\ result (Topics.updateCardLabels now Date_parse lists labels send
                      card topic w) = None).
Proof.
  intros Hnd. cbv zeta. split; [|split].
  3:{ intros lists card topic Ew. unfold Topics.updateCardLabels.
      rewrite Ew. split; reflexivity. }
  - intros statuses card country Hc.
    destruct (ManagedLabels.countries_requests now Date_parse labels statuses
                send card country w) as [Hfirst _].
    rewrite Hfirst, Hc.
    rewrite effects_requests;
      [|exact Hnd
       |apply (@All_wantedOfCountry labels (NewLabels.known boardLabels)
                 known_keyed known_named)].
    cbn [Service.set_labels Card.labels].
    split; [apply relabelled_wanted|].
    split; [apply relabelled_managed|].
    split.
    { apply (@relabelled_unmanaged (JsMap.has labels)).
      apply (@All_wantedOfCountry labels
               (fun e => JsMap.has labels (fst e) = true)
               managed_keyed managed_named). }
    match goal with
    | |- sent (Countries.updateCardLabels _ _ _ _ _ ?card' _ _) = _ =>
        destruct (ManagedLabels.countries_requests now Date_parse labels
                    statuses send' card' country w') as [Hsecond _]
    end.
    rewrite Hsecond. cbn [Countries.PCard.card Card.labels Card.id].
    unfold ManagedLabels.wantedOfCountry.
    cbn [Countries.PCard.profileUpdate].
    apply relabelled_quiet.
  - intros lists card topic wanted Hc Ew.
    destruct (ManagedLabels.topics_requests now Date_parse lists labels send
                card topic w Ew) as [Hfirst _].
    rewrite Hfirst, Hc.
    rewrite effects_requests;
      [|exact Hnd
       |apply (@All_getTopicLabels labels (NewLabels.known boardLabels)
                 known_keyed known_named now Date_parse lists topic wanted Ew)].
    cbn [Service.set_labels Card.labels].
    split; [apply relabelled_wanted|].
    split; [apply relabelled_managed|].
    split.
    { apply (@relabelled_unmanaged (JsMap.has labels)).
      apply (@All_getTopicLabels labels
               (fun e => JsMap.has labels (fst e) = true)
               managed_keyed managed_named now Date_parse lists topic wanted
               Ew). }
    match goal with
    | |- sent (Topics.updateCardLabels _ _ _ _ _ ?card' _ _) = _ =>
        destruct (ManagedLabels.topics_requests now Date_parse lists labels
                    send' card' topic w' Ew) as [Hsecond _]
    end.
    rewrite Hsecond. cbn [Topics.PCard.card Card.labels Card.id].
    apply relabelled_quiet.
Qed.

End Managers.

(** The labels of the board of the examples. *)
Definition boardLabels : list Label.t :=
  [Example.flood; Example.chad; Label.Build_t (lit "B3") (lit "Ongoing")].

Lemma boardLabels_Consistent :
  NewLabels.Consistent Example.labels boardLabels.
Proof.
  intros key label H. apply get_In in H.
  destruct H as [H|[H|[H|[]]]]; injection H as <- <-; now split.
Qed.

(** The card of the examples, as the topics manager prepares it. *)
Definition topicCard : Topics.PCard.t :=
  {| Topics.PCard.card := Example.card;
     Topics.PCard.lastUpdate := Some (lit "10 Apr 1970 00:00:00 UTC");
     Topics.PCard.introduction := Some (lit "About floods.") |}.

(** The card of the examples bears the label of an editor and the label
    [Chad], which the topic does not want: the latter goes, the former
    stays, and the two labels of the topic are added. *)
Lemma guarded_label_diff_settles_in_one_run_witness :
  sent (Topics.updateCardLabels Example.now Example.Date_parse Example.lists
          Example.labels Example.accept topicCard Example.topic tt)
  = [DELETE_card_idLabel (lit "C1") (lit "B2");
     POST_card_idLabels (lit "C1") (lit "B1");
     POST_card_idLabels (lit "C1") (lit "B3")]
  /\ List.filter
       (fun l => negb (JsMap.has Example.labels (Label.name l)))
       (Card.labels
          (OnCard.effects boardLabels
             (sent (Topics.updateCardLabels Example.now Example.Date_parse
                      Example.lists Example.labels Example.accept topicCard
                      Example.topic tt))
             Example.card))
     = [Example.custom]
  /\ sent (Topics.updateCardLabels Example.now Example.Date_parse
             Example.lists Example.labels Example.reject
             {| Topics.PCard.card :=
                  OnCard.effects boardLabels
                    (sent (Topics.updateCardLabels Example.now
                             Example.Date_parse Example.lists Example.labels
                             Example.accept topicCard Example.topic tt))
                    Example.card;
                Topics.PCard.lastUpdate := Topics.PCard.lastUpdate topicCard;
                Topics.PCard.introduction :=
                  Topics.PCard.introduction topicCard |}
             Example.topic tt) = [].
Proof.
  split; [vm_compute; reflexivity|].
  assert (Hnd : NoDup (List.map Label.id (Card.labels Example.card)))
    by (repeat constructor; simpl; intuition discriminate).
  destruct (proj1 (proj2 (@guarded_label_diff_settles_in_one_run Example.now
                     Example.Date_parse Example.labels boardLabels
                     boardLabels_Consistent unit Example.accept tt
                     unit Example.reject tt Example.card Hnd))
              Example.lists topicCard Example.topic
              [(lit "Flood", lit "B1"); (lit "Ongoing", lit "B3")]
              eq_refl eq_refl)
    as [_ [_ [Hkept Hquiet]]].
  split; [|exact Hquiet].
  rewrite Hkept. reflexivity.
Defined.

End Guarded.


(** ** The positions of the checklist items *)

Module Numbering.
Import Js JsFacts JsMapFacts.

(** The items are numbered from one, in the order of the map. *)
Definition Numbered (items : JsMap.t Topics.Item.t) : Prop :=
  List.map Topics.Item.position (JsMap.values items)
  = List.map Z.of_nat (List.seq 1 (JsMap.size items)).

(** [river.id.indexOf('section-') === 0]. *)
Definition isSection (river : Topics.River.t) : bool :=
  indexOf (Topics.River.id river) (lit "section-") =? 0.

Definition resourceUrl (m : str * str) : str := trim (fst m).

Lemma Numbered_empty : Numbered JsMap.empty.
Proof. reflexivity. Qed.

Lemma Numbered_set (items : JsMap.t Topics.Item.t) (url title name : str) :
  ~ In url (JsMap.keys items) ->
  Numbered items ->
  let items' :=
    JsMap.set items url
      {| Topics.Item.url := url;
         Topics.Item.title := title;
         Topics.Item.name := name;
         Topics.Item.position := Z.of_nat (JsMap.size items) + 1 |} in
  JsMap.keys items' = JsMap.keys items ++ [url] /\ Numbered items'.
Proof.
  intros Hnew Hn. cbv zeta. rewrite (@NewLabels.set_new _ items url _ Hnew).
  unfold Numbered, JsMap.keys, JsMap.values, JsMap.size in *.
  rewrite !List.map_app, List.length_app. cbn [List.map List.length fst snd].
  split; [reflexivity|].
  rewrite Nat.add_1_r, List.seq_S, List.map_app, Hn.
  cbn [List.map Topics.Item.position]. do 2 f_equal. lia.
Qed.

Lemma rivers_numbered (rivers : list Topics.River.t) : forall st,
  NoDup (JsMap.keys (fst st) ++ JsMap.keys (snd st)
         ++ List.map Topics.River.url rivers) ->
  Numbered (fst st) -> Numbered (snd st) ->
  let st' := List.fold_left Topics.addRiver rivers st in
  JsMap.keys (fst st')
  = JsMap.keys (fst st)
    ++ List.map Topics.River.url
         (List.filter (fun r => negb (isSection r)) rivers)
  /\ JsMap.keys (snd st')
     = JsMap.keys (snd st)
       ++ List.map Topics.River.url (List.filter isSection rivers)
  /\ Numbered (fst st') /\ Numbered (snd st').
Proof.
  induction rivers as [|river rivers IH]; intros [rs ss] Hnd H1 H2; cbv zeta.
  - cbn [List.fold_left List.filter List.map]. now rewrite !List.app_nil_r.
  - cbn [List.fold_left List.filter fst snd List.map] in *.
    assert (Hnd' : NoDup ((JsMap.keys rs ++ JsMap.keys ss)
                          ++ Topics.River.url river
                             :: List.map Topics.River.url rivers))
      by (rewrite <- List.app_assoc; exact Hnd).
    apply List.NoDup_remove in Hnd' as [Hrest Hout].
    rewrite <- List.app_assoc in Hrest, Hout.
    assert (Hrs : ~ In (Topics.River.url river) (JsMap.keys rs))
      by (intros Hin; apply Hout; apply List.in_or_app; now left).
    assert (Hss : ~ In (Topics.River.url river) (JsMap.keys ss))
      by (intros Hin; apply Hout; apply List.in_or_app; right;
          apply List.in_or_app; now left).
    unfold Topics.addRiver at 2 4 6 8. cbn [fst snd]. fold (isSection river).
    destruct (isSection river) eqn:E; cbn [negb List.map].
    + destruct (@Numbered_set ss (Topics.River.url river)
                  (Topics.River.title river)
                  (Topics.generateMarkdownLink (Topics.River.url river)
                     (Topics.River.title river)) Hss H2) as [Hk Hn].
      match goal with
      | |- context [List.fold_left Topics.addRiver rivers ?s] =>
          destruct (IH s) as [K1 [K2 [N1 N2]]]
      end; cbn [fst snd]; [| exact H1 | exact Hn |].
      * rewrite Hk, <- !List.app_assoc. exact Hnd.
      * cbn [fst snd] in *. rewrite K1, K2, Hk, <- List.app_assoc.
        repeat split; auto.
    + destruct (@Numbered_set rs (Topics.River.url river)
                  (Topics.River.title river)
                  (Topics.generateMarkdownLink (Topics.River.url river)
                     (Topics.River.title river)) Hrs H1) as [Hk Hn].
      match goal with
      | |- context [List.fold_left Topics.addRiver rivers ?s] =>
          destruct (IH s) as [K1 [K2 [N1 N2]]]
      end; cbn [fst snd]; [| exact Hn | exact H2 |].
      * rewrite Hk, <- !List.app_assoc. cbn [List.app].
        apply (@Permutation.Permutation_NoDup _
                 (Topics.River.url river
                  :: JsMap.keys rs ++ JsMap.keys ss
                     ++ List.map Topics.River.url rivers));
          [apply Permutation.Permutation_middle | now constructor].
      * cbn [fst snd] in *. rewrite K1, K2, Hk, <- List.app_assoc.
        repeat split; auto.
Qed.

Lemma resources_numbered (matches : list (str * str)) : forall resources,
  NoDup (JsMap.keys resources ++ List.map resourceUrl matches) ->
  Numbered resources ->
  let resources' := List.fold_left Topics.addResource matches resources in
  JsMap.keys resources' = JsMap.keys resources ++ List.map resourceUrl matches
  /\ Numbered resources'.
Proof.
  induction matches as [|m matches IH]; intros resources Hnd Hn; cbv zeta.
  - cbn [List.fold_left List.map]. now rewrite List.app_nil_r.
  - cbn [List.fold_left List.map] in *.
    assert (Hnew : ~ In (resourceUrl m) (JsMap.keys resources)).
    { intros Hin. apply List.NoDup_remove_2 in Hnd. apply Hnd.
      apply List.in_or_app. now left. }
    unfold Topics.addResource at 2 4.
    destruct (@Numbered_set resources (resourceUrl m)
                (or_else (trim (snd m)) (trim (fst m)))
                (Topics.generateMarkdownLink (trim (fst m)) (trim (snd m)))
                Hnew Hn) as [Hk Hn'].
    unfold resourceUrl in Hk, Hn'.
    match goal with
    | |- context [List.fold_left Topics.addResource matches ?s] =>
        destruct (IH s) as [K N]
    end; [| exact Hn' |].
    + rewrite Hk, <- List.app_assoc. exact Hnd.
    + rewrite K, Hk, <- List.app_assoc. now split.
Qed.

Section Manager.

Variable statusPositions : JsMap.t Z.
Variable now : Z.
Variable Date_parse : str -> option Z.
Variable Date_format : option Z -> str.

(** X26.  The checklist items of a topic are numbered in the order of the
    topic.  When the rivers of the topic have distinct URLs and its
    resource links have distinct URLs, once trimmed, [prepareTopic]
    builds three checklists, Rivers, Sections and Resources, in this
    order; Sections has the rivers whose id begins with [section-],
    Rivers the other ones and Resources the resource links, each keyed
    by the URLs in the order of the topic, and the positions of the
    items of each checklist are 1, 2, ... in that order. *)
Theorem checklist_items_are_numbered (topic : Topics.Fields.t) :
  let rivers :=
    match Topics.Fields.rivers topic with Some l => l | None => [] end in
  let matches :=
    match Topics.Fields.resources topic with Some l => l | None => [] end in
  NoDup (List.map Topics.River.url rivers) ->
  NoDup (List.map resourceUrl matches) ->
  exists r s l,
    Topics.Topic.checklists
      (Topics.prepareTopic statusPositions now Date_parse Date_format topic)
    = [(lit "Rivers", r); (lit "Sections", s); (lit "Resources", l)]
    /\ JsMap.keys r
       = List.map Topics.River.url
           (List.filter (fun x => negb (isSection x)) rivers)
    /\ JsMap.keys s
       = List.map Topics.River.url (List.filter isSection rivers)
    /\ JsMap.keys l = List.map resourceUrl matches
    /\ Numbered r /\ Numbered s /\ Numbered l.
Proof.
  cbv zeta. intros Hrivers Hmatches.
  unfold Topics.prepareTopic. cbn [Topics.Topic.checklists].
  do 3 eexists. split; [reflexivity|].
  assert (Hr := @rivers_numbered
                  match Topics.Fields.rivers topic with
                  | Some l => l
                  | None => []
                  end (JsMap.empty, JsMap.empty) Hrivers Numbered_empty
                  Numbered_empty).
  assert (Hl := @resources_numbered
                  match Topics.Fields.resources topic with
                  | Some l => l
                  | None => []
                  end JsMap.empty Hmatches Numbered_empty).
  cbv zeta in Hr, Hl. cbn [fst snd JsMap.keys JsMap.empty List.map List.app]
    in Hr, Hl.
  destruct (Topics.Fields.rivers topic) as [rivers|];
    destruct (Topics.Fields.resources topic) as [matches|];
    cbn [List.fold_left] in Hr, Hl;
    destruct Hr as [K1 [K2 [N1 N2]]]; destruct Hl as [K3 N3];
    repeat split; assumption.
Qed.

End Manager.

(** A topic with a river, a section and two resource links. *)
Definition numberedTopic : Topics.Fields.t :=
  {| Topics.Fields.id := 100;
     Topics.Fields.url := lit "https://reliefweb.int/node/100";
     Topics.Fields.title := lit "Floods";
     Topics.Fields.date_changed := JsNumber.numeral Example.now;
     Topics.Fields.status := lit "ongoing";
     Topics.Fields.featured := false;
     Topics.Fields.introduction := None;
     Topics.Fields.rivers :=
       Some [Topics.River.Build_t (lit "section-1")
               (lit "https://reliefweb.int/maps") (lit "Maps");
             Topics.River.Build_t (lit "river-1")
               (lit "https://reliefweb.int/updates") (lit "Updates")];
     Topics.Fields.resources :=
       Some [(lit " https://example.org/a ", lit " A guide ");
             (lit "https://example.org/b", lit "B")];
     Topics.Fields.disaster_type := None;
     Topics.Fields.theme := None |}.

Lemma checklist_items_are_numbered_witness :
  exists r s l,
    Topics.Topic.checklists
      (Topics.prepareTopic Example.statusPositions Example.now
         Example.Date_parse (fun _ => lit "10 Apr 1970") numberedTopic)
    = [(lit "Rivers", r); (lit "Sections", s); (lit "Resources", l)]
    /\ JsMap.keys r = [lit "https://reliefweb.int/updates"]
    /\ JsMap.keys s = [lit "https://reliefweb.int/maps"]
    /\ JsMap.keys l = [lit "https://example.org/a"; lit "https://example.org/b"]
    /\ Numbered r /\ Numbered s /\ Numbered l.
Proof.
  apply (@checklist_items_are_numbered Example.statusPositions Example.now
           Example.Date_parse (fun _ => lit "10 Apr 1970") numberedTopic);
    vm_compute; repeat constructor; intros H;
    repeat destruct H as [H|H]; try discriminate; exact H.
Defined.

End Numbering.

(** ** The cards that no disaster consumes (C6) *)

Module Leftover.
Import Js JsFacts JsMapFacts JsNumber Trello Async AsyncFacts LabelDiff
  CardUpdate.

(** *** The values of a Map under a key that tells them apart *)

Section Values.

Variable V : Type.
Variable f : V -> str.

Lemma values_set (m : JsMap.t V) k v x :
  In x (JsMap.values (JsMap.set m k v)) -> x = v \/ In x (JsMap.values m).
Proof.
  unfold JsMap.values. rewrite !List.in_map_iff. intros [e [<- He]].
  apply In_set in He as [He|[Hv _]]; [|now left].
  right. now exists e.
Qed.

Lemma values_delete (m : JsMap.t V) k x :
  In x (JsMap.values (JsMap.delete m k)) -> In x (JsMap.values m).
Proof.
  unfold JsMap.values. rewrite !List.in_map_iff. intros [e [<- He]].
  exists e. split; [reflexivity | now apply In_delete with k].
Qed.

Lemma NoDup_values_set (m : JsMap.t V) k v :
  NoDup (List.map f (JsMap.values m)) ->
  ~ In (f v) (List.map f (JsMap.values m)) ->
  NoDup (List.map f (JsMap.values (JsMap.set m k v))).
Proof.
  induction m as [|[k0 v0] m IH]; intros Hnd Hv.
  - cbn. constructor; [tauto | constructor].
  - cbn [JsMap.values List.map snd] in Hnd, Hv. fold (JsMap.values m) in Hnd, Hv.
    inversion Hnd as [|? ? Hnotin Hnd']; subst.
    cbn [JsMap.set]. destruct (eqb k0 k).
    + cbn [JsMap.values List.map snd]. fold (JsMap.values m).
      constructor; [|exact Hnd']. intros H. apply Hv. now right.
    + cbn [JsMap.values List.map snd]. fold (JsMap.values (JsMap.set m k v)).
      constructor.
      * intros H. apply List.in_map_iff in H as [x [Hx Hin]].
        apply values_set in Hin as [->|Hin].
        -- apply Hv. left. now symmetry.
        -- apply Hnotin. rewrite <- Hx. now apply List.in_map.
      * apply IH; [exact Hnd'|]. intros H. apply Hv. now right.
Qed.

Lemma NoDup_values_delete (m : JsMap.t V) k :
  NoDup (List.map f (JsMap.values m)) ->
  NoDup (List.map f (JsMap.values (JsMap.delete m k))).
Proof.
  induction m as [|[k0 v0] m IH]; intros Hnd; [exact Hnd|].
  cbn [JsMap.values List.map snd] in Hnd. fold (JsMap.values m) in Hnd.
  inversion Hnd as [|? ? Hnotin Hnd']; subst.
  cbn [JsMap.delete]. destruct (eqb k0 k); [exact Hnd'|].
  cbn [JsMap.values List.map snd]. fold (JsMap.values (JsMap.delete m k)).
  constructor; [|now apply IH].
  intros H. apply Hnotin. apply List.in_map_iff in H as [x [Hx Hin]].
  rewrite <- Hx. apply List.in_map. now apply values_delete with k.
Qed.

(** The value deleted from the map is told apart from those that stay. *)
Lemma deleted_apart (m : JsMap.t V) k v :
  NoDup (List.map f (JsMap.values m)) ->
  JsMap.get m k = Some v ->
  ~ In (f v) (List.map f (JsMap.values (JsMap.delete m k))).
Proof.
  induction m as [|[k0 v0] m IH]; intros Hnd Hget; [discriminate|].
  cbn [JsMap.values List.map snd] in Hnd. fold (JsMap.values m) in Hnd.
  inversion Hnd as [|? ? Hnotin Hnd']; subst.
  cbn [JsMap.get JsMap.delete] in *. destruct (eqb k0 k).
  - injection Hget as <-. exact Hnotin.
  - cbn [JsMap.values List.map snd]. fold (JsMap.values (JsMap.delete m k)).
    intros [H|H]; [|now apply (IH Hnd' Hget)].
    apply Hnotin. rewrite H. apply List.in_map.
    apply get_In in Hget. unfold JsMap.values.
    apply List.in_map_iff. now exists (k, v).
Qed.

Lemma apart_inj (l : list V) x y :
  NoDup (List.map f l) -> In x l -> In y l -> f x = f y -> x = y.
Proof.
  induction l as [|z l IH]; cbn [List.map In]; [tauto|].
  intros Hnd. inversion Hnd as [|? ? Hnotin Hnd']; subst.
  intros [<-|Hx] [<-|Hy] Heq; auto.
  - exfalso. apply Hnotin. rewrite Heq. now apply List.in_map.
  - exfalso. apply Hnotin. rewrite <- Heq. now apply List.in_map.
Qed.

End Values.

Local Abbreviation id_of :=
  (fun card : Disasters.PCard.t => Card.id (Disasters.PCard.card card)).

(** Cards with distinct ids give a map of matched cards with distinct
    ids. *)
Lemma NoDup_existing (boardCards : list Card.t) :
  NoDup (List.map Card.id boardCards) ->
  NoDup (List.map id_of (JsMap.values (Disasters.existingCards boardCards))).
Proof.
  unfold Disasters.existingCards.
  assert (H : forall cs (acc : JsMap.t Disasters.PCard.t),
             NoDup (List.map Card.id cs) ->
             NoDup (List.map id_of (JsMap.values acc)) ->
             (forall v, In v (JsMap.values acc) ->
                        ~ In (id_of v) (List.map Card.id cs)) ->
             NoDup
               (List.map id_of
                  (JsMap.values
                     (List.fold_left
                        (fun cards card =>
                           match Card.attachments card with
                           | Some attachments =>
                               match List.find Disasters.urlPattern attachments with
                               | Some url =>
                                   JsMap.set cards url (Disasters.prepareCard card)
                               | None => cards
                               end
                           | None => cards
                           end) cs acc)))).
  { induction cs as [|c cs IH]; intros acc Hcs Hacc Hnew; [exact Hacc|].
    cbn [List.fold_left]. cbn [List.map] in Hcs.
    inversion Hcs as [|? ? Hnotin Hcs']; subst.
    assert (Hrest : forall v, In v (JsMap.values acc) ->
                              ~ In (id_of v) (List.map Card.id cs))
      by (intros v Hv H; apply (Hnew v Hv); now right).
    destruct (Card.attachments c) as [l|]; [|now apply IH].
    destruct (List.find Disasters.urlPattern l) as [url|]; [|now apply IH].
    apply IH; [exact Hcs' | |].
    - apply NoDup_values_set; [exact Hacc|].
      rewrite Settle.prepareCard_card. intros H.
      apply List.in_map_iff in H as [v [Hv Hin]].
      apply (Hnew v Hin). left. now symmetry.
    - intros v Hv. apply values_set in Hv as [->|Hv]; [|now apply Hrest].
      now rewrite Settle.prepareCard_card. }
  intros Hnd. apply H; [exact Hnd | constructor | intros v []].
Qed.

Lemma values_remaining disasters : forall (m : JsMap.t Disasters.PCard.t) x,
  In x (JsMap.values (Archival.remaining disasters m)) -> In x (JsMap.values m).
Proof.
  unfold Archival.remaining.
  induction disasters as [|d ds IH]; intros m x H; [exact H|].
  cbn [List.fold_left] in H. apply IH in H. now apply values_delete in H.
Qed.

Section Run.

Variable now : Z.
Variable Date_parse : str -> option Z.
Variable currentDate : str.
Variable lists : JsMap.t BoardList.t.
Variable labels : JsMap.t Label.t.
Variable statuses : JsMap.t str.
Variable World : Type.
Variable send : request -> World -> option str * World.

Local Abbreviation updateOrCreateOne :=
  (Disasters.updateOrCreateOne now Date_parse currentDate lists labels send).

(** A turn of the loop names no card but the one it takes from the
    map. *)
Lemma turn_names st disaster (w : World) q id :
  NoDup (List.map id_of (JsMap.values (fst st))) ->
  In q (sent (updateOrCreateOne st disaster w)) ->
  Matching.card_id q = Some id ->
  ~ In id
      (List.map id_of
         (JsMap.values
            (JsMap.delete (fst st) (Disasters.Disaster.url disaster)))).
Proof.
  intros Hnd Hq Hid. unfold Disasters.updateOrCreateOne in Hq.
  destruct (JsMap.get (fst st) (Disasters.Disaster.url disaster))
    as [card|] eqn:E.
  - assert (Htarget : OnCard.targets (id_of card) q = true).
    { rewrite sent_bind in Hq. apply List.in_app_or in Hq as [Hq|Hq].
      2:{ destruct (result _); [rewrite sent_ret in Hq|]; destruct Hq. }
      destruct (JsMap.get lists (Disasters.Disaster.status disaster))
        as [list|] eqn:El.
      - rewrite (CardUpdate.disasters_sent now Date_parse currentDate lists
                   labels send _ card disaster w El) in Hq.
        destruct (ManagedLabels.disasters_requests now Date_parse labels send
                    (Disasters.touched currentDate card disaster) disaster w)
          as [Hr _].
        rewrite Hr, Settle.touched_card in Hq.
        refine (proj1 (List.forallb_forall _ _) _ q Hq).
        now rewrite List.forallb_app, OnBoard.requests_target,
          OnBoard.put_targets.
      - unfold Disasters.updateCard in Hq. rewrite El in Hq. destruct Hq. }
    assert (Heq : id = Card.id (Disasters.PCard.card card)).
    { destruct q; try discriminate; cbn in Hid, Htarget;
        injection Hid as <-; now apply eqb_eq in Htarget. }
    rewrite Heq.
    exact (@deleted_apart _ id_of (fst st) (Disasters.Disaster.url disaster)
             card Hnd E).
  - exfalso. unfold Disasters.createCard in Hq.
    destruct (JsMap.get lists (Disasters.Disaster.status disaster));
      [|destruct Hq].
    revert Hq. run. destruct (fst (send _ w)); run; cbn [In List.app].
    + intros [<-|[<-|[]]]; discriminate.
    + intros [<-|[]]. discriminate.
Qed.

(** The loop over the disasters names no card that it leaves in the
    map. *)
Lemma loop_names disasters : forall st (w : World) q id,
  NoDup (List.map id_of (JsMap.values (fst st))) ->
  In q (sent (for_of disasters st updateOrCreateOne w)) ->
  Matching.card_id q = Some id ->
  ~ In id
      (List.map id_of (JsMap.values (Archival.remaining disasters (fst st)))).
Proof.
  induction disasters as [|d ds IH]; intros st w q id Hnd Hq Hid;
    [destruct Hq|].
  cbn [for_of] in Hq. rewrite sent_bind in Hq.
  apply List.in_app_or in Hq as [Hq|Hq].
  - intros H. apply (@turn_names st d w q id Hnd Hq Hid).
    apply List.in_map_iff in H as [x [Hx Hin]]. rewrite <- Hx.
    apply (List.in_map id_of). unfold Archival.remaining in Hin.
    cbn [List.fold_left] in Hin. now apply values_remaining in Hin.
  - destruct (result (updateOrCreateOne st d w)) as [st1|] eqn:E;
      [|destruct Hq].
    pose proof (Archival.disasters_one_remaining _ _ _ _ _ _ _ _ _ E) as H1.
    unfold Archival.remaining. cbn [List.fold_left]. rewrite <- H1.
    apply (IH st1 (after (updateOrCreateOne st d w)) q id); [|exact Hq | exact Hid].
    rewrite H1. now apply NoDup_values_delete.
Qed.

(** C6, as amended.  In the disasters manager, once the loop over the
    disasters has completed, the requests that archive a card are those
    for the cards left in the map of matched cards that are in one of the
    status lists and not archived already; and, the cards of the board
    having distinct ids, such a request is the only request of the run
    that names a card left in the map: a leftover card in another list,
    or archived already, is sent no card update and no label request.
    Nothing is archived when the loop throws.  The topics and the
    countries managers have no archival step: their [updateBoard] never
    archives a card. *)
Theorem leftover_cards_are_archived_or_left_alone boardCards :
  (forall disasters (w : World),
      let run :=
        Disasters.updateBoard now Date_parse currentDate lists labels send
          boardCards disasters w in
      let loop :=
        Disasters.updateOrCreate now Date_parse currentDate lists labels send
          disasters (Disasters.existingCards boardCards) w in
      let left :=
        Archival.remaining disasters (Disasters.existingCards boardCards) in
      (result loop = None -> List.filter is_archive (sent run) = [])
      /\ (result loop <> None ->
          List.filter is_archive (sent run)
          = List.map Archival.archive (Archival.archived lists left)
          /\ (forall card,
                 In card (JsMap.values left) ->
                 Archival.inStatusList lists (Disasters.PCard.card card) = true ->
                 Card.closed (Disasters.PCard.card card) = false ->
                 In (Archival.archive card) (sent run))
          /\ (NoDup (List.map Card.id boardCards) ->
              forall card q,
                In card (JsMap.values left) ->
                In q (sent run) ->
                Matching.card_id q = Some (Card.id (Disasters.PCard.card card)) ->
                q = Archival.archive card
                /\ Archival.inStatusList lists (Disasters.PCard.card card) = true
                /\ Card.closed (Disasters.PCard.card card) = false)))
  /\ (forall topics (w : World),
      List.filter is_archive
        (sent (Topics.updateBoard now Date_parse lists labels send
                 boardCards topics w)) = [])
  /\ (forall countries (w : World),
      List.filter is_archive
        (sent (Countries.updateBoard statuses now Date_parse currentDate labels
                 send boardCards countries w)) = []).
Proof.
  destruct (Archival.archival_only_in_disasters now Date_parse currentDate
              lists labels statuses send boardCards)
    as [Hdisasters [Htopics Hcountries]].
  split; [|split; [exact Htopics | exact Hcountries]].
  intros disasters w. cbv zeta. specialize (Hdisasters disasters w).
  destruct (result (Disasters.updateOrCreate now Date_parse currentDate lists
                      labels send disasters
                      (Disasters.existingCards boardCards) w))
    as [st|] eqn:E.
  2:{ split; [intros _; exact Hdisasters | intros H; now contradiction H]. }
  split; [discriminate|]. intros _.
  set (left := Archival.remaining disasters (Disasters.existingCards boardCards))
    in *.
  assert (Hst : fst st = left).
  { apply (@for_of_fold World _ _ _ fst
             (fun cards d => JsMap.delete cards (Disasters.Disaster.url d))
             updateOrCreateOne)
      with (w := w) (s := (Disasters.existingCards boardCards, O));
      [|exact E].
    intros s x w' s' H.
    now apply (@Archival.disasters_one_remaining now Date_parse currentDate
                 lists labels World send s x w' s'). }
  assert (Hrun : sent (Disasters.updateBoard now Date_parse currentDate lists
                         labels send boardCards disasters w)
                 = sent (Disasters.updateOrCreate now Date_parse currentDate
                           lists labels send disasters
                           (Disasters.existingCards boardCards) w)
                   ++ List.map Archival.archive (Archival.archived lists left)).
  { unfold Disasters.updateBoard. rewrite sent_bind, E. f_equal.
    rewrite sent_bind, Archival.archiveRemaining_sent, Hst.
    destruct (result (Disasters.archiveRemaining _ _ _ _));
      rewrite ?sent_ret; apply List.app_nil_r. }
  split; [exact Hdisasters|]. split.
  - intros card Hin Hl Hc. rewrite Hrun. apply List.in_or_app. right.
    apply List.in_map. unfold Archival.archived. apply List.filter_In.
    split; [exact Hin|]. now rewrite Hl, Hc.
  - intros Hnd card q Hin Hq Hid.
    pose proof (@NoDup_existing boardCards Hnd) as Hids.
    rewrite Hrun in Hq. apply List.in_app_or in Hq as [Hq|Hq].
    + exfalso.
      apply (@loop_names disasters (Disasters.existingCards boardCards, O) w q
               (Card.id (Disasters.PCard.card card)) Hids Hq Hid).
      cbn [fst]. fold left.
      apply (List.in_map id_of) in Hin. exact Hin.
    + apply List.in_map_iff in Hq as [card' [<- Hin']].
      unfold Archival.archived in Hin'. apply List.filter_In in Hin' as [Hin' Hok].
      assert (Hleft : NoDup (List.map id_of (JsMap.values left))).
      { unfold left, Archival.remaining.
        clear - Hids. revert Hids.
        generalize (Disasters.existingCards boardCards) as m.
        induction disasters as [|d ds IH]; intros m Hm; [exact Hm|].
        cbn [List.fold_left]. apply IH. now apply NoDup_values_delete. }
      assert (card' = card).
      { apply (@apart_inj _ id_of (JsMap.values left)); auto.
        cbn in Hid. now injection Hid. }
      subst card'. apply andb_prop in Hok as [Hl Hc].
      split; [reflexivity|]. split; [exact Hl|].
      now destruct (Card.closed (Disasters.PCard.card card)).
Qed.

End Run.

(** A board whose only card, the card of the examples, was moved by an
    editor to the list [L7], which is not a status list. *)
Definition aside : Service.board :=
  {| Service.cards := [Example.card];
     Service.labels := [Example.flood; Example.chad; Idempotence.ongoing];
     Service.next := 0 |}.

(** The orphan card of the examples is in the status list [L2]: the run
    for the disaster of the examples archives it, and sends no other card
    update or label request for it.  The card of the examples is in the
    list [L7]: the run for another disaster sends no card update and no
    label request for it, although no disaster claims it. *)
Lemma leftover_cards_are_archived_or_left_alone_witness :
  In (PUT_card (lit "C2") archive_data)
    (sent (Disasters.updateBoard Example.now Example.Date_parse
             Example.currentDate Example.lists Example.labels Service.send
             (Service.cards Idempotence.board) [Example.disaster]
             Idempotence.board))
  /\ (forall q,
         In q (sent (Disasters.updateBoard Example.now Example.Date_parse
                       Example.currentDate Example.lists Example.labels
                       Service.send (Service.cards Idempotence.board)
                       [Example.disaster] Idempotence.board)) ->
         Matching.card_id q = Some (lit "C2") ->
         q = PUT_card (lit "C2") archive_data)
  /\ (forall q,
         In q (sent (Disasters.updateBoard Example.now Example.Date_parse
                       Example.currentDate Example.lists Example.labels
                       Service.send (Service.cards aside)
                       [Idempotence.storm] aside)) ->
         Matching.card_id q <> Some (lit "C1")).
Proof.
  destruct (@leftover_cards_are_archived_or_left_alone Example.now
              Example.Date_parse Example.currentDate Example.lists
              Example.labels [] Service.board Service.send
              (Service.cards Idempotence.board))
    as [Hdisasters _].
  destruct (Hdisasters [Example.disaster] Idempotence.board) as [_ H].
  destruct H as [_ [Harchive Honly]]; [vm_compute; discriminate|].
  split; [|split].
  - apply (Harchive (Disasters.prepareCard Idempotence.orphan));
      [vm_compute; left; reflexivity | reflexivity | reflexivity].
  - intros q Hq Hid.
    apply (Honly (proj1 Idempotence.board_WellFormed)
             (Disasters.prepareCard Idempotence.orphan) q);
      [vm_compute; left; reflexivity | exact Hq | rewrite Hid; vm_compute; reflexivity].
  - intros q Hq Hid.
    destruct (@leftover_cards_are_archived_or_left_alone Example.now
                Example.Date_parse Example.currentDate Example.lists
                Example.labels [] Service.board Service.send
                (Service.cards aside))
      as [Haside _].
    destruct (Haside [Idempotence.storm] aside) as [_ H].
    destruct H as [_ [_ Hnone]]; [vm_compute; discriminate|].
    assert (Hnd : NoDup (List.map Card.id (Service.cards aside)))
      by (repeat constructor; intros []).
    destruct (Hnone Hnd (Disasters.prepareCard Example.card) q)
      as [_ [Hlist _]];
      [vm_compute; left; reflexivity | exact Hq
      | rewrite Hid; vm_compute; reflexivity |].
    vm_compute in Hlist. discriminate.
Defined.

End Leftover.

(** ** The card of a URL, for any URL pattern *)

Module Filed.
Import Js JsFacts JsMapFacts Trello.

Section Pattern.

(** [this.urlPattern.test]. *)
Variable pattern : str -> bool.

(** The URL that the first loop of [updateBoard] files a card under. *)
Definition url_of (c : Card.t) : option str :=
  match Card.attachments c with
  | Some attachments => List.find pattern attachments
  | None => None
  end.

Definition is_card_of (u : str) (c : Card.t) : bool :=
  match url_of c with Some u' => eqb u' u | None => false end.

(** The card that the loop keeps for a URL: the last card of the board
    that is filed under it. *)
Fixpoint card_of (cs : list Card.t) (u : str) : option Card.t :=
  match cs with
  | [] => None
  | c :: rest =>
      match card_of rest u with
      | Some c' => Some c'
      | None => if is_card_of u c then Some c else None
      end
  end.

Lemma filed_In cs u c :
  card_of cs u = Some c -> In c cs /\ is_card_of u c = true.
Proof.
  induction cs as [|c0 cs IH]; simpl; [discriminate|].
  destruct (card_of cs u) as [c'|].
  - intros H. injection H as <-. destruct IH as [Hin Hu]; auto.
  - destruct (is_card_of u c0) eqn:E; [|discriminate].
    intros H. injection H as <-. auto.
Qed.

Lemma filed_snoc cs c u :
  card_of (cs ++ [c]) u = if is_card_of u c then Some c else card_of cs u.
Proof.
  induction cs as [|c0 cs IH]; simpl.
  - now destruct (is_card_of u c).
  - rewrite IH. now destruct (is_card_of u c).
Qed.

Lemma filed_map (g : Card.t -> Card.t) cs u :
  (forall c, Card.attachments (g c) = Card.attachments c) ->
  card_of (List.map g cs) u = option_map g (card_of cs u).
Proof.
  intros Hg.
  assert (Hu : forall c, is_card_of u (g c) = is_card_of u c)
    by (intros c; unfold is_card_of, url_of; now rewrite Hg).
  induction cs as [|c cs IH]; simpl; [reflexivity|].
  rewrite IH, Hu. destruct (card_of cs u); [reflexivity|].
  now destruct (is_card_of u c).
Qed.

Lemma filed_inj u u' c :
  is_card_of u c = true -> is_card_of u' c = true -> u = u'.
Proof.
  unfold is_card_of. destruct (url_of c) as [x|]; [|discriminate].
  intros H H'. apply eqb_eq in H, H'. congruence.
Qed.

(** A change of the card of [u], by its id, shows under [u] only. *)
Lemma filed_on_card cs u c0 f u' :
  NoDup (List.map Card.id cs) ->
  card_of cs u = Some c0 ->
  (forall c, Card.attachments (f c) = Card.attachments c) ->
  card_of (Service.on_card (Card.id c0) f cs) u'
  = if eqb u u' then Some (f c0) else card_of cs u'.
Proof.
  intros Hnd H0 Hf. unfold Service.on_card. rewrite filed_map
    by (intros c; destruct (eqb (Card.id c) (Card.id c0)); auto).
  destruct (filed_In _ _ H0) as [Hin0 Hu0].
  destruct (eqb u u') eqn:E.
  - apply eqb_eq in E. subst u'. rewrite H0. simpl. now rewrite eqb_refl.
  - apply eqb_neq in E.
    destruct (card_of cs u') as [c1|] eqn:H1; [|reflexivity]. simpl.
    destruct (filed_In _ _ H1) as [Hin1 Hu1].
    destruct (eqb (Card.id c1) (Card.id c0)) eqn:Eid; [|reflexivity].
    apply eqb_eq in Eid. exfalso. apply E.
    assert (c1 = c0) by now apply (ByUrl.id_inj cs).
    subst c1. now apply filed_inj with c0.
Qed.

(** The map of the first loop holds, for a URL, the card of that URL. *)
Lemma get_collect {P} (prepare : Card.t -> P) (cs : list Card.t) u :
  forall acc : JsMap.t P,
  JsMap.get
    (List.fold_left
       (fun cards card =>
          match Card.attachments card with
          | Some attachments =>
              match List.find pattern attachments with
              | Some url => JsMap.set cards url (prepare card)
              | None => cards
              end
          | None => cards
          end) cs acc) u
  = match card_of cs u with
    | Some c => Some (prepare c)
    | None => JsMap.get acc u
    end.
Proof.
  induction cs as [|c cs IH]; intros acc; [reflexivity|].
  cbn [List.fold_left card_of]. rewrite IH.
  destruct (card_of cs u); [reflexivity|].
  unfold is_card_of, url_of. destruct (Card.attachments c) as [l|]; [|reflexivity].
  destruct (List.find pattern l) as [u'|]; [|reflexivity].
  destruct (eqb u' u) eqn:E.
  - apply eqb_eq in E. subst. apply get_set_same.
  - apply eqb_neq in E. now apply get_set_other.
Qed.

End Pattern.

Lemma get_topics (cs : list Card.t) u :
  JsMap.get (Topics.existingCards cs) u
  = option_map Topics.prepareCard (card_of Topics.urlPattern cs u).
Proof.
  unfold Topics.existingCards. rewrite get_collect.
  now destruct (card_of _ cs u).
Qed.

Lemma get_countries (cs : list Card.t) u :
  JsMap.get (Countries.existingCards cs) u
  = option_map Countries.prepareCard (card_of Countries.urlPattern cs u).
Proof.
  unfold Countries.existingCards. rewrite get_collect.
  now destruct (card_of _ cs u).
Qed.

End Filed.

(** ** Running the countries manager twice *)

Module CountriesTwice.
Import Js JsFacts JsMapFacts JsNumber Trello Async AsyncFacts LabelDiff
  CardUpdate Replay OnCard Filed.

Lemma prepareCard_reads (c c' : Card.t) :
  Card.desc c = Card.desc c' ->
  Countries.PCard.profileUpdate (Countries.prepareCard c)
  = Countries.PCard.profileUpdate (Countries.prepareCard c')
  /\ Countries.PCard.description (Countries.prepareCard c)
     = Countries.PCard.description (Countries.prepareCard c').
Proof.
  intros H. unfold Countries.prepareCard. rewrite H.
  repeat match goal with |- context [if ?x then _ else _] => destruct x end;
    split; reflexivity.
Qed.

Section Card.

Variable statuses : JsMap.t str.
Variable now : Z.
Variable Date_parse : str -> option Z.
Variable currentDate : str.
Variable labels : JsMap.t Label.t.

Local Abbreviation ageLabel :=
  (Countries.getProfileUpdateLabel now Date_parse labels).

(** The description that the manager writes for [country] reads back as
    the date of the run and the description of the country. *)
Definition Readable (country : Countries.Country.t) : Prop :=
  forall c,
    Card.desc c = Countries.generateCardDescription currentDate country ->
    Countries.PCard.profileUpdate (Countries.prepareCard c)
    = Some (trim currentDate)
    /\ Countries.PCard.description (Countries.prepareCard c)
       = Some (Countries.Country.description country).

(** The labels wanted for a card, given its update date. *)
Definition wanted (profileUpdate : option str)
    (country : Countries.Country.t) : JsMap.t str :=
  JsMap.of_list
    (Countries.getCountryLabels statuses labels country
     ++ ageLabel profileUpdate).

(** The requests of [updateCard] for the card [c] of [country]. *)
Definition updates (country : Countries.Country.t) (c : Card.t)
    : list request :=
  requests (Card.id c) (JsMap.has labels)
    (wanted (Countries.PCard.profileUpdate (Countries.prepareCard c)) country)
    (Card.labels c)
  ++ put (Card.id c)
       (Countries.cardData currentDate (Countries.prepareCard c) country).

Lemma updateCard_requests World (send : request -> World -> option str * World)
    (c : Card.t) country (w : World) :
  sent (Countries.updateCard statuses now Date_parse currentDate labels send
          (Countries.prepareCard c) country w)
  = updates country c.
Proof.
  rewrite (countries_sent now Date_parse currentDate labels statuses send
             (Countries.prepareCard c) country w).
  destruct (ManagedLabels.countries_requests now Date_parse labels statuses
              send (Countries.prepareCard c) country w) as [Hs _].
  rewrite Hs, Matching.countries_prepareCard_card. reflexivity.
Qed.

Lemma updates_target country c :
  List.forallb (targets (Card.id c)) (updates country c) = true.
Proof.
  unfold updates.
  now rewrite List.forallb_app, OnBoard.requests_target, OnBoard.put_targets.
Qed.

(** A missing update date is read as the time of the run and calls for no
    label. *)
Lemma no_label_for_none : ageLabel None = [].
Proof.
  unfold Countries.getProfileUpdateLabel, Countries.diffDays.
  rewrite !DiffDays.threshold. unfold DiffDays.days.
  cbn [DateWrapper.clone].
  unfold DateWrapper.unix, DateWrapper.unix_of, DateWrapper.round_days.
  rewrite Z.sub_diag. reflexivity.
Qed.

Variable boardLabels : list Label.t.

Hypothesis consistent : NewLabels.Consistent labels boardLabels.

(** The card [c] after [updateCard] for [country] has served it. *)
Definition settle (country : Countries.Country.t) (c : Card.t) : Card.t :=
  effects boardLabels (updates country c) c.

Lemma settle_is country (c : Card.t) :
  NoDup (List.map Label.id (Card.labels c)) ->
  settle country c
  = Service.write
      (Countries.cardData currentDate (Countries.prepareCard c) country)
      (Service.set_labels c
         (Guarded.relabelled (JsMap.has labels)
            (wanted (Countries.PCard.profileUpdate (Countries.prepareCard c))
               country)
            (Card.labels c))).
Proof.
  intros Hnd. unfold settle, updates.
  rewrite Settle.effects_app, Settle.effects_put.
  rewrite Guarded.effects_requests; [reflexivity | exact Hnd|].
  apply (@Guarded.All_wantedOfCountry labels (NewLabels.known boardLabels)
           (Guarded.known_keyed consistent) (Guarded.known_named consistent)
           now Date_parse statuses (Countries.prepareCard c) country).
Qed.

(** Today's date calls for no label on the age of the profile. *)
Hypothesis today : ageLabel (Some (trim currentDate)) = [].

Lemma settle_quiet country (c : Card.t) :
  NoDup (List.map Label.id (Card.labels c)) ->
  (Countries.Country.description country <> [] -> Readable country) ->
  (Countries.cardData currentDate (Countries.prepareCard c) country <> [] ->
   ageLabel (Countries.PCard.profileUpdate (Countries.prepareCard c)) = []) ->
  updates country (settle country c) = [].
Proof.
  intros Hnd Hread Hage. rewrite (@settle_is country c Hnd).
  set (pc := Countries.prepareCard c) in *.
  set (W := wanted (Countries.PCard.profileUpdate pc) country).
  set (c1 := Service.set_labels c
               (Guarded.relabelled (JsMap.has labels) W (Card.labels c))).
  set (c' := Service.write (Countries.cardData currentDate pc country) c1).
  assert (Hid : Card.id c' = Card.id c) by (unfold c'; now rewrite write_id).
  assert (Hlabels : Card.labels c'
                    = Guarded.relabelled (JsMap.has labels) W (Card.labels c))
    by (unfold c'; now rewrite write_labels).
  (* What the second run reads from the card. *)
  assert (Hsecond :
            Countries.cardData currentDate (Countries.prepareCard c') country
            = []
            /\ ageLabel (Countries.PCard.profileUpdate
                           (Countries.prepareCard c'))
               = ageLabel (Countries.PCard.profileUpdate pc)).
  { assert (Hsame : Card.desc c' = Card.desc c ->
                    Countries.cardData currentDate pc country = [] ->
                    Countries.cardData currentDate (Countries.prepareCard c')
                      country = []
                    /\ ageLabel (Countries.PCard.profileUpdate
                                   (Countries.prepareCard c'))
                       = ageLabel (Countries.PCard.profileUpdate pc)).
    { intros Hd H0. destruct (prepareCard_reads c' c Hd) as [Hu Hp].
      fold pc in Hu, Hp. rewrite Hu. split; [|reflexivity].
      unfold Countries.cardData in *. now rewrite Hp. }
    assert (Hcases :
              Countries.cardData currentDate pc country = []
              \/ (Countries.Country.description country <> []
                  /\ Countries.cardData currentDate pc country
                     = JsMap.set JsMap.empty (lit "desc")
                         (VStr (Countries.generateCardDescription currentDate
                                  country)))
              \/ (Countries.Country.description country = []
                  /\ Countries.cardData currentDate pc country
                     = JsMap.set JsMap.empty (lit "desc") (VStr []))).
    { unfold Countries.cardData.
      destruct (eqb (Countries.Country.description country) []) eqn:En;
        cbn [negb].
      - apply eqb_eq in En.
        destruct (Countries.PCard.description pc) as [[|x d]|]; auto.
      - apply eqb_neq in En.
        destruct (Disasters.differs _ _); auto. }
    destruct Hcases as [H0|[[Hne Hd]|[He Hd]]].
    - apply Hsame; [|exact H0]. unfold c'. now rewrite H0.
    - assert (Hc' : Card.desc c'
                    = Countries.generateCardDescription currentDate country)
        by (unfold c'; rewrite Hd; reflexivity).
      destruct (Hread Hne c' Hc') as [Hu Hp].
      rewrite Hu. split.
      + unfold Countries.cardData. rewrite Hp, Timestamp.differs_same.
        destruct (eqb (Countries.Country.description country) []) eqn:En;
          [|reflexivity].
        apply eqb_eq in En. contradiction.
      + rewrite today. symmetry. apply Hage. rewrite Hd. discriminate.
    - assert (Hc' : Card.desc c' = [])
        by (unfold c'; rewrite Hd; reflexivity).
      assert (Hu : Countries.prepareCard c'
                   = Countries.PCard.Build_t c' None None)
        by (unfold Countries.prepareCard; now rewrite Hc').
      rewrite Hu. cbn [Countries.PCard.profileUpdate]. split.
      + unfold Countries.cardData. rewrite He. reflexivity.
      + rewrite no_label_for_none. symmetry. apply Hage. rewrite Hd.
        discriminate. }
  destruct Hsecond as [Hdata Hsame].
  unfold updates. rewrite Hdata, Hid, Hlabels. unfold wanted at 1.
  rewrite Hsame. fold (wanted (Countries.PCard.profileUpdate pc) country).
  fold W. rewrite Guarded.relabelled_quiet. reflexivity.
Qed.

End Card.

(** *** The board after the first run *)

Section Board.

Variable statuses : JsMap.t str.
Variable now : Z.
Variable Date_parse : str -> option Z.
Variable currentDate : str.
Variable labels : JsMap.t Label.t.

(** The board at the start of the run. *)
Variable board : Service.board.

Local Abbreviation card_of := (Filed.card_of Countries.urlPattern).
Local Abbreviation settle :=
  (settle statuses now Date_parse currentDate labels (Service.labels board)).
Local Abbreviation updates :=
  (updates statuses now Date_parse currentDate labels).

Definition urls (countries : list Countries.Country.t) : list str :=
  List.map Countries.Country.url countries.

(** What the run needs of a country that has a card: a description that
    reads back from the description of the card it is written into, and,
    when the run writes the description, a card whose update date calls
    for no label on the age of the profile. *)
Definition Ready (country : Countries.Country.t) : Prop :=
  forall c,
    card_of (Service.cards board) (Countries.Country.url country) = Some c ->
    (Countries.Country.description country <> [] ->
     Readable currentDate country)
    /\ (Countries.cardData currentDate (Countries.prepareCard c) country <> [] ->
        Countries.getProfileUpdateLabel now Date_parse labels
          (Countries.PCard.profileUpdate (Countries.prepareCard c)) = []).

(** What the run needs of the board. *)
Definition WellFormed : Prop :=
  NoDup (List.map Card.id (Service.cards board))
  /\ (forall c, In c (Service.cards board) ->
                NoDup (List.map Label.id (Card.labels c)))
  /\ NewLabels.Consistent labels (Service.labels board).

Hypothesis wellFormed : WellFormed.

(** The board [b] after the countries [done]: their cards are as
    [updateCard] leaves them, the cards of the other URLs are as they
    were. *)
Definition Inv (done : list Countries.Country.t) (b : Service.board) : Prop :=
  Service.labels b = Service.labels board
  /\ NoDup (List.map Card.id (Service.cards b))
  /\ (forall k, In k done ->
                card_of (Service.cards b) (Countries.Country.url k)
                = option_map (settle k)
                    (card_of (Service.cards board) (Countries.Country.url k)))
  /\ (forall u, ~ In u (urls done) ->
                card_of (Service.cards b) u = card_of (Service.cards board) u).

Lemma Inv_board : Inv [] board.
Proof.
  destruct wellFormed as [Hnd _]. repeat split; auto. intros k [].
Qed.

(** The requests of the run for one country. *)
Definition turn (country : Countries.Country.t) : list request :=
  match card_of (Service.cards board) (Countries.Country.url country) with
  | Some c => updates country c
  | None => []
  end.

Lemma turn_step done (b : Service.board) k :
  Inv done b ->
  ~ In (Countries.Country.url k) (urls done) ->
  Inv (done ++ [k]) (replay Service.send (turn k) b).
Proof.
  intros [Hlab [Hnd [Hdone Hrest]]] Hu. unfold turn.
  assert (Hurls : forall u,
             In u (urls (done ++ [k]))
             <-> In u (urls done) \/ u = Countries.Country.url k).
  { intros u. unfold urls. rewrite List.map_app, List.in_app_iff. simpl.
    intuition auto. }
  destruct (card_of (Service.cards board) (Countries.Country.url k))
    as [c|] eqn:Ec.
  - assert (Hb : card_of (Service.cards b) (Countries.Country.url k) = Some c)
      by now rewrite Hrest.
    destruct (Filed.filed_In _ _ _ Hb) as [Hin _].
    rewrite (@replay_on_card (updates k c) b (Card.id c));
      [|apply updates_target | now apply OnBoard.has_card_In].
    pose proof (fun u' =>
                  @Filed.filed_on_card Countries.urlPattern (Service.cards b)
                    (Countries.Country.url k) c
                    (effects (Service.labels b) (updates k c)) u' Hnd Hb
                    (fun x => effects_attachments _ _ x)) as Hcard.
    unfold Inv, Service.with_cards. cbn [Service.cards Service.labels].
    split; [exact Hlab|]. split; [|split].
    + rewrite ByUrl.ids_on_card; [exact Hnd | intros x; apply effects_id].
    + intros k' Hk'. rewrite Hcard.
      apply List.in_app_or in Hk' as [Hk'|[<-|[]]].
      * destruct (eqb (Countries.Country.url k) (Countries.Country.url k'))
          eqn:E; [|now apply Hdone].
        apply eqb_eq in E. exfalso. apply Hu. rewrite E. unfold urls.
        now apply List.in_map.
      * rewrite eqb_refl, Ec, Hlab. reflexivity.
    + intros u Hnot. rewrite Hurls in Hnot. rewrite Hcard.
      destruct (eqb (Countries.Country.url k) u) eqn:E.
      * apply eqb_eq in E. exfalso. apply Hnot. now right.
      * apply Hrest. tauto.
  - cbn [replay List.fold_left]. split; [exact Hlab|]. split; [exact Hnd|].
    split.
    + intros k' Hk'. apply List.in_app_or in Hk' as [Hk'|[<-|[]]];
        [now apply Hdone|].
      rewrite Ec, Hrest by exact Hu. exact Ec.
    + intros u Hnot. rewrite Hurls in Hnot. apply Hrest. tauto.
Qed.

Lemma turns_inv todo : forall done (b : Service.board),
  Inv done b ->
  NoDup (urls todo) ->
  (forall u, In u (urls todo) -> ~ In u (urls done)) ->
  Inv (done ++ todo) (replay Service.send (List.flat_map turn todo) b).
Proof.
  induction todo as [|k todo IH]; intros done b HInv Hnd Hnew.
  - cbn. now rewrite List.app_nil_r.
  - cbn [List.flat_map]. rewrite replay_app.
    cbn [urls List.map] in Hnd. inversion Hnd as [|? ? Hnotin Hnd']; subst.
    replace (done ++ k :: todo) with ((done ++ [k]) ++ todo)
      by now rewrite <- List.app_assoc.
    apply IH; [|exact Hnd'|].
    + apply turn_step; [exact HInv|]. apply Hnew. now left.
    + intros u Hu Hin. unfold urls in Hin. rewrite List.map_app in Hin.
      apply List.in_app_or in Hin as [Hin|[<-|[]]].
      * apply (Hnew u); [now right | exact Hin].
      * now apply Hnotin.
Qed.

Lemma faithful_updateBoard boardCards countries :
  faithful Service.send
    (Countries.updateBoard statuses now Date_parse currentDate labels
       Service.send boardCards countries).
Proof.
  unfold Countries.updateBoard. apply faithful_for_of. intros n k.
  unfold Countries.updateOne, Countries.updateCard, Countries.updateCardLabels.
  faithful.
Qed.

(** The requests of the first run. *)
Lemma first_sent countries (w : Service.board) :
  sent (Countries.updateBoard statuses now Date_parse currentDate labels
          Service.send (Service.cards board) countries w)
  = List.flat_map turn countries.
Proof.
  unfold Countries.updateBoard.
  destruct (@Answers.updateBoard_run statuses now Date_parse currentDate
              labels Service.board Service.send
              (Countries.existingCards (Service.cards board)) countries O w)
    as [Hs _].
  rewrite Hs. apply List.flat_map_ext. intros k.
  unfold Answers.requestsFor, turn. rewrite Filed.get_countries.
  destruct (card_of (Service.cards board) (Countries.Country.url k)) as [c|];
    [|reflexivity].
  cbn [option_map]. now rewrite Matching.countries_prepareCard_card.
Qed.

(** Today's date calls for no label on the age of the profile. *)
Hypothesis today :
  Countries.getProfileUpdateLabel now Date_parse labels
    (Some (trim currentDate)) = [].

(** The second run of the countries manager sends nothing. *)
Lemma second_run_is_quiet countries World
    (send : request -> World -> option str * World) (w : World) :
  NoDup (urls countries) ->
  (forall k, In k countries -> Ready k) ->
  let first :=
    Countries.updateBoard statuses now Date_parse currentDate labels
      Service.send (Service.cards board) countries board in
  sent (Countries.updateBoard statuses now Date_parse currentDate labels send
          (Service.cards (after first)) countries w)
  = [].
Proof.
  intros Hnd Hready first.
  assert (HInv : Inv countries (after first)).
  { unfold first. rewrite faithful_updateBoard, first_sent.
    apply (@turns_inv countries [] board Inv_board Hnd). tauto. }
  destruct HInv as [_ [_ [Hdone _]]].
  destruct wellFormed as [_ [Hlabels Hcons]].
  unfold Countries.updateBoard.
  destruct (@Answers.updateBoard_run statuses now Date_parse currentDate
              labels World send
              (Countries.existingCards (Service.cards (after first)))
              countries O w) as [Hs _].
  rewrite Hs. clear Hs.
  assert (Hall : forall k, In k countries ->
             Answers.requestsFor statuses now Date_parse currentDate labels
               (Countries.existingCards (Service.cards (after first))) k = []).
  { intros k Hk. unfold Answers.requestsFor.
    rewrite Filed.get_countries, (Hdone k Hk).
    destruct (card_of (Service.cards board) (Countries.Country.url k))
      as [c|] eqn:Ec; [|reflexivity].
    cbn [option_map]. rewrite Matching.countries_prepareCard_card.
    destruct (Filed.filed_In _ _ _ Ec) as [Hin _].
    destruct (Hready k Hk c Ec) as [Hread Hage].
    apply (@settle_quiet statuses now Date_parse currentDate labels
             (Service.labels board) Hcons today k c (Hlabels c Hin) Hread Hage). }
  clear - Hall. revert Hall.
  generalize (Answers.requestsFor statuses now Date_parse currentDate labels
                (Countries.existingCards (Service.cards (after first)))).
  intros f Hall. induction countries as [|k ks IH]; [reflexivity|].
  cbn [List.flat_map]. rewrite (Hall k) by now left.
  apply IH. intros k' Hk'. apply Hall. now right.
Qed.

End Board.

End CountriesTwice.

(** ** The checklists of a card on the board *)

Module Lists.
Import Js JsFacts JsMapFacts JsNumber Trello Async AsyncFacts CardUpdate
  Replay ChecklistDiff.

(** The checklists of a card. *)
Definition lists_of (c : Card.t) : list Checklist.t :=
  match Card.checklists c with Some l => l | None => [] end.

(** The ids of the checklists of the board. *)
Definition listIds (cards : list Card.t) : list str :=
  List.flat_map (fun c => List.map Checklist.id (lists_of c)) cards.

(** The card with [x], in the place of the checklist that has its id. *)
Definition put_list (x : Checklist.t) (c : Card.t) : Card.t :=
  Service.set_checklists c
    (List.map (fun y => if eqb (Checklist.id y) (Checklist.id x) then x else y)
       (lists_of c)).

(** *** The last checklist of a name *)

(** [checklists.get(name)] for the Map that [updateCardChecklists] builds
    from the checklists of the card: the last checklist of that name. *)
Fixpoint named (l : list Checklist.t) (name : str) : option Checklist.t :=
  match l with
  | [] => None
  | k :: rest =>
      match named rest name with
      | Some k' => Some k'
      | None => if eqb (Checklist.name k) name then Some k else None
      end
  end.

Lemma get_byName (l : list Checklist.t) name : forall acc,
  JsMap.get
    (List.fold_left
       (fun m checklist => JsMap.set m (Checklist.name checklist) checklist)
       l acc) name
  = match named l name with
    | Some k => Some k
    | None => JsMap.get acc name
    end.
Proof.
  induction l as [|k l IH]; intros acc; [reflexivity|].
  cbn [List.fold_left named]. rewrite IH.
  destruct (named l name); [reflexivity|].
  destruct (eqb (Checklist.name k) name) eqn:E.
  - apply eqb_eq in E. subst. apply get_set_same.
  - apply eqb_neq in E. now apply get_set_other.
Qed.

Lemma named_In l name k :
  named l name = Some k -> In k l /\ Checklist.name k = name.
Proof.
  induction l as [|k0 l IH]; cbn [named]; [discriminate|].
  destruct (named l name) as [k'|].
  - intros H. injection H as <-. destruct IH as [Hin Hn]; auto.
    split; [now right | exact Hn].
  - destruct (eqb (Checklist.name k0) name) eqn:E; [|discriminate].
    intros H. injection H as <-. apply eqb_eq in E. split; [now left | exact E].
Qed.

Lemma named_snoc l k name :
  named (l ++ [k]) name
  = if eqb (Checklist.name k) name then Some k else named l name.
Proof.
  induction l as [|k0 l IH]; cbn [List.app named].
  - now destruct (eqb (Checklist.name k) name).
  - rewrite IH. now destruct (eqb (Checklist.name k) name).
Qed.

Lemma named_map (g : Checklist.t -> Checklist.t) l name :
  (forall y, In y l -> Checklist.name (g y) = Checklist.name y) ->
  named (List.map g l) name = option_map g (named l name).
Proof.
  induction l as [|k l IH]; intros Hg; [reflexivity|].
  cbn [List.map named]. rewrite IH by (intros y Hy; apply Hg; now right).
  rewrite (Hg k) by now left.
  destruct (named l name); [reflexivity|].
  now destruct (eqb (Checklist.name k) name).
Qed.

Lemma list_inj (l : list Checklist.t) x y :
  NoDup (List.map Checklist.id l) -> In x l -> In y l ->
  Checklist.id x = Checklist.id y -> x = y.
Proof. apply (@Leftover.apart_inj _ Checklist.id l x y). Qed.

(** A checklist put in the place of the one of name [name] shows under
    [name] only. *)
Lemma named_put l name k x name' :
  NoDup (List.map Checklist.id l) ->
  named l name = Some k ->
  Checklist.id x = Checklist.id k ->
  Checklist.name x = Checklist.name k ->
  named
    (List.map (fun y => if eqb (Checklist.id y) (Checklist.id x) then x else y) l)
    name'
  = if eqb name name' then Some x else named l name'.
Proof.
  intros Hnd Hk Hid Hname.
  destruct (named_In _ _ Hk) as [Hin Hn].
  rewrite named_map.
  2:{ intros y Hy. destruct (eqb (Checklist.id y) (Checklist.id x)) eqn:E;
        [|reflexivity].
      apply eqb_eq in E. rewrite Hid in E.
      rewrite (list_inj l y k Hnd Hy Hin E). exact Hname. }
  destruct (eqb name name') eqn:E.
  - apply eqb_eq in E. subst name'. rewrite Hk. cbn [option_map].
    now rewrite Hid, eqb_refl.
  - apply eqb_neq in E.
    destruct (named l name') as [k1|] eqn:H1; [|reflexivity].
    cbn [option_map]. destruct (named_In _ _ H1) as [Hin1 Hn1].
    destruct (eqb (Checklist.id k1) (Checklist.id x)) eqn:Eid; [|reflexivity].
    apply eqb_eq in Eid. rewrite Hid in Eid.
    rewrite (list_inj l k1 k Hnd Hin1 Hin Eid) in Hn1. congruence.
Qed.

(** *** The service on the checklist of a card *)

(** The request is for the checklist [kid] of the card [cid]. *)
Definition aimed (cid kid : str) (q : request) : bool :=
  match q with
  | PUT_card_checkItem c k _ _ _ => eqb c cid && eqb k kid
  | DELETE_checklist_checkItem k _ => eqb k kid
  | POST_checklist_checkItems k _ _ => eqb k kid
  | _ => false
  end.

Lemma set_checklists_same (c : Card.t) l :
  Card.checklists c = Some l -> Service.set_checklists c l = c.
Proof. intros H. destruct c. cbn in *. now subst. Qed.

Lemma In_listIds (cards : list Card.t) c x :
  In c cards -> In x (lists_of c) -> In (Checklist.id x) (listIds cards).
Proof.
  intros Hc Hx. unfold listIds. apply List.in_flat_map. exists c.
  split; [exact Hc | now apply List.in_map].
Qed.

Lemma NoDup_app_apart {A} (l1 l2 : list A) a :
  NoDup (l1 ++ l2) -> In a l1 -> ~ In a l2.
Proof.
  induction l1 as [|a0 l1 IH]; [intros _ []|].
  cbn [List.app]. intros Hnd Hin H2. inversion Hnd as [|? ? Hn Hnd']; subst.
  destruct Hin as [<-|Hin].
  - apply Hn. apply List.in_or_app. now right.
  - now apply (IH Hnd' Hin).
Qed.

(** Checklists of distinct ids: each card has checklists of distinct ids,
    and a checklist id is on one card only. *)
Lemma listIds_card (cards : list Card.t) c :
  NoDup (listIds cards) -> In c cards ->
  NoDup (List.map Checklist.id (lists_of c)).
Proof.
  unfold listIds. induction cards as [|c0 cards IH]; intros Hnd Hin;
    [destruct Hin|]. destruct Hin as [<-|Hin].
  - cbn [List.flat_map] in Hnd. now apply List.NoDup_app_remove_r in Hnd.
  - cbn [List.flat_map] in Hnd. apply List.NoDup_app_remove_l in Hnd.
    now apply IH.
Qed.

Lemma listIds_owner (cards : list Card.t) c c' x x' :
  NoDup (List.map Card.id cards) -> NoDup (listIds cards) ->
  In c cards -> In c' cards -> In x (lists_of c) -> In x' (lists_of c') ->
  Checklist.id x = Checklist.id x' -> c = c'.
Proof.
  unfold listIds. induction cards as [|c0 cards IH]; [intros _ _ []|].
  cbn [List.map List.flat_map]. intros Hids Hnd.
  inversion Hids as [|? ? Hnotin Hids']; subst.
  assert (Hcross : forall c1 y y0,
             In c1 cards -> In y (lists_of c1) -> In y0 (lists_of c0) ->
             Checklist.id y0 <> Checklist.id y).
  { intros c1 y y0 H1 Hy Hy0 Heq.
    apply (NoDup_app_apart _ _ (Checklist.id y0) Hnd);
      [now apply List.in_map|].
    rewrite Heq. now apply (In_listIds cards c1 y). }
  intros [<-|Hc] [<-|Hc'] Hx Hx' Heq; [reflexivity | | |].
  - exfalso. now apply (Hcross c' x' x Hc' Hx' Hx).
  - exfalso. apply (Hcross c x x' Hc Hx Hx'). now symmetry.
  - apply List.NoDup_app_remove_l in Hnd.
    exact (IH Hids' Hnd Hc Hc' Hx Hx' Heq).
Qed.

Lemma on_card_only (cards : list Card.t) id (f g : Card.t -> Card.t) :
  (forall c, In c cards -> Card.id c = id -> f c = g c) ->
  Service.on_card id f cards = Service.on_card id g cards.
Proof.
  intros H. unfold Service.on_card. apply List.map_ext_in. intros c Hc.
  destruct (eqb (Card.id c) id) eqn:E; [|reflexivity].
  apply eqb_eq in E. now apply H.
Qed.

Lemma serve_id (x : Checklist.t) q n :
  Checklist.id (fst (serve (x, n) q)) = Checklist.id x.
Proof.
  destruct q; cbn [serve fst snd]; try reflexivity;
    match goal with |- context [if ?e then _ else _] => destruct e end;
    reflexivity.
Qed.

Lemma serve_next (x : Checklist.t) q n : n <= snd (serve (x, n) q).
Proof.
  destruct q; cbn [serve fst snd]; try lia;
    match goal with |- context [if ?e then _ else _] => destruct e end;
    cbn [snd]; lia.
Qed.

Section Owner.

Variable b : Service.board.
Variable c : Card.t.
Variable x : Checklist.t.

Hypothesis cardIds : NoDup (List.map Card.id (Service.cards b)).
Hypothesis checklistIds : NoDup (listIds (Service.cards b)).
Hypothesis onBoard : In c (Service.cards b).
Hypothesis onCard : In x (lists_of c).

Lemma has_list : Service.has_checklist b (Checklist.id x) = true.
Proof.
  unfold Service.has_checklist. apply List.existsb_exists. exists c.
  split; [exact onBoard|]. unfold lists_of in onCard.
  destruct (Card.checklists c) as [l|]; [|destruct onCard].
  apply List.existsb_exists. exists x. split; [exact onCard | apply eqb_refl].
Qed.

(** A change of the checklist, on the card that has it. *)
Lemma put_here (f : Checklist.t -> Checklist.t) :
  Checklist.id (f x) = Checklist.id x ->
  match Card.checklists c with
  | Some l =>
      Service.set_checklists c
        (List.map
           (fun k => if eqb (Checklist.id k) (Checklist.id x) then f k else k) l)
  | None => c
  end
  = put_list (f x) c.
Proof.
  intros Hf. unfold put_list.
  pose proof (listIds_card _ c checklistIds onBoard) as Hnd.
  unfold lists_of in *. destruct (Card.checklists c) as [l|]; [|destruct onCard].
  f_equal. apply List.map_ext_in. intros y Hy. rewrite Hf.
  destruct (eqb (Checklist.id y) (Checklist.id x)) eqn:E; [|reflexivity].
  apply eqb_eq in E. now rewrite (list_inj l y x Hnd Hy onCard E).
Qed.

(** A change of the checklist, by its id, on the whole board. *)
Lemma on_checklist_here (f : Checklist.t -> Checklist.t) :
  Checklist.id (f x) = Checklist.id x ->
  Service.on_checklist (Checklist.id x) f (Service.cards b)
  = Service.on_card (Card.id c) (put_list (f x)) (Service.cards b).
Proof.
  intros Hf. unfold Service.on_checklist, Service.on_card.
  apply List.map_ext_in. intros c' Hc'.
  destruct (eqb (Card.id c') (Card.id c)) eqn:E.
  - apply eqb_eq in E.
    rewrite (ByUrl.id_inj (Service.cards b) c' c cardIds Hc' onBoard E).
    now apply put_here.
  - apply eqb_neq in E.
    destruct (Card.checklists c') as [l|] eqn:El; [|reflexivity].
    rewrite <- (set_checklists_same c' El) at 2. f_equal.
    rewrite <- (List.map_id l) at 2. apply List.map_ext_in. intros y Hy.
    destruct (eqb (Checklist.id y) (Checklist.id x)) eqn:Ey; [|reflexivity].
    apply eqb_eq in Ey. exfalso. apply E. f_equal.
    apply (@listIds_owner (Service.cards b) c' c y x); auto.
    unfold lists_of. now rewrite El.
Qed.

(** What the service does with a request for the checklist. *)
Lemma send_aimed q :
  aimed (Card.id c) (Checklist.id x) q = true ->
  snd (Service.send q b)
  = Service.with_cards b
      (Service.on_card (Card.id c)
         (put_list (fst (serve (x, Service.next b) q))) (Service.cards b))
      (snd (serve (x, Service.next b) q)).
Proof.
  destruct q; cbn [aimed]; try discriminate; intros Ha.
  - apply eqb_eq in Ha. subst.
    cbn [Service.send serve fst snd]. rewrite has_list, eqb_refl.
    cbn [fst snd]. f_equal.
    apply (on_checklist_here
             (Service.add_item (Service.fresh (Service.next b)) name pos)).
    reflexivity.
  - apply andb_prop in Ha as [Hc Hk]. apply eqb_eq in Hc, Hk. subst.
    cbn [Service.send serve fst snd].
    rewrite (OnBoard.has_card_In b c onBoard), eqb_refl. cbn [fst snd].
    f_equal. apply on_card_only. intros c' Hc' Hid.
    rewrite (ByUrl.id_inj (Service.cards b) c' c cardIds Hc' onBoard Hid).
    apply (put_here (Service.put_item item name pos)). reflexivity.
  - apply eqb_eq in Ha. subst.
    cbn [Service.send serve fst snd]. rewrite has_list, eqb_refl.
    cbn [fst snd]. f_equal.
    apply (on_checklist_here (Service.delete_item item)). reflexivity.
Qed.

End Owner.


(** *** Several requests for one checklist *)

Lemma lists_put (x : Checklist.t) (c : Card.t) :
  lists_of (put_list x c)
  = List.map (fun y => if eqb (Checklist.id y) (Checklist.id x) then x else y)
      (lists_of c).
Proof. reflexivity. Qed.

Lemma put_list_id (x : Checklist.t) (c : Card.t) :
  Card.id (put_list x c) = Card.id c.
Proof. reflexivity. Qed.

Lemma put_list_same (c : Card.t) (x : Checklist.t) :
  NoDup (List.map Checklist.id (lists_of c)) -> In x (lists_of c) ->
  put_list x c = c.
Proof.
  intros Hnd Hin. unfold put_list.
  assert (Hl : Card.checklists c = Some (lists_of c)).
  { unfold lists_of in *. destruct (Card.checklists c); [reflexivity|].
    destruct Hin. }
  transitivity (Service.set_checklists c (lists_of c));
    [|now apply set_checklists_same].
  f_equal. transitivity (List.map (fun y : Checklist.t => y) (lists_of c));
    [|apply List.map_id].
  apply List.map_ext_in.
  intros y Hy. destruct (eqb (Checklist.id y) (Checklist.id x)) eqn:E;
    [|reflexivity].
  apply eqb_eq in E. symmetry. now apply (list_inj (lists_of c)).
Qed.

Lemma put_list_twice (x x' : Checklist.t) (c : Card.t) :
  Checklist.id x = Checklist.id x' ->
  put_list x' (put_list x c) = put_list x' c.
Proof.
  intros Hid. unfold put_list at 1 3. rewrite lists_put, List.map_map.
  unfold put_list, Service.set_checklists. cbn. f_equal. f_equal.
  apply List.map_ext. intros y.
  destruct (eqb (Checklist.id y) (Checklist.id x)) eqn:E.
  - apply eqb_eq in E. rewrite <- Hid, <- E, !eqb_refl. reflexivity.
  - reflexivity.
Qed.

Lemma In_put_list (x x' : Checklist.t) (c : Card.t) :
  In x (lists_of c) -> Checklist.id x' = Checklist.id x ->
  In x' (lists_of (put_list x' c)).
Proof.
  intros Hin Hid. rewrite lists_put. apply List.in_map_iff. exists x.
  split; [|exact Hin]. now rewrite Hid, eqb_refl.
Qed.

(** A change of the cards that keeps the ids of the checklists. *)
Lemma listIds_on_card id (f : Card.t -> Card.t) (cs : list Card.t) :
  (forall c, List.map Checklist.id (lists_of (f c))
             = List.map Checklist.id (lists_of c)) ->
  listIds (Service.on_card id f cs) = listIds cs.
Proof.
  intros Hf. unfold listIds, Service.on_card.
  induction cs as [|c cs IH]; [reflexivity|].
  cbn [List.map List.flat_map]. rewrite IH. f_equal.
  destruct (eqb (Card.id c) id); [apply Hf | reflexivity].
Qed.

Lemma ids_put_list (x : Checklist.t) (c : Card.t) :
  List.map Checklist.id (lists_of (put_list x c))
  = List.map Checklist.id (lists_of c).
Proof.
  rewrite lists_put, List.map_map. apply List.map_ext. intros y.
  destruct (eqb (Checklist.id y) (Checklist.id x)) eqn:E; [|reflexivity].
  apply eqb_eq in E. now symmetry.
Qed.

Lemma In_on_card id (f : Card.t -> Card.t) (cs : list Card.t) c :
  In c cs -> Card.id c = id -> In (f c) (Service.on_card id f cs).
Proof.
  intros Hin Hid. unfold Service.on_card. apply List.in_map_iff. exists c.
  split; [|exact Hin]. now rewrite Hid, eqb_refl.
Qed.

Lemma serves_id qs : forall (x : Checklist.t) n,
  Checklist.id (fst (List.fold_left serve qs (x, n))) = Checklist.id x.
Proof.
  induction qs as [|q qs IH]; intros x n; [reflexivity|].
  cbn [List.fold_left]. rewrite (surjective_pairing (serve (x, n) q)).
  now rewrite IH, serve_id.
Qed.

Lemma serves_next qs : forall (x : Checklist.t) n,
  n <= snd (List.fold_left serve qs (x, n)).
Proof.
  induction qs as [|q qs IH]; intros x n; [cbn; lia|].
  cbn [List.fold_left]. rewrite (surjective_pairing (serve (x, n) q)).
  pose proof (serve_next x q n).
  pose proof (IH (fst (serve (x, n) q)) (snd (serve (x, n) q))). lia.
Qed.

(** The board after requests for the checklist [x] of the card [c]. *)
Lemma replay_aimed qs : forall (b : Service.board) c x,
  NoDup (List.map Card.id (Service.cards b)) ->
  NoDup (listIds (Service.cards b)) ->
  In c (Service.cards b) ->
  In x (lists_of c) ->
  List.forallb (aimed (Card.id c) (Checklist.id x)) qs = true ->
  replay Service.send qs b
  = Service.with_cards b
      (Service.on_card (Card.id c)
         (put_list (fst (List.fold_left serve qs (x, Service.next b))))
         (Service.cards b))
      (snd (List.fold_left serve qs (x, Service.next b))).
Proof.
  induction qs as [|q qs IH]; intros b c x Hids Hlists Hc Hx Ha.
  - cbn [replay List.fold_left fst snd].
    rewrite <- (OnCard.with_cards_same b) at 1. f_equal.
    rewrite <- (OnCard.on_card_same (Card.id c) (Service.cards b)) at 1.
    apply on_card_only. intros c' Hc' Hid.
    rewrite (ByUrl.id_inj (Service.cards b) c' c Hids Hc' Hc Hid).
    symmetry. apply put_list_same; [|exact Hx].
    now apply (listIds_card (Service.cards b)).
  - cbn [List.forallb] in Ha. apply andb_prop in Ha as [Hq Hqs].
    cbn [replay List.fold_left].
    rewrite (send_aimed b c x Hids Hlists Hc Hx q Hq).
    pose proof (serve_id x q (Service.next b)) as Hid1.
    destruct (serve (x, Service.next b) q) as [x1 n1].
    cbn [fst snd] in *.
    set (b1 := Service.with_cards b
                 (Service.on_card (Card.id c) (put_list x1) (Service.cards b))
                 n1).
    fold (replay Service.send qs b1).
    assert (Hids1 : NoDup (List.map Card.id (Service.cards b1))).
    { unfold b1, Service.with_cards. cbn [Service.cards].
      rewrite ByUrl.ids_on_card; [exact Hids | intros; apply put_list_id]. }
    assert (Hlists1 : NoDup (listIds (Service.cards b1))).
    { unfold b1, Service.with_cards. cbn [Service.cards].
      rewrite listIds_on_card; [exact Hlists | intros; apply ids_put_list]. }
    assert (Hc1 : In (put_list x1 c) (Service.cards b1)).
    { unfold b1, Service.with_cards. cbn [Service.cards].
      now apply In_on_card. }
    assert (Hx1 : In x1 (lists_of (put_list x1 c)))
      by now apply In_put_list with x.
    rewrite (IH b1 (put_list x1 c) x1 Hids1 Hlists1 Hc1 Hx1)
      by (rewrite put_list_id, Hid1; exact Hqs).
    unfold b1, Service.with_cards.
    cbn [Service.cards Service.labels Service.next]. f_equal.
    rewrite put_list_id, OnCard.on_card_twice by (intros; apply put_list_id).
    apply OnCard.on_card_ext. intros y. apply put_list_twice.
    now rewrite serves_id.
Qed.

(** *** A board that [updateCardChecklists] can work on *)

(** The cards have distinct ids, the checklists have distinct ids, and
    no card or checklist bears an id that the service has yet to give
    out. *)
Definition Tidy (b : Service.board) : Prop :=
  NoDup (List.map Card.id (Service.cards b))
  /\ OnBoard.Fresh b
  /\ NoDup (listIds (Service.cards b))
  /\ forall id n, In id (listIds (Service.cards b)) ->
                  Service.next b <= n -> id <> Service.fresh n.

(** A change of one card that keeps the ids of its checklists. *)
Lemma Tidy_on_card (b : Service.board) id f next :
  (forall c, Card.id (f c) = Card.id c) ->
  (forall c, List.map Checklist.id (lists_of (f c))
             = List.map Checklist.id (lists_of c)) ->
  Service.next b <= next ->
  Tidy b ->
  Tidy (Service.with_cards b (Service.on_card id f (Service.cards b)) next).
Proof.
  intros Hid Hl Hn [Hids [Hfresh [Hlists Hnew]]].
  unfold Tidy, OnBoard.Fresh, Service.with_cards.
  cbn [Service.cards Service.next].
  rewrite ByUrl.ids_on_card by exact Hid.
  rewrite listIds_on_card by exact Hl.
  repeat split; auto.
  - intros i n Hin Hle. apply Hfresh; [exact Hin | lia].
  - intros i n Hin Hle. apply Hnew; [exact Hin | lia].
Qed.

Lemma on_card_others id (f : Card.t -> Card.t) (cs : list Card.t) :
  ~ In id (List.map Card.id cs) -> Service.on_card id f cs = cs.
Proof. apply OnBoard.on_card_absent. Qed.

(** A new checklist on the card [c]. *)
Lemma listIds_add (cs : list Card.t) c kid name :
  NoDup (List.map Card.id cs) -> In c cs ->
  Permutation.Permutation
    (listIds (Service.on_card (Card.id c) (Service.add_checklist kid name) cs))
    (kid :: listIds cs).
Proof.
  induction cs as [|c0 cs IH]; intros Hnd Hin; [destruct Hin|].
  cbn [List.map] in Hnd. inversion Hnd as [|? ? Hnotin Hnd']; subst.
  unfold listIds, Service.on_card. cbn [List.map List.flat_map].
  fold (Service.on_card (Card.id c) (Service.add_checklist kid name) cs).
  fold (listIds (Service.on_card (Card.id c) (Service.add_checklist kid name) cs)).
  fold (listIds cs).
  destruct (eqb (Card.id c0) (Card.id c)) eqn:E.
  - apply eqb_eq in E. rewrite on_card_others by now rewrite <- E.
    unfold Service.add_checklist, lists_of at 1.
    cbn [Service.set_checklists Card.checklists].
    fold (lists_of c0). rewrite List.map_app. cbn [List.map Checklist.id].
    rewrite <- List.app_assoc. cbn [List.app].
    apply Permutation.Permutation_sym, Permutation.Permutation_middle.
  - apply eqb_neq in E. destruct Hin as [->|Hin]; [congruence|].
    eapply Permutation.Permutation_trans;
      [apply Permutation.Permutation_app_head, (IH Hnd' Hin)|].
    apply Permutation.Permutation_sym, Permutation.Permutation_middle.
Qed.

Lemma Tidy_add (b : Service.board) c name :
  Tidy b -> In c (Service.cards b) ->
  Tidy
    (Service.with_cards b
       (Service.on_card (Card.id c)
          (Service.add_checklist (Service.fresh (Service.next b)) name)
          (Service.cards b))
       (Service.next b + 1)).
Proof.
  intros [Hids [Hfresh [Hlists Hnew]]] Hin.
  pose proof (@listIds_add (Service.cards b) c
                (Service.fresh (Service.next b)) name Hids Hin) as Hperm.
  unfold Tidy, OnBoard.Fresh, Service.with_cards.
  cbn [Service.cards Service.next].
  rewrite ByUrl.ids_on_card by reflexivity.
  split; [exact Hids|]. split; [|split].
  - intros i n Hi Hle. apply Hfresh; [exact Hi | lia].
  - apply (Permutation.Permutation_NoDup (Permutation.Permutation_sym Hperm)).
    constructor; [|exact Hlists].
    intros Hi. apply (Hnew _ (Service.next b) Hi); [lia | reflexivity].
  - intros i n Hi Hle.
    apply (Permutation.Permutation_in _ Hperm) in Hi as [<-|Hi].
    + intros Heq. apply NewLabels.fresh_inj in Heq. lia.
    + apply Hnew; [exact Hi | lia].
Qed.

(** *** A checklist that needs no request *)

Definition Settled (items : JsMap.t Topics.Item.t) (k : Checklist.t) : Prop :=
  forall cardId,
    changes cardId (Checklist.id k) items (Checklist.checkItems k) = []
    /\ missing items (Checklist.checkItems k) = [].

Lemma served_Settled next (k : Checklist.t) (items : JsMap.t Topics.Item.t) :
  NoDup (JsMap.keys items) -> Linked items ->
  Settled items (served next k items).
Proof.
  intros Hnd HL cardId. unfold served.
  cbn [Checklist.id Checklist.checkItems].
  destruct (@changes_kept cardId (Checklist.id k) (Checklist.checkItems k)
              items
              (added next (JsMap.values (missing items (Checklist.checkItems k))))
              Hnd HL) as [Hc Hm].
  destruct (@changes_added cardId (Checklist.id k)
              (missing items (Checklist.checkItems k)) next
              (@NoDup_missing (Checklist.checkItems k) items Hnd)
              (@Linked_missing (Checklist.checkItems k) items HL))
    as [Hc' Hm'].
  now rewrite Hc, Hm, Hc', Hm'.
Qed.

Lemma added_Settled kid name next (items : JsMap.t Topics.Item.t) :
  NoDup (JsMap.keys items) -> Linked items ->
  Settled items
    (Checklist.Build_t kid name ([] ++ added next (JsMap.values items))).
Proof.
  intros Hnd HL cardId. cbn [List.app Checklist.id Checklist.checkItems].
  apply (@changes_added cardId kid items next Hnd HL).
Qed.

(** The requests of [updateChecklist], served. *)
Lemma serve_updates cardId (k : Checklist.t) (items : JsMap.t Topics.Item.t) n :
  NoDup (List.map CheckItem.id (Checklist.checkItems k)) ->
  List.fold_left serve
    (changes cardId (Checklist.id k) items (Checklist.checkItems k)
     ++ additions (Checklist.id k) (missing items (Checklist.checkItems k)))
    (k, n)
  = (served n k items,
     n + Z.of_nat
           (List.length
              (JsMap.values (missing items (Checklist.checkItems k))))).
Proof.
  intros Hids. rewrite List.fold_left_app. destruct k as [id name checkItems].
  cbn [Checklist.id Checklist.checkItems] in *.
  pose proof (@changes_served cardId id name checkItems items [] n Hids) as Hc.
  cbn [List.app] in Hc. rewrite Hc.
  unfold additions. rewrite additions_served. reflexivity.
Qed.

Lemma changes_aimed cardId checklistId (checkItems : list CheckItem.t) :
  forall items : JsMap.t Topics.Item.t,
  List.forallb (aimed cardId checklistId)
    (changes cardId checklistId items checkItems) = true.
Proof.
  induction checkItems as [|i rest IH]; intros items; [reflexivity|].
  cbn [changes]. destruct (linked i); [|apply IH].
  destruct (JsMap.get items (url_of i)) as [item|].
  - destruct (stale item i); [|apply IH].
    cbn [List.forallb aimed]. now rewrite !eqb_refl, IH.
  - cbn [List.forallb aimed]. now rewrite eqb_refl, IH.
Qed.

Lemma additions_aimed cardId checklistId (items : JsMap.t Topics.Item.t) :
  List.forallb (aimed cardId checklistId) (additions checklistId items) = true.
Proof.
  unfold additions. apply List.forallb_forall. intros q Hq.
  apply List.in_map_iff in Hq as [item [<- _]]. cbn [aimed]. apply eqb_refl.
Qed.

End Lists.

(** ** The checklists of a card after [updateCardChecklists] *)

Module ListsRun.
Import Js JsFacts JsMapFacts JsNumber Trello Async AsyncFacts CardUpdate
  Replay ChecklistDiff Lists.
Local Open Scope async_scope.

(** The Map of the checklists of the card, by name. *)
Definition byName (cardChecklists : option (list Checklist.t))
    : JsMap.t Checklist.t :=
  match cardChecklists with
  | Some l =>
      List.fold_left
        (fun m checklist => JsMap.set m (Checklist.name checklist) checklist)
        l JsMap.empty
  | None => JsMap.empty
  end.

Lemma get_named (c : Card.t) name :
  JsMap.get (byName (Card.checklists c)) name = named (lists_of c) name.
Proof.
  unfold byName, lists_of. destruct (Card.checklists c) as [l|]; [|reflexivity].
  rewrite get_byName. now destruct (named l name).
Qed.

Section Turn.

Variable World : Type.
Variable send : request -> World -> option str * World.

(** One turn of the loop of [updateCardChecklists]. *)
Definition turn (checklists : JsMap.t Checklist.t) (cardId : str)
    (changed : bool) (entry : str * JsMap.t Topics.Item.t) : M World bool :=
  let name := fst entry in
  let items := snd entry in
  match JsMap.get checklists name with
  | None =>
      _ <- Topics.addChecklist send cardId name items ;;
      ret true
  | Some checklist =>
      c <- Topics.updateChecklist send cardId checklist items ;;
      ret (if c then true else changed)
  end.

Lemma updateCardChecklists_turns cardId cardChecklists topic :
  Topics.updateCardChecklists send cardId cardChecklists topic
  = for_of (Topics.Topic.checklists topic) false
      (turn (byName cardChecklists) cardId).
Proof. reflexivity. Qed.

Lemma addItems_requests checklistId (items : list Topics.Item.t) : forall w,
  sent (for_of items tt
          (fun _ item => Topics.addCheckItem send checklistId item) w)
  = List.map
      (fun item =>
         POST_checklist_checkItems checklistId (Topics.Item.name item)
           (Topics.Item.position item))
      items.
Proof.
  induction items as [|item items IH]; intros w; [reflexivity|].
  cbn [for_of List.map]. rewrite sent_bind, addCheckItem_run.
  cbn [result sent after List.app]. now rewrite IH.
Qed.

Lemma faithful_addItems checklistId (items : list Topics.Item.t) :
  faithful send
    (for_of items tt (fun _ item => Topics.addCheckItem send checklistId item)).
Proof. unfold Topics.addCheckItem. faithful. Qed.

Lemma faithful_updateChecklist cardId checklist items :
  faithful send (Topics.updateChecklist send cardId checklist items).
Proof.
  unfold Topics.updateChecklist, Topics.addCheckItem, Topics.updateCheckItem,
    Topics.deleteCheckItem.
  faithful.
Qed.

Lemma faithful_updateCardChecklists cardId cardChecklists topic :
  faithful send (Topics.updateCardChecklists send cardId cardChecklists topic).
Proof.
  unfold Topics.updateCardChecklists. apply faithful_for_of. intros s x.
  destruct (JsMap.get _ _).
  - apply faithful_bind; [apply faithful_updateChecklist | faithful].
  - unfold Topics.addChecklist, Topics.addCheckItem. faithful.
Qed.

(** A card that needs no request on its checklists. *)
Lemma settled_turns cardId (checklists : JsMap.t Checklist.t) todo :
  forall changed (w : World),
  (forall name items, In (name, items) todo ->
     exists k, JsMap.get checklists name = Some k /\ Settled items k) ->
  sent (for_of todo changed (turn checklists cardId) w) = []
  /\ result (for_of todo changed (turn checklists cardId) w) = Some changed.
Proof.
  induction todo as [|[name items] todo IH]; intros changed w Hall;
    [now split|].
  destruct (Hall name items) as [k [Hget Hs]]; [now left|].
  destruct (Hs cardId) as [Hc Hm].
  assert (Hsent : sent (Topics.updateChecklist send cardId k items w) = [])
    by (rewrite updateChecklist_requests, Hc, Hm; reflexivity).
  assert (Hafter : after (Topics.updateChecklist send cardId k items w) = w)
    by (rewrite faithful_updateChecklist, Hsent; reflexivity).
  assert (Hres : result (Topics.updateChecklist send cardId k items w)
                 = Some false).
  { unfold Topics.updateChecklist. rewrite result_bind.
    match goal with
    | |- context [for_of ?L (items, false) ?body w] =>
        assert (Hloop : forall l its w',
                   changes cardId (Checklist.id k) its l = [] ->
                   result (for_of l (its, false) body w')
                   = Some (missing its l, false)
                   /\ after (for_of l (its, false) body w') = w')
    end.
    { induction l as [|i rest IHl]; intros its w' Hch; [now split|].
      cbn [for_of changes missing] in *. run.
      unfold linked, url_of, title_of, stale in *.
      destruct (0 <? indexOf (CheckItem.name i) (lit "](")).
      - destruct (JsMap.get its _) as [item|].
        + destruct (_ || _); [discriminate|]. run.
          now apply IHl.
        + discriminate.
      - run. now apply IHl. }
    destruct (Hloop (Checklist.checkItems k) items w Hc) as [Hr Ha].
    rewrite Hr, Ha. cbn [fst snd]. rewrite Hm. reflexivity. }
  cbn [for_of]. unfold turn at 1 3. cbn [fst snd]. rewrite Hget.
  run. rewrite Hsent, Hres, Hafter. run. cbn [List.app].
  apply IH. intros name' items' Hin. apply Hall. now right.
Qed.

End Turn.

(** A change of the checklists of a card only. *)
Definition OnlyLists (G : Card.t -> Card.t) : Prop :=
  forall y, G y = y \/ exists L, G y = Service.set_checklists y L.

Lemma OnlyLists_id (G : Card.t -> Card.t) y :
  OnlyLists G -> Card.id (G y) = Card.id y.
Proof. intros H. destruct (H y) as [->|[L ->]]; reflexivity. Qed.

Lemma OnlyLists_put (x : Checklist.t) : OnlyLists (put_list x).
Proof. intros y. right. eexists. reflexivity. Qed.

Lemma OnlyLists_then (G G' : Card.t -> Card.t) :
  OnlyLists G -> OnlyLists G' -> OnlyLists (fun y => G' (G y)).
Proof.
  intros H H' y. destruct (H y) as [->|[L ->]]; [apply H'|].
  destruct (H' (Service.set_checklists y L)) as [->|[L' ->]]; right;
    eexists; reflexivity.
Qed.

Section Loop.

(** The card of the loop and its checklists at the start. *)
Variable cid : str.
Variable L0 : list Checklist.t.
Variable checklists : JsMap.t Checklist.t.

Hypothesis read : forall name, JsMap.get checklists name = named L0 name.
Hypothesis items0 :
  forall k, In k L0 -> NoDup (List.map CheckItem.id (Checklist.checkItems k)).

Local Abbreviation turn := (turn Service.send checklists cid).

(** One turn of the loop, on the board. *)
Lemma turn_after (b : Service.board) c changed entry :
  Tidy b -> In c (Service.cards b) -> Card.id c = cid ->
  named (lists_of c) (fst entry) = named L0 (fst entry) ->
  NoDup (JsMap.keys (snd entry)) -> Linked (snd entry) ->
  let r := turn changed entry b in
  exists changed' G n' k',
    result r = Some changed'
    /\ after r
       = Service.with_cards b (Service.on_card cid G (Service.cards b)) n'
    /\ OnlyLists G
    /\ Service.next b <= n'
    /\ Tidy (after r)
    /\ Settled (snd entry) k'
    /\ forall name',
        named (lists_of (G c)) name'
        = if eqb (fst entry) name' then Some k' else named (lists_of c) name'.
Proof.
  destruct entry as [name items].
  intros HT Hc Hid Hname Hkeys HL r. cbn [fst snd] in Hname, Hkeys, HL.
  pose proof HT as [Hids [Hfresh [Hlists Hnew]]].
  pose proof (listIds_card (Service.cards b) c Hlists Hc) as HndL.
  subst cid. unfold r, ListsRun.turn. cbn [fst snd]. rewrite read.
  destruct (named L0 name) as [k|] eqn:Ek.
  - (* The card has a checklist of that name. *)
    destruct (named_In _ _ Hname) as [Hk Hkn].
    destruct (named_In _ _ Ek) as [Hk0 _].
    destruct (@updateChecklist_sent Service.board Service.send (Card.id c) k
                items b) as [_ [ch Hr]].
    set (k' := served (Service.next b) k items).
    set (n' := Service.next b
               + Z.of_nat (List.length
                             (JsMap.values
                                (missing items (Checklist.checkItems k))))).
    assert (Hafter :
              after (Topics.updateChecklist Service.send (Card.id c) k items b)
              = Service.with_cards b
                  (Service.on_card (Card.id c) (put_list k') (Service.cards b))
                  n').
    { rewrite faithful_updateChecklist, updateChecklist_requests.
      rewrite (@replay_aimed _ b c k Hids Hlists Hc Hk)
        by (rewrite List.forallb_app, changes_aimed, additions_aimed;
            reflexivity).
      rewrite serve_updates by now apply items0. reflexivity. }
    exists (if ch then true else changed), (put_list k'), n', k'.
    run. rewrite Hr. run. rewrite Hafter.
    split; [reflexivity|]. split; [reflexivity|].
    split; [apply OnlyLists_put|]. split; [unfold n'; lia|]. split; [|split].
    + apply Tidy_on_card; auto; [intros; apply ids_put_list | unfold n'; lia].
    + now apply served_Settled.
    + intros name'. rewrite lists_put.
      apply (@named_put (lists_of c) name k k' name' HndL Hname);
        reflexivity.
  - (* A new checklist. *)
    unfold Topics.addChecklist. run. cbn [Service.send].
    rewrite (OnBoard.has_card_In b c Hc). cbn [fst snd].
    set (kid := Service.fresh (Service.next b)).
    set (b1 := Service.with_cards b
                 (Service.on_card (Card.id c)
                    (Service.add_checklist kid name) (Service.cards b))
                 (Service.next b + 1)).
    set (c1 := Service.add_checklist kid name c).
    set (k0 := Checklist.Build_t kid name []).
    set (k' := Checklist.Build_t kid name
                 ([] ++ added (Service.next b + 1) (JsMap.values items))).
    set (n' := Service.next b + 1
               + Z.of_nat (List.length (JsMap.values items))).
    assert (HT1 : Tidy b1) by now apply Tidy_add.
    pose proof HT1 as [Hids1 [_ [Hlists1 _]]].
    assert (Hc1 : In c1 (Service.cards b1)).
    { unfold b1, Service.with_cards. cbn [Service.cards].
      now apply In_on_card. }
    assert (Hlists_c1 : lists_of c1 = lists_of c ++ [k0]) by reflexivity.
    assert (Hk0 : In k0 (lists_of c1)).
    { rewrite Hlists_c1. apply List.in_or_app. right. now left. }
    destruct (@addItems_sent Service.board Service.send kid
                (JsMap.values items) b1) as [_ Hres].
    assert (Hafter :
              after (for_of (JsMap.values items) tt
                       (fun _ item =>
                          Topics.addCheckItem Service.send kid item) b1)
              = Service.with_cards b1
                  (Service.on_card (Card.id c) (put_list k') (Service.cards b1))
                  n').
    { rewrite faithful_addItems, addItems_requests.
      rewrite (@replay_aimed _ b1 c1 k0 Hids1 Hlists1 Hc1 Hk0).
      2:{ apply (@additions_aimed (Card.id c1) kid items). }
      unfold k0.
      rewrite (@additions_served kid name (JsMap.values items) []
                 (Service.next b1)).
      reflexivity. }
    exists true, (fun y => put_list k' (Service.add_checklist kid name y)),
      n', k'.
    rewrite Hres. run. rewrite Hafter.
    split; [reflexivity|]. split.
    { unfold b1, Service.with_cards.
      cbn [Service.cards Service.labels Service.next]. f_equal.
      now rewrite OnCard.on_card_twice by reflexivity. }
    split.
    { intros y. right. eexists. reflexivity. }
    split; [unfold n'; lia|]. split; [|split].
    + apply Tidy_on_card; auto; [intros; apply ids_put_list|].
      unfold b1, Service.with_cards, n'. cbn [Service.next]. lia.
    + apply (@added_Settled kid name (Service.next b + 1) items Hkeys HL).
    + intros name'.
      pose proof (listIds_card (Service.cards b1) c1 Hlists1 Hc1) as HndL1.
      fold c1. rewrite lists_put.
      assert (Hn0 : named (lists_of c1) name = Some k0).
      { rewrite Hlists_c1, named_snoc. cbn [Checklist.name k0].
        now rewrite eqb_refl. }
      rewrite (@named_put (lists_of c1) name k0 k' name' HndL1 Hn0)
        by reflexivity.
      rewrite Hlists_c1, named_snoc. cbn [Checklist.name k0].
      now destruct (eqb name name').
Qed.

(** The card [c] of the board [b] after the entries [done]: the
    checklists of their names need no request, the checklists of the
    other names are as they were at the start. *)
Definition Before (done : list (str * JsMap.t Topics.Item.t))
    (b : Service.board) (c : Card.t) : Prop :=
  Tidy b /\ In c (Service.cards b) /\ Card.id c = cid
  /\ (forall name, ~ In name (List.map fst done) ->
                   named (lists_of c) name = named L0 name)
  /\ (forall name items, In (name, items) done ->
        exists k, named (lists_of c) name = Some k /\ Settled items k).

Lemma loop_after todo : forall done (b : Service.board) c changed,
  Before done b c ->
  NoDup (List.map fst todo) ->
  (forall name, In name (List.map fst todo) -> ~ In name (List.map fst done)) ->
  (forall name items, In (name, items) todo ->
     NoDup (JsMap.keys items) /\ Linked items) ->
  let r := for_of todo changed turn b in
  exists changed' G n',
    result r = Some changed'
    /\ after r
       = Service.with_cards b (Service.on_card cid G (Service.cards b)) n'
    /\ OnlyLists G
    /\ Service.next b <= n'
    /\ Before (done ++ todo) (after r) (G c).
Proof.
  induction todo as [|[name items] todo IH];
    intros done b c changed HB Hnd Hnew Hitems r.
  - exists changed, (fun y => y), (Service.next b). unfold r. cbn [for_of].
    run. rewrite OnCard.on_card_same, OnCard.with_cards_same, List.app_nil_r.
    split; [reflexivity|]. split; [reflexivity|].
    split; [intros y; now left|]. split; [lia | exact HB].
  - destruct HB as [HT [Hc [Hid [Hrest Hdone]]]].
    cbn [List.map fst] in Hnd. inversion Hnd as [|? ? Hnotin Hnd']; subst.
    assert (Hname : ~ In name (List.map fst done))
      by (apply Hnew; now left).
    destruct (Hitems name items) as [Hkeys HL]; [now left|].
    destruct (@turn_after b c changed (name, items) HT Hc Hid
                (Hrest name Hname) Hkeys HL)
      as [ch1 [G1 [n1 [k1 [Hr1 [Ha1 [HG1 [Hn1 [HT1 [Hs1 Hnamed1]]]]]]]]]].
    cbn [fst snd] in *.
    assert (HB1 : Before (done ++ [(name, items)])
                    (after (turn changed (name, items) b)) (G1 c)).
    { split; [exact HT1|]. split.
      { rewrite Ha1. unfold Service.with_cards. cbn [Service.cards].
        now apply In_on_card. }
      split; [now rewrite OnlyLists_id|]. split.
      - intros name' Hn'. rewrite List.map_app, List.in_app_iff in Hn'.
        cbn [List.map fst In] in Hn'. rewrite Hnamed1.
        destruct (eqb name name') eqn:E.
        + apply eqb_eq in E. tauto.
        + apply Hrest. tauto.
      - intros name' items' Hin. rewrite Hnamed1.
        apply List.in_app_or in Hin as [Hin|[Heq|[]]].
        + destruct (eqb name name') eqn:E; [|now apply Hdone].
          apply eqb_eq in E. subst name'. exfalso. apply Hname.
          apply List.in_map_iff. now exists (name, items').
        + injection Heq as <- <-. rewrite eqb_refl. now exists k1. }
    destruct (IH (done ++ [(name, items)])
                (after (turn changed (name, items) b)) (G1 c) ch1 HB1 Hnd')
      as [ch2 [G2 [n2 [Hr2 [Ha2 [HG2 [Hn2 HB2]]]]]]].
    { intros name' Hin Hd. rewrite List.map_app, List.in_app_iff in Hd.
      cbn [List.map fst In] in Hd. destruct Hd as [Hd|[<-|[]]].
      - apply (Hnew name'); [now right | exact Hd].
      - now apply Hnotin. }
    { intros name' items' Hin. apply (Hitems name' items'). now right. }
    exists ch2, (fun y => G2 (G1 y)), n2.
    unfold r. cbn [for_of]. run. rewrite Hr1.
    replace (done ++ (name, items) :: todo)
      with ((done ++ [(name, items)]) ++ todo)
      by now rewrite <- List.app_assoc.
    split; [exact Hr2|]. split.
    { rewrite Ha2, Ha1. unfold Service.with_cards.
      cbn [Service.cards Service.labels Service.next]. f_equal.
      apply OnCard.on_card_twice. intros y. now apply OnlyLists_id. }
    split; [now apply OnlyLists_then|]. split; [|exact HB2].
    rewrite Ha1 in Hn2. unfold Service.with_cards in Hn2.
    cbn [Service.next] in Hn2. lia.
Qed.

End Loop.

(** The board after [updateCardChecklists] for the card [c], whose
    checklists are read from [card]. *)
Lemma updateCardChecklists_after (b : Service.board) (c : Card.t)
    (cardChecklists : option (list Checklist.t)) topic :
  Tidy b -> In c (Service.cards b) ->
  lists_of c
  = match cardChecklists with Some l => l | None => [] end ->
  (forall k, In k (lists_of c) ->
             NoDup (List.map CheckItem.id (Checklist.checkItems k))) ->
  NoDup (JsMap.keys (Topics.Topic.checklists topic)) ->
  (forall name items, In (name, items) (Topics.Topic.checklists topic) ->
     NoDup (JsMap.keys items) /\ Linked items) ->
  let r := Topics.updateCardChecklists Service.send (Card.id c) cardChecklists
             topic b in
  exists changed G n',
    result r = Some changed
    /\ after r
       = Service.with_cards b
           (Service.on_card (Card.id c) G (Service.cards b)) n'
    /\ OnlyLists G
    /\ Service.next b <= n'
    /\ Tidy (after r)
    /\ forall name items, In (name, items) (Topics.Topic.checklists topic) ->
         exists k, named (lists_of (G c)) name = Some k /\ Settled items k.
Proof.
  intros HT Hc Hl Hitems Hnames Hlinked r.
  assert (Hread : forall name,
             JsMap.get (byName cardChecklists) name = named (lists_of c) name).
  { intros name. rewrite Hl. unfold byName.
    destruct cardChecklists as [l|]; [|reflexivity].
    rewrite get_byName. now destruct (named l name). }
  destruct (@loop_after (Card.id c) (lists_of c) (byName cardChecklists)
              Hread Hitems (Topics.Topic.checklists topic) [] b c false)
    as [changed [G [n' [Hr [Ha [HG [Hn HB]]]]]]].
  - split; [exact HT|]. split; [exact Hc|]. split; [reflexivity|].
    split; [reflexivity|]. intros name items [].
  - exact Hnames.
  - intros name _ [].
  - exact Hlinked.
  - exists changed, G, n'. unfold r. rewrite updateCardChecklists_turns.
    destruct HB as [HT' [_ [_ [_ Hdone]]]]. cbn [List.app] in Hdone.
    split; [exact Hr|]. split; [exact Ha|]. split; [exact HG|].
    split; [exact Hn|]. split; [exact HT' | exact Hdone].
Qed.

End ListsRun.

(** ** Running the topics manager twice *)

Module TopicsTwice.
Import Js JsFacts JsMapFacts JsNumber Trello Async AsyncFacts LabelDiff
  CardUpdate Replay OnCard ChecklistDiff Lists ListsRun.

(** The card that [prepareCard] keeps is the card of the board, but for
    its description. *)
Lemma prepareCard_above (c : Card.t) :
  Topics.PCard.card (Topics.prepareCard c)
  = Sections.above c (Card.desc (Topics.PCard.card (Topics.prepareCard c))).
Proof.
  unfold Topics.prepareCard, Sections.above.
  repeat match goal with |- context [if ?x then _ else _] => destruct x end;
    destruct c; reflexivity.
Qed.

(** The sections read from a card depend on its description only. *)
Lemma prepareCard_sections (c c' : Card.t) :
  Card.desc c = Card.desc c' ->
  Topics.PCard.lastUpdate (Topics.prepareCard c)
  = Topics.PCard.lastUpdate (Topics.prepareCard c')
  /\ Topics.PCard.introduction (Topics.prepareCard c)
     = Topics.PCard.introduction (Topics.prepareCard c').
Proof.
  intros H. unfold Topics.prepareCard. rewrite H.
  repeat match goal with |- context [if ?x then _ else _] => destruct x end;
    split; reflexivity.
Qed.

Lemma write_field_lists c e :
  Card.checklists (Service.write_field c e) = Card.checklists c.
Proof.
  unfold Service.write_field. destruct (snd e); try reflexivity;
    repeat match goal with |- context [if ?x then _ else _] => destruct x end;
    reflexivity.
Qed.

Lemma write_lists data c :
  Card.checklists (Service.write data c) = Card.checklists c.
Proof.
  unfold Service.write. revert c. induction data as [|e data IH]; intros c;
    [reflexivity|]. simpl. now rewrite IH, write_field_lists.
Qed.

Lemma effects_lists boardLabels qs : forall c,
  Card.checklists (effects boardLabels qs c) = Card.checklists c.
Proof.
  unfold effects. induction qs as [|q qs IH]; intros c; [reflexivity|].
  cbn [List.fold_left]. rewrite IH. destruct q; cbn [effect]; try reflexivity.
  - apply write_lists.
  - now destruct (List.find _ _).
Qed.

Section Card.

Variable now : Z.
Variable Date_parse : str -> option Z.
Variable lists : JsMap.t BoardList.t.
Variable labels : JsMap.t Label.t.

Local Abbreviation getTopicLabels :=
  (Topics.getTopicLabels now Date_parse lists labels).

(** The position wanted for the card of a topic. *)
Definition position (topic : Topics.Topic.t) : Z :=
  Topics.maxIndex - Topics.Topic.id topic.

(** The description that the manager writes for [topic], under any text
    of the editors, reads back as the update date and the introduction of
    the topic. *)
Definition Readable (topic : Topics.Topic.t) : Prop :=
  forall c editor,
    Card.desc c
    = Topics.generateCardDescription editor (Topics.Topic.lastUpdate topic)
        (Topics.Topic.introduction topic) ->
    Topics.PCard.lastUpdate (Topics.prepareCard c)
    = Some (Topics.Topic.lastUpdate topic)
    /\ Topics.PCard.introduction (Topics.prepareCard c)
       = Some (Topics.Topic.introduction topic).

(** [this.lists.get(topic.status)], as [updateCard] reads it. *)
Definition listFor (c : Card.t) (list : BoardList.t) : option BoardList.t :=
  if Topics.managedList lists c then Some list else None.

(** The card needs no request: [updateCard] finds nothing to change. *)
Definition Quiet (topic : Topics.Topic.t) (c : Card.t) : Prop :=
  exists list wanted,
    JsMap.get lists (Topics.Topic.status topic) = Some list
    /\ getTopicLabels topic = Some wanted
    /\ requests (Card.id c) (JsMap.has labels) wanted (Card.labels c) = []
    /\ Topics.cardData lists (position topic) (Topics.prepareCard c) topic
         (listFor c list) = []
    /\ forall name items,
        In (name, items) (Topics.Topic.checklists topic) ->
        exists k, named (lists_of c) name = Some k /\ Settled items k.

Lemma managedList_above c editor :
  Topics.managedList lists (Sections.above c editor)
  = Topics.managedList lists c.
Proof. reflexivity. Qed.

Lemma statusList_prepared c topic list :
  JsMap.get lists (Topics.Topic.status topic) = Some list ->
  Topics.statusList lists (Topics.prepareCard c) topic
  = Some (listFor c list).
Proof.
  intros Hl. unfold Topics.statusList, listFor.
  rewrite prepareCard_above, managedList_above, Hl.
  now destruct (Topics.managedList lists c).
Qed.

Lemma getTopicLabels_some topic list :
  JsMap.get lists (Topics.Topic.status topic) = Some list ->
  exists wanted, getTopicLabels topic = Some wanted.
Proof. intros Hl. unfold Topics.getTopicLabels. rewrite Hl. eauto. Qed.

Lemma quiet_sent World (send : request -> World -> option str * World)
    topic (c : Card.t) (w : World) :
  Quiet topic c ->
  sent (Topics.updateCard now Date_parse lists labels send (position topic)
          (Topics.prepareCard c) topic w) = []
  /\ exists changed,
      result (Topics.updateCard now Date_parse lists labels send
                (position topic) (Topics.prepareCard c) topic w)
      = Some changed.
Proof.
  intros [list [wanted [Hl [Hw [Hreq [Hdata Hlists]]]]]].
  unfold Topics.updateCard. rewrite (statusList_prepared c topic Hl), Hdata.
  destruct (@ManagedLabels.topics_requests now Date_parse lists labels World
              send (Topics.prepareCard c) topic wanted w Hw)
    as [Hs [l Hr]].
  rewrite prepareCard_above in Hs. cbn [Sections.above Card.id Card.labels] in Hs.
  rewrite Hreq in Hs.
  rewrite sent_bind, result_bind, Hs, Hr. cbn [List.app].
  rewrite updateCardChecklists_turns.
  set (w' := after (Topics.updateCardLabels now Date_parse lists labels send
                      (Topics.prepareCard c) topic w)).
  destruct (@settled_turns World send
              (Card.id (Topics.PCard.card (Topics.prepareCard c)))
              (byName (Card.checklists
                         (Topics.PCard.card (Topics.prepareCard c))))
              (Topics.Topic.checklists topic) false w') as [Hs' Hr'].
  { intros name items Hin. destruct (Hlists name items Hin) as [k [Hk HS]].
    exists k. split; [|exact HS].
    rewrite prepareCard_above. cbn [Sections.above Card.checklists].
    now rewrite get_named. }
  rewrite sent_bind, result_bind, Hs', Hr'. cbn [JsMap.size List.length].
  change (0 <? 0)%nat with false. cbv iota. run.
  split; [reflexivity | eauto].
Qed.

(** *** The fields after the card update *)

Lemma write_topicData position card topic list (x : Card.t) :
  let x' :=
    Service.write (Topics.cardData lists position card topic list) x in
  let c := Topics.PCard.card card in
  Card.idList x'
  = match list with
    | Some list =>
        if Topics.managedList lists c
           && negb (eqb (Card.idList c) (BoardList.id list))
        then BoardList.id list else Card.idList x
    | None => Card.idList x
    end
  /\ Card.pos x'
     = (if Topics.managedList lists c
           && negb (round_toFixed (Card.pos c) =? position)
        then inject_Z position else Card.pos x)
  /\ Card.closed x' = (if Card.closed c then false else Card.closed x)
  /\ Card.name x'
     = (if negb (eqb (Card.name c) (Topics.Topic.title topic))
        then Topics.Topic.title topic else Card.name x)
  /\ Card.desc x'
     = (if Disasters.differs (Topics.Topic.introduction topic)
             (Topics.PCard.introduction card)
           || Disasters.differs (Topics.Topic.lastUpdate topic)
                (Topics.PCard.lastUpdate card)
        then Topics.generateCardDescription (Card.desc c)
               (Topics.Topic.lastUpdate topic)
               (Topics.Topic.introduction topic)
        else Card.desc x).
Proof.
  cbv zeta. unfold Topics.cardData. destruct list as [list|];
    repeat match goal with |- context [if ?c then _ else _] => destruct c end;
    repeat split.
Qed.

(** A card whose fields are those of the topic needs no update. *)
Lemma fields_quiet topic list (c : Card.t) :
  JsMap.get lists (Topics.Topic.status topic) = Some list ->
  (Topics.managedList lists c = true ->
   Card.idList c = BoardList.id list
   /\ round_toFixed (Card.pos c) = position topic) ->
  Card.closed c = false ->
  Card.name c = Topics.Topic.title topic ->
  Disasters.differs (Topics.Topic.introduction topic)
    (Topics.PCard.introduction (Topics.prepareCard c)) = false ->
  Disasters.differs (Topics.Topic.lastUpdate topic)
    (Topics.PCard.lastUpdate (Topics.prepareCard c)) = false ->
  Topics.cardData lists (position topic) (Topics.prepareCard c) topic
    (listFor c list) = [].
Proof.
  intros Hl Hmanaged Hclosed Hname Hintro Hdate.
  unfold Topics.cardData, listFor. rewrite Hintro, Hdate.
  rewrite prepareCard_above, managedList_above.
  cbn [Sections.above Card.idList Card.pos Card.closed Card.name].
  rewrite Hclosed, Hname, eqb_refl.
  destruct (Topics.managedList lists c); [|reflexivity].
  destruct Hmanaged as [Hi Hp]; [reflexivity|].
  now rewrite Hi, Hp, eqb_refl, Z.eqb_refl.
Qed.

End Card.

Lemma OnlyLists_fields (G : Card.t -> Card.t) y :
  OnlyLists G ->
  Card.name (G y) = Card.name y
  /\ Card.labels (G y) = Card.labels y
  /\ Card.idList (G y) = Card.idList y
  /\ Card.desc (G y) = Card.desc y
  /\ Card.closed (G y) = Card.closed y
  /\ Card.pos (G y) = Card.pos y
  /\ Card.attachments (G y) = Card.attachments y.
Proof. intros H. destruct (H y) as [->|[L ->]]; repeat split. Qed.

Lemma managedList_idList lists (c c' : Card.t) :
  Card.idList c = Card.idList c' ->
  Topics.managedList lists c = Topics.managedList lists c'.
Proof. intros H. unfold Topics.managedList. now rewrite H. Qed.

Lemma managedList_In lists key (list : BoardList.t) (c : Card.t) :
  JsMap.get lists key = Some list ->
  Card.idList c = BoardList.id list ->
  Topics.managedList lists c = true.
Proof.
  intros Hl Hid. unfold Topics.managedList. apply List.existsb_exists.
  exists list. split; [|rewrite Hid; apply eqb_refl].
  apply get_In in Hl. unfold JsMap.values. apply List.in_map_iff.
  now exists (key, list).
Qed.

Lemma listIds_app (cs cs' : list Card.t) :
  listIds (cs ++ cs') = listIds cs ++ listIds cs'.
Proof. unfold listIds. apply List.flat_map_app. Qed.

(** *** The board after one turn of the loop *)

Section Board.

Variable now : Z.
Variable Date_parse : str -> option Z.
Variable lists : JsMap.t BoardList.t.
Variable labels : JsMap.t Label.t.

(** The board at the start of the run. *)
Variable board : Service.board.

Local Abbreviation card_of := (Filed.card_of Topics.urlPattern).
Local Abbreviation Quiet := (Quiet now Date_parse lists labels).
Local Abbreviation getTopicLabels :=
  (Topics.getTopicLabels now Date_parse lists labels).
Local Abbreviation updateCard :=
  (Topics.updateCard now Date_parse lists labels Service.send).
Local Abbreviation createCard :=
  (Topics.createCard now Date_parse lists labels Service.send).

Definition urls (topics : list Topics.Topic.t) : list str :=
  List.map Topics.Topic.url topics.

(** What the run needs of a topic: a URL that the manager recognises, a
    list for its status, sections that read back from the description
    they are written into, and checklists of distinct names whose items
    have distinct URLs and names that read back as their title and
    URL. *)
Definition Ready (topic : Topics.Topic.t) : Prop :=
  Topics.urlPattern (Topics.Topic.url topic) = true
  /\ (exists list, JsMap.get lists (Topics.Topic.status topic) = Some list)
  /\ Readable topic
  /\ NoDup (JsMap.keys (Topics.Topic.checklists topic))
  /\ forall name items,
      In (name, items) (Topics.Topic.checklists topic) ->
      NoDup (JsMap.keys items) /\ Linked items.

(** What the run needs of the board. *)
Definition WellFormed : Prop :=
  Tidy board
  /\ (forall c, In c (Service.cards board) ->
                NoDup (List.map Label.id (Card.labels c)))
  /\ (forall c k, In c (Service.cards board) -> In k (lists_of c) ->
                  NoDup (List.map CheckItem.id (Checklist.checkItems k)))
  /\ NewLabels.Consistent labels (Service.labels board)
  /\ NewLabels.Joinable (Service.labels board).

Hypothesis wellFormed : WellFormed.

Lemma faithful_updateCardLabels card topic :
  faithful Service.send
    (Topics.updateCardLabels now Date_parse lists labels Service.send card
       topic).
Proof. unfold Topics.updateCardLabels. faithful. Qed.

(** The board after [updateCard] on a card of the board. *)
Lemma updateCard_board (b : Service.board) c topic :
  Service.labels b = Service.labels board ->
  Tidy b ->
  In c (Service.cards b) ->
  In c (Service.cards board) ->
  Ready topic ->
  let r := updateCard (position topic) (Topics.prepareCard c) topic b in
  exists changed F n',
    result r = Some changed
    /\ after r
       = Service.with_cards b
           (Service.on_card (Card.id c) F (Service.cards b)) n'
    /\ (forall y, Card.id (F y) = Card.id y)
    /\ (forall y, Card.attachments (F y) = Card.attachments y)
    /\ Tidy (after r)
    /\ Quiet topic (F c).
Proof.
  intros Hlab HT Hc Hc0 [Hurl [[list Hl] [Hread [Hnames Hlinked]]]] r.
  destruct wellFormed as [_ [Hlabels [Hitems [Hcons Hjoin]]]].
  destruct (@getTopicLabels_some now Date_parse lists labels topic list Hl)
    as [wanted Hw].
  set (pc := Topics.prepareCard c).
  assert (Hpc : Topics.PCard.card pc
                = Sections.above c (Card.desc (Topics.PCard.card pc)))
    by apply prepareCard_above.
  assert (Hpc_id : Card.id (Topics.PCard.card pc) = Card.id c)
    by now rewrite Hpc.
  assert (Hpc_labels : Card.labels (Topics.PCard.card pc) = Card.labels c)
    by now rewrite Hpc.
  assert (Hpc_lists : Card.checklists (Topics.PCard.card pc)
                      = Card.checklists c)
    by now rewrite Hpc.
  set (W := requests (Card.id c) (JsMap.has labels) wanted (Card.labels c)).
  set (F1 := effects (Service.labels b) W).
  set (b1 := Service.with_cards b
               (Service.on_card (Card.id c) F1 (Service.cards b))
               (Service.next b)).
  set (data := Topics.cardData lists (position topic) pc topic
                 (listFor lists c list)).
  (* The labels. *)
  destruct (@ManagedLabels.topics_requests now Date_parse lists labels
              Service.board Service.send pc topic wanted b Hw)
    as [Hs1 [l Hr1]].
  rewrite Hpc_id, Hpc_labels in Hs1. fold W in Hs1.
  assert (Ha1 : after (Topics.updateCardLabels now Date_parse lists labels
                         Service.send pc topic b) = b1).
  { rewrite faithful_updateCardLabels, Hs1.
    apply replay_on_card; [apply OnBoard.requests_target|].
    now apply OnBoard.has_card_In. }
  assert (HF1 : F1 c
                = Service.set_labels c
                    (Guarded.relabelled (JsMap.has labels) wanted
                       (Card.labels c))).
  { unfold F1, W. apply Guarded.effects_requests; [now apply Hlabels|].
    rewrite Hlab.
    apply (@Guarded.All_getTopicLabels labels
             (NewLabels.known (Service.labels board))
             (Guarded.known_keyed Hcons) (Guarded.known_named Hcons)
             now Date_parse lists topic wanted Hw). }
  assert (HF1_lists : forall y, lists_of (F1 y) = lists_of y)
    by (intros y; unfold lists_of, F1; now rewrite effects_lists).
  assert (HT1 : Tidy b1).
  { apply Tidy_on_card; auto; [intros; apply effects_id | | lia].
    intros y. now rewrite HF1_lists. }
  assert (Hc1 : In (F1 c) (Service.cards b1)).
  { unfold b1, Service.with_cards. cbn [Service.cards].
    now apply In_on_card. }
  assert (Hid1 : Card.id (F1 c) = Card.id c) by apply effects_id.
  (* The checklists. *)
  destruct (@updateCardChecklists_after b1 (F1 c)
              (Card.checklists (Topics.PCard.card pc)) topic HT1 Hc1)
    as [k [G [n2 [Hr2 [Ha2 [HG [Hn2 [HT2 Hsettled]]]]]]]].
  { rewrite HF1_lists, Hpc_lists. reflexivity. }
  { intros x Hx. rewrite HF1_lists in Hx. now apply (Hitems c). }
  { exact Hnames. }
  { exact Hlinked. }
  rewrite Hid1 in Hr2, Ha2, HT2.
  set (b2 := after (Topics.updateCardChecklists Service.send (Card.id c)
                      (Card.checklists (Topics.PCard.card pc)) topic b1))
    in *.
  assert (Hc2 : In (G (F1 c)) (Service.cards b2)).
  { rewrite Ha2. unfold Service.with_cards. cbn [Service.cards].
    now apply In_on_card. }
  assert (Hid2 : Card.id (G (F1 c)) = Card.id c)
    by now rewrite OnlyLists_id.
  (* The fields. *)
  set (b3 := Service.with_cards b2
               (Service.on_card (Card.id c) (Service.write data)
                  (Service.cards b2))
               (Service.next b2)).
  assert (Hlast :
            forall changed,
              exists changed',
                result
                  ((if (0 <? JsMap.size data)%nat
                    then
                      bind (await Service.send (PUT_card (Card.id c) data))
                        (fun r => ret (Topics.succeeded r changed))
                    else ret changed) b2) = Some changed'
                /\ after
                     ((if (0 <? JsMap.size data)%nat
                       then
                         bind (await Service.send (PUT_card (Card.id c) data))
                           (fun r => ret (Topics.succeeded r changed))
                       else ret changed) b2) = b3).
  { intros changed. unfold b3.
    destruct data as [|e data'] eqn:Ed.
    - exists changed. cbn [JsMap.size List.length]. change (0 <? 0)%nat with false.
      cbv iota. run. split; [reflexivity|].
      unfold Service.write. cbn [List.fold_left].
      now rewrite on_card_same, with_cards_same.
    - change (0 <? JsMap.size (e :: data'))%nat with true. cbv iota.
      eexists. run. cbn [Service.send].
      assert (Hhas : Service.has_card b2 (Card.id c) = true)
        by (rewrite <- Hid2; now apply OnBoard.has_card_In).
      rewrite Hhas. cbn [fst snd]. split; reflexivity. }
  destruct (Hlast (if k then true else if l then true else false))
    as [changed [Hr3 Ha3]].
  exists changed, (fun y => Service.write data (G (F1 y))), (Service.next b2).
  assert (Hrun : result r = Some changed /\ after r = b3).
  { unfold r, Topics.updateCard.
    rewrite (statusList_prepared lists c topic Hl). fold pc. fold data.
    rewrite Hpc_id.
    rewrite result_bind, after_bind, Hr1, Ha1.
    rewrite result_bind, after_bind, Hr2. fold b2.
    split; [exact Hr3 | exact Ha3]. }
  destruct Hrun as [Hres Hafter].
  split; [exact Hres|]. split.
  { rewrite Hafter. unfold b3. rewrite Ha2. unfold b1, Service.with_cards.
    cbn [Service.cards Service.labels Service.next]. f_equal.
    rewrite (@on_card_twice (Card.id c) F1 G (Service.cards b))
      by (intros y; apply effects_id).
    rewrite (@on_card_twice (Card.id c) (fun y => G (F1 y))
               (Service.write data) (Service.cards b))
      by (intros y; rewrite OnlyLists_id by exact HG; apply effects_id).
    reflexivity. }
  split.
  { intros y. rewrite write_id, OnlyLists_id by exact HG. apply effects_id. }
  split.
  { intros y. rewrite write_attachments.
    destruct (OnlyLists_fields (F1 y) HG) as [_ [_ [_ [_ [_ [_ Hatt]]]]]].
    rewrite Hatt. apply effects_attachments. }
  split.
  { rewrite Hafter. unfold b3.
    apply Tidy_on_card;
      [intros; apply write_id
      | intros y; unfold lists_of; now rewrite write_lists
      | lia | exact HT2]. }
  (* The card needs no request. *)
  set (x := G (F1 c)).
  destruct (OnlyLists_fields (F1 c) HG)
    as [Hname [Hlabs [HidList [Hdesc [Hclosed [Hpos _]]]]]].
  fold x in Hname, Hlabs, HidList, Hdesc, Hclosed, Hpos.
  rewrite HF1 in Hname, Hlabs, HidList, Hdesc, Hclosed, Hpos.
  cbn [Service.set_labels Card.name Card.labels Card.idList Card.desc
         Card.closed Card.pos] in Hname, Hlabs, HidList, Hdesc, Hclosed, Hpos.
  destruct (write_topicData lists (position topic) pc topic
              (listFor lists c list) x)
    as [WidList [Wpos [Wclosed [Wname Wdesc]]]].
  fold data in WidList, Wpos, Wclosed, Wname, Wdesc.
  rewrite Hpc in WidList, Wpos, Wclosed, Wname.
  rewrite managedList_above in WidList, Wpos.
  cbn [Sections.above Card.idList Card.pos Card.closed Card.name]
    in WidList, Wpos, Wclosed, Wname.
  rewrite HidList in WidList. rewrite Hpos in Wpos.
  rewrite Hclosed in Wclosed. rewrite Hname in Wname. rewrite Hdesc in Wdesc.
  set (c' := Service.write data x) in *.
  assert (Hmanaged : Topics.managedList lists c' = Topics.managedList lists c).
  { unfold listFor in WidList.
    destruct (Topics.managedList lists c) eqn:Em; cbn [andb] in WidList.
    - apply (@managedList_In lists (Topics.Topic.status topic) list c' Hl).
      rewrite WidList.
      destruct (eqb (Card.idList c) (BoardList.id list)) eqn:E;
        [now apply eqb_eq in E | reflexivity].
    - rewrite <- Em. now apply managedList_idList. }
  exists list, wanted. split; [exact Hl|]. split; [exact Hw|]. split; [|split].
  - unfold c'. rewrite write_labels, write_id. fold x. rewrite Hlabs.
    apply Guarded.relabelled_quiet.
  - apply fields_quiet; [exact Hl | | | |  |].
    + rewrite Hmanaged. intros Em. unfold listFor in WidList.
      rewrite Em in WidList, Wpos. cbn [andb] in WidList, Wpos. split.
      * rewrite WidList.
        destruct (eqb (Card.idList c) (BoardList.id list)) eqn:E;
          [now apply eqb_eq in E | reflexivity].
      * rewrite Wpos.
        destruct (round_toFixed (Card.pos c) =? position topic) eqn:E;
          [now apply Z.eqb_eq in E | apply Settle.round_inject].
    + rewrite Wclosed. now destruct (Card.closed c).
    + rewrite Wname.
      destruct (eqb (Card.name c) (Topics.Topic.title topic)) eqn:E;
        [now apply eqb_eq in E | reflexivity].
    + destruct (Disasters.differs (Topics.Topic.introduction topic)
                  (Topics.PCard.introduction pc)
                || Disasters.differs (Topics.Topic.lastUpdate topic)
                     (Topics.PCard.lastUpdate pc)) eqn:Ed.
      * destruct (Hread c' _ Wdesc) as [_ Hi]. rewrite Hi.
        apply Timestamp.differs_same.
      * apply orb_false_elim in Ed as [Ei _].
        destruct (prepareCard_sections c' c Wdesc) as [_ Hi].
        fold pc in Hi. now rewrite Hi.
    + destruct (Disasters.differs (Topics.Topic.introduction topic)
                  (Topics.PCard.introduction pc)
                || Disasters.differs (Topics.Topic.lastUpdate topic)
                     (Topics.PCard.lastUpdate pc)) eqn:Ed.
      * destruct (Hread c' _ Wdesc) as [Hu _]. rewrite Hu.
        apply Timestamp.differs_same.
      * apply orb_false_elim in Ed as [_ Eu].
        destruct (prepareCard_sections c' c Wdesc) as [Hu _].
        fold pc in Hu. now rewrite Hu.
  - intros name items Hin. unfold c', lists_of. rewrite write_lists.
    apply (Hsettled name items Hin).
Qed.

(** The body of [POST /cards] for a topic. *)
Definition newData (topic : Topics.Topic.t) (boardList : BoardList.t)
    (wanted : JsMap.t str) : NewCard.t :=
  {| NewCard.idList := BoardList.id boardList;
     NewCard.urlSource := [];
     NewCard.name := Topics.Topic.title topic;
     NewCard.desc :=
       Topics.generateCardDescription [] (Topics.Topic.lastUpdate topic)
         (Topics.Topic.introduction topic);
     NewCard.pos := position topic;
     NewCard.idLabels := join (lit ",") (JsMap.values wanted) |}.

(** The card of a new topic once its URL is attached. *)
Definition newCard (b : Service.board) (topic : Topics.Topic.t)
    (boardList : BoardList.t) (wanted : JsMap.t str) : Card.t :=
  Service.attach (Topics.Topic.url topic)
    (Service.created b (Service.fresh (Service.next b))
       (newData topic boardList wanted)).

(** The board after [createCard]. *)
Lemma createCard_board (b : Service.board) topic :
  Service.labels b = Service.labels board ->
  Tidy b ->
  Ready topic ->
  let r := createCard (position topic) topic b in
  exists c' n',
    result r = Some tt
    /\ after r = Service.with_cards b (Service.cards b ++ [c']) n'
    /\ Card.attachments c' = Some [Topics.Topic.url topic]
    /\ Tidy (after r)
    /\ Quiet topic c'.
Proof.
  intros Hlab HT [Hurl [[list Hl] [Hread [Hnames Hlinked]]]] r.
  destruct wellFormed as [_ [_ [_ [Hcons Hjoin]]]].
  pose proof HT as [Hids [Hfresh [Hlists Hnew]]].
  destruct (@getTopicLabels_some now Date_parse lists labels topic list Hl)
    as [wanted Hw].
  set (id := Service.fresh (Service.next b)).
  set (c0 := newCard b topic list wanted).
  set (b1 := Service.with_cards b
               (Service.cards b
                ++ [Service.created b id (newData topic list wanted)])
               (Service.next b + 1)).
  set (b2 := Service.with_cards b (Service.cards b ++ [c0])
               (Service.next b + 1 + 1)).
  assert (Hhas : Service.has_card b1 id = true).
  { unfold Service.has_card, b1, Service.with_cards. cbn [Service.cards].
    rewrite List.existsb_app. cbn [List.existsb Service.created Card.id].
    rewrite eqb_refl. now rewrite orb_true_r. }
  assert (Hb2 : snd (Service.send
                       (POST_card_attachments id (Topics.Topic.url topic)) b1)
                = b2).
  { cbn [Service.send]. rewrite Hhas. cbn [snd].
    unfold b1, b2, Service.with_cards.
    cbn [Service.cards Service.labels Service.next]. f_equal.
    unfold Service.on_card. rewrite List.map_app.
    fold (Service.on_card id (Service.attach (Topics.Topic.url topic))
            (Service.cards b)).
    rewrite OnBoard.on_card_absent by now apply OnBoard.Fresh_absent.
    cbn [List.map Service.created Card.id]. now rewrite eqb_refl. }
  assert (Hid0 : Card.id c0 = id) by reflexivity.
  assert (HT2 : Tidy b2).
  { unfold Tidy, OnBoard.Fresh, b2, Service.with_cards.
    cbn [Service.cards Service.next].
    rewrite List.map_app, listIds_app. cbn [List.map]. rewrite Hid0.
    assert (Hl0 : listIds [c0] = []) by reflexivity.
    rewrite Hl0, List.app_nil_r.
    split; [|split; [|split]].
    - apply List.NoDup_app; [exact Hids | constructor; [tauto | constructor] |].
      intros x Hx [<-|[]]. now apply (OnBoard.Fresh_absent Hfresh).
    - intros i n Hin Hn. apply List.in_app_or in Hin as [Hin|[<-|[]]].
      + apply (Hfresh i n Hin). lia.
      + intros Heq. apply NewLabels.fresh_inj in Heq. lia.
    - exact Hlists.
    - intros i n Hin Hn. apply Hnew; [exact Hin | lia]. }
  assert (Hc0 : In c0 (Service.cards b2)).
  { unfold b2, Service.with_cards. cbn [Service.cards].
    apply List.in_or_app. right. now left. }
  destruct (@updateCardChecklists_after b2 c0 None topic HT2 Hc0)
    as [k [G [n3 [Hr3 [Ha3 [HG [Hn3 [HT3 Hsettled]]]]]]]].
  { reflexivity. }
  { intros x []. }
  { exact Hnames. }
  { exact Hlinked. }
  rewrite Hid0 in Hr3, Ha3, HT3.
  destruct (OnlyLists_fields c0 HG)
    as [Hname [Hlabs [HidList [Hdesc [Hclosed [Hpos Hatt]]]]]].
  exists (G c0), n3.
  assert (Hrun : result r = Some tt
                 /\ after r
                    = after (Topics.updateCardChecklists Service.send id None
                               topic b2)).
  { unfold r, Topics.createCard. rewrite Hl, Hw.
    fold (position topic). fold (newData topic list wanted).
    rewrite result_bind, after_bind, result_await, after_await.
    cbn [Service.send fst snd]. fold id. fold b1.
    rewrite result_bind, after_bind, result_await, after_await, Hb2.
    rewrite result_bind, after_bind, Hr3. run. split; reflexivity. }
  destruct Hrun as [Hres Hafter].
  split; [exact Hres|]. split.
  { rewrite Hafter, Ha3. unfold b2, Service.with_cards.
    cbn [Service.cards Service.labels Service.next]. f_equal.
    unfold Service.on_card. rewrite List.map_app.
    fold (Service.on_card id G (Service.cards b)).
    rewrite OnBoard.on_card_absent by now apply OnBoard.Fresh_absent.
    cbn [List.map]. now rewrite Hid0, eqb_refl. }
  split; [rewrite Hatt; reflexivity|].
  split; [rewrite Hafter; exact HT3|].
  (* The new card needs no request. *)
  assert (Hread0 := Hread (G c0) []).
  destruct Hread0 as [Hu Hi]; [rewrite Hdesc; reflexivity|].
  exists list, wanted. split; [exact Hl|]. split; [exact Hw|]. split; [|split].
  - rewrite Hlabs.
    assert (Hcreated : Card.labels c0 = List.map Relabel.label_of wanted).
    { unfold c0, newCard, Service.attach, Service.set_attachments,
        Service.created, newData, Service.find_label.
      cbn [Card.labels NewCard.idLabels]. rewrite Hlab.
      apply (NewLabels.created_labels Hjoin).
      apply (@Guarded.All_getTopicLabels labels
               (NewLabels.known (Service.labels board))
               (Guarded.known_keyed Hcons) (Guarded.known_named Hcons)
               now Date_parse lists topic wanted Hw). }
    rewrite Hcreated. unfold requests.
    destruct (Guarded.removed_added (JsMap.has labels) wanted) as [Hr Hm].
    now rewrite Hr, Hm.
  - apply fields_quiet; [exact Hl | | | | |].
    + intros _. rewrite HidList, Hpos. split; [reflexivity|].
      apply Settle.round_inject.
    + rewrite Hclosed. reflexivity.
    + rewrite Hname. reflexivity.
    + rewrite Hi. apply Timestamp.differs_same.
    + rewrite Hu. apply Timestamp.differs_same.
  - exact Hsettled.
Qed.

(** *** The board after the first run *)

(** The board [b] after the topics [done]: their cards need no request,
    the cards of the other URLs are as they were. *)
Definition Inv (done : list Topics.Topic.t) (b : Service.board) : Prop :=
  Service.labels b = Service.labels board
  /\ Tidy b
  /\ (forall t, In t done ->
                exists c,
                  card_of (Service.cards b) (Topics.Topic.url t) = Some c
                  /\ Quiet t c)
  /\ (forall u, ~ In u (urls done) ->
                card_of (Service.cards b) u = card_of (Service.cards board) u).

Lemma Inv_first : Inv [] board.
Proof.
  destruct wellFormed as [HT _]. split; [reflexivity|]. split; [exact HT|].
  split; [intros t [] | reflexivity].
Qed.

Lemma In_urls_snoc done (t : Topics.Topic.t) u :
  In u (urls (done ++ [t])) <-> In u (urls done) \/ u = Topics.Topic.url t.
Proof.
  unfold urls. rewrite List.map_app, List.in_app_iff. simpl. intuition auto.
Qed.

(** One turn of the loop of [updateBoard]. *)
Lemma turn_inv done (b : Service.board) t updated :
  Inv done b ->
  Ready t ->
  ~ In (Topics.Topic.url t) (urls done) ->
  let r :=
    Topics.updateOrCreateOne now Date_parse lists labels Service.send
      (Topics.existingCards (Service.cards board)) updated t b in
  (exists n, result r = Some n) /\ Inv (done ++ [t]) (after r).
Proof.
  intros [Hlab [HT [Hdone Hrest]]] Hready Hu r.
  pose proof HT as [Hids _].
  unfold r, Topics.updateOrCreateOne. rewrite Filed.get_topics.
  fold (position t).
  destruct (card_of (Service.cards board) (Topics.Topic.url t)) as [c|] eqn:Ec;
    cbn [option_map].
  - (* The topic has a card. *)
    assert (Hb : card_of (Service.cards b) (Topics.Topic.url t) = Some c)
      by now rewrite Hrest.
    destruct (Filed.filed_In _ _ _ Hb) as [Hin _].
    destruct (Filed.filed_In _ _ _ Ec) as [Hin0 _].
    destruct (@updateCard_board b c t Hlab HT Hin Hin0 Hready)
      as [changed [F [n' [Hr [Ha [Hid [Hatt [HT' HQ]]]]]]]].
    rewrite result_bind, after_bind, Hr. run. split; [eauto|].
    rewrite Ha.
    pose proof (fun u' =>
                  @Filed.filed_on_card Topics.urlPattern (Service.cards b)
                    (Topics.Topic.url t) c F u' Hids Hb Hatt) as Hcard.
    rewrite Ha in HT'.
    unfold Inv, Service.with_cards. cbn [Service.cards Service.labels].
    split; [exact Hlab|]. split; [exact HT'|]. split.
    + intros t' Ht'. rewrite Hcard.
      apply List.in_app_or in Ht' as [Ht'|[<-|[]]].
      * destruct (eqb (Topics.Topic.url t) (Topics.Topic.url t')) eqn:E;
          [|now apply Hdone].
        apply eqb_eq in E. exfalso. apply Hu. rewrite E. unfold urls.
        now apply List.in_map.
      * rewrite eqb_refl. now exists (F c).
    + intros u Hnot. rewrite In_urls_snoc in Hnot. rewrite Hcard.
      destruct (eqb (Topics.Topic.url t) u) eqn:E.
      * apply eqb_eq in E. exfalso. apply Hnot. now right.
      * apply Hrest. tauto.
  - (* The topic has no card. *)
    destruct (@createCard_board b t Hlab HT Hready)
      as [c' [n' [Hr [Ha [Hatt [HT' HQ]]]]]].
    rewrite result_bind, after_bind, Hr. run. split; [eauto|].
    rewrite Ha in HT'. rewrite Ha.
    assert (Hnew : forall u,
               Filed.is_card_of Topics.urlPattern u c'
               = eqb (Topics.Topic.url t) u).
    { intros u. unfold Filed.is_card_of, Filed.url_of. rewrite Hatt.
      cbn [List.find]. destruct Hready as [Hurl _]. now rewrite Hurl. }
    unfold Inv, Service.with_cards. cbn [Service.cards Service.labels].
    split; [exact Hlab|]. split; [exact HT'|]. split.
    + intros t' Ht'. rewrite Filed.filed_snoc, Hnew.
      apply List.in_app_or in Ht' as [Ht'|[<-|[]]].
      * destruct (eqb (Topics.Topic.url t) (Topics.Topic.url t')) eqn:E;
          [|now apply Hdone].
        apply eqb_eq in E. exfalso. apply Hu. rewrite E. unfold urls.
        now apply List.in_map.
      * rewrite eqb_refl. now exists c'.
    + intros u Hnot. rewrite In_urls_snoc in Hnot.
      rewrite Filed.filed_snoc, Hnew.
      destruct (eqb (Topics.Topic.url t) u) eqn:E.
      * apply eqb_eq in E. exfalso. apply Hnot. now right.
      * apply Hrest. tauto.
Qed.

(** The loop over the topics. *)
Lemma loop_keeps todo : forall done (b : Service.board) updated,
  Inv done b ->
  NoDup (urls todo) ->
  (forall u, In u (urls todo) -> ~ In u (urls done)) ->
  (forall t, In t todo -> Ready t) ->
  let r :=
    for_of todo updated
      (Topics.updateOrCreateOne now Date_parse lists labels Service.send
         (Topics.existingCards (Service.cards board))) b in
  (exists n, result r = Some n) /\ Inv (done ++ todo) (after r).
Proof.
  induction todo as [|t todo IH]; intros done b updated HInv Hnd Hnew Hready r.
  - unfold r. cbn [for_of]. run. rewrite List.app_nil_r. split; [eauto|].
    exact HInv.
  - cbn [urls List.map] in Hnd. inversion Hnd as [|? ? Hnotin Hnd']; subst.
    destruct (@turn_inv done b t updated HInv) as [[n Hr] HInv1].
    { apply Hready. now left. }
    { apply Hnew. now left. }
    unfold r. cbn [for_of]. rewrite result_bind, after_bind, Hr.
    replace (done ++ t :: todo) with ((done ++ [t]) ++ todo)
      by now rewrite <- List.app_assoc.
    apply IH; [exact HInv1 | exact Hnd' | |].
    + intros u Hu Hin. rewrite In_urls_snoc in Hin. destruct Hin as [Hin | ->].
      * apply (Hnew u); [now right | exact Hin].
      * now apply Hnotin.
    + intros t' Ht'. apply Hready. now right.
Qed.

(** The second run of the topics manager sends nothing. *)
Lemma second_run_sends_nothing topics World
    (send : request -> World -> option str * World) (w : World) :
  NoDup (urls topics) ->
  (forall t, In t topics -> Ready t) ->
  let first :=
    Topics.updateBoard now Date_parse lists labels Service.send
      (Service.cards board) topics board in
  result first <> None
  /\ sent (Topics.updateBoard now Date_parse lists labels send
             (Service.cards (after first)) topics w)
     = [].
Proof.
  intros Hnd Hready first.
  destruct (@loop_keeps topics [] board O Inv_first Hnd) as [[n Hr] HInv].
  { intros u _ []. }
  { exact Hready. }
  cbn [List.app] in HInv. fold (Topics.updateBoard now Date_parse lists labels
                                  Service.send (Service.cards board) topics board)
    in Hr, HInv.
  fold first in Hr, HInv. split; [rewrite Hr; discriminate|].
  destruct HInv as [_ [_ [Hdone _]]].
  unfold Topics.updateBoard.
  generalize O as updated. revert w.
  assert (Hall : forall t, In t topics ->
             exists c,
               JsMap.get (Topics.existingCards (Service.cards (after first)))
                 (Topics.Topic.url t) = Some (Topics.prepareCard c)
               /\ Quiet t c).
  { intros t Ht. destruct (Hdone t Ht) as [c [Hc HQ]]. exists c.
    split; [|exact HQ]. rewrite Filed.get_topics, Hc. reflexivity. }
  clear - Hall. revert Hall.
  generalize (Topics.existingCards (Service.cards (after first))) as cards.
  intros cards. induction topics as [|t topics IH]; intros Hall w updated;
    [reflexivity|].
  cbn [for_of]. unfold Topics.updateOrCreateOne at 1.
  destruct (Hall t) as [c [Hget HQ]]; [now left|].
  rewrite Hget. fold (position t).
  destruct (@quiet_sent now Date_parse lists labels World send t c w HQ)
    as [Hs [changed Hres]].
  run. rewrite Hs, Hres. run. cbn [List.app].
  apply IH. intros t' Ht'. apply Hall. now right.
Qed.

End Board.

End TopicsTwice.

(** ** Running a manager twice *)

Module Twice.
Import Js JsFacts JsMapFacts JsNumber Trello Async AsyncFacts.

(** C1, as amended.  For each of the three managers, with both runs at
    the same instant and for the same entities, the first run against a
    board service that serves each request on the card or the checklist
    it names: the second run, on the cards that the first run leaves,
    sends no request, whatever the remote side of the second run answers.
    This holds when the board is well formed (distinct ids of cards, of
    checklists and of the items of a checklist, none of them an id that
    the service has yet to give out, distinct label ids on each card, the
    labels of the manager being those of the board by name, with ids that
    can be joined by commas), the entities have distinct URLs and each of
    them is ready: a URL that the manager recognises and a list for its
    status (disasters and topics), sections that read back from the
    description they are written into, a card of a disaster that bears
    its name already, checklists of a topic that have distinct names and
    items of distinct URLs whose names read back as their title and URL,
    and a date of the run (and, for the card of a country whose
    description the run writes, a stored date) that calls for no label on
    the age of the profile.  The first run of the topics manager
    completes. *)
Theorem second_run_is_silent :
  (forall now Date_parse currentDate lists labels (board : Service.board)
          disasters World (send : request -> World -> option str * World)
          (w : World),
      OnBoard.WellFormed labels board ->
      Disasters.getProfileUpdateLabel now Date_parse labels (Some currentDate)
      = [] ->
      NoDup (ByUrl.urls disasters) ->
      (forall d, In d disasters -> OnBoard.Ready currentDate lists board d) ->
      let first :=
        Disasters.updateBoard now Date_parse currentDate lists labels
          Service.send (Service.cards board) disasters board in
      sent (Disasters.updateBoard now Date_parse currentDate lists labels
              send (Service.cards (after first)) disasters w)
      = [])
  /\ (forall now Date_parse lists labels (board : Service.board) topics
             World (send : request -> World -> option str * World)
             (w : World),
         TopicsTwice.WellFormed labels board ->
         NoDup (TopicsTwice.urls topics) ->
         (forall t, In t topics -> TopicsTwice.Ready lists t) ->
         let first :=
           Topics.updateBoard now Date_parse lists labels Service.send
             (Service.cards board) topics board in
         result first <> None
         /\ sent (Topics.updateBoard now Date_parse lists labels send
                    (Service.cards (after first)) topics w)
            = [])
  /\ (forall statuses now Date_parse currentDate labels
             (board : Service.board) countries World
             (send : request -> World -> option str * World) (w : World),
         CountriesTwice.WellFormed labels board ->
         Countries.getProfileUpdateLabel now Date_parse labels
           (Some (trim currentDate)) = [] ->
         NoDup (CountriesTwice.urls countries) ->
         (forall k, In k countries ->
                    CountriesTwice.Ready now Date_parse currentDate labels
                      board k) ->
         let first :=
           Countries.updateBoard statuses now Date_parse currentDate labels
             Service.send (Service.cards board) countries board in
         sent (Countries.updateBoard statuses now Date_parse currentDate
                 labels send (Service.cards (after first)) countries w)
         = []).
Proof.
  split; [|split].
  - intros now Date_parse currentDate lists labels board disasters World send
      w Hwf Htoday Hnd Hready.
    now apply Idempotence.disasters_second_run.
  - intros now Date_parse lists labels board topics World send w Hwf Hnd
      Hready.
    now apply TopicsTwice.second_run_sends_nothing.
  - intros statuses now Date_parse currentDate labels board countries World
      send w Hwf Htoday Hnd Hready.
    now apply CountriesTwice.second_run_is_quiet.
Qed.

(** *** An example for the topics manager *)

(** A topic that has a card, with two rivers. *)
Definition floods : Topics.Topic.t :=
  {| Topics.Topic.id := 100;
     Topics.Topic.url := lit "https://reliefweb.int/node/100";
     Topics.Topic.title := lit "Floods";
     Topics.Topic.date_changed := numeral Example.now;
     Topics.Topic.status := lit "ongoing";
     Topics.Topic.featured := false;
     Topics.Topic.introduction := lit "About floods.";
     Topics.Topic.disaster_type := Some [lit "Flood"];
     Topics.Topic.theme := None;
     Topics.Topic.statusPosition := 2;
     Topics.Topic.pos := None;
     Topics.Topic.lastUpdate := lit "10 Apr 1970 00:00:00 UTC";
     Topics.Topic.checklists :=
       [(lit "Rivers", ChecklistDiff.rivers); (lit "Sections", []);
        (lit "Resources", [])] |}.

(** A topic that has no card yet. *)
Definition droughts : Topics.Topic.t :=
  {| Topics.Topic.id := 200;
     Topics.Topic.url := lit "https://reliefweb.int/node/200";
     Topics.Topic.title := lit "Droughts";
     Topics.Topic.date_changed := numeral Example.now;
     Topics.Topic.status := lit "alert";
     Topics.Topic.featured := false;
     Topics.Topic.introduction := lit "About droughts.";
     Topics.Topic.disaster_type := None;
     Topics.Topic.theme := None;
     Topics.Topic.statusPosition := 1;
     Topics.Topic.pos := None;
     Topics.Topic.lastUpdate := lit "10 Apr 1970 00:00:00 UTC";
     Topics.Topic.checklists :=
       [(lit "Rivers", []); (lit "Sections", []);
        (lit "Resources", [(Topics.Item.url ChecklistDiff.maps,
                            ChecklistDiff.maps)])] |}.

(** The card of the first topic: archived, under an old name, with a
    note and a label of an editor, an old introduction and an old
    checklist of rivers. *)
Definition floodsCard : Card.t :=
  {| Card.id := lit "C1";
     Card.name := lit "Old name";
     Card.labels := [Example.custom; Example.chad];
     Card.idList := lit "L1";
     Card.desc :=
       Topics.generateCardDescription (lit "# Contact: the desk")
         (lit "1 Apr 1970 00:00:00 UTC") (lit "An old text.");
     Card.closed := true;
     Card.pos := 5 # 1;
     Card.attachments := Some [lit "https://reliefweb.int/node/100"];
     Card.checklists := Some [ChecklistDiff.checklist] |}.

Definition topicsBoard : Service.board :=
  {| Service.cards := [floodsCard];
     Service.labels := Guarded.boardLabels;
     Service.next := 0 |}.

Lemma topicsBoard_WellFormed :
  TopicsTwice.WellFormed Example.labels topicsBoard.
Proof.
  split; [|split; [|split; [|split]]].
  - split; [|split; [|split]].
    + repeat constructor; simpl; intuition discriminate.
    + intros id n [<-|[]] _; discriminate.
    + repeat constructor; simpl; intuition discriminate.
    + intros id n [<-|[]] _; discriminate.
  - intros c [<-|[]]; repeat constructor; simpl; intuition discriminate.
  - intros c k [<-|[]] [<-|[]]; repeat constructor; simpl;
      intuition discriminate.
  - exact Guarded.boardLabels_Consistent.
  - intros l [<-|[<-|[<-|[]]]]; split; try discriminate;
      simpl; unfold NewLabels.comma; intuition discriminate.
Qed.

Lemma topics_Readable (topic : Topics.Topic.t) :
  ~ In Sections.hash (Topics.Topic.lastUpdate topic) ->
  ~ In Sections.hash (Topics.Topic.introduction topic) ->
  TopicsTwice.Readable topic.
Proof.
  intros Hs Hi c editor Hdesc.
  rewrite (@Sections.topics_read c editor (Topics.Topic.lastUpdate topic)
             (Topics.Topic.introduction topic) Hs Hi Hdesc).
  split; reflexivity.
Qed.

Lemma topics_Ready t :
  In t [floods; droughts] -> TopicsTwice.Ready Example.lists t.
Proof.
  intros [<-|[<-|[]]].
  - split; [vm_compute; reflexivity|].
    split; [eexists; vm_compute; reflexivity|].
    split; [apply topics_Readable; Sections.no_hash|].
    split; [repeat constructor; simpl; intuition discriminate|].
    intros name items [H|[H|[H|[]]]]; injection H as <- <-.
    + split; [repeat constructor; simpl; intuition discriminate|].
      intros url item [H|[H|[]]]; injection H as <- <-;
        split; vm_compute; reflexivity.
    + split; [constructor | intros url item []].
    + split; [constructor | intros url item []].
  - split; [vm_compute; reflexivity|].
    split; [eexists; vm_compute; reflexivity|].
    split; [apply topics_Readable; Sections.no_hash|].
    split; [repeat constructor; simpl; intuition discriminate|].
    intros name items [H|[H|[H|[]]]]; injection H as <- <-.
    + split; [constructor | intros url item []].
    + split; [constructor | intros url item []].
    + split; [repeat constructor; simpl; intuition discriminate|].
      intros url item [H|[]]; injection H as <- <-;
        split; vm_compute; reflexivity.
Qed.

Lemma topics_urls : NoDup (TopicsTwice.urls [floods; droughts]).
Proof. repeat constructor; simpl; intuition discriminate. Qed.

Definition topics_first_run : outcome Service.board nat :=
  Topics.updateBoard Example.now Example.Date_parse Example.lists
    Example.labels Service.send (Service.cards topicsBoard)
    [floods; droughts] topicsBoard.

(** *** An example for the countries manager *)

(** The card of the country of the examples, with a profile that was
    written on the day of the run and has changed since. *)
Definition chadCard : Card.t :=
  {| Card.id := lit "C1";
     Card.name := lit "Chad";
     Card.labels := [];
     Card.idList := lit "L1";
     Card.desc :=
       Countries.profileUpdateHeader ++ numeral Example.now
       ++ Countries.profileHeader ++ lit "An old text.";
     Card.closed := false;
     Card.pos := 1 # 1;
     Card.attachments := Some [lit "http://reliefweb.int/taxonomy/term/100"];
     Card.checklists := None |}.

Definition countriesBoard : Service.board :=
  {| Service.cards := [chadCard];
     Service.labels := [Unsettled.aged];
     Service.next := 0 |}.

Lemma countriesBoard_WellFormed :
  CountriesTwice.WellFormed Unsettled.labels countriesBoard.
Proof.
  split; [|split].
  - repeat constructor; simpl; intuition discriminate.
  - intros c [<-|[]]. constructor.
  - intros key label H. apply get_In in H.
    destruct H as [H|[]]; injection H as <- <-; now split.
Qed.

Lemma countries_Ready k :
  In k [Example.country] ->
  CountriesTwice.Ready Example.now Example.Date_parse Example.currentDate
    Unsettled.labels countriesBoard k.
Proof.
  intros [<-|[]] c Hc. vm_compute in Hc. injection Hc as <-. split.
  - intros _ c Hdesc.
    rewrite (@Sections.countries_read c Example.currentDate
               (Countries.Country.description Example.country));
      [split; reflexivity | Sections.no_hash | Sections.no_hash | exact Hdesc].
  - intros _. vm_compute. reflexivity.
Qed.

Definition countries_first_run : outcome Service.board nat :=
  Countries.updateBoard [] Example.now Example.Date_parse Example.currentDate
    Unsettled.labels Service.send (Service.cards countriesBoard)
    [Example.country] countriesBoard.

(** On the boards of the examples the first run of each manager has
    work to do (the disasters manager updates a card, creates another
    and archives a third; the topics manager relabels a card, updates,
    deletes and adds an item of its checklist of rivers, adds two
    checklists, moves, unarchives and renames the card, writes its
    description under the note of the editor, and creates a card with
    its three checklists; the countries manager writes a description),
    and the second run sends nothing. *)
Lemma second_run_is_silent_witness :
  (sent Idempotence.first_run <> []
   /\ sent (Disasters.updateBoard Example.now Example.Date_parse
              Example.currentDate Example.lists Example.labels Service.send
              (Service.cards (after Idempotence.first_run))
              [Example.disaster; Idempotence.storm]
              (after Idempotence.first_run))
      = [])
  /\ (List.length (sent topics_first_run) = 15%nat
      /\ sent (Topics.updateBoard Example.now Example.Date_parse
                 Example.lists Example.labels Service.send
                 (Service.cards (after topics_first_run)) [floods; droughts]
                 (after topics_first_run))
         = [])
  /\ (sent countries_first_run
      = [PUT_card (lit "C1")
           [(lit "desc",
             VStr (Countries.generateCardDescription Example.currentDate
                     Example.country))]]
      /\ sent (Countries.updateBoard [] Example.now Example.Date_parse
                 Example.currentDate Unsettled.labels Service.send
                 (Service.cards (after countries_first_run))
                 [Example.country] (after countries_first_run))
         = []).
Proof.
  split; [|split].
  - split; [vm_compute; discriminate|].
    apply (proj1 second_run_is_silent Example.now Example.Date_parse
             Example.currentDate Example.lists Example.labels
             Idempotence.board [Example.disaster; Idempotence.storm]
             Service.board Service.send (after Idempotence.first_run)).
    + exact Idempotence.board_WellFormed.
    + vm_compute. reflexivity.
    + exact Idempotence.board_urls.
    + exact Idempotence.board_Ready.
  - split; [vm_compute; reflexivity|].
    apply (proj1 (proj2 second_run_is_silent) Example.now Example.Date_parse
             Example.lists Example.labels topicsBoard [floods; droughts]
             Service.board Service.send (after topics_first_run)).
    + exact topicsBoard_WellFormed.
    + exact topics_urls.
    + exact topics_Ready.
  - split; [vm_compute; reflexivity|].
    apply (proj2 (proj2 second_run_is_silent) [] Example.now
             Example.Date_parse Example.currentDate Unsettled.labels
             countriesBoard [Example.country] Service.board Service.send
             (after countries_first_run)).
    + exact countriesBoard_WellFormed.
    + vm_compute. reflexivity.
    + repeat constructor; simpl; intuition discriminate.
    + exact countries_Ready.
Defined.

End Twice.
